(* ===== verification/_CoqProject ===== *)
-Q . S2P
Prelude.v
Types.v
Messages.v
Heap.v
Queue.v
Retry.v
Env.v
Cluster.v
Election.v
Store.v
MemStore.v
Server.v
Cycle.v
Deps.v
Lifecycle.v
Dispatch.v
Jobs.v
Workers.v
Replication.v
Leadership.v
Handlers.v
Refinement.v
Rebuild.v
System.v
Leases.v
Ready.v
Agent.v
Delivery.v
Cascade.v
ReplLog.v
Convergence.v
Tracking.v
Progress.v
Liveness.v
Durable.v
Metrics.v
GoStrings.v
Ctl.v
Transport.v
Stubs.v
Flags.v
Cmd.v
Prog.v
Threads.v
Interleave.v
Races.v
AgentThreads.v
Anomalies.v
