(* ===== verification/Prelude.v ===== *)
(** * distsched: a verification development

    distsched is a distributed job scheduler in Go.  Scheduler nodes elect a
    leader by majority vote; the leader accepts jobs over RPC, keeps them in a
    BoltDB file, orders the ready ones in a priority queue, leases them to
    workers that poll, retries failures with backoff, and ships every change to
    its followers.  Workers run the jobs as subprocesses.  This library models
    the program in Rocq, definition by function, and proves what makes it
    correct.  Paths below are relative to [src/].

    ** How the code is modelled

    Go code becomes executable Rocq code.  Stateful code is a computation
    [M σ A := σ → A * σ] over an explicit state; errors are values of [option] or
    of a sum.  Machine integers are [Z] with their wrap-around written out
    ([int32], [int64], [saturate64]), [float64] is IEEE binary64, maps and sets
    are [gmap] and [gset], and pointers that are shared are addresses into a
    memory (Queue.v).  What the program does not determine comes from parameters:
    [Env] answers the n-th question of a run to the clock, the random generator,
    the UUID source or the iteration order of a map, [Cron] is the cron parser,
    [Bolt] and [Codec] are BoltDB and protobuf with the laws their documentation
    gives, [Rpc] and [Os] are what a worker meets, [Net] and [PeerNet] are the
    network of the clients and of the peers, [Grpc] routes a call to the handler
    registered under its full name, [Host] is the machine a process runs on.
    Theorems hold for every instance; their witnesses run on concrete ones
    ([sample_env], [mem_jobstore], [mem_bolt], [cluster_net], ...).

    ** Which file models what

    - Types.v, Messages.v: the protobuf messages and enums
      ([gen/go/distsched/v1]); Stubs.v: the generated client stubs, handlers and
      service descriptors ([*_grpc.pb.go]) and the calls made through them.
    - Heap.v, Queue.v: [container/heap] and [internal/queue/queue.go].
    - Retry.v: [internal/retry/retry.go], in floating point.
    - Env.v: the environment and [internal/ids/ids.go].
    - Cluster.v: one election node, [internal/cluster/cluster.go].  Election.v: a
      cluster of such nodes over a network that loses, delays, reorders and
      duplicates messages, with crashes and restarts.
    - Store.v: [internal/store/store.go] over BoltDB; the interface [JobStore]
      that the scheduler is written against, with the BoltDB store as instance,
      and [DurableStore] for a store on a device that does not fail, which
      Durable.v shows the BoltDB store to be there.  MemStore.v: stores in memory,
      working and failing, for concrete runs.
    - Server.v: the state of a scheduler node and the operations its handlers
      share ([internal/scheduler/server.go]); Cycle.v and Deps.v ([deps.go]);
      Dispatch.v ([dispatch.go]); Jobs.v ([job.go]); Workers.v ([worker.go],
      [recovery.go]); Replication.v ([cluster.go] and the replication half of
      [server.go]); Leadership.v (start, takeover, step-down, shutdown).
    - Lifecycle.v: the abstract specification of a stored job's life.
    - System.v: the node as a machine.  An [op] is an RPC, a timer, a background
      tick, an election, a callback of the election, a restart or a shutdown;
      [reachable] is what a node on an empty store gets to by any of them in any
      order.
    - Prog.v, Threads.v, Interleave.v: goroutines.  A [prog] is a sequence of
      sections, each under a lock of its own; Threads.v has every handler again
      as such a program, section by section as the code locks; Interleave.v has
      the node as a pool of them that interleave, and a cluster of such nodes
      between which shipments travel in any order and any number of times.
    - Transport.v: [peerTransport] in [cluster.go], and a campaign run over it.
    - Agent.v: the worker, [internal/worker]; AgentThreads.v: [Run] from its
      first [bootstrap] to the end of [drain], its main loop interleaved with the
      goroutines of the tasks; Delivery.v: a worker and the node that serves it,
      as one machine.
    - Metrics.v: the collector of [internal/metrics/metrics.go] and the paths of
      the endpoint.
    - Ctl.v: the client library [internal/ctl/ctl.go], run against a cluster of
      nodes; GoStrings.v and Flags.v: what the commands use of [strings],
      [strconv], [time] and [flag]; Cmd.v: the three programs under [cmd/].

    ** What is proved

    - The ready queue is a finite map whose [Pop] takes the first entry by
      priority, age and id, although heap and id map share mutable items.
    - At most one leader per term, over all time, and one vote per node and term,
      over the unreliable network, for stores that do not fail (Election.v);
      where saves fail, a restarted node votes twice (Cluster.v).  A candidate
      that reaches a majority of peers in earlier terms wins (Transport.v).
    - Every operation of a node on its own, on every branch and with failing store
      accesses, changes stored jobs only by transitions of the lifecycle
      (Refinement.v, Rebuild.v, System.v).  It follows that dependencies are
      honoured, finished jobs are final, attempts are bounded, no cycles arise and
      failed jobs are dead letters.
    - The leader's scheduling state matches the store: the queue is well formed
      (Ready.v), leases are truthful and unique (Leases.v), and no job is lost:
      each stored job is queued, timed, leased or indexed (Tracking.v), and none
      waits for jobs that have all succeeded (Progress.v).
    - Jobs come to their end: with a worker that polls, and tasks that succeed or
      fail as they please, every job ends after a number of rounds computed from
      the stored jobs, except those that depend on one that is missing or did
      not succeed; if all tasks succeed and no dependency is missing, every job
      succeeds (Liveness.v).
    - Under interleaving: a handler as a program of sections, run alone, is the
      handler of the other files (Threads.v).  In every schedule, of a whole
      cluster, a job is past waiting only after each of its dependencies has succeeded,
      attempts stay within the policy, the queue is well formed, the log is
      numbered and shipments are exact, and the worker gauge is right; dead
      letters are complete on a node that no shipment reaches (Interleave.v).
      The rest of the invariants need handlers not to interleave: Races.v has a
      schedule for each way they fail (a lost promotion, a queued job that is
      dropped, a job leased twice, a canceled job that runs, ...).
    - [cancelCascade] cancels exactly the jobs that wait on a failed one
      (Cascade.v); the cycle check is exact and ends (Cycle.v).
    - The leader's log replays to its jobs (ReplLog.v), and a follower that is
      reached again holds them all (Convergence.v).
    - The store is a finite map across restarts; the backoff is capped and equals
      its closed form where that is exact; a worker keeps to its capacity and
      runs no task twice within its retention time, under every interleaving of
      its main loop and its tasks; its wait group counts the goroutines it has
      started; when it has shut down cleanly no task is left behind; and once a
      leader answers it, a shutdown ends (AgentThreads.v).  What the node that
      serves it leases to it, it starts (Delivery.v).
    - A call through the generated stubs is a call of the handler (Stubs.v), so
      that the networks of Ctl.v and Transport.v are what the stubs provide.
    - From the command line: what [schedulerctl submit] acknowledges the cluster
      serves to the next request, [schedulerctl list] shows what is stored,
      membership flags parse back, and a scheduler process takes part in elections
      as the member its flags name, among the members they list, in the
      configuration that Election.v is about (Cmd.v).
    - Anomalies.v has runs in which the program does not do what its comments
      say; each is a closed computation.

    ** How the proofs are organised

    This file has the state monad, the tactic [mrun] that runs a computation one
    step, and [preserves] and [within], which say that a computation keeps a
    predicate or stays within a preorder; [walk] applies their rules and the
    hint database [pres] the known facts.  Handlers.v goes through the handlers
    once for any preorder: Leases.v, Ready.v, Delivery.v, ReplLog.v, Tracking.v,
    Ctl.v, Cmd.v and Metrics.v only supply the elementary steps.  [Maintained] in
    Tracking.v is what an invariant of a leader at work has to satisfy;
    Progress.v adds one.  For programs, [tracks] relates one to the computation it
    performs alone and [secure] is the rely-guarantee condition for a pool, each
    with its rules, tactic and hint database.

    ** Fuel

    Some functions recurse on fuel.  The loops of the heap get one more than the
    index they start from or the length they stay below.  [dfs] gets one more than the number of
    nodes, and each call marks a node that was not marked.  [cascade] gets a
    bound on the insertions into its work list, computed from the index.
    [poll_loop] gets one more than the length of the queue it pops from.  Each is
    proved sufficient ([Queue_Pop_refines], [creates_cycle_exact],
    [cancelCascade_spec], [poll_loop_spec]).  The loops of GoStrings.v use the length of the string
    they consume.  In Threads.v other goroutines may give [cascade_t] and
    [poll_loop_t] more work than the bound foresees; [rounds] is added to it, and
    the pool starts programs with any [rounds], so that every finite behaviour of
    the loops is there.  The worker's [bootstrap] gets [rounds] rounds of its
    loop.  In the main loop, running out of them stands for a canceled context;
    in the goroutine of a task, whose context is never canceled, it is a pause
    after which the loop goes on, any number of times ([resume_t]).

    ** Assumptions to keep in mind

    - Outside Prog.v, Threads.v, Interleave.v, Races.v and AgentThreads.v a
      handler runs without interruption: theorems on [reachable] are about a node
      whose goroutines do not overlap.  Elections (Cluster.v, Election.v) are
      finer: every locked section is a step.  A section itself is atomic, and the
      memory is sequentially consistent, as the locks make it.
    - A submission under an id that is taken is left out of [reachable]: the code
      overwrites the job ([resubmission_overwrites] in Anomalies.v).  So are
      shipments that carry entries to a node on the machine of System.v;
      Convergence.v covers them for a leader and one follower, delivered in
      order.  The machines of Interleave.v have both.
    - The theorems of Tracking.v, Progress.v and Liveness.v need a store that does
      not fail and the election's callbacks in order; Anomalies.v shows what
      happens otherwise.  For BoltDB that includes ids and jobs within its limits
      on sizes, and strings that are valid UTF-8.
    - In Delivery.v the worker is served by one node, and neither the operations
      of the node nor those of the worker overlap.
    - The [Grpc] library of Stubs.v delivers every call; a lost one is a failed
      call in the networks of the other files.
    - Liveness.v is about jobs without a recurring schedule, and about rounds in
      which every armed timer fires and every leased task is reported.
    - The compiler is taken not to fuse floating-point operations.

    ** Not modelled

    - The gRPC library, TLS, sockets and the HTTP server of the metrics:
      libraries that carry the calls modelled here.  A timeout shows as a failed
      call.
    - The reflection code of the generated messages ([Reset], [String],
      [ProtoReflect], descriptors), which serves the encoding.
    - Log output, usage texts and the alignment of tables.
    - The cron parser, BoltDB's file format, the protobuf encoding and the
      Prometheus registry, which are third-party code.
    - The encoding of the log: [internal/logging/logging.go] beyond the level a
      name selects.

    ** Possible extensions

    The lifecycle under interleaving, for the code with a lock around each
    read-modify-write of a job; the limits of BoltDB and of the encoding as
    bounds on the submitted jobs, in place of the assumption in Durable.v that
    they are met. *)

From stdpp Require Export base gmap strings list fin_maps sorting.
From Stdlib Require Export ZArith Lia.

(** ** Scope and machine integers *)

Declare Scope distsched_scope.
Delimit Scope distsched_scope with ds.

(** Go's fixed-width signed integers are kept as [Z] with the wrap-around of
    two's complement written out. *)
Definition wrap (w : Z) (z : Z) : Z :=
  ((z + 2 ^ (w - 1)) mod 2 ^ w - 2 ^ (w - 1))%Z.

Definition int32 (z : Z) : Z := wrap 32 z.
Definition int64 (z : Z) : Z := wrap 64 z.

Definition max_int32 : Z := 2147483647.
Definition max_int64 : Z := 9223372036854775807.
Definition min_int64 : Z := -9223372036854775808.

(** [time.Time.Sub] and [time.Until] saturate at the bounds of
    [time.Duration] instead of wrapping. *)
Definition saturate64 (z : Z) : Z := (min_int64 `max` (max_int64 `min` z))%Z.

Lemma wrap_small (w z : Z) :
  (0 < w)%Z → (- 2 ^ (w - 1) <= z < 2 ^ (w - 1))%Z → wrap w z = z.
Proof.
  intros Hw Hz. unfold wrap.
  assert (2 ^ w = 2 * 2 ^ (w - 1))%Z as ->.
  { rewrite <- Z.pow_succ_r by lia. f_equal; lia. }
  rewrite Z.mod_small; lia.
Qed.

Lemma int32_small (z : Z) : (-2147483648 <= z <= max_int32)%Z → int32 z = z.
Proof. intros Hz. apply wrap_small; unfold max_int32 in *; [lia|]. change (32 - 1)%Z with 31%Z. lia. Qed.

Lemma int64_small (z : Z) : (min_int64 <= z <= max_int64)%Z → int64 z = z.
Proof.
  intros Hz. apply wrap_small; unfold min_int64, max_int64 in *; [lia|].
  change (64 - 1)%Z with 63%Z. lia.
Qed.

(** ** Strings: Go's [<] on strings is byte-wise lexicographic *)

Lemma ltb_leb (a b : string) : String.ltb a b = negb (String.leb b a).
Proof.
  unfold String.ltb, String.leb. rewrite (String.compare_antisym b a).
  by destruct (a ?= b)%string.
Qed.

Lemma ltb_true (a b : string) : String.ltb a b = true ↔ String.le a b ∧ a ≠ b.
Proof.
  rewrite ltb_leb, negb_true_iff. unfold String.le. split.
  - intros Hba. split.
    + destruct (String.leb_total a b) as [H|H]; [by rewrite H|congruence].
    + intros ->. destruct (String.leb_total b b) as [H|H]; congruence.
  - intros [Hab Hne]. destruct (String.leb b a) eqn:Hba; [|done].
    destruct Hne. apply String.leb_antisym; [|done]. by apply Is_true_true.
Qed.

(** ** A state monad for the handlers

    [M σ A] is a computation over the state [σ]; stdpp's [x ← m; k] and
    [m;; k] notations apply to it. *)

Definition M (σ A : Type) : Type := σ → A * σ.

#[export] Instance M_ret σ : MRet (M σ) := λ A a s, (a, s).
#[export] Instance M_bind σ : MBind (M σ) :=
  λ A B f m s, f (m s).1 (m s).2.

Definition gets {σ A} (f : σ → A) : M σ A := λ s, (f s, s).
Definition modify {σ} (f : σ → σ) : M σ unit := λ s, (tt, f s).
Definition exec {σ A} (m : M σ A) (s : σ) : σ := (m s).2.
Definition eval {σ A} (m : M σ A) (s : σ) : A := (m s).1.

(** [for _, x := range l { body }] *)
Fixpoint forM_ {σ A} (l : list A) (body : A → M σ unit) : M σ unit :=
  match l with
  | [] => mret tt
  | x :: l' => body x;; forM_ l' body
  end.

Definition whenM {σ} (b : bool) (m : M σ unit) : M σ unit :=
  if b then m else mret tt.

(** [preserves I m]: [m] keeps the invariant [I]. [within R m]: every run of
    [m] relates its initial to its final state by [R]; when [R] is a preorder
    this composes without side conditions. *)
Definition preserves {σ A} (I : σ → Prop) (m : M σ A) : Prop :=
  ∀ s, I s → I (exec m s).

Definition within {σ A} (R : σ → σ → Prop) (m : M σ A) : Prop :=
  ∀ s, R s (exec m s).

Lemma bind_run {σ A B} (m : M σ A) (f : A → M σ B) (s : σ) :
  (m ≫= f) s = f (eval m s) (exec m s).
Proof. reflexivity. Qed.

Lemma exec_bind {σ A B} (m : M σ A) (f : A → M σ B) (s : σ) :
  exec (m ≫= f) s = exec (f (eval m s)) (exec m s).
Proof. reflexivity. Qed.

Lemma eval_bind {σ A B} (m : M σ A) (f : A → M σ B) (s : σ) :
  eval (m ≫= f) s = eval (f (eval m s)) (exec m s).
Proof. reflexivity. Qed.

Lemma exec_ret {σ A} (a : A) (s : σ) : exec (mret a) s = s.
Proof. reflexivity. Qed.

Lemma eval_ret {σ A} (a : A) (s : σ) : eval (mret a : M σ A) s = a.
Proof. reflexivity. Qed.

Lemma exec_gets {σ A} (f : σ → A) (s : σ) : exec (gets f) s = s.
Proof. reflexivity. Qed.

Lemma eval_gets {σ A} (f : σ → A) (s : σ) : eval (gets f) s = f s.
Proof. reflexivity. Qed.

Lemma exec_modify {σ} (f : σ → σ) (s : σ) : exec (modify f) s = f s.
Proof. reflexivity. Qed.

Lemma whenM_true {σ} (m : M σ unit) : whenM true m = m.
Proof. reflexivity. Qed.

Lemma whenM_false {σ} (m : M σ unit) : whenM false m = mret tt.
Proof. reflexivity. Qed.

Create Rewrite HintDb monad.
#[export] Hint Rewrite @exec_bind @eval_bind @exec_ret @eval_ret @exec_gets
  @eval_gets @exec_modify @whenM_true @whenM_false : monad.

(** Evaluate the monadic plumbing of the goal (or of a hypothesis). *)
Ltac mrun := autorewrite with monad.
Tactic Notation "mrun" "in" hyp(H) := autorewrite with monad in H.

Section preservation.
Context {σ : Type}.
Implicit Types (I : σ → Prop) (R : σ → σ → Prop).

Lemma preserves_ret {A} I (a : A) : preserves I (mret a).
Proof. by intros s. Qed.

Lemma preserves_bind {A B} I (m : M σ A) (f : A → M σ B) :
  preserves I m → (∀ a, preserves I (f a)) → preserves I (m ≫= f).
Proof. intros Hm Hf s HI. rewrite exec_bind. by apply Hf, Hm. Qed.

Lemma preserves_gets {A} I (f : σ → A) : preserves I (gets f).
Proof. by intros s. Qed.

Lemma preserves_modify I (f : σ → σ) :
  (∀ s, I s → I (f s)) → preserves I (modify f).
Proof. intros Hf s HI. by apply Hf. Qed.

Lemma preserves_forM {A} I (l : list A) (body : A → M σ unit) :
  (∀ x, preserves I (body x)) → preserves I (forM_ l body).
Proof.
  intros Hb. induction l as [|x l IH]; simpl;
    [apply preserves_ret|by apply preserves_bind].
Qed.

Lemma within_ret {A} R `{!Reflexive R} (a : A) : within R (mret a).
Proof. by intros s. Qed.

Lemma within_bind {A B} R `{!Transitive R} (m : M σ A) (f : A → M σ B) :
  within R m → (∀ a, within R (f a)) → within R (m ≫= f).
Proof. intros Hm Hf s. rewrite exec_bind. etrans; [apply Hm|apply Hf]. Qed.

Lemma within_gets {A} R `{!Reflexive R} (f : σ → A) : within R (gets f).
Proof. by intros s. Qed.

Lemma within_modify R (f : σ → σ) : (∀ s, R s (f s)) → within R (modify f).
Proof. intros Hf s. apply Hf. Qed.

Lemma within_forM {A} R `{!PreOrder R} (l : list A) (body : A → M σ unit) :
  (∀ x, x ∈ l → within R (body x)) → within R (forM_ l body).
Proof.
  induction l as [|x l IH]; intros Hb; simpl; [apply within_ret, _|].
  apply within_bind; [apply _|apply Hb; left|]. intros _. apply IH. intros y Hy. apply Hb. by right.
Qed.

End preservation.

Create HintDb pres.
#[export] Hint Resolve preserves_ret preserves_gets preserves_forM
  within_ret within_gets within_forM : pres.

(** Walk through a handler's control flow: binds, conditionals and matches. *)
Ltac walk_step :=
  match goal with
  | |- preserves _ (_ ≫= _) => apply preserves_bind; [|intros ?]
  | |- within _ (_ ≫= _) => apply within_bind; [apply _| |intros ?]
  | |- preserves _ (mret _) => apply preserves_ret
  | |- within _ (mret _) => apply within_ret, _
  | |- preserves _ (gets _) => apply preserves_gets
  | |- within _ (gets _) => apply within_gets, _
  | |- preserves _ (whenM ?b _) => unfold whenM
  | |- within _ (whenM ?b _) => unfold whenM
  | |- preserves _ (forM_ _ _) => apply preserves_forM; intros ?
  | |- within _ (forM_ _ _) => apply within_forM; [apply _|intros ? ?]
  | |- preserves _ (match ?x with _ => _ end) => destruct x eqn:?
  | |- within _ (match ?x with _ => _ end) => destruct x eqn:?
  end.
Ltac walk := repeat (walk_step || solve [eauto with pres]).

(** ** Lists *)

Lemma lookup_swap_total {A} (l : list A) (i j k : nat) (x y : A) :
  l !! i = Some x → l !! j = Some y →
  <[j:=x]> (<[i:=y]> l) !! k =
    if decide (k = j) then Some x else if decide (k = i) then Some y else l !! k.
Proof.
  intros Hi Hj. pose proof (lookup_lt_Some _ _ _ Hi). pose proof (lookup_lt_Some _ _ _ Hj).
  destruct (decide (k = j)) as [->|Hkj].
  - apply list_lookup_insert_eq. by rewrite length_insert.
  - rewrite list_lookup_insert_ne by congruence.
    destruct (decide (k = i)) as [->|Hki].
    + by apply list_lookup_insert_eq.
    + by rewrite list_lookup_insert_ne by congruence.
Qed.

Lemma fmap_insert_swap {A B} (f : A → B) (l : list A) (i j : nat) (x y : A) :
  f <$> <[j:=x]> (<[i:=y]> l) = <[j:=f x]> (<[i:=f y]> (f <$> l)).
Proof. by rewrite !list_fmap_insert. Qed.

Lemma StronglySorted_weaken {A} (R R' : A → A → Prop) (l : list A) :
  (∀ x y, x ∈ l → y ∈ l → R x y → R' x y) → StronglySorted R l → StronglySorted R' l.
Proof.
  intros HR Hs. induction Hs as [|x l Hs IH Hx]; constructor.
  - apply IH. intros y z Hy Hz. apply HR; by right.
  - rewrite Forall_forall in Hx |- *. intros y Hy. apply HR; [by left|by right|auto].
Qed.

Lemma elem_of_rev {A} (l : list A) (x : A) : x ∈ rev l ↔ x ∈ l.
Proof. rewrite !list_elem_of_In. symmetry. apply in_rev. Qed.

(** Inserting the elements of a list one by one. *)
Lemma foldl_insert {A B} (key : A → string) (val : A → B) (l : list A) (m : gmap string B) :
  NoDup (key <$> l) →
  foldl (λ m x, <[key x:=val x]> m) m l = list_to_map ((λ x, (key x, val x)) <$> l) ∪ m.
Proof.
  revert m. induction l as [|x l IH]; intros m Hnd; simpl; [by rewrite (left_id_L ∅ (∪))|].
  apply NoDup_cons in Hnd as [Hx Hnd]. rewrite IH by done.
  rewrite <- insert_union_l, insert_union_r; [done|].
  apply not_elem_of_list_to_map_1. by rewrite <- list_fmap_compose.
Qed.

(** ... of a listing of a map [m] gives the values of [m], transformed. *)
Lemma foldl_insert_listed {A B} (key : A → string) (val : A → B) (l : list A) (m : gmap string A) :
  l ≡ₚ (map_to_list m).*2 → map_Forall (λ id x, key x = id) m →
  foldl (λ m x, <[key x:=val x]> m) ∅ l = val <$> m.
Proof.
  intros Hp Hk.
  assert ((λ x, (key x, val x)) <$> l ≡ₚ map_to_list (val <$> m)) as Hl.
  { rewrite Hp, map_to_list_fmap, <- list_fmap_compose. apply Permutation_refl'.
    apply list_fmap_ext. intros i [id x] Hi. apply list_elem_of_lookup_2, elem_of_map_to_list in Hi.
    simpl. by rewrite (Hk id x Hi). }
  assert (NoDup ((λ x, (key x, val x)) <$> l).*1) as Hnd by (rewrite Hl; apply NoDup_fst_map_to_list).
  rewrite foldl_insert by (by rewrite <- list_fmap_compose in Hnd).
  rewrite (right_id_L ∅ (∪)), (list_to_map_proper _ _ Hnd Hl). apply list_to_map_to_list.
Qed.

Lemma filter_none {A} (P : A → Prop) `{!∀ x, Decision (P x)} (l : list A) :
  (∀ x, x ∈ l → ¬ P x) → filter P l = [].
Proof.
  induction l as [|x l IH]; intros Hl; [done|]. rewrite filter_cons_False by (apply Hl; by left).
  apply IH. intros y Hy. apply Hl. by right.
Qed.

Lemma filter_all {A} (P : A → Prop) `{!∀ x, Decision (P x)} (l : list A) :
  (∀ x, x ∈ l → P x) → filter P l = l.
Proof.
  induction l as [|x l IH]; intros Hl; [done|]. rewrite filter_cons_True by (apply Hl; by left).
  f_equal. apply IH. intros y Hy. apply Hl. by right.
Qed.
