(* ===== verification/Types.v ===== *)
(** * The protobuf data model

    The messages of [gen/go/distsched/v1] that the scheduler, the workers and
    the election exchange and store.  A message pointer that Go may leave nil is
    an [option]; a [google.protobuf.Timestamp] or [Duration] is the [Z] number of
    nanoseconds its [AsTime]/[AsDuration] denotes; an [int32]/[int64] field is the
    [Z] it holds; a [double] is an IEEE binary64 datum ([spec_float]).  proto3
    enums are open: a value outside the declared ones is [_UNRECOGNIZED]. *)

From Stdlib Require Export SpecFloat.
From stdpp Require Import pretty.
From S2P Require Import Prelude.

(** A pipeline notation for successive field assignments of a Go struct. *)
Notation "x |> f" := (f x)
  (at level 50, left associativity, only parsing) : distsched_scope.
#[global] Open Scope distsched_scope.

(** ** Enums (common.proto) *)

(** The lifecycle of a job inside the scheduler. *)
Inductive JobState :=
| JOB_STATE_UNSPECIFIED
| JOB_STATE_PENDING
| JOB_STATE_QUEUED
| JOB_STATE_RUNNING
| JOB_STATE_SUCCEEDED
| JOB_STATE_FAILED
| JOB_STATE_CANCELED
| JOB_STATE_UNRECOGNIZED (n : Z).

#[export] Instance JobState_eq_dec : EqDecision JobState.
Proof. solve_decision. Defined.

(** [JobState.String]: the declared name, or the number. *)
Definition JobState_String (s : JobState) : string :=
  match s with
  | JOB_STATE_UNSPECIFIED => "JOB_STATE_UNSPECIFIED"
  | JOB_STATE_PENDING => "JOB_STATE_PENDING"
  | JOB_STATE_QUEUED => "JOB_STATE_QUEUED"
  | JOB_STATE_RUNNING => "JOB_STATE_RUNNING"
  | JOB_STATE_SUCCEEDED => "JOB_STATE_SUCCEEDED"
  | JOB_STATE_FAILED => "JOB_STATE_FAILED"
  | JOB_STATE_CANCELED => "JOB_STATE_CANCELED"
  | JOB_STATE_UNRECOGNIZED n => pretty n
  end.

(** Liveness of a worker as the leader sees it. *)
Inductive WorkerState :=
| WORKER_STATE_UNSPECIFIED
| WORKER_STATE_ALIVE
| WORKER_STATE_SUSPECT
| WORKER_STATE_DEAD
| WORKER_STATE_UNRECOGNIZED (n : Z).

#[export] Instance WorkerState_eq_dec : EqDecision WorkerState.
Proof. solve_decision. Defined.

(** What a worker reports for a leased task. *)
Inductive TaskResult :=
| TASK_RESULT_UNSPECIFIED
| TASK_RESULT_SUCCEEDED
| TASK_RESULT_FAILED
| TASK_RESULT_UNRECOGNIZED (n : Z).

#[export] Instance TaskResult_eq_dec : EqDecision TaskResult.
Proof. solve_decision. Defined.

(** ** Messages (common.proto) *)

(** The unit of work a worker executes. *)
Record TaskSpec := mkTaskSpec {
  TaskSpec_Command : string;
  TaskSpec_Args : list string;
  TaskSpec_Env : gmap string string;
  TaskSpec_Timeout : option Z;
  TaskSpec_Payload : list Byte.byte
}.

(** Retry and backoff parameters of a job. *)
Record RetryPolicy := mkRetryPolicy {
  RetryPolicy_MaxAttempts : Z;
  RetryPolicy_InitialBackoff : option Z;
  RetryPolicy_MaxBackoff : option Z;
  RetryPolicy_BackoffMultiplier : spec_float;
  RetryPolicy_Jitter : spec_float
}.

(** The [oneof kind] of a schedule.  Messages arrive decoded from the wire,
    where the wrapper of a set [run_at] always holds a timestamp. *)
Inductive isSchedule_Kind :=
| Schedule_RunAt (run_at : Z)
| Schedule_CronExpr (cron_expr : string).

(** A deferred or recurring schedule. *)
Record Schedule := mkSchedule {
  Schedule_Kind : option isSchedule_Kind;
  Schedule_Timezone : string
}.

(** ** Jobs (job.proto) *)

(** The durable unit of scheduling. *)
Record Job := mkJob {
  Job_Id : string;
  Job_Name : string;
  Job_Priority : Z;
  Job_Spec : option TaskSpec;
  Job_DependsOn : list string;
  Job_Schedule : option Schedule;
  Job_RetryPolicy : option RetryPolicy;
  Job_State : JobState;
  Job_Attempt : Z;
  Job_AssignedWorkerId : string;
  Job_LastError : string;
  Job_CreatedAt : option Z;
  Job_UpdatedAt : option Z;
  Job_ScheduledAt : option Z;
  Job_StartedAt : option Z;
  Job_FinishedAt : option Z
}.

Definition set_Job_Id (x : string) (r : Job) : Job :=
  mkJob x r.(Job_Name) r.(Job_Priority) r.(Job_Spec) r.(Job_DependsOn)
    r.(Job_Schedule) r.(Job_RetryPolicy) r.(Job_State) r.(Job_Attempt)
    r.(Job_AssignedWorkerId) r.(Job_LastError) r.(Job_CreatedAt)
    r.(Job_UpdatedAt) r.(Job_ScheduledAt) r.(Job_StartedAt)
    r.(Job_FinishedAt).

Definition set_Job_State (x : JobState) (r : Job) : Job :=
  mkJob r.(Job_Id) r.(Job_Name) r.(Job_Priority) r.(Job_Spec)
    r.(Job_DependsOn) r.(Job_Schedule) r.(Job_RetryPolicy) x r.(Job_Attempt)
    r.(Job_AssignedWorkerId) r.(Job_LastError) r.(Job_CreatedAt)
    r.(Job_UpdatedAt) r.(Job_ScheduledAt) r.(Job_StartedAt)
    r.(Job_FinishedAt).

Definition set_Job_Attempt (x : Z) (r : Job) : Job :=
  mkJob r.(Job_Id) r.(Job_Name) r.(Job_Priority) r.(Job_Spec)
    r.(Job_DependsOn) r.(Job_Schedule) r.(Job_RetryPolicy) r.(Job_State) x
    r.(Job_AssignedWorkerId) r.(Job_LastError) r.(Job_CreatedAt)
    r.(Job_UpdatedAt) r.(Job_ScheduledAt) r.(Job_StartedAt)
    r.(Job_FinishedAt).

Definition set_Job_AssignedWorkerId (x : string) (r : Job) : Job :=
  mkJob r.(Job_Id) r.(Job_Name) r.(Job_Priority) r.(Job_Spec)
    r.(Job_DependsOn) r.(Job_Schedule) r.(Job_RetryPolicy) r.(Job_State)
    r.(Job_Attempt) x r.(Job_LastError) r.(Job_CreatedAt) r.(Job_UpdatedAt)
    r.(Job_ScheduledAt) r.(Job_StartedAt) r.(Job_FinishedAt).

Definition set_Job_LastError (x : string) (r : Job) : Job :=
  mkJob r.(Job_Id) r.(Job_Name) r.(Job_Priority) r.(Job_Spec)
    r.(Job_DependsOn) r.(Job_Schedule) r.(Job_RetryPolicy) r.(Job_State)
    r.(Job_Attempt) r.(Job_AssignedWorkerId) x r.(Job_CreatedAt)
    r.(Job_UpdatedAt) r.(Job_ScheduledAt) r.(Job_StartedAt)
    r.(Job_FinishedAt).

Definition set_Job_CreatedAt (x : option Z) (r : Job) : Job :=
  mkJob r.(Job_Id) r.(Job_Name) r.(Job_Priority) r.(Job_Spec)
    r.(Job_DependsOn) r.(Job_Schedule) r.(Job_RetryPolicy) r.(Job_State)
    r.(Job_Attempt) r.(Job_AssignedWorkerId) r.(Job_LastError) x
    r.(Job_UpdatedAt) r.(Job_ScheduledAt) r.(Job_StartedAt)
    r.(Job_FinishedAt).

Definition set_Job_UpdatedAt (x : option Z) (r : Job) : Job :=
  mkJob r.(Job_Id) r.(Job_Name) r.(Job_Priority) r.(Job_Spec)
    r.(Job_DependsOn) r.(Job_Schedule) r.(Job_RetryPolicy) r.(Job_State)
    r.(Job_Attempt) r.(Job_AssignedWorkerId) r.(Job_LastError)
    r.(Job_CreatedAt) x r.(Job_ScheduledAt) r.(Job_StartedAt)
    r.(Job_FinishedAt).

Definition set_Job_ScheduledAt (x : option Z) (r : Job) : Job :=
  mkJob r.(Job_Id) r.(Job_Name) r.(Job_Priority) r.(Job_Spec)
    r.(Job_DependsOn) r.(Job_Schedule) r.(Job_RetryPolicy) r.(Job_State)
    r.(Job_Attempt) r.(Job_AssignedWorkerId) r.(Job_LastError)
    r.(Job_CreatedAt) r.(Job_UpdatedAt) x r.(Job_StartedAt)
    r.(Job_FinishedAt).

Definition set_Job_StartedAt (x : option Z) (r : Job) : Job :=
  mkJob r.(Job_Id) r.(Job_Name) r.(Job_Priority) r.(Job_Spec)
    r.(Job_DependsOn) r.(Job_Schedule) r.(Job_RetryPolicy) r.(Job_State)
    r.(Job_Attempt) r.(Job_AssignedWorkerId) r.(Job_LastError)
    r.(Job_CreatedAt) r.(Job_UpdatedAt) r.(Job_ScheduledAt) x
    r.(Job_FinishedAt).

Definition set_Job_FinishedAt (x : option Z) (r : Job) : Job :=
  mkJob r.(Job_Id) r.(Job_Name) r.(Job_Priority) r.(Job_Spec)
    r.(Job_DependsOn) r.(Job_Schedule) r.(Job_RetryPolicy) r.(Job_State)
    r.(Job_Attempt) r.(Job_AssignedWorkerId) r.(Job_LastError)
    r.(Job_CreatedAt) r.(Job_UpdatedAt) r.(Job_ScheduledAt)
    r.(Job_StartedAt) x.

(** ** Workers and tasks (worker.proto) *)

(** A registered worker. *)
Record WorkerInfo := mkWorkerInfo {
  WorkerInfo_Id : string;
  WorkerInfo_Address : string;
  WorkerInfo_Capacity : Z;
  WorkerInfo_Labels : gmap string string;
  WorkerInfo_State : WorkerState;
  WorkerInfo_LastHeartbeat : option Z;
  WorkerInfo_RunningTasks : Z
}.

Definition set_WorkerInfo_Id (x : string) (r : WorkerInfo) : WorkerInfo :=
  mkWorkerInfo x r.(WorkerInfo_Address) r.(WorkerInfo_Capacity)
    r.(WorkerInfo_Labels) r.(WorkerInfo_State) r.(WorkerInfo_LastHeartbeat)
    r.(WorkerInfo_RunningTasks).

Definition set_WorkerInfo_Capacity (x : Z) (r : WorkerInfo) : WorkerInfo :=
  mkWorkerInfo r.(WorkerInfo_Id) r.(WorkerInfo_Address) x
    r.(WorkerInfo_Labels) r.(WorkerInfo_State) r.(WorkerInfo_LastHeartbeat)
    r.(WorkerInfo_RunningTasks).

Definition set_WorkerInfo_State (x : WorkerState) (r : WorkerInfo) : WorkerInfo :=
  mkWorkerInfo r.(WorkerInfo_Id) r.(WorkerInfo_Address)
    r.(WorkerInfo_Capacity) r.(WorkerInfo_Labels) x
    r.(WorkerInfo_LastHeartbeat) r.(WorkerInfo_RunningTasks).

Definition set_WorkerInfo_LastHeartbeat (x : option Z) (r : WorkerInfo) : WorkerInfo :=
  mkWorkerInfo r.(WorkerInfo_Id) r.(WorkerInfo_Address)
    r.(WorkerInfo_Capacity) r.(WorkerInfo_Labels) r.(WorkerInfo_State) x
    r.(WorkerInfo_RunningTasks).

Definition set_WorkerInfo_RunningTasks (x : Z) (r : WorkerInfo) : WorkerInfo :=
  mkWorkerInfo r.(WorkerInfo_Id) r.(WorkerInfo_Address)
    r.(WorkerInfo_Capacity) r.(WorkerInfo_Labels) r.(WorkerInfo_State)
    r.(WorkerInfo_LastHeartbeat) x.

(** One leased attempt, as sent to the worker. *)
Record TaskAssignment := mkTaskAssignment {
  TaskAssignment_TaskId : string;
  TaskAssignment_JobId : string;
  TaskAssignment_Attempt : Z;
  TaskAssignment_Spec : option TaskSpec;
  TaskAssignment_LeaseDeadline : option Z
}.

(** ** Replication (scheduler.proto) *)

(** The [oneof mutation] of a replication entry. *)
Inductive isReplicationEntry_Mutation :=
| ReplicationEntry_UpsertJob (j : Job)
| ReplicationEntry_UpsertWorker (w : WorkerInfo)
| ReplicationEntry_DeleteJobId (id : string).

(** One entry of the leader's replication log. *)
Record ReplicationEntry := mkReplicationEntry {
  ReplicationEntry_Seq : Z;
  ReplicationEntry_Mutation : option isReplicationEntry_Mutation
}.

Definition set_ReplicationEntry_Seq (x : Z) (r : ReplicationEntry) : ReplicationEntry :=
  mkReplicationEntry x r.(ReplicationEntry_Mutation).

(** ** Cluster status (scheduler.proto) *)

Inductive SchedulerRole :=
| SCHEDULER_ROLE_UNSPECIFIED
| SCHEDULER_ROLE_LEADER
| SCHEDULER_ROLE_FOLLOWER
| SCHEDULER_ROLE_UNRECOGNIZED (n : Z).

Record SchedulerNode := mkSchedulerNode {
  SchedulerNode_Id : string;
  SchedulerNode_Address : string;
  SchedulerNode_Role : SchedulerRole;
  SchedulerNode_LastSeen : option Z
}.

Record LeaseInfo := mkLeaseInfo {
  LeaseInfo_HolderId : string;
  LeaseInfo_Term : Z;
  LeaseInfo_AcquiredAt : option Z;
  LeaseInfo_ExpiresAt : option Z
}.

Record GetClusterStatusResponse := mkGetClusterStatusResponse {
  Status_Lease : option LeaseInfo;
  Status_Schedulers : list SchedulerNode;
  Status_Workers : list WorkerInfo
}.

(** ** Nil-safe getters

    A generated getter on a nil message returns the zero value. *)

Definition AsTime (t : option Z) : Z := default 0%Z t.
Definition AsDuration (d : option Z) : Z := default 0%Z d.

Definition TaskSpec_GetCommand (s : option TaskSpec) : string :=
  match s with Some s => s.(TaskSpec_Command) | None => "" end.

Definition Schedule_GetCronExpr (s : option Schedule) : string :=
  match s with
  | Some s =>
      match s.(Schedule_Kind) with
      | Some (Schedule_CronExpr e) => e
      | _ => ""
      end
  | None => ""
  end.

Definition Schedule_GetRunAt (s : option Schedule) : option Z :=
  match s with
  | Some s =>
      match s.(Schedule_Kind) with
      | Some (Schedule_RunAt t) => Some t
      | _ => None
      end
  | None => None
  end.

Definition LeaseInfo_GetHolderId (l : option LeaseInfo) : string :=
  match l with Some l => l.(LeaseInfo_HolderId) | None => "" end.

(** ** Decidable equality *)

#[export] Instance spec_float_eq_dec : EqDecision spec_float.
Proof. solve_decision. Defined.
#[export] Instance byte_eq_dec : EqDecision Byte.byte := Byte.byte_eq_dec.
#[export] Instance TaskSpec_eq_dec : EqDecision TaskSpec.
Proof. solve_decision. Defined.
#[export] Instance RetryPolicy_eq_dec : EqDecision RetryPolicy.
Proof. solve_decision. Defined.
#[export] Instance isSchedule_Kind_eq_dec : EqDecision isSchedule_Kind.
Proof. solve_decision. Defined.
#[export] Instance Schedule_eq_dec : EqDecision Schedule.
Proof. solve_decision. Defined.
#[export] Instance Job_eq_dec : EqDecision Job.
Proof. solve_decision. Defined.
#[export] Instance WorkerInfo_eq_dec : EqDecision WorkerInfo.
Proof. solve_decision. Defined.
