(* ===== verification/Messages.v ===== *)
(** * Requests and responses (gen/go/distsched/v1)

    The messages the three services exchange, and the universe of message types
    that the generated client and server stubs are typed over.  The encoding on
    the wire is the protobuf library's. *)

From S2P Require Import Prelude Types.

(** ** JobService (job.pb.go) *)

Record SubmitJobRequest := mkSubmitJobRequest { SubmitJobRequest_Job : option Job }.
Record SubmitJobResponse := mkSubmitJobResponse { SubmitJobResponse_JobId : string }.
Record GetJobRequest := mkGetJobRequest { GetJobRequest_JobId : string }.
Record GetJobResponse := mkGetJobResponse { GetJobResponse_Job : option Job }.

Record ListJobsRequest := mkListJobsRequest {
  ListJobsRequest_StateFilter : JobState;
  ListJobsRequest_PageSize : Z;
  ListJobsRequest_PageToken : string
}.

Record ListJobsResponse := mkListJobsResponse {
  ListJobsResponse_Jobs : list Job;
  ListJobsResponse_NextPageToken : string
}.

Record CancelJobRequest := mkCancelJobRequest { CancelJobRequest_JobId : string }.
Record CancelJobResponse := mkCancelJobResponse { CancelJobResponse_Job : option Job }.

(** ** WorkerService (worker.pb.go) *)

Record RegisterWorkerRequest := mkRegisterWorkerRequest { RegisterWorkerRequest_Worker : option WorkerInfo }.

Record RegisterWorkerResponse := mkRegisterWorkerResponse {
  RegisterWorkerResponse_WorkerId : string;
  RegisterWorkerResponse_LeaderAddress : string
}.

Record HeartbeatRequest := mkHeartbeatRequest {
  HeartbeatRequest_WorkerId : string;
  HeartbeatRequest_RunningTaskIds : list string
}.

Record HeartbeatResponse := mkHeartbeatResponse {
  HeartbeatResponse_Ok : bool;
  HeartbeatResponse_LeaderAddress : string
}.

Record PollTaskRequest := mkPollTaskRequest {
  PollTaskRequest_WorkerId : string;
  PollTaskRequest_MaxTasks : Z
}.

Record PollTaskResponse := mkPollTaskResponse { PollTaskResponse_Tasks : list TaskAssignment }.

Record ReportTaskRequest := mkReportTaskRequest {
  ReportTaskRequest_WorkerId : string;
  ReportTaskRequest_TaskId : string;
  ReportTaskRequest_Result : TaskResult;
  ReportTaskRequest_Output : string;
  ReportTaskRequest_Error : string
}.

Record ReportTaskResponse := mkReportTaskResponse { ReportTaskResponse_Ack : bool }.

(** ** SchedulerService (scheduler.pb.go) *)

Record RequestVoteRequest := mkRequestVoteRequest {
  RequestVoteRequest_CandidateId : string;
  RequestVoteRequest_Term : Z
}.

Record RequestVoteResponse := mkRequestVoteResponse {
  RequestVoteResponse_VoteGranted : bool;
  RequestVoteResponse_Term : Z
}.

Record ReplicateRequest := mkReplicateRequest {
  ReplicateRequest_LeaderId : string;
  ReplicateRequest_Term : Z;
  ReplicateRequest_Entries : list ReplicationEntry
}.

Record ReplicateResponse := mkReplicateResponse {
  ReplicateResponse_Ok : bool;
  ReplicateResponse_CurrentTerm : Z;
  ReplicateResponse_AppliedThrough : Z
}.

Record GetClusterStatusRequest := mkGetClusterStatusRequest {}.

(** ** The universe of messages *)

Inductive msgtype :=
| T_SubmitJobRequest | T_SubmitJobResponse | T_GetJobRequest | T_GetJobResponse
| T_ListJobsRequest | T_ListJobsResponse | T_CancelJobRequest | T_CancelJobResponse
| T_RegisterWorkerRequest | T_RegisterWorkerResponse | T_HeartbeatRequest | T_HeartbeatResponse
| T_PollTaskRequest | T_PollTaskResponse | T_ReportTaskRequest | T_ReportTaskResponse
| T_RequestVoteRequest | T_RequestVoteResponse | T_ReplicateRequest | T_ReplicateResponse
| T_GetClusterStatusRequest | T_GetClusterStatusResponse.

#[export] Instance msgtype_eq_dec : EqDecision msgtype.
Proof. solve_decision. Defined.

Definition msg (t : msgtype) : Type :=
  match t with
  | T_SubmitJobRequest => SubmitJobRequest | T_SubmitJobResponse => SubmitJobResponse
  | T_GetJobRequest => GetJobRequest | T_GetJobResponse => GetJobResponse
  | T_ListJobsRequest => ListJobsRequest | T_ListJobsResponse => ListJobsResponse
  | T_CancelJobRequest => CancelJobRequest | T_CancelJobResponse => CancelJobResponse
  | T_RegisterWorkerRequest => RegisterWorkerRequest | T_RegisterWorkerResponse => RegisterWorkerResponse
  | T_HeartbeatRequest => HeartbeatRequest | T_HeartbeatResponse => HeartbeatResponse
  | T_PollTaskRequest => PollTaskRequest | T_PollTaskResponse => PollTaskResponse
  | T_ReportTaskRequest => ReportTaskRequest | T_ReportTaskResponse => ReportTaskResponse
  | T_RequestVoteRequest => RequestVoteRequest | T_RequestVoteResponse => RequestVoteResponse
  | T_ReplicateRequest => ReplicateRequest | T_ReplicateResponse => ReplicateResponse
  | T_GetClusterStatusRequest => GetClusterStatusRequest | T_GetClusterStatusResponse => GetClusterStatusResponse
  end.
