(* ===== verification/Heap.v ===== *)
(** * Go's [container/heap]

    The scheduler's ready queue is built on the standard library's binary heap.
    Its five routines are written here over the same interface Go uses
    ([heap.Interface]), so that one definition serves both the pointer-level
    queue of [Queue.v] and the plain list of keys it refines.  The second half
    proves the algorithm correct on lists: the heap order is restored by every
    routine, the elements are permuted, and the root is a minimum. *)

From S2P Require Import Prelude.

(** ** The interface and the algorithm *)

(** [heap.Interface]: [Len], [Less] and [Swap]; [H] is the heap, [X] an
    element. [Push] appends at the end and [Pop] removes the last element. *)
Class heap_Interface (H X : Type) := {
  hLen : H → nat;
  hLess : H → nat → nat → bool;
  hSwap : nat → nat → H → H;
  hPush : X → H → H;
  hPop : H → option X * H
}.

Section algorithm.
Context {H X : Type} `{!heap_Interface H X}.

(** [heap.up]: move element [j] towards the root; the index strictly
    decreases, so [S j] rounds are enough. *)
Fixpoint up_loop (fuel : nat) (h : H) (j : nat) : H :=
  match fuel with
  | O => h
  | S fuel =>
      let i := (j - 1) / 2 in
      if (i =? j) || negb (hLess h j i) then h
      else up_loop fuel (hSwap i j h) i
  end.

Definition up (h : H) (j : nat) : H := up_loop (S j) h j.

(** [heap.down]: move element [i] away from the root inside the prefix [n];
    returns the heap and the final index. The index strictly increases and
    stays below [n], so [S n] rounds are enough. *)
Fixpoint down_loop (fuel : nat) (h : H) (i n : nat) : H * nat :=
  match fuel with
  | O => (h, i)
  | S fuel =>
      let j1 := 2 * i + 1 in
      if n <=? j1 then (h, i)
      else
        let j2 := j1 + 1 in
        let j := if (j2 <? n) && hLess h j2 j1 then j2 else j1 in
        if negb (hLess h j i) then (h, i)
        else down_loop fuel (hSwap i j h) j n
  end.

Definition down (h : H) (i0 n : nat) : H * bool :=
  let '(h', i) := down_loop (S n) h i0 n in (h', i0 <? i).

Definition heap_Push (x : X) (h : H) : H :=
  let h' := hPush x h in up h' (hLen h' - 1).

Definition heap_Pop (h : H) : option X * H :=
  let n := hLen h - 1 in
  hPop (down (hSwap 0 n h) 0 n).1.

Definition heap_Remove (i : nat) (h : H) : option X * H :=
  let n := hLen h - 1 in
  let h' :=
    if decide (n = i) then h
    else
      let '(h1, moved) := down (hSwap i n h) i n in
      if moved then h1 else up h1 i
  in hPop h'.

(** What [Swap] preserves, the loops preserve. *)
Lemma up_loop_ind (P : H → Prop) fuel h j :
  (∀ h i j, P h → P (hSwap i j h)) → P h → P (up_loop fuel h j).
Proof.
  intros Hs. revert h j. induction fuel as [|fuel IH]; intros h j Hh; simpl; [done|].
  destruct (_ || _); [done|]. by apply IH, Hs.
Qed.

Lemma down_loop_ind (P : H → Prop) fuel h i n :
  (∀ h i j, P h → P (hSwap i j h)) → P h → P (down_loop fuel h i n).1.
Proof.
  intros Hs. revert h i. induction fuel as [|fuel IH]; intros h i Hh; simpl; [done|].
  destruct (_ <=? _); [done|]. destruct (negb _); [done|]. by apply IH, Hs.
Qed.

Lemma down_ind (P : H → Prop) h i n :
  (∀ h i j, P h → P (hSwap i j h)) → P h → P (down h i n).1.
Proof.
  intros Hs Hh. unfold down.
  pose proof (down_loop_ind P (S n) h i n Hs Hh) as HP.
  by destruct (down_loop _ _ _ _).
Qed.

End algorithm.

(** ** Interface morphisms

    A function that commutes with the interface's operations commutes with
    the whole algorithm: this is how the pointer-level queue is related to the
    list of its keys. *)

Class heap_Morphism {H1 X1 H2 X2} `{!heap_Interface H1 X1, !heap_Interface H2 X2}
    (f : H1 → H2) := {
  morph_len h : hLen (f h) = hLen h;
  morph_less h i j : hLess (f h) i j = hLess h i j;
  morph_swap h i j : f (hSwap i j h) = hSwap i j (f h);
}.

Section morphism.
Context {H1 X1 H2 X2} `{!heap_Interface H1 X1, !heap_Interface H2 X2}.
Context (f : H1 → H2) `{!heap_Morphism f}.

Lemma up_loop_morph fuel h j : f (up_loop fuel h j) = up_loop fuel (f h) j.
Proof.
  revert h j. induction fuel as [|fuel IH]; intros h j; simpl; [done|].
  rewrite morph_less. destruct (_ || _); [done|]. by rewrite IH, morph_swap.
Qed.

Lemma up_morph h j : f (up h j) = up (f h) j.
Proof. apply up_loop_morph. Qed.

Lemma down_loop_morph fuel h i n :
  down_loop fuel (f h) i n = prod_map f id (down_loop fuel h i n).
Proof.
  revert h i. induction fuel as [|fuel IH]; intros h i; simpl; [done|].
  destruct (_ <=? _); [done|]. rewrite !morph_less.
  destruct (negb _); [done|]. by rewrite <- morph_swap, IH.
Qed.

Lemma down_morph h i n : down (f h) i n = prod_map f id (down h i n).
Proof. unfold down. rewrite down_loop_morph. by destruct (down_loop _ _ _ _). Qed.

End morphism.

(** ** Lists as heaps *)

Definition list_less {A} (less : A → A → bool) (l : list A) (i j : nat) : bool :=
  match l !! i, l !! j with
  | Some a, Some b => less a b
  | _, _ => false
  end.

Definition list_swap {A} (i j : nat) (l : list A) : list A :=
  match l !! i, l !! j with
  | Some a, Some b => <[j:=a]> (<[i:=b]> l)
  | _, _ => l
  end.

Definition list_pop {A} (l : list A) : option A * list A :=
  (last l, take (length l - 1) l).

Definition list_heap {A} (less : A → A → bool) : heap_Interface (list A) A := {|
  hLen := length;
  hLess := list_less less;
  hSwap := list_swap;
  hPush x l := l ++ [x];
  hPop := list_pop
|}.

(** The heap order on the prefix of length [n]: no element is less than its
    parent. *)
Definition heap_upto {A} (less : A → A → bool) (n : nat) (l : list A) : Prop :=
  ∀ k a b, 0 < k → k < n → l !! ((k - 1) / 2) = Some a → l !! k = Some b →
    less b a = false.

Definition heap_ordered {A} (less : A → A → bool) (l : list A) : Prop :=
  heap_upto less (length l) l.

Lemma half_parent (i k : nat) : 0 < k → (k - 1) / 2 = i ↔ k = 2 * i + 1 ∨ k = 2 * i + 2.
Proof.
  intros Hk. pose proof (Nat.div_mod_eq (k - 1) 2).
  pose proof (Nat.mod_upper_bound (k - 1) 2). lia.
Qed.

Lemma parent_lt (k : nat) : 0 < k → (k - 1) / 2 < k.
Proof. intros. apply Nat.Div0.div_lt_upper_bound; lia. Qed.

Lemma parent_0 : (0 - 1) / 2 = 0.
Proof. reflexivity. Qed.

(** A strict weak order: what [Less] has to be for a heap to make sense. *)
Class StrictWeak {A} (less : A → A → bool) := {
  less_irrefl a : less a a = false;
  less_trans a b c : less a b = true → less b c = true → less a c = true;
  less_negtrans a b c : less b a = false → less c b = false → less c a = false
}.

Lemma less_asym {A} (less : A → A → bool) `{!StrictWeak less} a b :
  less a b = true → less b a = false.
Proof.
  intros Hab. destruct (less b a) eqn:Hba; [|done].
  pose proof (less_trans _ _ _ Hab Hba). by rewrite less_irrefl in *.
Qed.

#[local] Arguments Nat.div : simpl never.
#[local] Arguments Nat.mul : simpl never.

Section list_heap.
Context {A : Type} (less : A → A → bool) `{!StrictWeak less}.
Implicit Types (l : list A) (i j k n : nat).
#[local] Abbreviation lup_loop := (@up_loop (list A) A (list_heap less)).
#[local] Abbreviation lup := (@up (list A) A (list_heap less)).
#[local] Abbreviation ldown_loop := (@down_loop (list A) A (list_heap less)).
#[local] Abbreviation ldown := (@down (list A) A (list_heap less)).
#[local] Abbreviation lpush := (@heap_Push (list A) A (list_heap less)).
#[local] Abbreviation lpop := (@heap_Pop (list A) A (list_heap less)).
#[local] Abbreviation lremove := (@heap_Remove (list A) A (list_heap less)).
#[local] Notation "a ⪯ b" := (less b a = false) (at level 70).

Lemma list_swap_lookup l i j k x y :
  l !! i = Some x → l !! j = Some y →
  list_swap i j l !! k =
    if decide (k = j) then Some x else if decide (k = i) then Some y else l !! k.
Proof. intros Hi Hj. unfold list_swap. rewrite Hi, Hj. by apply lookup_swap_total. Qed.

Lemma list_swap_perm l i j : list_swap i j l ≡ₚ l.
Proof.
  unfold list_swap. destruct (l !! i) eqn:Hi, (l !! j) eqn:Hj; try done.
  by apply Permutation_insert_swap.
Qed.

Lemma list_swap_length l i j : length (list_swap i j l) = length l.
Proof. apply Permutation_length, list_swap_perm. Qed.

Lemma list_less_true l i j :
  list_less less l i j = true →
  ∃ x y, l !! i = Some x ∧ l !! j = Some y ∧ less x y = true.
Proof. unfold list_less. destruct (l !! i) eqn:?, (l !! j) eqn:?; naive_solver. Qed.

Lemma list_less_false l i j x y :
  list_less less l i j = false → l !! i = Some x → l !! j = Some y → y ⪯ x.
Proof. unfold list_less. intros Hf Hi Hj. by rewrite Hi, Hj in Hf. Qed.

(** The heap order with a hole at [i]: [hole] speaks about the pairs that do
    not involve [i] and about [i]'s parent against [i]'s children; [up_ok] and
    [down_ok] are the missing pairs. *)
Definition hole l i n : Prop :=
  (∀ k a b, 0 < k → k < n → k ≠ i → (k - 1) / 2 ≠ i →
     l !! ((k - 1) / 2) = Some a → l !! k = Some b → a ⪯ b) ∧
  (∀ k a b, 0 < i → 0 < k → k < n → (k - 1) / 2 = i →
     l !! ((i - 1) / 2) = Some a → l !! k = Some b → a ⪯ b).

Definition up_ok l i : Prop :=
  ∀ a b, 0 < i → l !! ((i - 1) / 2) = Some a → l !! i = Some b → a ⪯ b.

Definition down_ok l i n : Prop :=
  ∀ k a b, 0 < k → k < n → (k - 1) / 2 = i → l !! i = Some a → l !! k = Some b → a ⪯ b.

Lemma heap_upto_hole l i n :
  hole l i n → up_ok l i → down_ok l i n → heap_upto less n l.
Proof.
  intros [Hh _] Hu Hd k a b Hk Hkn Ha Hb.
  destruct (decide (k = i)) as [->|Hki]; [by eapply Hu|].
  destruct (decide ((k - 1) / 2 = i)) as [<-|]; [by eapply Hd|by eapply Hh].
Qed.

Lemma heap_upto_no_hole l i n :
  heap_upto less n l → i < n → hole l i n ∧ up_ok l i ∧ down_ok l i n.
Proof.
  intros Hh Hi. split; [split|split].
  - intros k a b ?? _ _. by apply Hh.
  - intros k a b Hi0 Hk Hkn Hp Ha Hb.
    assert (∃ x, l !! i = Some x) as [x Hx].
    { apply lookup_lt_is_Some. pose proof (parent_lt k Hk).
      apply lookup_lt_Some in Hb. lia. }
    eapply less_negtrans; [|eapply (Hh k); subst; eauto].
    eapply (Hh i); eauto.
  - intros a b ???. by eapply Hh.
  - intros k a b ?????. subst. by eapply (Hh k).
Qed.

Ltac swap_lookup x y :=
  repeat match goal with
  | H : list_swap _ _ _ !! _ = Some _ |- _ =>
      rewrite (list_swap_lookup _ _ _ _ x y) in H by done
  end.

Lemma up_loop_heap fuel l j n :
  j < fuel → j < n → hole l j n → down_ok l j n →
  heap_upto less n (lup_loop fuel l j).
Proof.
  revert l j. induction fuel as [|fuel IH]; intros l j Hf Hjn Hh Hd; [lia|]. simpl.
  destruct (Nat.eqb_spec ((j - 1) / 2) j) as [Hj|Hj]; simpl.
  { assert (j = 0) as ->. { destruct j; [done|]. pose proof (parent_lt (S j)). lia. }
    eapply heap_upto_hole; eauto. intros ???. lia. }
  assert (0 < j) as Hj0 by (destruct j; simpl in *; [done|lia]).
  pose proof (parent_lt j Hj0) as Hp.
  destruct (list_less less l j ((j - 1) / 2)) eqn:Hl; simpl.
  2:{ eapply heap_upto_hole; eauto. intros a b _ Ha Hb. by eapply list_less_false. }
  apply list_less_true in Hl as (y & x & Hy & Hx & Hyx).
  apply less_asym in Hyx as Hxy; [|done]. destruct Hh as [H1 H2].
  apply IH; [lia..|split|].
  - intros k a b Hk Hkn Hki Hpi Ha Hb. swap_lookup x y.
    repeat case_decide; simplify_eq; eauto.
  - intros k a b Hi0 Hk Hkn Hpk Ha Hb. pose proof (parent_lt _ Hi0).
    swap_lookup x y.
    rewrite decide_False in Ha by lia. rewrite decide_False in Ha by lia.
    assert (a ⪯ x) as Hax by (eapply (H1 ((j - 1) / 2)); eauto; lia).
    pose proof (parent_lt k Hk). repeat case_decide; simplify_eq; [done|lia|].
    eapply less_negtrans; [exact Hax|]. eapply (H1 k x b); eauto; congruence.
  - intros k a b Hk Hkn Hpk Ha Hb. swap_lookup x y.
    rewrite decide_False in Ha by lia. rewrite decide_True in Ha by done.
    pose proof (parent_lt k Hk). repeat case_decide; simplify_eq; [done|lia|].
    eapply less_negtrans; [exact Hxy|]. eapply (H1 k x b); eauto; congruence.
Qed.

Lemma up_heap l j n :
  j < n → hole l j n → down_ok l j n → heap_upto less n (lup l j).
Proof. intros. apply up_loop_heap; auto. Qed.

Lemma up_loop_perm fuel l j : lup_loop fuel l j ≡ₚ l.
Proof.
  revert l j. induction fuel as [|fuel IH]; intros l j; simpl; [done|].
  destruct (_ || _); [done|]. by rewrite IH, list_swap_perm.
Qed.

Lemma up_perm l j : lup l j ≡ₚ l.
Proof. apply up_loop_perm. Qed.

(** [up] only touches positions up to its start. *)
Lemma up_loop_lookup fuel l j k : j < k → lup_loop fuel l j !! k = l !! k.
Proof.
  revert l j. induction fuel as [|fuel IH]; intros l j Hk; simpl; [done|].
  destruct (_ =? j) eqn:Hj; [done|]; simpl. destruct (negb _) eqn:Hl; [done|].
  apply negb_false_iff, list_less_true in Hl as (y & x & Hy & Hx & _).
  assert (0 < j) as Hj0 by (destruct j; simpl in *; [done|lia]).
  pose proof (parent_lt j Hj0). rewrite IH by lia.
  rewrite (list_swap_lookup _ _ _ _ x y) by done. by rewrite !decide_False by lia.
Qed.

(** The child [down] compares with is a least child of [i]. *)
Lemma least_child l i n j :
  2 * i + 1 < n → n ≤ length l →
  j = (if (2 * i + 1 + 1 <? n) && list_less less l (2 * i + 1 + 1) (2 * i + 1)
       then 2 * i + 1 + 1 else 2 * i + 1) →
  0 < j ∧ i < j ∧ j < n ∧ (j - 1) / 2 = i ∧
  ∀ k a b, 0 < k → k < n → (k - 1) / 2 = i → l !! j = Some a → l !! k = Some b → a ⪯ b.
Proof.
  intros Hn Hlen ->.
  destruct ((2 * i + 1 + 1 <? n) && list_less less l (2 * i + 1 + 1) (2 * i + 1)) eqn:E.
  - apply andb_true_iff in E as [E1%Nat.ltb_lt E2].
    apply list_less_true in E2 as (x & y & Hx & Hy & Hxy).
    apply less_asym in Hxy as Hyx; [|done].
    split_and!; [lia..|apply half_parent; lia|].
    intros k a b Hk Hkn [->| ->]%half_parent Ha Hb; try done; simplify_eq; [done|].
    replace (2 * i + 2) with (2 * i + 1 + 1) in Hb by lia. simplify_eq. apply less_irrefl.
  - split_and!; [lia..|apply half_parent; lia|].
    intros k a b Hk Hkn [->| ->]%half_parent Ha Hb; try done; simplify_eq; [apply less_irrefl|].
    replace (2 * i + 2) with (2 * i + 1 + 1) in * by lia.
    apply andb_false_iff in E as [E%Nat.ltb_ge|E]; [lia|].
    by eapply list_less_false.
Qed.

(** Moving the least child of the hole up moves the hole down. *)
Lemma down_swap_hole l i n j x y :
  0 < j → i < j → j < n → (j - 1) / 2 = i →
  (∀ k a b, 0 < k → k < n → (k - 1) / 2 = i → l !! j = Some a → l !! k = Some b → a ⪯ b) →
  l !! i = Some x → l !! j = Some y → less y x = true → hole l i n →
  hole (list_swap i j l) j n ∧ up_ok (list_swap i j l) j.
Proof.
  intros Hj0 Hij Hjn Hpj Hleast Hx Hy Hyx [H1 H2].
  apply less_asym in Hyx as Hxy; [|done]. split; [split|].
  - intros k a b Hk Hkn Hkj Hpk Ha Hb. pose proof (parent_lt k Hk). swap_lookup x y.
    repeat case_decide; simplify_eq; eauto; lia.
  - intros k a b _ Hk Hkn Hpk Ha Hb. pose proof (parent_lt k Hk). swap_lookup x y.
    repeat case_decide; simplify_eq; try lia.
    eapply (H1 k); eauto; first [lia|congruence].
  - intros a b _ Ha Hb. swap_lookup x y. repeat case_decide; simplify_eq; try lia. done.
Qed.

Lemma down_loop_heap fuel l i n :
  n ≤ length l → n - i < fuel → hole l i n → up_ok l i →
  heap_upto less n (ldown_loop fuel l i n).1.
Proof.
  revert l i. induction fuel as [|fuel IH]; intros l i Hlen Hf Hh Hu; [lia|]. simpl.
  destruct (Nat.leb_spec n (2 * i + 1)) as [Hn|Hn].
  { simpl. eapply heap_upto_hole; eauto.
    intros k a b Hk Hkn Hpk. apply half_parent in Hpk; lia. }
  remember (if _ && _ then _ else _) as j eqn:Hj.
  destruct (least_child _ _ _ _ Hn Hlen Hj) as (Hj0 & Hij & Hjn & Hpj & Hleast).
  destruct (list_less less l j i) eqn:Hl; simpl.
  - apply list_less_true in Hl as (y & x & Hy & Hx & Hyx).
    destruct (down_swap_hole l i n j x y); auto.
    apply IH; auto; [by rewrite list_swap_length|lia].
  - eapply heap_upto_hole; eauto. intros k a b Hk Hkn Hpk Ha Hb.
    destruct (lookup_lt_is_Some_2 l j) as [c Hc]; [lia|].
    eapply less_negtrans; [by eapply list_less_false|]. by eapply (Hleast k).
Qed.

(** Either [down] did not move and the hole's children are in order, or it
    moved and the whole prefix is a heap, whatever [i]'s parent is. *)
Lemma down_loop_moved fuel l i n :
  n ≤ length l → n - i < fuel → hole l i n →
  (ldown_loop fuel l i n = (l, i) ∧ down_ok l i n) ∨
  (i < (ldown_loop fuel l i n).2 ∧ heap_upto less n (ldown_loop fuel l i n).1).
Proof.
  destruct fuel as [|fuel]; intros Hlen Hf Hh; [lia|]. simpl.
  destruct (Nat.leb_spec n (2 * i + 1)) as [Hn|Hn].
  { left. split; [done|]. intros k a b Hk Hkn Hpk. apply half_parent in Hpk; lia. }
  remember (if _ && _ then _ else _) as j eqn:Hj.
  destruct (least_child _ _ _ _ Hn Hlen Hj) as (Hj0 & Hij & Hjn & Hpj & Hleast).
  destruct (list_less less l j i) eqn:Hl; simpl; [right|left; split; [done|]].
  - apply list_less_true in Hl as (y & x & Hy & Hx & Hyx).
    destruct (down_swap_hole l i n j x y) as [Hh' Hu']; auto. split.
    + enough (∀ fuel l j, j ≤ (ldown_loop fuel l j n).2) as Hle.
      { specialize (Hle fuel (list_swap i j l) j). lia. }
      clear. intros fuel. induction fuel as [|fuel IH]; intros l j; simpl; [done|].
      destruct (_ <=? _); [done|]. destruct (_ && _); (destruct (negb _); [done|]);
        (etrans; [|apply IH]); lia.
    + apply down_loop_heap; auto; [by rewrite list_swap_length|lia].
  - intros k a b Hk Hkn Hpk Ha Hb.
    destruct (lookup_lt_is_Some_2 l j) as [c Hc]; [lia|].
    eapply less_negtrans; [by eapply list_less_false|]. by eapply (Hleast k).
Qed.

Lemma down_loop_perm fuel l i n : (ldown_loop fuel l i n).1 ≡ₚ l.
Proof.
  revert l i. induction fuel as [|fuel IH]; intros l i; simpl; [done|].
  destruct (_ <=? _); [done|]. destruct (negb _); [done|]. by rewrite IH, list_swap_perm.
Qed.

(** [down] only touches positions inside its prefix. *)
Lemma down_loop_lookup fuel l i n k :
  i < n → n ≤ k → (ldown_loop fuel l i n).1 !! k = l !! k.
Proof.
  revert l i. induction fuel as [|fuel IH]; intros l i Hi Hk; simpl; [done|].
  destruct (Nat.leb_spec n (2 * i + 1)); [done|].
  remember (if _ && _ then _ else _) as j eqn:Hj.
  assert (j < n) by (destruct (Nat.ltb_spec (2 * i + 1 + 1) n), (list_less less l (2 * i + 1 + 1) (2 * i + 1)); simpl in *; lia).
  destruct (list_less less l j i) eqn:Hl; simpl; [|done].
  apply list_less_true in Hl as (y & x & Hy & Hx & _).
  rewrite IH by done. rewrite (list_swap_lookup _ _ _ _ x y) by done.
  by rewrite !decide_False by lia.
Qed.

(** *** The three entry points *)

Lemma push_heap x l : heap_ordered less l → heap_ordered less (lpush x l).
Proof.
  intros Hh. unfold heap_ordered, heap_Push.
  rewrite (Permutation_length (up_perm _ _)). simpl.
  rewrite length_app. simpl. replace (length l + 1 - 1) with (length l) by lia.
  apply up_heap; [lia|split|].
  - intros k a b Hk Hkn Hkj Hpk Ha Hb. pose proof (parent_lt k Hk).
    rewrite lookup_app_l in Ha, Hb by lia. eapply (Hh k); eauto. lia.
  - intros k a b _ Hk Hkn Hpk. apply half_parent in Hpk; lia.
  - intros k a b Hk Hkn Hpk. apply half_parent in Hpk; lia.
Qed.

Lemma push_perm x l : lpush x l ≡ₚ x :: l.
Proof. unfold heap_Push. rewrite up_perm. simpl. by rewrite Permutation_app_comm. Qed.

(** Dropping the last element keeps a prefix that is a heap. *)
Lemma heap_take n l : heap_upto less n l → n ≤ length l → heap_ordered less (take n l).
Proof.
  intros Hh Hn k a b Hk Hkn Ha Hb. rewrite length_take in Hkn.
  pose proof (parent_lt k Hk). rewrite lookup_take_lt in Ha, Hb by lia.
  eapply Hh; eauto. lia.
Qed.

Lemma pop_last l x n :
  length l = S n → l !! n = Some x → list_pop l = (Some x, take n l) ∧ l ≡ₚ x :: take n l.
Proof.
  intros Hlen Hx. unfold list_pop. rewrite last_lookup, Hlen. simpl.
  rewrite Nat.sub_0_r, Hx. split; [done|].
  rewrite <- (take_drop_middle l n x Hx) at 1.
  rewrite (drop_ge l (S n)) by lia. by rewrite Permutation_app_comm.
Qed.

Lemma root_least l x :
  heap_ordered less l → l !! 0 = Some x → ∀ y, y ∈ l → x ⪯ y.
Proof.
  intros Hh Hx y [k Hy]%list_elem_of_lookup. revert y Hy.
  induction (lt_wf k) as [k _ IH]; intros y Hy.
  destruct (decide (k = 0)) as [->|Hk]; [simplify_eq; apply less_irrefl|].
  pose proof (parent_lt k ltac:(lia)). pose proof (lookup_lt_Some _ _ _ Hy).
  destruct (lookup_lt_is_Some_2 l ((k - 1) / 2)) as [p Hp]; [lia|].
  eapply less_negtrans; [by eapply IH|]. by eapply (Hh k); [lia|..].
Qed.

(** Shared by [Pop] and [Remove]: put the last element in position [i]. *)
Lemma swap_last_hole l i n x :
  heap_ordered less l → length l = S n → i < n → l !! i = Some x →
  hole (list_swap i n l) i n ∧ list_swap i n l !! n = Some x ∧
  length (list_swap i n l) = S n ∧ (i = 0 → up_ok (list_swap i n l) i).
Proof.
  intros Hh Hlen Hi Hx. destruct (lookup_lt_is_Some_2 l n) as [z Hz]; [lia|].
  destruct (heap_upto_no_hole l i (length l) Hh ltac:(lia)) as ([H1 H2] & _ & _).
  split_and!.
  - split.
    + intros k a b Hk Hkn Hki Hpk Ha Hb. pose proof (parent_lt k Hk). swap_lookup x z.
      rewrite !decide_False in Ha by lia. rewrite !decide_False in Hb by lia. eapply (H1 k); eauto. lia.
    + intros k a b Hi0 Hk Hkn Hpk Ha Hb. pose proof (parent_lt k Hk).
      pose proof (parent_lt i Hi0). swap_lookup x z.
      rewrite !decide_False in Ha by lia. rewrite !decide_False in Hb by lia. eapply (H2 k); eauto. lia.
  - rewrite (list_swap_lookup _ _ _ _ x z) by done. by rewrite decide_True.
  - by rewrite list_swap_length.
  - intros -> a b. lia.
Qed.

Lemma down_loop_length fuel l i n : length (ldown_loop fuel l i n).1 = length l.
Proof. apply Permutation_length, down_loop_perm. Qed.

Lemma pop_spec l x :
  heap_ordered less l → l !! 0 = Some x →
  ∃ l', lpop l = (Some x, l') ∧ heap_ordered less l' ∧ l ≡ₚ x :: l'.
Proof.
  intros Hh Hx. destruct (length l) as [|n] eqn:Hlen; [by destruct l|].
  unfold heap_Pop, down. simpl. rewrite Hlen. simpl. rewrite Nat.sub_0_r.
  change (if n <=? _ then _ else _) with (ldown_loop (S n) (list_swap 0 n l) 0 n).
  destruct (decide (n = 0)) as [->|Hn].
  - destruct l as [|? [|]]; simplify_eq/=. exists []. split; [done|].
    split; [intros k ?????; simpl in *; lia|done].
  - destruct (swap_last_hole l 0 n x) as (Hho & Hlast & Hlen' & Hup); [done|done|lia|done|].
    pose proof (down_loop_heap (S n) (list_swap 0 n l) 0 n ltac:(lia) ltac:(lia) Hho (Hup eq_refl)) as Hheap.
    pose proof (down_loop_lookup (S n) (list_swap 0 n l) 0 n n ltac:(lia) ltac:(lia)) as Hk.
    pose proof (down_loop_perm (S n) (list_swap 0 n l) 0 n) as Hperm.
    pose proof (down_loop_length (S n) (list_swap 0 n l) 0 n) as Hl1.
    destruct (ldown_loop (S n) (list_swap 0 n l) 0 n) as [l1 i1]. simpl in *.
    destruct (pop_last l1 x n) as [-> Hp]; [congruence..|].
    exists (take n l1). split_and!; [done|apply heap_take; [done|lia]|].
    by rewrite <- Hp, Hperm, list_swap_perm.
Qed.

Lemma remove_spec l i x :
  heap_ordered less l → l !! i = Some x →
  ∃ l', lremove i l = (Some x, l') ∧ heap_ordered less l' ∧ l ≡ₚ x :: l'.
Proof.
  intros Hh Hx. pose proof (lookup_lt_Some _ _ _ Hx) as Hi.
  destruct (length l) as [|n] eqn:Hlen; [lia|].
  unfold heap_Remove. cbn [hLen hSwap hPop list_heap]. rewrite Hlen.
  replace (S n - 1) with n by lia. destruct (decide (n = i)) as [->|Hni].
  { destruct (pop_last l x i) as [-> Hp]; [done..|].
    exists (take i l). split_and!; [done| |done].
    apply heap_take; [|lia]. intros k a b ??. apply Hh; lia. }
  destruct (swap_last_hole l i n x) as (Hho & Hlast & Hlen' & _); [done|done|lia|done|].
  pose proof (down_loop_moved (S n) (list_swap i n l) i n ltac:(lia) ltac:(lia) Hho) as Hmoved.
  pose proof (down_loop_lookup (S n) (list_swap i n l) i n n ltac:(lia) ltac:(lia)) as Hk.
  pose proof (down_loop_perm (S n) (list_swap i n l) i n) as Hperm.
  unfold down. destruct (ldown_loop (S n) (list_swap i n l) i n) as [l1 i1]. simpl in Hmoved, Hk, Hperm.
  assert (∃ l2, (if i <? i1 then l1 else lup l1 i) = l2 ∧ heap_upto less n l2 ∧
            l2 ≡ₚ list_swap i n l ∧ l2 !! n = Some x) as (l2 & -> & Hheap & Hp2 & Hl2).
  { destruct Hmoved as [[[= -> ->] Hd]|[Hlt Hheap]].
    - rewrite Nat.ltb_irrefl. eexists; split_and!; [done| |by rewrite up_perm|].
      + apply up_heap; auto. lia.
      + unfold up. rewrite up_loop_lookup by lia. done.
    - rewrite (proj2 (Nat.ltb_lt _ _) Hlt). eexists; split_and!; eauto. congruence. }
  pose proof (Permutation_length Hp2).
  destruct (pop_last l2 x n) as [-> Hp]; [congruence|done|].
  exists (take n l2). split_and!; [done|apply heap_take; [done|lia]|].
  by rewrite <- Hp, Hp2, list_swap_perm.
Qed.

End list_heap.
