(* ===== verification/Queue.v ===== *)
(** * The ready queue (internal/queue/queue.go)

    [PriorityQueue] keeps a slice of [*item] pointers ordered by
    [container/heap] and a map from job ID to the same pointers, whose [index]
    field the heap maintains.  The model keeps the sharing: items live in a
    memory [mem] from addresses to items, the slice and the map hold addresses.

    The contract proved here is that the queue is a finite map from job IDs to
    (priority, created_at) from which [Pop] takes the first entry of the order
    (priority descending, created_at ascending, ID ascending). *)

From S2P Require Import Prelude Heap.

(** ** Model *)

Record item := mkItem {
  item_jobID : string;
  item_priority : Z;
  item_createdAt : Z;
  item_index : Z
}.

Definition set_item_index (x : Z) (it : item) : item :=
  mkItem it.(item_jobID) it.(item_priority) it.(item_createdAt) x.

(** The slice of pointers together with the memory it points into. *)
Record innerHeap := mkInnerHeap {
  ih_mem : gmap nat item;
  ih_slots : list nat
}.

(** The ordering key of an item, everything but its index. *)
Abbreviation key := (string * Z * Z)%type.

Definition item_key (it : item) : key :=
  (it.(item_jobID), it.(item_priority), it.(item_createdAt)).

Definition key_less (a b : key) : bool :=
  let '(ida, pa, ca) := a in
  let '(idb, pb, cb) := b in
  if negb (pa =? pb)%Z then (pb <? pa)%Z
  else if negb (ca =? cb)%Z then (ca <? cb)%Z
  else String.ltb ida idb.

Definition deref (mem : gmap nat item) (a : nat) : item :=
  default (mkItem "" 0 0 (-1)) (mem !! a).

Definition innerHeap_Len (h : innerHeap) : nat := length h.(ih_slots).

Definition innerHeap_Less (h : innerHeap) (i j : nat) : bool :=
  match h.(ih_slots) !! i, h.(ih_slots) !! j with
  | Some a, Some b =>
      key_less (item_key (deref h.(ih_mem) a)) (item_key (deref h.(ih_mem) b))
  | _, _ => false
  end.

Definition set_index (a : nat) (i : Z) (mem : gmap nat item) : gmap nat item :=
  alter (set_item_index i) a mem.

Definition innerHeap_Swap (i j : nat) (h : innerHeap) : innerHeap :=
  match h.(ih_slots) !! i, h.(ih_slots) !! j with
  | Some a, Some b =>
      mkInnerHeap
        (set_index a (Z.of_nat j) (set_index b (Z.of_nat i) h.(ih_mem)))
        (<[j:=a]> (<[i:=b]> h.(ih_slots)))
  | _, _ => h
  end.

Definition innerHeap_Push (a : nat) (h : innerHeap) : innerHeap :=
  mkInnerHeap (set_index a (Z.of_nat (length h.(ih_slots))) h.(ih_mem))
    (h.(ih_slots) ++ [a]).

Definition innerHeap_Pop (h : innerHeap) : option nat * innerHeap :=
  match last h.(ih_slots) with
  | Some a =>
      (Some a, mkInnerHeap (set_index a (-1) h.(ih_mem))
                 (take (length h.(ih_slots) - 1) h.(ih_slots)))
  | None => (None, h)
  end.

#[export] Instance innerHeap_Interface : heap_Interface innerHeap nat := {|
  hLen := innerHeap_Len;
  hLess := innerHeap_Less;
  hSwap := innerHeap_Swap;
  hPush := innerHeap_Push;
  hPop := innerHeap_Pop
|}.

(** [q_next] is the allocator: the address the next [&item{}] gets. *)
Record PriorityQueue := mkPriorityQueue {
  q_h : innerHeap;
  q_byID : gmap string nat;
  q_next : nat
}.

Definition Queue_New : PriorityQueue :=
  mkPriorityQueue (mkInnerHeap ∅ []) ∅ 0.

Definition Queue_Push (jobID : string) (priority createdAt : Z) (q : PriorityQueue)
    : bool * PriorityQueue :=
  match q.(q_byID) !! jobID with
  | Some _ => (false, q)
  | None =>
      let it := q.(q_next) in
      let mem := <[it := mkItem jobID priority createdAt 0]> q.(q_h).(ih_mem) in
      let h := heap_Push it (mkInnerHeap mem q.(q_h).(ih_slots)) in
      (true, mkPriorityQueue h (<[jobID:=it]> q.(q_byID)) (S it))
  end.

Definition Queue_Pop (q : PriorityQueue) : option string * PriorityQueue :=
  if innerHeap_Len q.(q_h) =? 0 then (None, q)
  else
    match heap_Pop q.(q_h) with
    | (Some it, h) =>
        let id := (deref h.(ih_mem) it).(item_jobID) in
        (Some id, mkPriorityQueue h (delete id q.(q_byID)) q.(q_next))
    | (None, h) => (None, mkPriorityQueue h q.(q_byID) q.(q_next))
    end.

Definition Queue_Remove (jobID : string) (q : PriorityQueue) : bool * PriorityQueue :=
  match q.(q_byID) !! jobID with
  | None => (false, q)
  | Some it =>
      let i := Z.to_nat (deref q.(q_h).(ih_mem) it).(item_index) in
      let '(_, h) := heap_Remove i q.(q_h) in
      (true, mkPriorityQueue h (delete jobID q.(q_byID)) q.(q_next))
  end.

Definition Queue_Contains (jobID : string) (q : PriorityQueue) : bool :=
  bool_decide (is_Some (q.(q_byID) !! jobID)).

Definition Queue_Len (q : PriorityQueue) : nat := innerHeap_Len q.(q_h).

Definition Queue_Clear (q : PriorityQueue) : PriorityQueue :=
  mkPriorityQueue (mkInnerHeap q.(q_h).(ih_mem) []) ∅ q.(q_next).

(** ** Invariant and contract *)

Definition keys (h : innerHeap) : list key :=
  (λ a, item_key (deref h.(ih_mem) a)) <$> h.(ih_slots).

(** Every slot points to an item that knows its position. *)
Definition slots_ok (h : innerHeap) : Prop :=
  ∀ i a, h.(ih_slots) !! i = Some a →
    ∃ it, h.(ih_mem) !! a = Some it ∧ it.(item_index) = Z.of_nat i.

Record queue_wf (q : PriorityQueue) : Prop := mkQueueWf {
  wf_slots : slots_ok q.(q_h);
  wf_heap : heap_ordered key_less (keys q.(q_h));
  wf_byID : ∀ id a, q.(q_byID) !! id = Some a ↔
              a ∈ q.(q_h).(ih_slots) ∧ (deref q.(q_h).(ih_mem) a).(item_jobID) = id;
  wf_fresh : ∀ a, is_Some (q.(q_h).(ih_mem) !! a) → a < q.(q_next)
}.

(** The abstract queue: what is queued, by job ID. *)
Definition queue_view (q : PriorityQueue) : gmap string (Z * Z) :=
  (λ a, let it := deref q.(q_h).(ih_mem) a in (it.(item_priority), it.(item_createdAt)))
    <$> q.(q_byID).

(** [e1] comes strictly before [e2] in the queue's order. *)
Definition before (id1 : string) (e1 : Z * Z) (id2 : string) (e2 : Z * Z) : bool :=
  key_less (id1, e1.1, e1.2) (id2, e2.1, e2.2).

Lemma key_less_true ida pa ca idb pb cb :
  key_less (ida, pa, ca) (idb, pb, cb) = true ↔
  (pb < pa ∨ pa = pb ∧ (ca < cb ∨ ca = cb ∧ String.ltb ida idb = true))%Z.
Proof.
  unfold key_less. destruct (Z.eqb_spec pa pb), (Z.eqb_spec ca cb); simpl;
    rewrite ?Z.ltb_lt; intuition lia.
Qed.

Lemma key_less_false ida pa ca idb pb cb :
  key_less (ida, pa, ca) (idb, pb, cb) = false ↔
  (pa < pb ∨ pa = pb ∧ (cb < ca ∨ ca = cb ∧ String.leb idb ida = true))%Z.
Proof.
  unfold key_less. destruct (Z.eqb_spec pa pb), (Z.eqb_spec ca cb); simpl;
    rewrite ?Z.ltb_ge; [rewrite ltb_leb, negb_false_iff|..]; intuition lia.
Qed.

Lemma leb_trans a b c :
  String.leb a b = true → String.leb b c = true → String.leb a c = true.
Proof.
  rewrite <- !Is_true_true. intros Hab Hbc. change (String.le a c). by trans b.
Qed.

#[export] Instance key_less_strict : StrictWeak key_less.
Proof.
  split.
  - intros [[ida pa] ca]. apply key_less_false. right. split; [done|]. right.
    split; [done|]. by destruct (String.leb_total ida ida).
  - intros [[ida pa] ca] [[idb pb] cb] [[idc pc] cc].
    rewrite !key_less_true, !ltb_true. unfold String.le. intros H1 H2.
    destruct H1 as [?|(-> & [?|(-> & Hab & Hne)])], H2 as [?|(-> & [?|(-> & Hbc & Hne')])];
      try lia.
    right. split; [done|]. right. split; [done|]. split.
    + apply Is_true_true. eapply leb_trans; by apply Is_true_true.
    + intros ->. destruct Hne. by apply (anti_symm String.le).
  - intros [[ida pa] ca] [[idb pb] cb] [[idc pc] cc]. rewrite !key_less_false.
    intros H1 H2.
    destruct H1 as [?|(-> & [?|(-> & Hab)])], H2 as [?|(-> & [?|(-> & Hbc)])]; try lia.
    right. split; [done|]. right. split; [done|]. by eapply leb_trans.
Qed.

(** ** The pointer heap refines the heap of keys *)

#[local] Instance key_heap : heap_Interface (list key) key := list_heap key_less.

Lemma deref_set_index_key mem a i b :
  item_key (deref (set_index a i mem) b) = item_key (deref mem b).
Proof.
  unfold deref, set_index. rewrite lookup_alter. case_decide; [subst|done].
  by destruct (mem !! b).
Qed.

Lemma keys_same_key mem mem' sl :
  (∀ a, item_key (deref mem' a) = item_key (deref mem a)) →
  keys (mkInnerHeap mem' sl) = (λ a, item_key (deref mem a)) <$> sl.
Proof. intros Hk. apply list_fmap_ext. intros _ a _. apply Hk. Qed.

Lemma set_index_is_Some mem a i b :
  is_Some (set_index a i mem !! b) ↔ is_Some (mem !! b).
Proof. unfold set_index. apply lookup_alter_is_Some. Qed.

Lemma keys_length h : length (keys h) = innerHeap_Len h.
Proof. apply length_fmap. Qed.

Lemma keys_lookup h i :
  keys h !! i = (λ a, item_key (deref h.(ih_mem) a)) <$> h.(ih_slots) !! i.
Proof. apply list_lookup_fmap. Qed.

#[export] Instance keys_morphism : heap_Morphism keys.
Proof.
  split.
  - intros h. apply length_fmap.
  - intros h i j. simpl. unfold list_less, innerHeap_Less. rewrite !keys_lookup.
    by destruct (_ !! i), (_ !! j).
  - intros h i j. simpl. unfold list_swap, innerHeap_Swap. rewrite !keys_lookup.
    destruct (_ !! i), (_ !! j); simpl; try done.
    rewrite (keys_same_key (ih_mem h)) by (intros; by rewrite !deref_set_index_key).
    by rewrite fmap_insert_swap.
Qed.

Lemma keys_push a h :
  keys (innerHeap_Push a h) = keys h ++ [item_key (deref h.(ih_mem) a)].
Proof.
  unfold innerHeap_Push.
  rewrite (keys_same_key (ih_mem h)) by (intros; by rewrite !deref_set_index_key).
  by rewrite fmap_app.
Qed.

(** [h] is [h0] with its slots rearranged: same items, same keys. *)
Record moved (h0 h : innerHeap) : Prop := mkMoved {
  mv_perm : h.(ih_slots) ≡ₚ h0.(ih_slots);
  mv_key : ∀ a, item_key (deref h.(ih_mem) a) = item_key (deref h0.(ih_mem) a);
  mv_dom : ∀ a, is_Some (h.(ih_mem) !! a) ↔ is_Some (h0.(ih_mem) !! a)
}.

Lemma moved_refl h : moved h h.
Proof. by split. Qed.

Lemma slots_ok_NoDup h : slots_ok h → NoDup h.(ih_slots).
Proof.
  intros Hok. apply NoDup_alt. intros i j a Hi Hj.
  destruct (Hok _ _ Hi) as (it & Hit & ?), (Hok _ _ Hj) as (it' & Hit' & ?).
  simplify_eq. lia.
Qed.

(** Writing indices one slot at a time keeps [slots_ok]. *)
Lemma swap_slots_ok h i j : slots_ok h → slots_ok (innerHeap_Swap i j h).
Proof.
  intros Hok. pose proof (slots_ok_NoDup _ Hok) as Hnd.
  unfold innerHeap_Swap.
  destruct (ih_slots h !! i) as [a|] eqn:Hi, (ih_slots h !! j) as [b|] eqn:Hj; try done.
  assert (∀ k, ih_slots h !! k = Some a → k = i) as Ha
    by (intros k Hk; by eapply NoDup_lookup).
  assert (∀ k, ih_slots h !! k = Some b → k = j) as Hb
    by (intros k Hk; by eapply NoDup_lookup).
  destruct (Hok _ _ Hi) as (ita & Hita & _), (Hok _ _ Hj) as (itb & Hitb & _).
  intros k c. simpl. rewrite (lookup_swap_total _ _ _ _ a b) by done.
  intros Hc. unfold set_index. rewrite !lookup_alter.
  repeat case_decide; simplify_eq/=; rewrite ?Hita, ?Hitb; simpl; eauto;
    exfalso; naive_solver.
Qed.

Lemma swap_moved h0 h i j : moved h0 h → moved h0 (innerHeap_Swap i j h).
Proof.
  intros [Hp Hk Hd]. unfold innerHeap_Swap.
  destruct (ih_slots h !! i) as [a|] eqn:Hi, (ih_slots h !! j) as [b|] eqn:Hj; try by split.
  split; simpl.
  - by rewrite Permutation_insert_swap.
  - intros c. by rewrite !deref_set_index_key.
  - intros c. by rewrite !set_index_is_Some.
Qed.

Definition steady (h0 h : innerHeap) : Prop := slots_ok h ∧ moved h0 h.

Lemma swap_steady h0 h i j : steady h0 h → steady h0 (hSwap i j h).
Proof. intros [? ?]. split; [by apply swap_slots_ok|by apply swap_moved]. Qed.

Lemma steady_refl h : slots_ok h → steady h h.
Proof. split; [done|apply moved_refl]. Qed.

#[local] Hint Resolve swap_steady steady_refl : core.

Lemma steady_keys h0 h : moved h0 h → keys h ≡ₚ keys h0.
Proof.
  intros [Hp Hk Hd]. destruct h as [mem sl]. rewrite (keys_same_key (ih_mem h0)) by done.
  unfold keys. by rewrite Hp.
Qed.

(** Removing the last slot. *)
Lemma pop_slots h a :
  slots_ok h → last h.(ih_slots) = Some a →
  ∃ h', innerHeap_Pop h = (Some a, h') ∧ slots_ok h' ∧
    h.(ih_slots) ≡ₚ a :: h'.(ih_slots) ∧
    (∀ b, item_key (deref h'.(ih_mem) b) = item_key (deref h.(ih_mem) b)) ∧
    (∀ b, is_Some (h'.(ih_mem) !! b) ↔ is_Some (h.(ih_mem) !! b)) ∧
    keys h' = (list_pop (keys h)).2.
Proof.
  intros Hok Hlast. unfold innerHeap_Pop. rewrite Hlast. eexists; split; [done|].
  pose proof (slots_ok_NoDup _ Hok) as Hnd. rewrite last_lookup in Hlast.
  pose proof (lookup_lt_Some _ _ _ Hlast) as Hlen. simpl. split_and!.
  - intros i b Hb. simpl in *. apply lookup_take_Some in Hb as [Hb Hi].
    destruct (Hok _ _ Hb) as (it & Hit & Hidx). exists it. split; [|done].
    unfold set_index. rewrite lookup_alter_ne; [done|]. intros ->.
    pose proof (NoDup_lookup _ _ _ _ Hnd Hlast Hb). lia.
  - rewrite <- (take_drop_middle _ _ _ Hlast) at 1.
    rewrite (drop_ge _ (S (pred _))) by lia. rewrite <- Nat.sub_1_r.
    by rewrite Permutation_app_comm.
  - intros b. apply deref_set_index_key.
  - intros b. apply set_index_is_Some.
  - rewrite (keys_same_key (ih_mem h)) by (intros; apply deref_set_index_key).
    unfold list_pop, keys. simpl. by rewrite length_fmap, fmap_take.
Qed.

Lemma push_slots a h it :
  slots_ok h → h.(ih_mem) !! a = Some it → a ∉ h.(ih_slots) →
  let h1 := innerHeap_Push a h in
  slots_ok h1 ∧ h1.(ih_slots) ≡ₚ a :: h.(ih_slots) ∧
  (∀ b, item_key (deref h1.(ih_mem) b) = item_key (deref h.(ih_mem) b)) ∧
  (∀ b, is_Some (h1.(ih_mem) !! b) ↔ is_Some (h.(ih_mem) !! b)).
Proof.
  intros Hok Hit Ha. simpl. split_and!.
  - intros i b Hb. simpl in *. unfold set_index. rewrite lookup_alter.
    apply lookup_app_Some in Hb as [Hb|[Hi Hb]].
    + rewrite decide_False; [by apply Hok|]. intros ->. apply Ha.
      by eapply list_elem_of_lookup_2.
    + apply list_lookup_singleton_Some in Hb as [Hi' <-]. rewrite decide_True, Hit by done.
      simpl. eexists; split; [done|]. simpl. f_equal. lia.
  - by rewrite Permutation_app_comm.
  - intros b. apply deref_set_index_key.
  - intros b. apply set_index_is_Some.
Qed.

Lemma heap_Push_steady a h it :
  slots_ok h → h.(ih_mem) !! a = Some it → a ∉ h.(ih_slots) →
  steady (innerHeap_Push a h) (heap_Push a h) ∧
  keys (heap_Push a h) = heap_Push (item_key it) (keys h).
Proof.
  intros Hok Hit Ha. destruct (push_slots a h it Hok Hit Ha) as (Hok1 & _).
  split.
  - unfold heap_Push, up. apply (up_loop_ind (steady (innerHeap_Push a h))); auto.
  - unfold heap_Push. rewrite (up_morph keys). cbn [hPush hLen innerHeap_Interface].
    rewrite keys_push. unfold deref. rewrite Hit. simpl.
    f_equal. unfold innerHeap_Len, keys. simpl. by rewrite !length_app, length_fmap.
Qed.

(** What [heap.Pop] and [heap.Remove] leave behind once the wanted element
    has been moved to the last slot of [h1]. *)
Record taken (h : innerHeap) (a : nat) (h' : innerHeap) : Prop := mkTaken {
  tk_ok : slots_ok h';
  tk_perm : h.(ih_slots) ≡ₚ a :: h'.(ih_slots);
  tk_key : ∀ b, item_key (deref h'.(ih_mem) b) = item_key (deref h.(ih_mem) b);
  tk_dom : ∀ b, is_Some (h'.(ih_mem) !! b) ↔ is_Some (h.(ih_mem) !! b);
  tk_heap : heap_ordered key_less (keys h')
}.

Lemma take_steady h h1 k l' :
  steady h h1 → list_pop (keys h1) = (Some k, l') → heap_ordered key_less l' →
  ∃ a h', innerHeap_Pop h1 = (Some a, h') ∧ taken h a h' ∧
    item_key (deref h.(ih_mem) a) = k ∧ keys h' = l'.
Proof.
  intros [Hok [Hp Hk Hd]] Hpop Hheap.
  unfold list_pop in Hpop. injection Hpop as Hlast Hl'.
  unfold keys in Hlast. rewrite fmap_last in Hlast.
  destruct (last (ih_slots h1)) as [a|] eqn:Ha; [|done]. simpl in Hlast.
  destruct (pop_slots h1 a Hok Ha) as (h' & Hpop & Hok' & Hp' & Hk' & Hd' & Hkeys).
  assert (keys h' = l') as Hkl by (rewrite Hkeys; unfold list_pop; by rewrite Hl').
  exists a, h'. split_and!; auto; [|by rewrite <- Hk; injection Hlast].
  split; auto.
  - by rewrite <- Hp, Hp'.
  - intros b. by rewrite Hk'.
  - intros b. by rewrite Hd'.
  - by rewrite Hkl.
Qed.

Lemma heap_Pop_taken h :
  slots_ok h → heap_ordered key_less (keys h) → h.(ih_slots) ≠ [] →
  ∃ a h', heap_Pop h = (Some a, h') ∧ taken h a h' ∧
    ∀ b, b ∈ h.(ih_slots) →
      key_less (item_key (deref h.(ih_mem) b)) (item_key (deref h.(ih_mem) a)) = false.
Proof.
  intros Hok Hheap Hne.
  destruct (keys h !! 0) as [k|] eqn:Hk.
  2:{ apply lookup_ge_None in Hk. unfold keys in Hk. rewrite length_fmap in Hk.
      by destruct (ih_slots h); simpl in Hk; [|lia]. }
  destruct (pop_spec key_less _ _ Hheap Hk) as (l' & Hpop & Hheap' & _).
  set (n := innerHeap_Len h - 1). set (h1 := (down (hSwap 0 n h) 0 n).1).
  assert (list_pop (keys h1) = (Some k, l')) as Hpop1.
  { rewrite <- Hpop. unfold heap_Pop. cbn [hPop key_heap list_heap]. f_equal.
    change (hLen (keys h)) with (length (keys h)). rewrite keys_length.
    rewrite <- (morph_swap h 0), (down_morph keys). done. }
  destruct (take_steady h h1 k l') as (a & h' & Hpop' & Htk & Hka & _); auto.
  { apply down_ind; eauto. }
  exists a, h'. split_and!; auto. intros b Hb.
  rewrite Hka. eapply (root_least key_less (keys h)); [done..|].
  unfold keys. apply list_elem_of_fmap. eauto.
Qed.

Lemma heap_Remove_taken h i a :
  slots_ok h → heap_ordered key_less (keys h) → h.(ih_slots) !! i = Some a →
  (∀ b, b ∈ h.(ih_slots) →
     item_key (deref h.(ih_mem) b) = item_key (deref h.(ih_mem) a) → b = a) →
  ∃ h', heap_Remove i h = (Some a, h') ∧ taken h a h'.
Proof.
  intros Hok Hheap Ha Hinj.
  assert (keys h !! i = Some (item_key (deref (ih_mem h) a))) as Hk
    by (by rewrite keys_lookup, Ha).
  destruct (remove_spec key_less _ _ _ Hheap Hk) as (l' & Hrem & Hheap' & Hperm).
  unfold heap_Remove in Hrem |- *.
  change (hLen (keys h)) with (length (keys h)) in Hrem. rewrite keys_length in Hrem.
  change (hLen h) with (innerHeap_Len h). set (n := innerHeap_Len h - 1) in *.
  match goal with |- ∃ _, hPop ?h1 = _ ∧ _ => assert (steady h h1) as Hst end.
  { case_decide; [by apply steady_refl|].
    pose proof (down_ind (steady h) (hSwap i n h) i n (swap_steady h)
      (swap_steady _ _ _ _ (steady_refl h Hok))) as Hst.
    destruct (down (hSwap i n h) i n) as [h1 m]; simpl in Hst.
    destruct m; [done|]. apply (up_loop_ind (steady h)); auto. }
  match goal with |- ∃ _, hPop ?h1 = _ ∧ _ =>
    destruct (take_steady h h1 (item_key (deref (ih_mem h) a)) l')
      as (a' & h' & Hpop & Htk & Hka & Hkl); [done| |done|] end.
  { rewrite <- Hrem. cbn [hPop key_heap list_heap]. f_equal.
    case_decide; [done|]. rewrite <- (morph_swap h i), (down_morph keys).
    destruct (down (hSwap i n h) i n) as [h1 m]; simpl.
    destruct m; [done|]. apply (up_morph keys). }
  exists h'. enough (a' = a) as -> by auto.
  apply Hinj; [|done]. rewrite (tk_perm _ _ _ Htk). by left.
Qed.

(** ** The queue's operations against the contract *)

Definition entry_of (it : item) : Z * Z := (it.(item_priority), it.(item_createdAt)).

Lemma key_eq_inv it1 it2 :
  item_key it1 = item_key it2 → it1.(item_jobID) = it2.(item_jobID) ∧ entry_of it1 = entry_of it2.
Proof. destruct it1, it2. unfold item_key, entry_of. simpl. by intros [= -> -> ->]. Qed.

Lemma view_lookup q id :
  queue_view q !! id = (λ a, entry_of (deref q.(q_h).(ih_mem) a)) <$> q.(q_byID) !! id.
Proof. apply lookup_fmap. Qed.

Lemma before_key id1 id2 it1 it2 :
  it1.(item_jobID) = id1 → it2.(item_jobID) = id2 →
  before id1 (entry_of it1) id2 (entry_of it2) = key_less (item_key it1) (item_key it2).
Proof. by intros <- <-. Qed.

Lemma wf_unique q a b :
  queue_wf q → a ∈ q.(q_h).(ih_slots) → b ∈ q.(q_h).(ih_slots) →
  (deref q.(q_h).(ih_mem) a).(item_jobID) = (deref q.(q_h).(ih_mem) b).(item_jobID) → a = b.
Proof.
  intros Hwf Ha Hb Hid.
  pose proof (proj2 (wf_byID q Hwf _ a) (conj Ha Hid)) as H1.
  pose proof (proj2 (wf_byID q Hwf _ b) (conj Hb eq_refl)) as H2. congruence.
Qed.

(** Taking an item out of the heap and its ID out of the map. *)
Lemma taken_wf q a h' id :
  queue_wf q → taken q.(q_h) a h' → (deref q.(q_h).(ih_mem) a).(item_jobID) = id →
  let q' := mkPriorityQueue h' (delete id q.(q_byID)) q.(q_next) in
  queue_wf q' ∧ queue_view q' = delete id (queue_view q).
Proof.
  intros Hwf [Hok Hp Hk Hd Hheap] Hid. simpl.
  assert (∀ b, (deref (ih_mem h') b).(item_jobID) = (deref (ih_mem (q_h q)) b).(item_jobID)) as Hk1
    by (intros b; apply key_eq_inv, Hk).
  assert (∀ b, entry_of (deref (ih_mem h') b) = entry_of (deref (ih_mem (q_h q)) b)) as Hk2
    by (intros b; apply key_eq_inv, Hk).
  pose proof (slots_ok_NoDup _ (wf_slots q Hwf)) as Hnd. rewrite Hp in Hnd.
  apply NoDup_cons in Hnd as [Hnotin _]. split; [split|]; simpl; auto.
  - intros id' b. rewrite lookup_delete, Hk1. case_decide as Hi.
    + split; [done|]. subst id'. intros [Hb Hjb]. destruct Hnotin.
      replace a with b; [done|].
      apply (wf_unique q); auto; [rewrite Hp; by right|rewrite Hp; by left|congruence].
    + rewrite (wf_byID q Hwf), Hp, elem_of_cons. split; [|tauto].
      intros [[->|Hb] Hj]; [congruence|tauto].
  - intros b Hb. apply (wf_fresh q Hwf). by apply Hd.
  - apply map_eq. intros id'. rewrite view_lookup, lookup_delete. simpl.
    rewrite lookup_delete. case_decide; [done|]. rewrite view_lookup.
    destruct (q_byID q !! id'); simpl; [by rewrite Hk2|done].
Qed.

Lemma new_wf : queue_wf Queue_New.
Proof.
  split; simpl.
  - intros i a Ha. simpl in Ha. by rewrite lookup_nil in Ha.
  - intros k a b _ Hk. simpl in Hk. lia.
  - intros id a. rewrite lookup_empty. split; [done|]. intros [Ha _]. by apply elem_of_nil in Ha.
  - intros a. rewrite lookup_empty. by intros [].
Qed.

(** [&item{...}]: a fresh address, in no slot, shared with nothing. *)
Lemma alloc_item q it :
  queue_wf q →
  let a := q.(q_next) in
  let h := mkInnerHeap (<[a:=it]> q.(q_h).(ih_mem)) q.(q_h).(ih_slots) in
  (a ∉ q.(q_h).(ih_slots)) ∧ slots_ok h ∧ deref h.(ih_mem) a = it ∧
  (∀ b, b ≠ a → deref h.(ih_mem) b = deref q.(q_h).(ih_mem) b) ∧
  keys h = keys q.(q_h).
Proof.
  intros Hwf a h.
  assert (ih_mem (q_h q) !! a = None) as Hfresh.
  { destruct (ih_mem (q_h q) !! a) eqn:E; [|done].
    pose proof (wf_fresh q Hwf a ltac:(by eauto)). subst a. lia. }
  assert (a ∉ ih_slots (q_h q)) as Hnotin.
  { intros [i Hi]%list_elem_of_lookup. destruct (wf_slots q Hwf _ _ Hi) as (?&?&_). congruence. }
  assert (∀ b, b ≠ a → deref (ih_mem h) b = deref (ih_mem (q_h q)) b) as Hold
    by (intros b Hb; unfold deref; simpl; by rewrite lookup_insert_ne).
  split_and!; auto.
  - intros i b Hb. simpl in *. destruct (wf_slots q Hwf _ _ Hb) as (x & Hx & ?).
    exists x. rewrite lookup_insert_ne; [done|]. intros <-. congruence.
  - unfold deref; simpl; by rewrite lookup_insert_eq.
  - apply list_fmap_ext. intros i b Hb. simpl. rewrite Hold; [done|].
    intros ->. apply Hnotin. by eapply list_elem_of_lookup_2.
Qed.

Lemma push_wf id p c q :
  queue_wf q → queue_view q !! id = None →
  ∃ q', Queue_Push id p c q = (true, q') ∧ queue_wf q' ∧
    queue_view q' = <[id:=(p, c)]> (queue_view q).
Proof.
  intros Hwf Hid. rewrite view_lookup in Hid. apply fmap_None in Hid.
  unfold Queue_Push. rewrite Hid. eexists; split; [done|].
  set (it := mkItem id p c 0).
  destruct (alloc_item q it Hwf) as (Hnotin & Hok & Hnew & Hold & Hkh).
  set (a := q_next q) in *.
  set (h := mkInnerHeap (<[a:=it]> (ih_mem (q_h q))) (ih_slots (q_h q))) in *.
  destruct (push_slots a h it Hok ltac:(simpl; apply lookup_insert_eq) Hnotin) as (_ & Hp1 & Hk1 & Hd1).
  destruct (heap_Push_steady a h it Hok ltac:(simpl; apply lookup_insert_eq) Hnotin)
    as [[Hok' [Hp' Hk' Hd']] Hkeys].
  assert (∀ b, item_key (deref (ih_mem (heap_Push a h)) b) = item_key (deref (ih_mem h) b)) as Hk
    by (intros b; by rewrite Hk', Hk1).
  split; [split|]; simpl; auto.
  - rewrite Hkeys, Hkh. apply (push_heap key_less), (wf_heap q Hwf).
  - intros id' b. rewrite Hp', Hp1, elem_of_cons. simpl.
    rewrite (proj1 (key_eq_inv _ _ (Hk b))), lookup_insert. case_decide as Hi.
    + subst id'. split; [intros [= <-]; rewrite Hnew; auto|].
      intros [[->|Hb] Hj]; [done|]. rewrite Hold in Hj by (by intros ->).
      pose proof (proj2 (wf_byID q Hwf id b) (conj Hb Hj)). congruence.
    + rewrite (wf_byID q Hwf). split.
      * intros [Hb Hj]. rewrite Hold by (by intros ->). auto.
      * intros [[->|Hb] Hj]; [rewrite Hnew in Hj; done|].
        rewrite Hold in Hj by (by intros ->). auto.
  - intros b Hb. apply Hd', Hd1 in Hb. simpl in Hb. apply lookup_insert_is_Some in Hb.
    destruct Hb as [->|[_ Hb]]; [lia|]. pose proof (wf_fresh q Hwf b Hb). lia.
  - apply map_eq. intros id'. rewrite view_lookup. simpl. rewrite !lookup_insert, view_lookup.
    case_decide; simpl; [by rewrite (proj2 (key_eq_inv _ _ (Hk a))), Hnew|].
    destruct (q_byID q !! id') as [b|] eqn:Hb; simpl; [|done]. f_equal.
    rewrite (proj2 (key_eq_inv _ _ (Hk b))), Hold; [done|]. intros ->.
    apply (wf_byID q Hwf) in Hb as [? _]. done.
Qed.

(** The IDs in the heap are exactly the IDs of the map, each once. *)
Definition slot_ids (q : PriorityQueue) : list string :=
  (λ a, (deref q.(q_h).(ih_mem) a).(item_jobID)) <$> q.(q_h).(ih_slots).

Lemma slot_ids_NoDup q : queue_wf q → NoDup (slot_ids q).
Proof.
  intros Hwf. apply NoDup_fmap_2_strong; [|by apply slots_ok_NoDup, Hwf].
  intros a b Ha Hb. by apply (wf_unique q).
Qed.

Lemma slot_ids_dom q : queue_wf q → list_to_set (slot_ids q) = dom (queue_view q).
Proof.
  intros Hwf. apply set_eq. intros id. unfold queue_view, slot_ids.
  rewrite dom_fmap_L, elem_of_list_to_set, list_elem_of_fmap, elem_of_dom. split.
  - intros (a & -> & Ha). exists a. by apply (wf_byID q Hwf).
  - intros (a & Ha). apply (wf_byID q Hwf) in Ha as [Ha <-]. eauto.
Qed.

Lemma view_len q : queue_wf q → Queue_Len q = size (queue_view q).
Proof.
  intros Hwf. rewrite <- size_dom, <- slot_ids_dom by done.
  rewrite size_list_to_set by (by apply slot_ids_NoDup).
  unfold slot_ids. by rewrite length_fmap.
Qed.

Lemma pop_wf q :
  queue_wf q →
  (Queue_Pop q = (None, q) ∧ queue_view q = ∅) ∨
  ∃ id e q', Queue_Pop q = (Some id, q') ∧ queue_wf q' ∧ queue_view q !! id = Some e ∧
    queue_view q' = delete id (queue_view q) ∧
    ∀ id' e', queue_view q !! id' = Some e' → before id' e' id e = false.
Proof.
  intros Hwf. unfold Queue_Pop. destruct (Nat.eqb_spec (innerHeap_Len (q_h q)) 0) as [Hl|Hl].
  { left. split; [done|]. apply map_size_empty_iff. by rewrite <- view_len. }
  right. destruct (heap_Pop_taken (q_h q)) as (a & h' & -> & Htk & Hleast).
  1-2: apply Hwf. { intros Hnil. unfold innerHeap_Len in Hl. by rewrite Hnil in Hl. }
  set (id := item_jobID (deref (ih_mem (q_h q)) a)).
  assert (item_jobID (deref (ih_mem h') a) = id) as Hid
    by apply (key_eq_inv _ _ (tk_key _ _ _ Htk a)).
  destruct (taken_wf q a h' id Hwf Htk eq_refl) as [Hwf' Hview].
  assert (a ∈ ih_slots (q_h q)) as Ha by (rewrite (tk_perm _ _ _ Htk); by left).
  eexists id, (entry_of (deref (ih_mem (q_h q)) a)), _. rewrite Hid.
  split_and!; [done|done| |done|].
  - rewrite view_lookup. by rewrite (proj2 (wf_byID q Hwf id a) (conj Ha eq_refl)).
  - intros id' e'. rewrite view_lookup. intros (b & Hb & ->)%fmap_Some_1.
    apply (wf_byID q Hwf) in Hb as [Hb Hj]. rewrite before_key by done. by apply Hleast.
Qed.

Lemma remove_wf id q :
  queue_wf q → is_Some (queue_view q !! id) →
  ∃ q', Queue_Remove id q = (true, q') ∧ queue_wf q' ∧
    queue_view q' = delete id (queue_view q).
Proof.
  intros Hwf. rewrite view_lookup, fmap_is_Some. intros [a Ha].
  unfold Queue_Remove. rewrite Ha. apply (wf_byID q Hwf) in Ha as [Hin Hid].
  pose proof Hin as [i Hi]%list_elem_of_lookup.
  destruct (wf_slots q Hwf _ _ Hi) as (it & Hit & Hidx).
  assert (deref (ih_mem (q_h q)) a = it) as Hd by (unfold deref; by rewrite Hit).
  rewrite Hd, Hidx, Nat2Z.id.
  destruct (heap_Remove_taken (q_h q) i a) as (h' & -> & Htk); [apply Hwf|apply Hwf|done| |].
  { intros b Hb Hk. apply (wf_unique q); auto. by apply key_eq_inv in Hk as [? _]. }
  eexists; split; [done|]. by eapply taken_wf.
Qed.

Lemma push_wf_any id p c q : queue_wf q → queue_wf (Queue_Push id p c q).2.
Proof.
  intros Hwf. destruct (queue_view q !! id) eqn:Hv.
  - unfold Queue_Push. rewrite view_lookup in Hv. by destruct (q_byID q !! id).
  - by destruct (push_wf id p c q Hwf Hv) as (q' & -> & ? & ?).
Qed.

Lemma pop_wf_any q : queue_wf q → queue_wf (Queue_Pop q).2.
Proof.
  intros Hwf. by destruct (pop_wf q Hwf) as [[-> ?]|(id & e & q' & -> & ? & ? & ? & ?)].
Qed.

Lemma remove_view id q :
  queue_wf q →
  queue_wf (Queue_Remove id q).2 ∧ queue_view (Queue_Remove id q).2 = delete id (queue_view q).
Proof.
  intros Hwf. destruct (queue_view q !! id) as [e|] eqn:Hv.
  - destruct (remove_wf id q Hwf) as (q' & -> & ? & ?); [by eexists|]. auto.
  - unfold Queue_Remove. rewrite (delete_id (queue_view q)) by done.
    rewrite view_lookup in Hv. by apply fmap_None in Hv as ->.
Qed.

Lemma remove_wf_any id q : queue_wf q → queue_wf (Queue_Remove id q).2.
Proof. apply remove_view. Qed.

Lemma clear_wf q : queue_wf q → queue_wf (Queue_Clear q).
Proof.
  intros Hwf. split; simpl.
  - intros i a. simpl. by rewrite lookup_nil.
  - intros k a b _ Hk. simpl in Hk. lia.
  - intros id a. rewrite lookup_empty. split; [done|]. intros [Ha _]. by apply elem_of_nil in Ha.
  - apply Hwf.
Qed.

Lemma clear_view q : queue_view (Queue_Clear q) = ∅.
Proof. apply fmap_empty. Qed.

(** Pop until the queue is empty; [Queue_Len q] rounds do. *)
Fixpoint Queue_drain (fuel : nat) (q : PriorityQueue) : list string :=
  match fuel with
  | O => []
  | S fuel =>
      match Queue_Pop q with
      | (Some id, q') => id :: Queue_drain fuel q'
      | (None, _) => []
      end
  end.

(** The order in which two queued IDs may come out. *)
Definition in_order (v : gmap string (Z * Z)) (id1 id2 : string) : Prop :=
  ∀ e1 e2, v !! id1 = Some e1 → v !! id2 = Some e2 → before id2 e2 id1 e1 = false.

Lemma drain_spec fuel q :
  queue_wf q → size (queue_view q) ≤ fuel →
  Queue_drain fuel q ≡ₚ elements (dom (queue_view q)) ∧
  StronglySorted (in_order (queue_view q)) (Queue_drain fuel q).
Proof.
  revert q. induction fuel as [|fuel IH]; intros q Hwf Hs; simpl.
  { assert (queue_view q = ∅) as -> by (apply map_size_empty_iff; lia).
    rewrite dom_empty_L, elements_empty. split; [done|constructor]. }
  destruct (pop_wf q Hwf) as [[-> Hv]|(id & e & q' & -> & Hwf' & He & Hv & Hleast)].
  { rewrite Hv, dom_empty_L, elements_empty. split; [done|constructor]. }
  destruct (IH q' Hwf') as [Hp Hsorted].
  { rewrite Hv, map_size_delete_Some by eauto. lia. }
  assert (dom (queue_view q) = {[id]} ∪ dom (queue_view q')) as Hdom.
  { rewrite Hv, dom_delete_L, <- union_difference_L; [done|].
    apply singleton_subseteq_l, elem_of_dom. eauto. }
  split.
  - rewrite Hdom, elements_union_singleton; [by rewrite Hp|].
    rewrite Hv, dom_delete_L. set_solver.
  - constructor.
    + eapply StronglySorted_weaken; [|done]. intros x y Hx Hy Hxy e1 e2 He1 He2.
      rewrite Hp, elem_of_elements, Hv, dom_delete_L in Hx, Hy.
      apply Hxy; rewrite Hv, lookup_delete_ne; set_solver.
    + apply Forall_forall. intros y _ e1 e2 He1 He2. simplify_eq. by eapply Hleast.
Qed.

(** A run of the queue's operations from [New], for the witnesses. *)
Definition sample_queue : PriorityQueue :=
  (Queue_Push "mid" 5 10 (Queue_Push "high" 10 30 (Queue_Push "low" 1 20 Queue_New).2).2).2.

Lemma sample_queue_wf : queue_wf sample_queue.
Proof.
  unfold sample_queue. repeat (apply push_wf_any). apply new_wf.
Qed.

(** ** Properties *)

(** Push implements insertion into the abstract queue: an ID that is
    already queued leaves the queue unchanged and reports false; a new ID is
    inserted with its priority and creation time and reports true.  Either way
    the queue stays well formed. *)
Theorem Queue_Push_refines (id : string) (p c : Z) (q : PriorityQueue) :
  queue_wf q →
  let '(ok, q') := Queue_Push id p c q in
  queue_wf q' ∧
  match queue_view q !! id with
  | Some _ => ok = false ∧ q' = q
  | None => ok = true ∧ queue_view q' = <[id:=(p, c)]> (queue_view q)
  end.
Proof.
  intros Hwf. destruct (queue_view q !! id) eqn:Hv.
  - unfold Queue_Push. rewrite view_lookup in Hv. by destruct (q_byID q !! id).
  - destruct (push_wf id p c q Hwf Hv) as (q' & -> & ? & ?). auto.
Qed.

Lemma Queue_Push_refines_witness :
  queue_wf (Queue_Push "new" 7 5 sample_queue).2 ∧ (Queue_Push "new" 7 5 sample_queue).1 = true ∧
  (Queue_Push "mid" 7 5 sample_queue).1 = false.
Proof.
  pose proof (Queue_Push_refines "new" 7 5 sample_queue sample_queue_wf) as H. split; [|split; vm_compute; reflexivity].
  destruct (Queue_Push "new" 7 5 sample_queue) as [ok q']. apply H.
Defined.

(** C12. Pop on a non-empty queue removes and returns an entry that no other
    queued entry precedes in (priority descending, created_at ascending, ID
    ascending); on an empty queue it changes nothing.  The queue stays well
    formed. *)
Theorem Queue_Pop_refines (q : PriorityQueue) :
  queue_wf q →
  match Queue_Pop q with
  | (None, q') => q' = q ∧ queue_view q = ∅
  | (Some id, q') =>
      queue_wf q' ∧ queue_view q' = delete id (queue_view q) ∧
      ∃ e, queue_view q !! id = Some e ∧
        ∀ id' e', queue_view q !! id' = Some e' → before id' e' id e = false
  end.
Proof.
  intros Hwf. destruct (pop_wf q Hwf) as [[-> ?]|(id & e & q' & -> & ? & ? & ? & ?)]; eauto.
Qed.

Lemma Queue_Pop_refines_witness :
  (Queue_Pop sample_queue).1 = Some "high" ∧ queue_wf (Queue_Pop sample_queue).2 ∧
  queue_view (Queue_Pop sample_queue).2 = delete "high" (queue_view sample_queue).
Proof.
  assert ((Queue_Pop sample_queue).1 = Some "high") as E by (vm_compute; reflexivity). split; [exact E|].
  pose proof (Queue_Pop_refines sample_queue sample_queue_wf) as H.
  destruct (Queue_Pop sample_queue) as [o q']. simpl in E |- *. rewrite E in H. destruct H as (H1 & H2 & _). auto.
Defined.

(** Remove deletes exactly the given ID, wherever the heap has put it,
    and reports whether it was queued. *)
Theorem Queue_Remove_refines (id : string) (q : PriorityQueue) :
  queue_wf q →
  let '(ok, q') := Queue_Remove id q in
  queue_wf q' ∧ queue_view q' = delete id (queue_view q) ∧
  ok = Queue_Contains id q.
Proof.
  intros Hwf. unfold Queue_Contains. destruct (queue_view q !! id) as [e|] eqn:Hv.
  - destruct (remove_wf id q Hwf) as (q' & -> & ? & ?); [by eexists|]. split_and!; auto.
    rewrite view_lookup in Hv. symmetry. apply bool_decide_eq_true.
    apply fmap_Some_1 in Hv as (a & -> & _). by eexists.
  - unfold Queue_Remove. rewrite (delete_id (queue_view q)) by done.
    rewrite view_lookup in Hv. by apply fmap_None in Hv as ->.
Qed.

Lemma Queue_Remove_refines_witness :
  queue_wf (Queue_Remove "low" sample_queue).2 ∧ (Queue_Remove "low" sample_queue).1 = true.
Proof.
  pose proof (Queue_Remove_refines "low" sample_queue sample_queue_wf) as H. split; [|vm_compute; reflexivity].
  destruct (Queue_Remove "low" sample_queue) as [ok q']. apply H.
Defined.

(** Draining the queue yields every queued ID exactly once, in the
    documented order: higher priority first, older first within a priority,
    then by ID. *)
Theorem Queue_drain_sorted (q : PriorityQueue) :
  queue_wf q →
  Queue_drain (Queue_Len q) q ≡ₚ elements (dom (queue_view q)) ∧
  StronglySorted (in_order (queue_view q)) (Queue_drain (Queue_Len q) q).
Proof. intros Hwf. apply drain_spec; [done|]. by rewrite view_len. Qed.

Lemma Queue_drain_sorted_witness :
  Queue_drain 3 sample_queue = ["high"; "mid"; "low"] ∧
  StronglySorted (in_order (queue_view sample_queue)) (Queue_drain (Queue_Len sample_queue) sample_queue).
Proof. split; [vm_compute; reflexivity|]. apply (Queue_drain_sorted sample_queue sample_queue_wf). Defined.
