(* ===== verification/Retry.v ===== *)
(** * Retry and backoff (internal/retry/retry.go)

    [Backoff] computes in [float64]; the model computes in IEEE binary64 with
    the standard library's executable specification of it ([SpecFloat] at
    precision 53 and maximal exponent 1024), so rounding, overflow to infinity
    and NaN are those of the code.  The draw of [rand.Float64] is an argument.
    Converting a float outside the range of [int64] is implementation-defined in
    Go: the value it gives is the parameter [oor]. *)

From S2P Require Import Prelude Types.

#[local] Open Scope Z_scope.

(** ** binary64 *)

Definition f64 := spec_float.
Definition fmul : f64 → f64 → f64 := SFmul 53 1024.
Definition fadd : f64 → f64 → f64 := SFadd 53 1024.
Definition fsub : f64 → f64 → f64 := SFsub 53 1024.

(** [float64(z)] *)
Definition f64_of_int (z : Z) : f64 := binary_normalize 53 1024 z 0 false.

(** The magnitude of a finite float, rounded towards zero. *)
Definition trunc_finite (m : positive) (e : Z) : Z := Z.shiftl (Zpos m) e.

(** [int64(x)] *)
Definition f64_to_int64 (oor : f64 → Z) (x : f64) : Z :=
  match x with
  | S754_zero _ => 0
  | S754_finite s m e =>
      let v := if s then - trunc_finite m e else trunc_finite m e in
      if (min_int64 <=? v) && (v <=? max_int64) then v else oor x
  | _ => oor x
  end.

(** ** The package *)

Definition DefaultMaxAttempts : Z := 3.
Definition defaultInitial : Z := 1000000000.
Definition defaultMax : Z := 30 * 1000000000.
Definition defaultMultiplier : f64 := f64_of_int 2.
Definition defaultJitter : f64 := SFdiv 53 1024 (f64_of_int 1) (f64_of_int 5).

Definition MaxAttempts (p : option RetryPolicy) : Z :=
  match p with
  | None => DefaultMaxAttempts
  | Some p =>
      if p.(RetryPolicy_MaxAttempts) <=? 0 then DefaultMaxAttempts
      else p.(RetryPolicy_MaxAttempts)
  end.

(** The parameters after the nil and zero checks:
    [initial], [maxB], [mult], [jitter]. *)
Definition backoff_params (p : option RetryPolicy) : Z * Z * f64 * f64 :=
  match p with
  | None => (defaultInitial, defaultMax, defaultMultiplier, defaultJitter)
  | Some p =>
      let d1 := AsDuration p.(RetryPolicy_InitialBackoff) in
      let d2 := AsDuration p.(RetryPolicy_MaxBackoff) in
      let m := p.(RetryPolicy_BackoffMultiplier) in
      let j := p.(RetryPolicy_Jitter) in
      (if 0 <? d1 then d1 else defaultInitial,
       if 0 <? d2 then d2 else defaultMax,
       if SFltb (S754_zero false) m then m else defaultMultiplier,
       if SFltb (S754_zero false) j then j else defaultJitter)
  end.

(** The [for i := 1; i < attempt; i++] loop, [n] iterations to go. *)
Fixpoint backoff_loop (mult maxB : f64) (n : nat) (base : f64) : f64 :=
  match n with
  | O => base
  | S n =>
      let base := fmul base mult in
      if SFleb maxB base then maxB else backoff_loop mult maxB n base
  end.

(** The delay before jitter, as a float number of nanoseconds. *)
Definition backoff_base (p : option RetryPolicy) (attempt : Z) : f64 :=
  let '(initial, maxB, mult, _) := backoff_params p in
  let attempt := if attempt <? 1 then 1 else attempt in
  backoff_loop mult (f64_of_int maxB) (Z.to_nat (attempt - 1)) (f64_of_int initial).

(** Jitter and the clamp at zero; [r] is the draw of [rand.Float64()]. *)
Definition backoff_jitter (p : option RetryPolicy) (base r : f64) : f64 :=
  let '(_, _, _, jitter) := backoff_params p in
  let base :=
    if SFltb (S754_zero false) jitter then
      fmul base (fadd (f64_of_int 1)
                   (fmul (fsub (fmul r (f64_of_int 2)) (f64_of_int 1)) jitter))
    else base in
  if SFltb base (S754_zero false) then S754_zero false else base.

Definition Backoff (oor : f64 → Z) (p : option RetryPolicy) (attempt : Z) (r : f64) : Z :=
  f64_to_int64 oor (backoff_jitter p (backoff_base p attempt) r).

(** ** Facts about the float operations used *)

(** Neither NaN nor negative. *)
Definition fnonneg (x : f64) : bool :=
  match x with
  | S754_zero _ | S754_infinity false | S754_finite false _ _ => true
  | _ => false
  end.

Definition ffinite (x : f64) : bool :=
  match x with S754_zero _ | S754_finite _ _ _ => true | _ => false end.

Lemma shr_1_nonneg r : 0 <= shr_m r → 0 <= shr_m (shr_1 r).
Proof. destruct r as [[|[]|] r s]; simpl; lia. Qed.

Lemma shr_nonneg r e n : 0 <= shr_m r → 0 <= shr_m (shr r e n).1.
Proof.
  intros Hr. destruct n as [|p|p]; simpl; try done. revert r Hr.
  induction p as [p IH|p IH|]; intros r Hr; simpl; auto using shr_1_nonneg.
Qed.

Lemma shr_of_loc_nonneg m l : 0 <= m → 0 <= shr_m (shr_record_of_loc m l).
Proof. by destruct l as [|[]]. Qed.

Lemma round_nearest_even_nonneg m l : 0 <= m → 0 <= round_nearest_even m l.
Proof. destruct l as [|[]]; simpl; try lia. destruct (Z.even m); lia. Qed.

(** Rounding a non-negative magnitude gives a non-negative number. *)
Lemma round_aux_nonneg m e l :
  0 <= m → fnonneg (binary_round_aux 53 1024 false m e l) = true.
Proof.
  intros Hm. unfold binary_round_aux, shr_fexp.
  match goal with |- context [shr ?r ?e ?n] =>
    pose proof (shr_nonneg r e n (shr_of_loc_nonneg _ _ Hm)) as H1;
    destruct (shr r e n) as [r1 e1] end. simpl in H1.
  match goal with |- context [shr (shr_record_of_loc ?m ?l) ?e ?n] =>
    pose proof (shr_nonneg (shr_record_of_loc m l) e n
      (shr_of_loc_nonneg _ _ (round_nearest_even_nonneg _ (loc_of_shr_record r1) H1))) as H2;
    destruct (shr (shr_record_of_loc m l) e n) as [r2 e2] end. simpl in H2.
  destruct (shr_m r2); [done| |lia]. by destruct (_ <=? _).
Qed.

Lemma f64_of_int_nonneg z : 0 <= z → fnonneg (f64_of_int z) = true.
Proof.
  intros Hz. unfold f64_of_int, binary_normalize.
  destruct z as [|z|z]; [done| |lia]. unfold binary_round.
  destruct (shl_align _ _ _). by apply round_aux_nonneg.
Qed.

Lemma fmul_nonneg x m e :
  fnonneg x = true → fnonneg (fmul x (S754_finite false m e)) = true.
Proof.
  destruct x as [|[]| |[]]; simpl; intros; try done. by apply round_aux_nonneg.
Qed.

(** Comparison is total on numbers. *)
Lemma SFcompare_swap x y : SFcompare y x = CompOpp <$> SFcompare x y.
Proof.
  destruct x as [|[]| |[] m1 e1], y as [|[]| |[] m2 e2]; try done; simpl;
    rewrite (Z.compare_antisym e1 e2);
    change (PosDef.Pos.compare_cont Eq) with Pos.compare;
    destruct (e1 ?= e2); try done; simpl; rewrite (Pos.compare_antisym m1 m2);
    by destruct (m1 ?= m2)%positive.
Qed.

Lemma SFleb_total x y :
  fnonneg x = true → fnonneg y = true → SFleb x y = false → SFleb y x = true.
Proof.
  intros Hx Hy. unfold SFleb. rewrite (SFcompare_swap x y).
  destruct (SFcompare x y) as [[]|] eqn:E; try done.
  by destruct x as [|[]| |[]], y as [|[]| |[]].
Qed.

Lemma SFleb_refl x : fnonneg x = true → SFleb x x = true.
Proof.
  intros Hx. destruct (SFleb x x) eqn:E; [done|]. by rewrite SFleb_total in E.
Qed.

(** ** The loop *)

Fixpoint fpow (mult : f64) (n : nat) (base : f64) : f64 :=
  match n with O => base | S n => fpow mult n (fmul base mult) end.

(** The loop is the documented [min(max, initial * mult^n)], with the minimum
    taken at the first product that reaches the maximum. *)
Lemma backoff_loop_spec mult maxB n base :
  backoff_loop mult maxB n base =
    if existsb (λ k, SFleb maxB (fpow mult k base)) (seq 1 n) then maxB
    else fpow mult n base.
Proof.
  revert base. induction n as [|n IH]; intros base; [done|]. simpl.
  destruct (SFleb maxB (fmul base mult)); [done|]. simpl. rewrite IH.
  rewrite <- (seq_shift n 1).
  enough (existsb (λ k, SFleb maxB (fpow mult k (fmul base mult))) (seq 1 n) =
    existsb (λ k, SFleb maxB (fpow mult k base)) (map S (seq 1 n))) as -> by reflexivity.
  clear IH. induction (seq 1 n) as [|k ks IHk]; simpl; [done|]. by rewrite IHk.
Qed.

Lemma backoff_loop_capped m e maxB n base :
  fnonneg maxB = true → fnonneg base = true →
  SFleb (backoff_loop (S754_finite false m e) maxB (S n) base) maxB = true.
Proof.
  intros HM. revert base. induction n as [|n IH]; intros base Hb.
  - cbn [backoff_loop].
    destruct (SFleb maxB (fmul base _)) eqn:E; [by apply SFleb_refl|].
    apply SFleb_total; auto. by apply fmul_nonneg.
  - remember (S n) as k. cbn [backoff_loop].
    destruct (SFleb maxB (fmul base _)) eqn:E; [by apply SFleb_refl|].
    by apply IH, fmul_nonneg.
Qed.

(** ** Properties *)

Lemma backoff_params_ok p :
  let '(initial, maxB, mult, jitter) := backoff_params p in
  0 < initial ∧ 0 < maxB ∧ SFltb (S754_zero false) mult = true ∧
  SFltb (S754_zero false) jitter = true.
Proof.
  unfold backoff_params. destruct p as [q|]; [|by split_and!].
  destruct (Z.ltb_spec 0 (AsDuration (RetryPolicy_InitialBackoff q))),
    (Z.ltb_spec 0 (AsDuration (RetryPolicy_MaxBackoff q)));
    unfold defaultInitial, defaultMax;
    destruct (RetryPolicy_BackoffMultiplier q) as [|[]| |[]],
      (RetryPolicy_Jitter q) as [|[]| |[]]; split_and!; (lia || done).
Qed.

(** C39. From the second attempt on, the delay before jitter never exceeds the
    configured maximum, for any policy whose multiplier is a finite number. *)
Theorem backoff_base_capped (p : option RetryPolicy) (attempt : Z) :
  2 <= attempt → ffinite (backoff_params p).1.2 = true →
  SFleb (backoff_base p attempt) (f64_of_int (backoff_params p).1.1.2) = true.
Proof.
  intros Ha Hm. pose proof (backoff_params_ok p) as Hok. unfold backoff_base.
  destruct (backoff_params p) as [[[initial maxB] mult] jitter]. simpl in *.
  destruct Hok as (? & ? & Hmult & _).
  destruct (Z.ltb_spec attempt 1); [lia|].
  replace (Z.to_nat (attempt - 1)) with (S (Z.to_nat (attempt - 2))) by lia.
  destruct mult as [| | |[]]; try done.
  apply backoff_loop_capped; apply f64_of_int_nonneg; lia.
Qed.

Lemma backoff_base_capped_witness :
  SFleb (backoff_base None 9) (f64_of_int defaultMax) = true.
Proof. apply (backoff_base_capped None 9); [lia|vm_compute; reflexivity]. Defined.

Lemma backoff_jitter_not_negative p base r s m e :
  backoff_jitter p base r = S754_finite s m e → s = false.
Proof.
  unfold backoff_jitter. destruct (backoff_params p) as [[[? ?] ?] jitter].
  match goal with |- context [SFltb ?x (S754_zero false)] => generalize x end.
  intros x. destruct x as [|[]| |[]]; simpl; naive_solver.
Qed.

(** A computed delay is negative only if the float does not fit a
    [time.Duration] (infinite, NaN, or beyond [int64]), in which case it is
    whatever the platform's conversion gives. *)
Theorem Backoff_nonneg (oor : f64 → Z) (p : option RetryPolicy) (attempt : Z) (r : f64) :
  0 <= Backoff oor p attempt r ∨
  Backoff oor p attempt r = oor (backoff_jitter p (backoff_base p attempt) r).
Proof.
  unfold Backoff.
  destruct (backoff_jitter p (backoff_base p attempt) r) as [s|s| |s m e] eqn:E; simpl; auto.
  - left. lia.
  - apply backoff_jitter_not_negative in E as ->. destruct (_ && _); [left|by right].
    unfold trunc_finite. by apply Z.shiftl_nonneg.
Qed.

(** The delay before jitter is [initial * multiplier^(attempt-1)] computed
    by repeated float multiplication, replaced by the maximum as soon as one of
    the products from the second attempt on reaches it. *)
Theorem backoff_base_spec (p : option RetryPolicy) (attempt : Z) :
  let '(initial, maxB, mult, _) := backoff_params p in
  let n := Z.to_nat (attempt - 1) in
  backoff_base p attempt =
    if existsb (λ k, SFleb (f64_of_int maxB) (fpow mult k (f64_of_int initial))) (seq 1 n)
    then f64_of_int maxB
    else fpow mult n (f64_of_int initial).
Proof.
  unfold backoff_base. destruct (backoff_params p) as [[[initial maxB] mult] jitter].
  rewrite backoff_loop_spec. destruct (Z.ltb_spec attempt 1); [|done].
  by replace (Z.to_nat (attempt - 1)) with (Z.to_nat (1 - 1)) by lia.
Qed.

(** With no policy the delays before jitter are 1, 2, 4, 8 and 16 seconds
    and then 30 seconds for every later attempt. *)
Theorem default_schedule (attempt : Z) :
  1 <= attempt →
  backoff_base None attempt =
    f64_of_int (if attempt <=? 5 then 1000000000 * 2 ^ (attempt - 1) else 30000000000).
Proof.
  intros Ha. destruct (Z.leb_spec attempt 5) as [H5|H5].
  - assert (attempt = 1 ∨ attempt = 2 ∨ attempt = 3 ∨ attempt = 4 ∨ attempt = 5)
      as [->|[->|[->|[->| ->]]]] by lia; vm_compute; reflexivity.
  - unfold backoff_base. simpl. destruct (Z.ltb_spec attempt 1); [lia|].
    replace (Z.to_nat (attempt - 1)) with (5 + Z.to_nat (attempt - 6))%nat by lia.
    generalize (Z.to_nat (attempt - 6)). intros n. cbn [Nat.add backoff_loop].
    vm_compute (fmul _ _). reflexivity.
Qed.

Lemma default_schedule_witness : backoff_base None 7 = f64_of_int 30000000000.
Proof. apply (default_schedule 7). lia. Defined.

(** A policy whose initial backoff (60s) is above its maximum (30s). *)
Definition steep_policy : RetryPolicy :=
  mkRetryPolicy 5 (Some 60000000000) (Some 30000000000) (f64_of_int 2) (f64_of_int 0).

Definition half : f64 := SFdiv 53 1024 (f64_of_int 1) (f64_of_int 2).

(** The documented [min(max_backoff, ...)] is not applied to the first
    retry: the loop that caps the delay does not run for attempt 1, so a policy
    whose initial backoff exceeds its maximum waits longer than the maximum. *)
Theorem first_retry_exceeds_max (oor : f64 → Z) :
  (∀ p, backoff_base p 1 = f64_of_int (backoff_params p).1.1.1) ∧
  Backoff oor (Some steep_policy) 1 half = 60000000000 ∧
  Backoff oor (Some steep_policy) 2 half = 30000000000.
Proof.
  split_and!; [|vm_compute; reflexivity..].
  intros p. unfold backoff_base. by destruct (backoff_params p) as [[[? ?] ?] ?].
Qed.
