(* ===== verification/Env.v ===== *)
(** * What the code does not determine

    Clock readings, random draws, fresh UUIDs and the iteration order of Go maps
    come from outside the program.  An [Env] supplies the answer to the [n]-th
    such question of a run; a state that asks keeps the counter [n].  Since the
    theorems hold for every [Env], they hold for every clock, every draw and
    every map order. *)

From S2P Require Import Prelude Types Retry.

Class Env := {
  (** [time.Now()] in nanoseconds since the Unix epoch *)
  env_now : nat → Z;
  (** [rand.Float64()] *)
  env_float64 : nat → f64;
  (** [rand.Int63n(n)] *)
  env_int63n : nat → Z → Z;
  (** [uuid.NewString()] *)
  env_uuid : nat → string;
  (** the order in which [range] visits the keys of a map *)
  env_order : nat → list string → list string;
  (** the platform's conversion of an out-of-range float to [int64] *)
  env_oor : f64 → Z;
  (** [strconv.Quote], behind the verb [%q]: which runes it escapes depends on
      the Unicode tables of the Go release; only error texts use it *)
  env_quote : string → string;

  env_order_perm n l : env_order n l ≡ₚ l;
  env_int63n_range n k : (0 < k)%Z → (0 <= env_int63n n k < k)%Z
}.

(** UUIDs are unique: no two draws of a run agree. *)
Class UniqueIds (E : Env) := {
  env_uuid_inj : ∀ m n, env_uuid m = env_uuid n → m = n
}.

(** [ids.New]: a prefixed UUID. *)
Definition ids_New (prefix uuid : string) : string :=
  (prefix +:+ "-" +:+ uuid)%string.

Lemma append_inj_r (p a b : string) : (p +:+ a)%string = (p +:+ b)%string → a = b.
Proof. induction p as [|c p IH]; simpl; [done|]. intros [= ?]. auto. Qed.

Lemma ids_New_inj (prefix a b : string) : ids_New prefix a = ids_New prefix b → a = b.
Proof. intros H. by apply append_inj_r, append_inj_r in H. Qed.

(** ** A concrete environment, for the witnesses

    The clock advances one second per question, draws are zero, UUIDs are the
    strings of [n] letters "u", maps are visited in key order. *)

Fixpoint letters (n : nat) : string :=
  match n with O => "" | S n => ("u" +:+ letters n)%string end.

Lemma letters_length n : String.length (letters n) = n.
Proof. induction n as [|n IH]; simpl; [done|]. f_equal. exact IH. Qed.

Definition quoted (s : string) : string :=
  String (Ascii.ascii_of_nat 34) (s +:+ String (Ascii.ascii_of_nat 34) "")%string.

Definition sample_env : Env := {|
  env_now n := (1000000000 * Z.of_nat n)%Z;
  env_float64 _ := S754_zero false;
  env_int63n _ _ := 0%Z;
  env_uuid := letters;
  env_order _ l := l;
  env_oor _ := min_int64;
  env_quote := quoted;
  env_order_perm _ l := Permutation_refl l;
  env_int63n_range _ k Hk := conj (Z.le_refl 0) Hk
|}.

#[export] Instance sample_unique : UniqueIds sample_env.
Proof. split. intros m n H. apply (f_equal String.length) in H. simpl in H. by rewrite !letters_length in H. Qed.
