(* ===== verification/Cluster.v ===== *)
(** * Leader election (internal/cluster/cluster.go)

    The election state machine of one node.  Every method runs under the node's
    mutex, so each is one atomic transition; [startElection] is three: the
    locked prologue that opens the campaign, one locked step per vote result,
    and the unlocked waits in between.  A callback started with [go] is recorded
    in [Node_spawned]; the scheduler runs it ([Leadership.v]). *)

From S2P Require Import Prelude Types Retry Env.

(** ** Model *)

Inductive Role := Follower | Candidate | Leader.

#[export] Instance Role_eq_dec : EqDecision Role.
Proof. solve_decision. Defined.

Definition Role_String (r : Role) : string :=
  match r with
  | Follower => "follower"
  | Candidate => "candidate"
  | Leader => "leader"
  end.

(** [StateStore]: what the election needs from the durable store. [saved] is
    the term (an [int64]) and vote the store holds; a failed save leaves it unchanged. *)
Class StateStore (St : Type) := {
  LoadState : St → (Z * string) + string;
  SaveState : Z → string → St → option string * St;
  saved : St → Z * string;
  save_ok t v st st' : SaveState t v st = (None, st') → saved st' = (int64 t, v);
  save_err t v st e st' : SaveState t v st = (Some e, st') → saved st' = saved st;
  load_ok st tv : LoadState st = inl tv → tv = saved st
}.

Inductive callback := OnLeader (term : Z) | OnStepDown (term : Z).

Record ClusterConfig := mkClusterConfig {
  NodeID : string;
  Members : list string;
  ElectionTimeoutMin : Z;
  ElectionTimeoutMax : Z
}.

Definition ClusterConfig_withDefaults (c : ClusterConfig) : ClusterConfig :=
  mkClusterConfig c.(NodeID)
    (match c.(Members) with [] => [c.(NodeID)] | ms => ms end)
    (if (c.(ElectionTimeoutMin) =? 0)%Z then 800 * 1000000 else c.(ElectionTimeoutMin))
    (if (c.(ElectionTimeoutMax) =? 0)%Z then 1600 * 1000000 else c.(ElectionTimeoutMax)).

Record Node := mkNode {
  Node_cfg : ClusterConfig;
  Node_role : Role;
  Node_currentTerm : Z;
  Node_votedFor : string;
  Node_leaderID : string;
  Node_electionDeadline : Z;
  Node_spawned : list callback
}.

Definition Node_New (cfg : ClusterConfig) : Node :=
  mkNode (ClusterConfig_withDefaults cfg) Follower 0 "" "" 0 [].

Definition majority (n : Node) : Z :=
  (Z.of_nat (length n.(Node_cfg).(Members)) / 2 + 1)%Z.

Definition peers (n : Node) : list string :=
  filter (λ m, m ≠ n.(Node_cfg).(NodeID)) n.(Node_cfg).(Members).

(** [IsLeader], [Term] and [LeaderID] are the locked accessors. *)
Definition IsLeader (n : Node) : bool := bool_decide (n.(Node_role) = Leader).
Definition Term (n : Node) : Z := n.(Node_currentTerm).
Definition LeaderID (n : Node) : string :=
  if IsLeader n then n.(Node_cfg).(NodeID) else n.(Node_leaderID).

(** Field assignments. *)
Definition set_role (r : Role) (n : Node) : Node :=
  mkNode n.(Node_cfg) r n.(Node_currentTerm) n.(Node_votedFor) n.(Node_leaderID)
    n.(Node_electionDeadline) n.(Node_spawned).
Definition set_term_vote (t : Z) (v : string) (n : Node) : Node :=
  mkNode n.(Node_cfg) n.(Node_role) t v n.(Node_leaderID)
    n.(Node_electionDeadline) n.(Node_spawned).
Definition set_votedFor (v : string) (n : Node) : Node :=
  set_term_vote n.(Node_currentTerm) v n.
Definition set_leaderID (l : string) (n : Node) : Node :=
  mkNode n.(Node_cfg) n.(Node_role) n.(Node_currentTerm) n.(Node_votedFor) l
    n.(Node_electionDeadline) n.(Node_spawned).
Definition set_deadline (d : Z) (n : Node) : Node :=
  mkNode n.(Node_cfg) n.(Node_role) n.(Node_currentTerm) n.(Node_votedFor)
    n.(Node_leaderID) d n.(Node_spawned).
Definition spawn (c : callback) (n : Node) : Node :=
  mkNode n.(Node_cfg) n.(Node_role) n.(Node_currentTerm) n.(Node_votedFor)
    n.(Node_leaderID) n.(Node_electionDeadline) (n.(Node_spawned) ++ [c]).

Section node.
Context {St : Type} `{!StateStore St} {Genv : Env}.

(** A node with the store it persists to and the environment's counter. *)
Record NodeState := mkNodeState {
  ns_node : Node;
  ns_store : St;
  ns_tick : nat
}.

Definition modify_node (f : Node → Node) : M NodeState unit :=
  modify (λ s, mkNodeState (f s.(ns_node)) s.(ns_store) s.(ns_tick)).

Definition get_node : M NodeState Node := gets ns_node.

Definition tick_node : M NodeState nat :=
  λ s, (s.(ns_tick), mkNodeState s.(ns_node) s.(ns_store) (S s.(ns_tick))).

(** A failed save is only logged. *)
Definition persistLocked : M NodeState unit :=
  λ s,
    let '(_, st) := SaveState s.(ns_node).(Node_currentTerm) s.(ns_node).(Node_votedFor)
                      s.(ns_store) in
    (tt, mkNodeState s.(ns_node) st s.(ns_tick)).

Definition resetElectionTimerLocked : M NodeState unit :=
  n ← get_node;
  let span := int64 (n.(Node_cfg).(ElectionTimeoutMax) - n.(Node_cfg).(ElectionTimeoutMin)) in
  timeout ←
    (if (0 <? span)%Z
     then (k ← tick_node; mret (int64 (n.(Node_cfg).(ElectionTimeoutMin) + env_int63n k span)))
     else mret n.(Node_cfg).(ElectionTimeoutMin));
  k ← tick_node;
  modify_node (set_deadline (env_now k + timeout)).

Definition becomeFollowerLocked (term : Z) : M NodeState unit :=
  n ← get_node;
  let wasLeader := bool_decide (n.(Node_role) = Leader) in
  whenM (n.(Node_currentTerm) <? term)%Z
    (modify_node (set_term_vote term "");; persistLocked);;
  modify_node (set_role Follower);;
  resetElectionTimerLocked;;
  n ← get_node;
  whenM wasLeader (modify_node (spawn (OnStepDown n.(Node_currentTerm)))).

Definition becomeLeaderLocked (term : Z) : M NodeState unit :=
  n ← get_node;
  modify_node (set_role Leader);;
  modify_node (set_leaderID n.(Node_cfg).(NodeID));;
  modify_node (spawn (OnLeader term)).

(** [Start]: in a single-member cluster [onLeader] runs synchronously; it is
    returned to the caller, which runs it before anything else. *)
Definition Start : M NodeState (option callback) :=
  loaded ← gets (λ s, LoadState s.(ns_store));
  match loaded with
  | inl (t, v) => modify_node (set_term_vote t v)
  | inr _ => mret tt
  end;;
  n ← get_node;
  if (majority n <=? 1)%Z then
    let term := int64 (n.(Node_currentTerm) + 1) in
    modify_node (set_term_vote term n.(Node_cfg).(NodeID));;
    persistLocked;;
    modify_node (set_role Leader);;
    modify_node (set_leaderID n.(Node_cfg).(NodeID));;
    mret (Some (OnLeader term))
  else
    resetElectionTimerLocked;;
    mret None.

(** The check of one tick of [run]'s loop. *)
Definition run_check : M NodeState bool :=
  n ← get_node;
  k ← tick_node;
  mret (bool_decide (n.(Node_role) ≠ Leader) && (n.(Node_electionDeadline) <? env_now k)%Z).

Record voteResult := mkVoteResult {
  vr_granted : bool;
  vr_peerTerm : Z;
  vr_ok : bool
}.

(** The locked prologue of [startElection]: returns the campaign's term and
    the peers to ask. *)
Definition startElection_begin : M NodeState (Z * list string) :=
  modify_node (set_role Candidate);;
  n ← get_node;
  modify_node (set_term_vote (int64 (n.(Node_currentTerm) + 1)) n.(Node_cfg).(NodeID));;
  persistLocked;;
  resetElectionTimerLocked;;
  n ← get_node;
  mret (n.(Node_currentTerm), peers n).

(** One iteration of the vote-counting loop: [None] when the loop is left,
    [Some votes] when it goes on. *)
Definition startElection_vote (term votes : Z) (r : voteResult) : M NodeState (option Z) :=
  n ← get_node;
  let needed := majority n in
  if negb r.(vr_ok) then mret (Some votes)
  else if bool_decide (n.(Node_role) ≠ Candidate) || negb (n.(Node_currentTerm) =? term)%Z
  then mret None
  else if (n.(Node_currentTerm) <? r.(vr_peerTerm))%Z
  then becomeFollowerLocked r.(vr_peerTerm);; mret None
  else if r.(vr_granted) then
    let votes := int64 (votes + 1) in
    if (needed <=? votes)%Z then becomeLeaderLocked term;; mret None
    else mret (Some votes)
  else mret (Some votes).

Fixpoint startElection_count (term votes : Z) (rs : list voteResult) : M NodeState unit :=
  match rs with
  | [] => mret tt
  | r :: rs =>
      o ← startElection_vote term votes r;
      match o with
      | Some votes => startElection_count term votes rs
      | None => mret tt
      end
  end.

(** [startElection] with nothing interleaved: [rs] are the results in the
    order the channel delivers them. *)
Definition startElection (rs : list voteResult) : M NodeState unit :=
  tp ← startElection_begin;
  startElection_count tp.1 1 (take (length tp.2) rs).

Definition HandleVote (term : Z) (candidateID : string) : M NodeState (bool * Z) :=
  n ← get_node;
  if (term <? n.(Node_currentTerm))%Z then mret (false, n.(Node_currentTerm))
  else
    whenM (n.(Node_currentTerm) <? term)%Z (becomeFollowerLocked term);;
    n ← get_node;
    if String.eqb n.(Node_votedFor) "" || String.eqb n.(Node_votedFor) candidateID then
      modify_node (set_votedFor candidateID);;
      persistLocked;;
      resetElectionTimerLocked;;
      n ← get_node;
      mret (true, n.(Node_currentTerm))
    else mret (false, n.(Node_currentTerm)).

Definition ObserveLeader (term : Z) (leaderID : string) : M NodeState (bool * Z) :=
  n ← get_node;
  if (term <? n.(Node_currentTerm))%Z then mret (false, n.(Node_currentTerm))
  else if (n.(Node_currentTerm) <? term)%Z then
    becomeFollowerLocked term;;
    modify_node (set_leaderID leaderID);;
    resetElectionTimerLocked;;
    n ← get_node;
    mret (true, n.(Node_currentTerm))
  else
    match n.(Node_role) with
    | Leader => mret (true, n.(Node_currentTerm))
    | Candidate =>
        modify_node (set_role Follower);;
        modify_node (set_leaderID leaderID);;
        resetElectionTimerLocked;;
        n ← get_node;
        mret (true, n.(Node_currentTerm))
    | Follower =>
        modify_node (set_leaderID leaderID);;
        resetElectionTimerLocked;;
        n ← get_node;
        mret (true, n.(Node_currentTerm))
    end.

Definition MaybeStepDown (peerTerm : Z) : M NodeState unit :=
  n ← get_node;
  whenM (n.(Node_currentTerm) <? peerTerm)%Z (becomeFollowerLocked peerTerm).

End node.

Arguments NodeState : clear implicits.
Arguments mkNodeState {St}.

(** The votes among a list of results. *)
Definition granted (rs : list voteResult) : list voteResult :=
  filter (λ r, vr_ok r = true ∧ vr_granted r = true) rs.

(** ** What each transition does to role, term and vote *)

(** A store whose writes and reads do not fail. *)
Class ReliableStore (St : Type) `{!StateStore St} := {
  save_reliable t v (st : St) : (SaveState t v st).1 = None;
  load_reliable (st : St) : LoadState st = inl (saved st)
}.

Section effects.
Context {St : Type} `{!StateStore St, !ReliableStore St} {Genv : Env}.
Implicit Types (s : NodeState St) (n : Node).

Lemma eval_get_node s : eval get_node s = s.(ns_node).
Proof. reflexivity. Qed.

Lemma exec_get_node s : exec get_node s = s.
Proof. reflexivity. Qed.

Lemma exec_modify_node f s :
  exec (modify_node f) s = mkNodeState (f s.(ns_node)) s.(ns_store) s.(ns_tick).
Proof. reflexivity. Qed.

#[local] Hint Rewrite eval_get_node exec_get_node exec_modify_node : monad.

(** The store holds the node's term and vote. *)
Definition synced s : Prop :=
  saved s.(ns_store) = (int64 s.(ns_node).(Node_currentTerm), s.(ns_node).(Node_votedFor)).

(** [s'] is [s] with the given role, term and vote, durably so. *)
Record becomes s (r : Role) (t : Z) (v : string) s' : Prop := mkBecomes {
  bc_cfg : s'.(ns_node).(Node_cfg) = s.(ns_node).(Node_cfg);
  bc_role : s'.(ns_node).(Node_role) = r;
  bc_term : s'.(ns_node).(Node_currentTerm) = t;
  bc_vote : s'.(ns_node).(Node_votedFor) = v;
  bc_saved : saved s'.(ns_store) = (int64 t, v)
}.

Lemma becomes_synced s r t v s' : becomes s r t v s' → synced s'.
Proof. intros [? ? ? ? ?]. unfold synced. congruence. Qed.

Lemma becomes_trans s1 r1 t1 v1 s2 r t v s3 :
  becomes s1 r1 t1 v1 s2 → becomes s2 r t v s3 → becomes s1 r t v s3.
Proof. intros [] []. split; congruence. Qed.

Lemma reset_shape s :
  ∃ d k, exec resetElectionTimerLocked s = mkNodeState (set_deadline d s.(ns_node)) s.(ns_store) k.
Proof.
  unfold resetElectionTimerLocked. mrun.
  destruct (0 <? _)%Z; mrun; by eexists _, _.
Qed.

Lemma persist_shape s :
  ∃ st, exec persistLocked s = mkNodeState s.(ns_node) st s.(ns_tick) ∧
    saved st = (int64 s.(ns_node).(Node_currentTerm), s.(ns_node).(Node_votedFor)).
Proof.
  unfold exec, persistLocked.
  destruct (SaveState _ _ _) as [o st] eqn:E. exists st. split; [done|].
  pose proof (save_reliable (Node_currentTerm (ns_node s)) (Node_votedFor (ns_node s)) (ns_store s)) as Hr.
  rewrite E in Hr. simpl in Hr. subst o. by apply save_ok in E.
Qed.

Ltac shapes :=
  repeat match goal with
  | |- context [exec resetElectionTimerLocked ?s] =>
      let d := fresh "d" in let k := fresh "k" in
      destruct (reset_shape s) as (d & k & ->); simpl
  | |- context [exec persistLocked ?s] =>
      let st := fresh "st" in let Hst := fresh "Hst" in
      destruct (persist_shape s) as (st & -> & Hst); simpl in *
  end.

Lemma becomeFollower_becomes s t :
  (s.(ns_node).(Node_currentTerm) < t)%Z →
  becomes s Follower t "" (exec (becomeFollowerLocked t) s).
Proof.
  intros Ht. unfold becomeFollowerLocked. mrun.
  rewrite (proj2 (Z.ltb_lt _ _) Ht). mrun.
  shapes. destruct (bool_decide _); mrun; simpl; by split.
Qed.

Lemma begin_becomes s :
  let t := int64 (s.(ns_node).(Node_currentTerm) + 1) in
  let id := s.(ns_node).(Node_cfg).(NodeID) in
  becomes s Candidate t id (exec startElection_begin s) ∧
  eval startElection_begin s = (t, peers s.(ns_node)).
Proof.
  unfold startElection_begin. mrun. shapes. split; [by split|reflexivity].
Qed.

(** The vote a node holds in term [t ≥ currentTerm]. *)
Definition vote_in (t : Z) n : string :=
  if (n.(Node_currentTerm) <? t)%Z then "" else n.(Node_votedFor).

Definition role_in (t : Z) n : Role :=
  if (n.(Node_currentTerm) <? t)%Z then Follower else n.(Node_role).

Lemma enter_term s t :
  synced s → (s.(ns_node).(Node_currentTerm) <= t)%Z →
  becomes s (role_in t s.(ns_node)) t (vote_in t s.(ns_node))
    (exec (whenM (s.(ns_node).(Node_currentTerm) <? t)%Z (becomeFollowerLocked t)) s).
Proof.
  intros Hs Ht. unfold role_in, vote_in.
  destruct (Z.ltb_spec (Node_currentTerm (ns_node s)) t); simpl.
  - by apply becomeFollower_becomes.
  - assert (Node_currentTerm (ns_node s) = t) as <- by lia. by split.
Qed.

(** [HandleVote] refuses a stale term and otherwise enters the term and grants
    the vote exactly when it is free or already the candidate's. *)
Lemma HandleVote_cases s t c :
  synced s →
  let free := String.eqb (vote_in t s.(ns_node)) "" || String.eqb (vote_in t s.(ns_node)) c in
  if (t <? s.(ns_node).(Node_currentTerm))%Z
  then HandleVote t c s = ((false, s.(ns_node).(Node_currentTerm)), s)
  else eval (HandleVote t c) s = (free, t) ∧
       becomes s (role_in t s.(ns_node)) t (if free then c else vote_in t s.(ns_node))
         (exec (HandleVote t c) s).
Proof.
  intros Hs free. unfold HandleVote.
  destruct (Z.ltb_spec t (Node_currentTerm (ns_node s))) as [Hlt|Hge].
  { rewrite bind_run. mrun. by rewrite (proj2 (Z.ltb_lt _ _) Hlt). }
  mrun. rewrite (proj2 (Z.ltb_ge _ _) Hge). mrun.
  pose proof (enter_term s t Hs Hge) as [Hc Hr Htm Hv Hsv].
  generalize dependent (exec (whenM (Node_currentTerm (ns_node s) <? t)%Z (becomeFollowerLocked t)) s).
  intros s1 Hc Hr Htm Hv Hsv. rewrite Hv. fold free.
  destruct free; mrun; shapes; (split; [congruence|]); split; simpl; congruence.
Qed.

(** [ObserveLeader] refuses a stale term; otherwise it enters the term without
    touching a vote cast in it, and a candidate gives up its campaign. *)
Lemma ObserveLeader_cases s t l :
  synced s →
  if (t <? s.(ns_node).(Node_currentTerm))%Z
  then ObserveLeader t l s = ((false, s.(ns_node).(Node_currentTerm)), s)
  else eval (ObserveLeader t l) s = (true, t) ∧
       becomes s (match role_in t s.(ns_node) with Leader => Leader | _ => Follower end) t
         (vote_in t s.(ns_node)) (exec (ObserveLeader t l) s).
Proof.
  intros Hs. unfold ObserveLeader.
  destruct (Z.ltb_spec t (Node_currentTerm (ns_node s))) as [Hlt|Hge].
  { rewrite bind_run. mrun. by rewrite (proj2 (Z.ltb_lt _ _) Hlt). }
  mrun. rewrite (proj2 (Z.ltb_ge _ _) Hge). unfold role_in, vote_in.
  destruct (Z.ltb_spec (Node_currentTerm (ns_node s)) t) as [Hlt|Hle].
  - pose proof (becomeFollower_becomes s t Hlt) as [Hc Hr Htm Hv Hsv]. mrun.
    generalize dependent (exec (becomeFollowerLocked t) s). intros s1 Hc Hr Htm Hv Hsv.
    shapes. split; [congruence|]. split; simpl; congruence.
  - assert (Node_currentTerm (ns_node s) = t) as <- by lia. unfold synced in Hs.
    destruct (Node_role (ns_node s)) eqn:E; mrun; shapes; (split; [done|]); by split.
Qed.

Lemma MaybeStepDown_cases s t :
  synced s →
  if (s.(ns_node).(Node_currentTerm) <? t)%Z
  then becomes s Follower t "" (exec (MaybeStepDown t) s)
  else exec (MaybeStepDown t) s = s.
Proof.
  intros Hs. unfold MaybeStepDown. mrun.
  destruct (Z.ltb_spec (Node_currentTerm (ns_node s)) t); mrun; [|done].
  by apply becomeFollower_becomes.
Qed.

(** One vote result: the campaign goes on, is lost, or is won; it is won only
    by a granted vote that reaches the majority, for the campaign's term, by a
    node that is still a candidate in it. *)
Lemma vote_cases s term votes r :
  synced s →
  let n := s.(ns_node) in
  let o := eval (startElection_vote term votes r) s in
  let s' := exec (startElection_vote term votes r) s in
  (s' = s ∧ (o = None ∨ o = Some votes ∨
             (vr_ok r = true ∧ vr_granted r = true ∧ o = Some (int64 (votes + 1))))) ∨
  (o = None ∧ (n.(Node_currentTerm) < vr_peerTerm r)%Z ∧ becomes s Follower (vr_peerTerm r) "" s') ∨
  (o = None ∧ vr_ok r = true ∧ vr_granted r = true ∧ (majority n <= int64 (votes + 1))%Z ∧
   n.(Node_role) = Candidate ∧ n.(Node_currentTerm) = term ∧
   becomes s Leader term n.(Node_votedFor) s').
Proof.
  intros Hs. unfold startElection_vote. mrun.
  destruct (vr_ok r) eqn:Hok; simpl; mrun; [|by auto].
  destruct (bool_decide_reflect (Node_role (ns_node s) ≠ Candidate)) as [Hc|Hc]; simpl; mrun; [by auto|].
  apply dec_stable in Hc.
  destruct (Z.eqb_spec (Node_currentTerm (ns_node s)) term) as [Ht|Ht]; simpl; mrun; [|by auto].
  destruct (Z.ltb_spec (Node_currentTerm (ns_node s)) (vr_peerTerm r)); mrun.
  { right. left. split_and!; auto. by apply becomeFollower_becomes. }
  destruct (vr_granted r) eqn:Hg; mrun; [|by auto 6].
  destruct (Z.leb_spec (majority (ns_node s)) (int64 (votes + 1))); mrun; [|by auto 8].
  right. right. split_and!; auto. unfold becomeLeaderLocked. mrun.
  split; simpl; auto. unfold synced in Hs. congruence.
Qed.

(** [Start] on a freshly created node. *)
Lemma Start_cases cfg (st : St) (k : nat) :
  let s := mkNodeState (Node_New cfg) st k in
  let n := Node_New cfg in
  let '(t, v) := saved st in
  if (majority n <=? 1)%Z
  then becomes s Leader (int64 (t + 1)) n.(Node_cfg).(NodeID) (exec Start s)
  else int64 t = t → becomes s Follower t v (exec Start s).
Proof.
  destruct (saved st) as [t v] eqn:Hsv. unfold Start. mrun. rewrite load_reliable.
  simpl ns_store. rewrite Hsv. mrun. simpl ns_node.
  change (majority (set_term_vote t v (Node_New cfg))) with (majority (Node_New cfg)).
  destruct (majority (Node_New cfg) <=? 1)%Z; mrun; shapes; [by split|].
  intros Ht. split; simpl; rewrite ?Ht; auto.
Qed.

Lemma vote_goes_on s term votes r :
  s.(ns_node).(Node_role) = Candidate → s.(ns_node).(Node_currentTerm) = term →
  (vr_peerTerm r <= term)%Z → (vr_ok r && vr_granted r) = false →
  startElection_vote term votes r s = (Some votes, s).
Proof.
  intros Hr Ht Hp Hg. unfold startElection_vote. rewrite bind_run. mrun.
  destruct (vr_ok r); simpl in *; [|done].
  rewrite Hr, Ht, bool_decide_eq_false_2, Z.eqb_refl by naive_solver. simpl.
  by rewrite (proj2 (Z.ltb_ge _ _)), Hg by done.
Qed.

Lemma vote_granted s term votes r :
  s.(ns_node).(Node_role) = Candidate → s.(ns_node).(Node_currentTerm) = term →
  (vr_peerTerm r <= term)%Z → vr_ok r = true → vr_granted r = true →
  startElection_vote term votes r s =
    if (majority s.(ns_node) <=? int64 (votes + 1))%Z
    then (None, exec (becomeLeaderLocked term) s) else (Some (int64 (votes + 1)), s).
Proof.
  intros Hr Ht Hp Hok Hg. unfold startElection_vote. rewrite bind_run. mrun.
  rewrite Hok, Hg, Hr, Ht, bool_decide_eq_false_2, Z.eqb_refl by naive_solver. simpl.
  rewrite (proj2 (Z.ltb_ge _ _)) by done. destruct (_ <=? _)%Z; [|done].
  by rewrite bind_run.
Qed.

Lemma becomeLeader_becomes s term :
  synced s → s.(ns_node).(Node_currentTerm) = term →
  becomes s Leader term s.(ns_node).(Node_votedFor) (exec (becomeLeaderLocked term) s).
Proof. intros Hs <-. unfold becomeLeaderLocked. mrun. by split. Qed.

Lemma count_wins rs s term votes :
  synced s → s.(ns_node).(Node_role) = Candidate → s.(ns_node).(Node_currentTerm) = term →
  Forall (λ r, (vr_peerTerm r <= term)%Z) rs →
  (0 <= votes < majority s.(ns_node))%Z → (majority s.(ns_node) <= max_int64)%Z →
  (majority s.(ns_node) <= votes + Z.of_nat (length (granted rs)))%Z →
  becomes s Leader term s.(ns_node).(Node_votedFor) (exec (startElection_count term votes rs) s).
Proof.
  intros Hs Hr Ht Hrs. revert votes. induction Hrs as [|r rs Hp _ IH]; intros votes Hv Hm Hg; simpl in *.
  { lia. }
  destruct (vr_ok r && vr_granted r) eqn:E.
  - apply andb_prop in E as [Hok Hgr]. mrun. unfold granted in Hg.
    rewrite filter_cons_True in Hg by done. simpl in Hg.
    unfold eval, exec. rewrite vote_granted by done.
    rewrite int64_small by (unfold min_int64, max_int64 in *; lia).
    destruct (Z.leb_spec (majority (ns_node s)) (votes + 1)); simpl.
    + by apply becomeLeader_becomes.
    + apply IH; [lia|done|]. unfold granted. lia.
  - mrun. unfold granted in Hg. rewrite filter_cons_False in Hg.
    2: { intros [Hok Hgr]. by rewrite Hok, Hgr in E. }
    unfold eval, exec. rewrite vote_goes_on by done. by apply IH.
Qed.

(** A campaign succeeds: when nothing interferes and a majority of the
    members answer in favour, none reporting a later term, [startElection]
    makes the node leader of the next term, durably voted for by itself. *)
Theorem startElection_wins s rs :
  let n := s.(ns_node) in
  let t := (n.(Node_currentTerm) + 1)%Z in
  let rs' := take (length (peers n)) rs in
  (min_int64 <= t <= max_int64)%Z →
  Forall (λ r, (vr_peerTerm r <= t)%Z) rs' →
  (2 <= majority n <= max_int64)%Z →
  (majority n <= 1 + Z.of_nat (length (granted rs')))%Z →
  becomes s Leader t n.(Node_cfg).(NodeID) (exec (startElection rs) s).
Proof.
  intros n t rs' Ht Hrs Hm Hg. unfold startElection. mrun.
  destruct (begin_becomes s) as [Hb Hev]. rewrite Hev. cbn [fst snd].
  fold n in Hb |- *. rewrite int64_small in Hb by done. rewrite int64_small by done.
  eapply becomes_trans; [exact Hb|]. pose proof Hb as [Hcf Hr Htm Hv _].
  fold t n. rewrite <- Hv.
  assert (majority (ns_node (exec startElection_begin s)) = majority n) as Hmj
    by (unfold majority; by rewrite Hcf).
  apply count_wins; rewrite ?Hmj; auto; [by eapply becomes_synced|lia|lia].
Qed.

End effects.

(** ** A store that rejects writes *)

Section rejecting.
Context {St : Type} {Gsst : StateStore St} {Genv : Env}.
Implicit Types (s : NodeState St).
#[local] Hint Rewrite @eval_get_node @exec_get_node @exec_modify_node : monad.

(** As on a full disk: nothing can be saved, what was saved can be read. *)
Definition rejecting : Prop :=
  (∀ t v st, ∃ e st', SaveState t v st = (Some e, st')) ∧ ∀ st : St, ∃ tv, LoadState st = inl tv.

Context (Hrej : rejecting).

Lemma rejected_shape s :
  ∃ st, exec persistLocked s = mkNodeState s.(ns_node) st s.(ns_tick) ∧ saved st = saved s.(ns_store).
Proof.
  destruct (proj1 Hrej (Node_currentTerm (ns_node s)) (Node_votedFor (ns_node s)) (ns_store s)) as (e & st & E).
  exists st. unfold exec, persistLocked. rewrite E. split; [done|]. by eapply save_err.
Qed.

Ltac rejected :=
  repeat match goal with
  | |- context [exec resetElectionTimerLocked ?s] =>
      let d := fresh "d" in let k := fresh "k" in
      destruct (reset_shape s) as (d & k & ->); simpl
  | |- context [exec persistLocked ?s] =>
      let st := fresh "st" in let Hst := fresh "Hst" in
      destruct (rejected_shape s) as (st & -> & Hst); simpl in *
  end.

(** The node of a cluster of several members, after a start on the store [st]. *)
Definition booted (cfg : ClusterConfig) (st : St) (k : nat) : NodeState St :=
  exec Start (mkNodeState (Node_New cfg) st k).

Lemma booted_shape cfg st k :
  (1 < majority (Node_New cfg))%Z →
  let s := booted cfg st k in
  s.(ns_store) = st ∧ (s.(ns_node).(Node_currentTerm), s.(ns_node).(Node_votedFor)) = saved st.
Proof.
  intros Hm. unfold booted, Start. mrun. cbn [ns_store]. destruct (proj2 Hrej st) as [tv E]. rewrite E.
  apply load_ok in E. destruct tv as [t v]. mrun.
  change (majority _) with (majority (Node_New cfg)). destruct (Z.leb_spec (majority (Node_New cfg)) 1); [lia|]. mrun.
  rejected. by rewrite <- E.
Qed.

Lemma rejected_term s t :
  (s.(ns_node).(Node_currentTerm) < t)%Z →
  let s' := exec (becomeFollowerLocked t) s in
  s'.(ns_node).(Node_currentTerm) = t ∧ s'.(ns_node).(Node_votedFor) = "" ∧ saved s'.(ns_store) = saved s.(ns_store).
Proof.
  intros Ht. unfold becomeFollowerLocked. mrun. rewrite (proj2 (Z.ltb_lt _ _) Ht). mrun. rejected.
  by destruct (bool_decide _).
Qed.

(** A vote in a new term is granted, and not recorded. *)
Lemma rejected_vote cfg st k t c :
  (1 < majority (Node_New cfg))%Z → ((saved st).1 < t)%Z →
  eval (HandleVote t c) (booted cfg st k) = (true, t) ∧
  saved (exec (HandleVote t c) (booted cfg st k)).(ns_store) = saved st.
Proof.
  intros Hm Ht. destruct (booted_shape cfg st k Hm) as [Hst Hsv].
  generalize dependent (booted cfg st k). intros s Hst Hsv. rewrite <- Hsv in Ht. simpl in Ht. rewrite <- Hst. clear Hst.
  unfold HandleVote. mrun. rewrite (proj2 (Z.ltb_ge t (Node_currentTerm (ns_node s)))) by lia. mrun.
  rewrite (proj2 (Z.ltb_lt _ _) Ht). destruct (rejected_term s t Ht) as (H1 & H2 & H3). cbn [whenM].
  generalize dependent (exec (becomeFollowerLocked t) s). intros s1 H1 H2 H3. rewrite H2. cbn [String.eqb orb]. mrun.
  rejected. split; congruence.
Qed.

(** C40. The election's safety rests on durable votes: [persistLocked] ignores a
    failed save, so on a store that rejects writes a node of a cluster of
    several members grants its vote in any new term to any candidate, and after
    a restart grants it again, in the same term, to any other. *)
Theorem failed_save_double_vote cfg st k t a b :
  (1 < majority (Node_New cfg))%Z → ((saved st).1 < t)%Z →
  let s := exec (HandleVote t a) (booted cfg st k) in
  eval (HandleVote t a) (booted cfg st k) = (true, t) ∧
  eval (HandleVote t b) (booted cfg s.(ns_store) s.(ns_tick)) = (true, t).
Proof.
  intros Hm Ht s. destruct (rejected_vote cfg st k t a Hm Ht) as [Ha Hs]. split; [done|].
  apply rejected_vote; [done|]. fold s in Hs. by rewrite Hs.
Qed.

End rejecting.

(** ** Concrete stores *)

(** A store in memory whose operations succeed. *)
Definition mem_store : StateStore (Z * string).
Proof.
  refine {| LoadState st := inl st; SaveState t v _ := (None, (int64 t, v)); saved st := st |};
    [abstract congruence|abstract congruence|abstract congruence].
Defined.

Lemma mem_store_reliable : @ReliableStore (Z * string) mem_store.
Proof. by split. Qed.

(** A store every write to which fails, as on a full disk. *)
Definition full_store : StateStore (Z * string).
Proof.
  refine {| LoadState st := inl st; SaveState _ _ st := (Some "no space left on device", st); saved st := st |};
    [abstract congruence|abstract congruence|abstract congruence].
Defined.

Section samples.
#[local] Existing Instance mem_store.
#[local] Existing Instance mem_store_reliable.
#[local] Existing Instance sample_env.

Definition sample_cluster (id : string) : ClusterConfig :=
  mkClusterConfig id ["a"; "b"; "c"] 0 0.

Definition sample_node : NodeState (Z * string) :=
  mkNodeState (Node_New (sample_cluster "a")) (0%Z, "") 0.

Lemma startElection_wins_witness :
  becomes sample_node Leader 1 "a"
    (exec (startElection [mkVoteResult false 0 false; mkVoteResult true 1 true]) sample_node).
Proof.
  apply (startElection_wins sample_node [mkVoteResult false 0 false; mkVoteResult true 1 true]).
  - by split; vm_compute.
  - repeat constructor; by vm_compute.
  - by split; vm_compute.
  - by vm_compute.
Defined.

End samples.

Section full_disk.
#[local] Existing Instance full_store.
#[local] Existing Instance sample_env.

Lemma failed_save_double_vote_witness :
  let s := exec (HandleVote 1 "a") (booted (sample_cluster "c") (0%Z, "") 0) in
  eval (HandleVote 1 "a") (booted (sample_cluster "c") (0%Z, "") 0) = (true, 1%Z) ∧
  eval (HandleVote 1 "b") (booted (sample_cluster "c") s.(ns_store) s.(ns_tick)) = (true, 1%Z).
Proof.
  apply (failed_save_double_vote (St := Z * string)); [|vm_compute; reflexivity..].
  split; [intros t v st; by eexists _, st|intros st; by exists st].
Defined.

End full_disk.
