(* ===== verification/Election.v ===== *)
(** * Election safety: at most one leader per term

    A cluster of nodes running the state machine of [Cluster.v] over an
    asynchronous network: requests, replies and heartbeats may be delayed,
    reordered, duplicated or lost (they are kept forever and any of them may be
    delivered at any time), nodes may crash and restart at any time with what
    their store holds.  Each locked section of the code is one step. *)

From S2P Require Import Prelude Types Retry Env Cluster.

(** ** The system *)

(** A running [startElection]: its term, the peers whose result has not been
    received, and the votes counted so far. *)
Record campaign := mkCampaign {
  c_term : Z;
  c_pending : list string;
  c_votes : Z
}.

Record reply := mkReply {
  r_peer : string;
  r_cand : string;
  r_term : Z;
  r_granted : bool;
  r_peerTerm : Z
}.

Section system.
Context {St : Type} `{!StateStore St} {Genv : Env}.
Context (members : list string) (tmin tmax : Z).

Record proc := mkProc {
  p_ns : NodeState St;
  p_camp : option campaign
}.

(** [votes] and [elected] are history: every vote ever cast, every node that
    ever became leader with its term. *)
Record net := mkNet {
  procs : gmap string proc;
  requests : list (string * Z);
  replies : list reply;
  beats : list (string * Z);
  votes : list (string * Z * string);
  elected : list (string * Z)
}.

Definition p_term (p : proc) : Z := p.(p_ns).(ns_node).(Node_currentTerm).
Definition p_vote (p : proc) : string := p.(p_ns).(ns_node).(Node_votedFor).
Definition p_leads (p : proc) : bool := IsLeader p.(p_ns).(ns_node).

Definition config_of (i : string) : ClusterConfig := mkClusterConfig i members tmin tmax.

(** Process [i] moves to [p']; messages are sent, a vote is cast. *)
Definition grow (w : net) (i : string) (p' : proc) (rq : list (string * Z)) (rp : list reply)
    (bt : list (string * Z)) (nv : list (string * Z * string)) (ne : list (string * Z)) : net :=
  mkNet (<[i:=p']> w.(procs)) (rq ++ w.(requests)) (rp ++ w.(replies)) (bt ++ w.(beats))
    (nv ++ w.(votes)) (ne ++ w.(elected)).

(** Process start or restart: volatile state is new, the store survives. *)
Definition restarted (i : string) (p : proc) : proc :=
  mkProc (exec Start (mkNodeState (Node_New (config_of i)) p.(p_ns).(ns_store) p.(p_ns).(ns_tick)))
    None.

Definition campaigning (p : proc) : proc :=
  let '(t, ps) := eval startElection_begin p.(p_ns) in
  mkProc (exec startElection_begin p.(p_ns)) (Some (mkCampaign t ps 1)).

Definition counted (p : proc) (c : campaign) (peer : string) (r : voteResult) : proc :=
  mkProc (exec (startElection_vote c.(c_term) c.(c_votes) r) p.(p_ns))
    (match eval (startElection_vote c.(c_term) c.(c_votes) r) p.(p_ns) with
     | Some v => Some (mkCampaign c.(c_term) (filter (λ q, q ≠ peer) c.(c_pending)) v)
     | None => None
     end).

Inductive step : net → net → Prop :=
| step_start w i p :
    w.(procs) !! i = Some p →
    let p' := restarted i p in
    step w (grow w i p' [] [] []
      (if p_leads p' then [(i, p_term p', i)] else [])
      (if p_leads p' then [(i, p_term p')] else []))
| step_campaign w i p :
    w.(procs) !! i = Some p → p.(p_camp) = None → p_leads p = false →
    let p' := campaigning p in
    step w (grow w i p' [(i, p_term p')] [] [] [(i, p_term p', i)] [])
| step_vote w i p c r :
    w.(procs) !! i = Some p → p.(p_camp) = Some c →
    r ∈ w.(replies) → r.(r_cand) = i → r.(r_term) = c.(c_term) → r.(r_peer) ∈ c.(c_pending) →
    let p' := counted p c r.(r_peer) (mkVoteResult r.(r_granted) r.(r_peerTerm) true) in
    step w (grow w i p' [] [] [] []
      (if p_leads p' && negb (p_leads p) then [(i, p_term p')] else []))
| step_vote_error w i p c peer :
    w.(procs) !! i = Some p → p.(p_camp) = Some c → peer ∈ c.(c_pending) →
    step w (grow w i (counted p c peer (mkVoteResult false 0 false)) [] [] [] [] [])
| step_campaign_over w i p c :
    w.(procs) !! i = Some p → p.(p_camp) = Some c → c.(c_pending) = [] →
    step w (grow w i (mkProc p.(p_ns) None) [] [] [] [] [])
| step_handle w j p c t granted tm :
    w.(procs) !! j = Some p → (c, t) ∈ w.(requests) →
    eval (HandleVote t c) p.(p_ns) = (granted, tm) →
    step w (grow w j (mkProc (exec (HandleVote t c) p.(p_ns)) p.(p_camp)) []
      [mkReply j c t granted tm] [] (if granted then [(j, t, c)] else []) [])
| step_beat w i p :
    w.(procs) !! i = Some p →
    step w (grow w i p [] [] [(i, p_term p)] [] [])
| step_observe w j p l t :
    w.(procs) !! j = Some p → (l, t) ∈ w.(beats) →
    step w (grow w j (mkProc (exec (ObserveLeader t l) p.(p_ns)) p.(p_camp)) [] [] [] [] [])
| step_stepdown w i p j q t :
    w.(procs) !! i = Some p → w.(procs) !! j = Some q → (t <= p_term q)%Z →
    step w (grow w i (mkProc (exec (MaybeStepDown t) p.(p_ns)) p.(p_camp)) [] [] [] [] []).

(** The cluster before anything has run: every member has an empty store. *)
Definition initial (w : net) : Prop :=
  w.(requests) = [] ∧ w.(replies) = [] ∧ w.(beats) = [] ∧ w.(votes) = [] ∧ w.(elected) = [] ∧
  (∀ i, is_Some (w.(procs) !! i) ↔ i ∈ members) ∧
  (∀ i p, w.(procs) !! i = Some p →
     p.(p_ns).(ns_node) = Node_New (config_of i) ∧ saved p.(p_ns).(ns_store) = (0%Z, "") ∧
     p.(p_camp) = None).

(** [reach k w]: [w] is reachable in [k] steps. *)
Inductive reach : nat → net → Prop :=
| reach_init w : initial w → reach 0 w
| reach_step k w w' : reach k w → step w w' → reach (S k) w'.

End system.

Arguments proc : clear implicits.
Arguments net : clear implicits.
Arguments mkProc {St}.
Arguments mkNet {St}.

(** ** Invariant *)

Section safety.
Context {St : Type} `{!StateStore St, !ReliableStore St} {Genv : Env}.
Context (members : list string) (tmin tmax : Z).
Context (Hnodup : NoDup members) (Hnonempty : "" ∉ members).
Context (Hsmall : (Z.of_nat (length members) < max_int64)%Z).
Implicit Types (w : net St) (p : proc St).

#[local] Abbreviation vote_history := (list (string * Z * string)).

Definition quorum : Z := (Z.of_nat (length members) / 2 + 1)%Z.

(** [Q] is a set of members that voted for [i] in term [t]. *)
Definition voted_by (vs : vote_history) (i : string) (t : Z) (Q : gset string) : Prop :=
  ∀ j, j ∈ Q → j ∈ members ∧ (j, t, i) ∈ vs.

Definition elected_ok (vs : vote_history) (i : string) (t : Z) : Prop :=
  ∃ Q, voted_by vs i t Q ∧ (quorum <= Z.of_nat (size Q))%Z.

(** The votes a campaign has counted come from distinct members that are no
    longer pending. *)
Definition camp_ok (vs : vote_history) (i : string) (c : campaign) : Prop :=
  ∃ Q, voted_by vs i c.(c_term) Q ∧ c.(c_votes) = Z.of_nat (size Q) ∧
    (∀ j, j ∈ Q → j ∉ c.(c_pending)).

Record inv (k : Z) w : Prop := mkInv {
  inv_member i p : w.(procs) !! i = Some p → i ∈ members;
  inv_cfg i p : w.(procs) !! i = Some p →
    p.(p_ns).(ns_node).(Node_cfg).(NodeID) = i ∧
    p.(p_ns).(ns_node).(Node_cfg).(Members) = members;
  inv_sync i p : w.(procs) !! i = Some p → synced p.(p_ns);
  inv_term i p : w.(procs) !! i = Some p → (0 <= p_term p <= k)%Z;
  inv_req c t : (c, t) ∈ w.(requests) → c ∈ members ∧ (t <= k)%Z;
  inv_beat l t : (l, t) ∈ w.(beats) → (t <= k)%Z;
  inv_reply r : r ∈ w.(replies) → (r.(r_peerTerm) <= k)%Z ∧
    (r.(r_granted) = true → (r.(r_peer), r.(r_term), r.(r_cand)) ∈ w.(votes));
  inv_votes j t c : (j, t, c) ∈ w.(votes) → c ∈ members ∧ j ∈ members ∧
    ∃ p, w.(procs) !! j = Some p ∧ (t <= p_term p)%Z ∧ (t = p_term p → p_vote p = c);
  inv_unique j t c c' : (j, t, c) ∈ w.(votes) → (j, t, c') ∈ w.(votes) → c = c';
  inv_camp i p c : w.(procs) !! i = Some p → p.(p_camp) = Some c → camp_ok w.(votes) i c;
  inv_elected i t : (i, t) ∈ w.(elected) → elected_ok w.(votes) i t;
  inv_leader i p : w.(procs) !! i = Some p → p_leads p = true → (i, p_term p) ∈ w.(elected)
}.

(** How a node's term and vote may evolve: the term never decreases, and
    within a term a vote once cast stays. *)
Definition advances p p' : Prop :=
  (p_term p <= p_term p')%Z ∧
  (p_term p = p_term p' → p_vote p ≠ "" → p_vote p' = p_vote p).

Lemma voted_by_mono vs nv i t Q : voted_by vs i t Q → voted_by (nv ++ vs) i t Q.
Proof. intros H j Hj. destruct (H j Hj). split; [done|]. apply elem_of_app. auto. Qed.

Lemma elected_ok_mono vs nv i t : elected_ok vs i t → elected_ok (nv ++ vs) i t.
Proof. intros (Q & HQ & ?). exists Q. split; [by apply voted_by_mono|done]. Qed.

Lemma camp_ok_mono vs nv i c : camp_ok vs i c → camp_ok (nv ++ vs) i c.
Proof. intros (Q & HQ & ?). exists Q. split; [by apply voted_by_mono|done]. Qed.

(** Any step of one process that advances it, and that casts at most the vote
    the process now holds, keeps the invariant. *)
Lemma inv_grow k k' w i p p' rq rp bt nv ne :
  inv k w → (k <= k')%Z → w.(procs) !! i = Some p →
  p'.(p_ns).(ns_node).(Node_cfg).(NodeID) = i →
  p'.(p_ns).(ns_node).(Node_cfg).(Members) = members →
  synced p'.(p_ns) → advances p p' → (p_term p' <= k')%Z →
  (∀ c t, (c, t) ∈ rq → c ∈ members ∧ (t <= k')%Z) →
  (∀ l t, (l, t) ∈ bt → (t <= k')%Z) →
  (∀ r, r ∈ rp → (r.(r_peerTerm) <= k')%Z ∧
     (r.(r_granted) = true → (r.(r_peer), r.(r_term), r.(r_cand)) ∈ nv)) →
  (∀ j t c, (j, t, c) ∈ nv → j = i ∧ t = p_term p' ∧ c = p_vote p' ∧ c ∈ members) →
  (∀ c, p'.(p_camp) = Some c → camp_ok (nv ++ w.(votes)) i c) →
  (∀ j t, (j, t) ∈ ne → elected_ok (nv ++ w.(votes)) j t) →
  (p_leads p' = true → (i, p_term p') ∈ ne ++ w.(elected)) →
  inv k' (grow w i p' rq rp bt nv ne).
Proof.
  intros Hinv Hk Hp Hid Hms Hsync [Hterm Hvote] Hbound Hrq Hbt Hrp Hnv Hcamp Hne Hlead.
  pose proof (inv_term k w Hinv i p Hp) as Hp0.
  assert (∀ t c, (i, t, c) ∈ w.(votes) → (t <= p_term p')%Z ∧ (t = p_term p' → p_vote p' = c)) as Hold.
  { intros t c Hv. destruct (inv_votes k w Hinv i t c Hv) as (Hc & _ & q & Hq & Hle & Heq).
    simplify_eq. split; [lia|]. intros ->. rewrite <- Heq by lia. apply Hvote; [lia|].
    rewrite Heq by lia. by intros ->. }
  split; simpl.
  - intros j q [[-> <-]|[_ Hq]]%lookup_insert_Some; eapply (inv_member k w); eauto.
  - intros j q [[-> <-]|[_ Hq]]%lookup_insert_Some; [done|by eapply (inv_cfg k w)].
  - intros j q [[-> <-]|[_ Hq]]%lookup_insert_Some; [done|by eapply (inv_sync k w)].
  - intros j q [[-> <-]|[_ Hq]]%lookup_insert_Some; [lia|].
    pose proof (inv_term k w Hinv _ _ Hq). lia.
  - intros c t [H|H]%elem_of_app; [auto|]. destruct (inv_req k w Hinv c t H). split; [done|lia].
  - intros l t [H|H]%elem_of_app; [eauto|]. pose proof (inv_beat k w Hinv l t H). lia.
  - intros r [H|H]%elem_of_app.
    + destruct (Hrp r H). split; [done|]. intros. apply elem_of_app; auto.
    + destruct (inv_reply k w Hinv r H). split; [lia|]. intros. apply elem_of_app; auto.
  - intros j t c [H|H]%elem_of_app.
    + destruct (Hnv j t c H) as (-> & -> & -> & Hc). split_and!; [done|by eapply (inv_member k w)|].
      exists p'. by rewrite lookup_insert_eq.
    + destruct (inv_votes k w Hinv j t c H) as (? & ? & q & Hq & ?). split_and!; auto.
      destruct (decide (i = j)) as [<-|Hij].
      * exists p'. rewrite lookup_insert_eq. destruct (Hold t c H). auto.
      * exists q. by rewrite lookup_insert_ne.
  - intros j t c c' [H|H]%elem_of_app [H'|H']%elem_of_app.
    + by destruct (Hnv _ _ _ H) as (-> & -> & -> & _), (Hnv _ _ _ H') as (_ & _ & -> & _).
    + destruct (Hnv _ _ _ H) as (-> & -> & -> & _). by apply (Hold _ _ H').
    + destruct (Hnv _ _ _ H') as (-> & -> & -> & _). symmetry. by apply (Hold _ _ H).
    + by eapply (inv_unique k w).
  - intros j q c [[-> <-]|[_ Hq]]%lookup_insert_Some Hc; [auto|].
    by eapply camp_ok_mono, (inv_camp k w).
  - intros j t [H|H]%elem_of_app; [auto|]. by apply elected_ok_mono, (inv_elected k w).
  - intros j q [[-> <-]|[_ Hq]]%lookup_insert_Some Hl; [auto|].
    apply elem_of_app. right. by apply (inv_leader k w).
Qed.

Ltac no_elem :=
  intros; exfalso;
  match goal with H : _ ∈ [] |- _ => by apply elem_of_nil in H end.

Lemma becomes_advances p r t v ns' o :
  becomes p.(p_ns) r t v ns' → (p_term p <= t)%Z →
  (p_term p = t → p_vote p ≠ "" → v = p_vote p) →
  advances p (mkProc ns' o).
Proof.
  intros [_ _ Ht Hv _] Hle Heq. unfold advances, p_term, p_vote in *. simpl.
  rewrite Ht, Hv. auto.
Qed.

Lemma advances_same p o : advances p (mkProc p.(p_ns) o).
Proof. by split. Qed.

(** The bookkeeping shared by all steps that send nothing and elect nobody. *)
Lemma inv_quiet k w i p r t v ns' o :
  inv k w → w.(procs) !! i = Some p → becomes p.(p_ns) r t v ns' →
  (p_term p <= t <= k)%Z → (p_term p = t → p_vote p ≠ "" → v = p_vote p) →
  (∀ c, o = Some c → camp_ok w.(votes) i c) →
  (r = Leader → p_leads p = true ∧ t = p_term p) →
  inv k (grow w i (mkProc ns' o) [] [] [] [] []).
Proof.
  intros Hinv Hp Hb Ht Hv Hc Hl. destruct (inv_cfg k w Hinv i p Hp) as [Hid Hms].
  pose proof Hb as [Hcfg Hrole Hterm _ _].
  eapply (inv_grow k k w i p); try no_elem; try done; simpl.
  - by rewrite Hcfg.
  - by rewrite Hcfg.
  - by eapply becomes_synced.
  - eapply becomes_advances; eauto. lia.
  - unfold p_term. simpl. rewrite Hterm. lia.
  - unfold p_leads, p_term, IsLeader. simpl. rewrite bool_decide_eq_true, Hrole, Hterm.
    intros ->. destruct Hl as [Hl ->]; [done|]. by apply (inv_leader k w).
Qed.

Lemma inv_unchanged k w i p o :
  inv k w → w.(procs) !! i = Some p →
  (∀ c, o = Some c → camp_ok w.(votes) i c) →
  inv k (grow w i (mkProc p.(p_ns) o) [] [] [] [] []).
Proof.
  intros Hinv Hp Hc. pose proof (inv_term k w Hinv i p Hp).
  eapply (inv_quiet k w i p (Node_role (ns_node (p_ns p))) (p_term p) (p_vote p)); eauto; try lia.
  - split; try done. by apply (inv_sync k w Hinv i p).
  - intros Hr. split; [|done]. unfold p_leads, IsLeader. by rewrite bool_decide_eq_true.
Qed.

Lemma inv_weaken k k' w : inv k w → (k <= k')%Z → inv k' w.
Proof.
  intros [? ? ? Ht Hrq Hbt Hrp ? ? ? ? ?] Hk. split; auto.
  - intros i p Hp. pose proof (Ht i p Hp). lia.
  - intros c t Hc. destruct (Hrq c t Hc). split; [done|lia].
  - intros l t Hl. pose proof (Hbt l t Hl). lia.
  - intros r Hr. destruct (Hrp r Hr). split; [lia|done].
Qed.

Lemma majority_quorum (n : Node) : n.(Node_cfg).(Members) = members → majority n = quorum.
Proof. intros H. unfold majority, quorum. by rewrite H. Qed.

Lemma self_vote vs i t : i ∈ members → (i, t, i) ∈ vs → voted_by vs i t {[i]}.
Proof. intros Hi Hv j ->%elem_of_singleton. auto. Qed.

Lemma inv_start k w i p :
  inv k w → (k < max_int64)%Z → w.(procs) !! i = Some p →
  let p' := restarted members tmin tmax i p in
  inv (k + 1) (grow w i p' [] [] []
      (if p_leads p' then [(i, p_term p', i)] else [])
      (if p_leads p' then [(i, p_term p')] else [])).
Proof.
  intros Hinv Hk Hp p'. pose proof (inv_member k w Hinv i p Hp) as Hi.
  pose proof (inv_term k w Hinv i p Hp) as Ht.
  assert (Node_cfg (Node_New (config_of members tmin tmax i)) =
          mkClusterConfig i members (if (tmin =? 0)%Z then 800 * 1000000 else tmin)
            (if (tmax =? 0)%Z then 1600 * 1000000 else tmax)) as Hcfg.
  { simpl. unfold ClusterConfig_withDefaults. simpl. by destruct members; [set_solver|]. }
  pose proof (Start_cases (config_of members tmin tmax i) (ns_store (p_ns p)) (ns_tick (p_ns p))) as Hs.
  pose proof (inv_sync k w Hinv i p Hp) as Hsync. unfold synced in Hsync.
  cbv zeta in Hs. rewrite Hsync in Hs. cbv beta iota in Hs.
  rewrite !(int64_small (Node_currentTerm _)) in Hs by (unfold p_term, min_int64 in *; lia).
  change (Node_currentTerm (ns_node (p_ns p))) with (p_term p) in Hs.
  change (Node_votedFor (ns_node (p_ns p))) with (p_vote p) in Hs.
  rewrite majority_quorum in Hs by (by rewrite Hcfg).
  destruct (Z.leb_spec quorum 1) as [Hq|Hq].
  - rewrite int64_small in Hs by (unfold min_int64, max_int64 in *; lia).
    destruct Hs as [Hc Hr Htm Hv Hsv]. cbn [ns_node] in Hc. rewrite Hcfg in Hc. change (NodeID _) with i in Hv, Hsv.
    assert (p_leads p' = true) as -> by (unfold p_leads, IsLeader; by rewrite bool_decide_eq_true).
    assert (p_term p' = p_term p + 1)%Z as Hpt by done.
    eapply (inv_grow k _ w i p); try no_elem; try done; try lia; simpl.
    + by rewrite Hc.
    + by rewrite Hc.
    + unfold synced. by rewrite Hsv, Htm, Hv.
    + split; [lia|]. unfold p_term in *. lia.
    + intros j t c [=-> -> ->]%list_elem_of_singleton. auto.
    + intros j t [=-> ->]%list_elem_of_singleton. exists {[i]}. split.
      * apply self_vote; [done|by left].
      * rewrite size_singleton. lia.
    + intros _. by left.
  - specialize (Hs eq_refl).
    assert (p_leads p' = false) as ->.
    { unfold p_leads, IsLeader, p', restarted. apply bool_decide_eq_false.
      destruct Hs as [_ Hr _ _ _]. cbn [p_ns]. by rewrite Hr. }
    apply inv_weaken with k; [|lia].
    destruct Hs as [Hc Hr Htm Hv Hsv]. cbn [ns_node] in Hc. rewrite Hcfg in Hc.
    eapply (inv_grow k _ w i p); try no_elem; try done; try lia; simpl.
    + by rewrite Hc.
    + by rewrite Hc.
    + unfold synced. by rewrite Hsv, Htm, Hv.
    + split; unfold p_term, p_vote in *; simpl in *; [lia|by rewrite Hv].
    + change (p_term p' <= k)%Z. unfold p_term, p' in *. simpl. lia.
    + unfold p_leads, IsLeader, p', restarted. cbn [p_ns].
      by rewrite bool_decide_eq_true, Hr.
Qed.

Lemma inv_campaign k w i p :
  inv k w → (k < max_int64)%Z → w.(procs) !! i = Some p →
  let p' := campaigning p in
  inv (k + 1) (grow w i p' [(i, p_term p')] [] [] [(i, p_term p', i)] []).
Proof.
  intros Hinv Hk Hp. pose proof (inv_member k w Hinv i p Hp) as Hi.
  pose proof (inv_term k w Hinv i p Hp) as Ht. unfold p_term in Ht.
  destruct (inv_cfg k w Hinv i p Hp) as [Hid Hms].
  unfold campaigning. pose proof (begin_becomes (p_ns p)) as [Hb ->].
  rewrite int64_small in Hb |- * by (unfold min_int64, max_int64 in *; lia).
  rewrite Hid in Hb. pose proof Hb as [Hc Hr Htm Hv Hsv].
  generalize dependent (exec startElection_begin (p_ns p)). intros s' Hb Hc Hr Htm Hv Hsv.
  assert (p_term (mkProc s' (Some (mkCampaign (Node_currentTerm (ns_node (p_ns p)) + 1)
            (peers (ns_node (p_ns p))) 1))) = Node_currentTerm (ns_node (p_ns p)) + 1)%Z as -> by done.
  eapply (inv_grow k _ w i p); try no_elem; try done; try lia; cbn [p_ns p_camp].
  - by rewrite Hc.
  - by rewrite Hc.
  - by eapply becomes_synced.
  - eapply becomes_advances; [done|unfold p_term; lia|unfold p_term; lia].
  - unfold p_term. cbn [p_ns]. lia.
  - intros c t [=-> ->]%list_elem_of_singleton. split; [done|lia].
  - intros j t c [=-> -> ->]%list_elem_of_singleton. by unfold p_term, p_vote; cbn [p_ns].
  - intros c [= <-]. exists {[i]}. split_and!.
    + apply self_vote; [done|by left].
    + by rewrite size_singleton.
    + intros j ->%elem_of_singleton. unfold c_pending, peers. rewrite list_elem_of_filter. naive_solver.
  - unfold p_leads, IsLeader. cbn [p_ns]. by rewrite bool_decide_eq_true, Hr.
Qed.

(** A granted reply of a pending peer adds a new voter. *)
Lemma quorum_grows vs i c r :
  camp_ok vs i c → r.(r_peer) ∈ c.(c_pending) → r.(r_peer) ∈ members →
  (r.(r_peer), c.(c_term), i) ∈ vs →
  ∃ Q, voted_by vs i c.(c_term) Q ∧ (c.(c_votes) + 1 = Z.of_nat (size Q))%Z ∧
    int64 (c.(c_votes) + 1) = (c.(c_votes) + 1)%Z ∧
    ∀ j, j ∈ Q → j ∉ filter (λ q, q ≠ r.(r_peer)) c.(c_pending).
Proof.
  intros (Q & HQ & Hv & Hp) Hpend Hmem Hvote.
  assert (r_peer r ∉ Q) as Hnot by (intros Hin; by apply (Hp _ Hin)).
  exists ({[r_peer r]} ∪ Q).
  assert (voted_by vs i (c_term c) ({[r_peer r]} ∪ Q)) as HQ'.
  { intros j [->%elem_of_singleton|Hj]%elem_of_union; auto. }
  assert (c_votes c + 1 = Z.of_nat (size ({[r_peer r]} ∪ Q)))%Z as Hsz.
  { rewrite size_union by set_solver. rewrite size_singleton. lia. }
  split_and!; auto.
  - apply int64_small. rewrite Hsz.
    assert (size ({[r_peer r]} ∪ Q) ≤ length members).
    { rewrite <- (size_list_to_set (C:=gset string) members) by done.
      apply subseteq_size. intros j Hj. apply elem_of_list_to_set. by apply HQ'. }
    unfold min_int64, max_int64 in *. lia.
  - intros j [->%elem_of_singleton|Hj]%elem_of_union; rewrite list_elem_of_filter; naive_solver.
Qed.

Lemma camp_ok_pending vs i c peer :
  camp_ok vs i c →
  camp_ok vs i (mkCampaign c.(c_term) (filter (λ q, q ≠ peer) c.(c_pending)) c.(c_votes)).
Proof.
  intros (Q & HQ & Hv & Hp). exists Q. split_and!; auto. simpl.
  intros j Hj. rewrite list_elem_of_filter. naive_solver.
Qed.

Lemma leads_of_role p : p_leads p = true ↔ p.(p_ns).(ns_node).(Node_role) = Leader.
Proof. apply bool_decide_eq_true. Qed.

Lemma not_leads_of_role p : p_leads p = false ↔ p.(p_ns).(ns_node).(Node_role) ≠ Leader.
Proof. apply bool_decide_eq_false. Qed.

Lemma inv_vote k w i p c r :
  inv k w → w.(procs) !! i = Some p → p.(p_camp) = Some c →
  r ∈ w.(replies) → r.(r_cand) = i → r.(r_term) = c.(c_term) → r.(r_peer) ∈ c.(c_pending) →
  let p' := counted p c r.(r_peer) (mkVoteResult r.(r_granted) r.(r_peerTerm) true) in
  inv k (grow w i p' [] [] [] [] (if p_leads p' && negb (p_leads p) then [(i, p_term p')] else [])).
Proof.
  intros Hinv Hp Hc Hr Hcand Hterm Hpend.
  pose proof (inv_camp k w Hinv i p c Hp Hc) as Hcamp.
  pose proof (inv_term k w Hinv i p Hp) as Ht.
  destruct (inv_reply k w Hinv r Hr) as [Hrt Hgrant].
  destruct (inv_cfg k w Hinv i p Hp) as [Hid Hms].
  set (vr := mkVoteResult (r_granted r) (r_peerTerm r) true).
  assert (r_granted r = true → ∃ Q, voted_by (votes w) i (c_term c) Q ∧
    (c_votes c + 1 = Z.of_nat (size Q))%Z ∧ int64 (c_votes c + 1) = (c_votes c + 1)%Z ∧
    ∀ j, j ∈ Q → j ∉ filter (λ q, q ≠ r_peer r) (c_pending c)) as Hq.
  { intros Hg. specialize (Hgrant Hg). rewrite Hcand, Hterm in Hgrant.
    apply quorum_grows; auto. by apply (inv_votes k w Hinv) in Hgrant as (_ & ? & _). }
  unfold counted.
  destruct (vote_cases (p_ns p) (c_term c) (c_votes c) vr (inv_sync k w Hinv i p Hp))
    as [[-> Ho]|[(-> & Hlt & Hb)|(-> & _ & Hg & Hmaj & Hrole & Hcur & Hb)]].
  - assert (p_leads (mkProc (p_ns p) (match eval (startElection_vote (c_term c) (c_votes c) vr) (p_ns p) with
       | Some v => Some (mkCampaign (c_term c) (filter (λ q, q ≠ r_peer r) (c_pending c)) v)
       | None => None end)) = p_leads p) as -> by done.
    rewrite andb_negb_r. apply inv_unchanged; auto. intros c' Hc'.
    destruct Ho as [Ho|[Ho|(_ & Hg & Ho)]]; rewrite Ho in Hc'; simplify_eq.
    + by apply camp_ok_pending.
    + destruct (Hq Hg) as (Q & ? & Hsz & Hi64 & ?). exists Q. simpl. rewrite Hi64. auto.
  - pose proof Hb as [_ Hr' _ _ _].
    match goal with |- context [p_leads ?q] =>
      assert (p_leads q = false) as -> by (apply not_leads_of_role; cbn [p_ns]; by rewrite Hr') end.
    eapply inv_quiet; eauto; simpl in *; try done; unfold p_term in *; lia.
  - destruct (Hq Hg) as (Q & HQ & Hsz & Hi64 & _). rewrite Hi64 in Hmaj.
    rewrite majority_quorum in Hmaj by done.
    pose proof Hb as [Hcf Hr' Htm Hvt _].
    match goal with |- context [p_leads ?q] =>
      assert (p_leads q = true) as -> by (apply leads_of_role; cbn [p_ns]; by rewrite Hr') end.
    assert (p_leads p = false) as -> by (apply not_leads_of_role; congruence).
    eapply (inv_grow k k w i p); try no_elem; try done; cbn [p_ns p_camp andb negb].
    + by rewrite Hcf.
    + by rewrite Hcf.
    + by eapply becomes_synced.
    + eapply becomes_advances; [done|unfold p_term; lia|done].
    + unfold p_term in *. cbn [p_ns]. lia.
    + intros j t [=-> ->]%list_elem_of_singleton. unfold p_term. cbn [p_ns]. rewrite Htm.
      exists Q. split; [done|lia].
    + intros _. by left.
Qed.

Lemma inv_vote_error k w i p c peer :
  inv k w → w.(procs) !! i = Some p → p.(p_camp) = Some c →
  inv k (grow w i (counted p c peer (mkVoteResult false 0 false)) [] [] [] [] []).
Proof.
  intros Hinv Hp Hc. unfold counted, startElection_vote. mrun.
  apply inv_unchanged; auto. intros c' [= <-].
  apply camp_ok_pending. by apply (inv_camp k w Hinv i p c).
Qed.

Lemma role_in_leader t p :
  role_in t p.(p_ns).(ns_node) = Leader → (p_term p <= t)%Z → p_leads p = true ∧ t = p_term p.
Proof.
  unfold role_in. intros Hr Hle. unfold p_term in *. destruct (Z.ltb_spec (Node_currentTerm (ns_node (p_ns p))) t); [done|].
  split; [by apply leads_of_role|lia].
Qed.

Lemma vote_in_same t p : p_term p = t → vote_in t p.(p_ns).(ns_node) = p_vote p.
Proof. intros <-. unfold vote_in, p_term. by rewrite Z.ltb_irrefl. Qed.

Lemma inv_handle k w j p c t granted tm :
  inv k w → w.(procs) !! j = Some p → (c, t) ∈ w.(requests) →
  eval (HandleVote t c) p.(p_ns) = (granted, tm) →
  inv k (grow w j (mkProc (exec (HandleVote t c) p.(p_ns)) p.(p_camp)) []
      [mkReply j c t granted tm] [] (if granted then [(j, t, c)] else []) []).
Proof.
  intros Hinv Hp Hreq Hev. destruct (inv_req k w Hinv c t Hreq) as [Hc Htk].
  pose proof (inv_term k w Hinv j p Hp) as Ht. destruct (inv_cfg k w Hinv j p Hp) as [Hid Hms].
  pose proof (HandleVote_cases (p_ns p) t c (inv_sync k w Hinv j p Hp)) as Hh. cbv zeta in Hh.
  destruct (Z.ltb_spec t (Node_currentTerm (ns_node (p_ns p)))) as [Hlt|Hge].
  - unfold eval, exec in *. rewrite Hh in *. simpl in *. injection Hev as <- <-.
    eapply (inv_grow k k w j p); try no_elem; try done; try lia; cbn [p_ns p_camp].
    + by apply (inv_sync k w Hinv j p).
    + by apply Ht.
    + intros r ->%list_elem_of_singleton. split; [by apply Ht|done].
    + intros c' Hc'. simpl. by apply (inv_camp k w Hinv j p c').
    + intros Hl. by apply (inv_leader k w Hinv j p).
  - destruct Hh as [He Hb]. rewrite He in Hev. injection Hev as <- <-.
    pose proof Hb as [Hcf Hr Htm Hvt _].
    eapply (inv_grow k k w j p); try no_elem; try done; cbn [p_ns p_camp].
    + by rewrite Hcf.
    + by rewrite Hcf.
    + by eapply becomes_synced.
    + eapply becomes_advances; [done|done|]. intros Heq Hne. rewrite (vote_in_same _ _ Heq).
      destruct (String.eqb_spec (p_vote p) ""); [done|].
      by destruct (String.eqb_spec (p_vote p) c).
    + unfold p_term. cbn [p_ns]. lia.
    + intros r ->%list_elem_of_singleton. simpl. split; [done|]. intros ->. by left.
    + intros j' t' c' Hin. destruct (_ || _); [|no_elem].
      apply list_elem_of_singleton in Hin as [=-> -> ->]. by unfold p_term, p_vote; cbn [p_ns].
    + intros c' Hc'. apply camp_ok_mono. by apply (inv_camp k w Hinv j p c').
    + rewrite leads_of_role. cbn [p_ns]. rewrite Hr. intros Hl.
      apply role_in_leader in Hl as [Hl Heq]; [|done].
      unfold p_term. cbn [p_ns]. rewrite Htm, Heq. by apply (inv_leader k w Hinv j p).
Qed.

Lemma inv_observe k w j p l t :
  inv k w → w.(procs) !! j = Some p → (l, t) ∈ w.(beats) →
  inv k (grow w j (mkProc (exec (ObserveLeader t l) p.(p_ns)) p.(p_camp)) [] [] [] [] []).
Proof.
  intros Hinv Hp Hb. pose proof (inv_beat k w Hinv l t Hb) as Htk.
  pose proof (ObserveLeader_cases (p_ns p) t l (inv_sync k w Hinv j p Hp)) as Hh.
  assert (∀ c, p_camp p = Some c → camp_ok (votes w) j c) as Hc
    by (intros c; by apply (inv_camp k w Hinv j p c)).
  destruct (Z.ltb_spec t (Node_currentTerm (ns_node (p_ns p)))) as [Hlt|Hge].
  - unfold exec. rewrite Hh. by apply inv_unchanged.
  - destruct Hh as [_ Hbc]. eapply inv_quiet; eauto.
    + by intros Heq%vote_in_same _.
    + intros Hl. apply role_in_leader; [|done]. by destruct (role_in t _).
Qed.

Lemma inv_stepdown k w i p t :
  inv k w → w.(procs) !! i = Some p → (t <= k)%Z →
  inv k (grow w i (mkProc (exec (MaybeStepDown t) p.(p_ns)) p.(p_camp)) [] [] [] [] []).
Proof.
  intros Hinv Hp Htk.
  pose proof (MaybeStepDown_cases (p_ns p) t (inv_sync k w Hinv i p Hp)) as Hh.
  assert (∀ c, p_camp p = Some c → camp_ok (votes w) i c) as Hc
    by (intros c; by apply (inv_camp k w Hinv i p c)).
  destruct (Z.ltb_spec (Node_currentTerm (ns_node (p_ns p))) t).
  - eapply inv_quiet; eauto; unfold p_term; try lia; done.
  - rewrite Hh. by apply inv_unchanged.
Qed.

Lemma inv_beats k w i p :
  inv k w → w.(procs) !! i = Some p → inv k (grow w i p [] [] [(i, p_term p)] [] []).
Proof.
  intros Hinv Hp. destruct (inv_cfg k w Hinv i p Hp) as [Hid Hms].
  pose proof (inv_term k w Hinv i p Hp) as Ht.
  eapply (inv_grow k k w i p); try no_elem; try done; try lia.
  - by apply (inv_sync k w Hinv i p).
  - intros l t [=-> ->]%list_elem_of_singleton. lia.
  - intros c Hc. by apply (inv_camp k w Hinv i p c).
  - by apply (inv_leader k w Hinv i p).
Qed.

Lemma inv_step k w w' :
  inv k w → (k < max_int64)%Z → step members tmin tmax w w' → inv (k + 1) w'.
Proof.
  intros Hinv Hk Hs. destruct Hs.
  - by apply inv_start.
  - by apply inv_campaign.
  - apply inv_weaken with k; [by apply inv_vote|lia].
  - apply inv_weaken with k; [by apply inv_vote_error|lia].
  - apply inv_weaken with k; [by apply inv_unchanged|lia].
  - apply inv_weaken with k; [by apply inv_handle|lia].
  - apply inv_weaken with k; [by apply inv_beats|lia].
  - apply inv_weaken with k; [by apply inv_observe|lia].
  - apply inv_weaken with k; [|lia]. eapply inv_stepdown; eauto.
    match goal with H : procs w !! _ = Some ?q, H' : (_ <= p_term ?q)%Z |- _ =>
      pose proof (inv_term k w Hinv _ q H) end. lia.
Qed.

Lemma inv_initial w : initial members tmin tmax w → inv 0 w.
Proof.
  intros (Hrq & Hrp & Hbt & Hvs & Hel & Hdom & Hp0).
  assert (∀ i p, procs w !! i = Some p → p_term p = 0%Z ∧ p_leads p = false) as H0.
  { intros i p Hp. destruct (Hp0 i p Hp) as [Hn _]. unfold p_term, p_leads. by rewrite Hn. }
  split; rewrite ?Hrq, ?Hrp, ?Hbt, ?Hvs, ?Hel; try no_elem.
  - intros i p Hp. apply Hdom. eauto.
  - intros i p Hp. destruct (Hp0 i p Hp) as [-> _]. simpl.
    unfold ClusterConfig_withDefaults. simpl. split; [done|].
    assert (i ∈ members) as Hi by (apply Hdom; eauto). by destruct members; [apply elem_of_nil in Hi|].
  - intros i p Hp. destruct (Hp0 i p Hp) as (Hn & Hs & _). unfold synced. by rewrite Hn, Hs.
  - intros i p Hp. destruct (H0 i p Hp) as [-> _]. lia.
  - intros i p c Hp Hc. destruct (Hp0 i p Hp) as (_ & _ & Hn). congruence.
  - intros i p Hp Hl. destruct (H0 i p Hp). congruence.
Qed.

Lemma reach_inv n w :
  reach members tmin tmax n w → (Z.of_nat n <= max_int64)%Z → inv (Z.of_nat n) w.
Proof.
  induction 1 as [w Hw|n w w' Hr IH Hs]; intros Hn; [by apply inv_initial|].
  rewrite Nat2Z.inj_succ, <- Z.add_1_r. apply inv_step with w; [apply IH; lia|lia|done].
Qed.

(** Two majorities of the members share a member. *)
Lemma quorums_meet (P Q : gset string) :
  (∀ j, j ∈ P → j ∈ members) → (∀ j, j ∈ Q → j ∈ members) →
  (quorum <= Z.of_nat (size P))%Z → (quorum <= Z.of_nat (size Q))%Z →
  ∃ j, j ∈ P ∧ j ∈ Q.
Proof.
  intros HP HQ Hp Hq. destruct (decide (P ∩ Q = ∅)) as [He|He].
  - exfalso. assert (size (P ∪ Q) <= length members)%nat as Hle.
    { rewrite <- (size_list_to_set (C:=gset string) members) by done. apply subseteq_size.
      intros j [Hj|Hj]%elem_of_union; apply elem_of_list_to_set; auto. }
    rewrite size_union in Hle by (intros j ? ?; apply (not_elem_of_empty (C:=gset string) j); rewrite <- He; by apply elem_of_intersection).
    unfold quorum in *. Z.to_euclidean_division_equations. lia.
  - apply set_choose_L in He as [j Hj]. exists j. by apply elem_of_intersection.
Qed.

(** Two nodes that have ever been leader of the same term are the same node. *)
Lemma elected_unique k w i j t :
  inv k w → (i, t) ∈ w.(elected) → (j, t) ∈ w.(elected) → i = j.
Proof.
  intros Hinv (P & HP & Hp)%(inv_elected k w Hinv) (Q & HQ & Hq)%(inv_elected k w Hinv).
  destruct (quorums_meet P Q) as (v & HvP & HvQ); auto.
  - intros v Hv. by apply HP.
  - intros v Hv. by apply HQ.
  - eapply (inv_unique k w Hinv v t); [by apply HP|by apply HQ].
Qed.

(** The history of elections only grows. *)
Lemma elected_kept w w' x : step members tmin tmax w w' → x ∈ w.(elected) → x ∈ w'.(elected).
Proof. intros [] Hx; simpl; rewrite ?elem_of_app; auto. Qed.

Lemma run_on n k w w' :
  reach members tmin tmax n w → nsteps (step members tmin tmax) k w w' →
  reach members tmin tmax (n + k) w' ∧ ∀ x, x ∈ w.(elected) → x ∈ w'.(elected).
Proof.
  intros Hr Hk. revert n Hr. induction Hk as [w|k w w1 w' H1 _ IH]; intros n Hr; [by rewrite Nat.add_0_r|].
  destruct (IH (S n)) as [H2 H3]; [by eapply reach_step|]. rewrite <- Nat.add_succ_comm. split; [done|].
  intros x Hx. by eapply H3, elected_kept.
Qed.

(** C2. Election safety.  In a cluster of members with distinct non-empty ids and
    stores that do not fail, however messages are delayed, lost, duplicated or
    reordered and however nodes crash and restart, a node that leads a term and a
    node that leads the same term then or at any later moment are the same node.
    The bound on the number of steps keeps the term counter in its range. *)
Theorem one_leader_per_term n k w w' i j p q :
  reach members tmin tmax n w → nsteps (step members tmin tmax) k w w' → (Z.of_nat (n + k) <= max_int64)%Z →
  w.(procs) !! i = Some p → w'.(procs) !! j = Some q →
  p_leads p = true → p_leads q = true → p_term p = p_term q → i = j.
Proof.
  intros Hr Hk Hn Hp Hq Hlp Hlq Heq. destruct (run_on n k w w' Hr Hk) as [Hr' Hel].
  pose proof (reach_inv (n + k) w' Hr' Hn) as Hinv. apply (elected_unique _ w' i j (p_term p) Hinv).
  - apply Hel. eapply (inv_leader (Z.of_nat n) w); [apply reach_inv; [done|lia]|done|done].
  - rewrite Heq. by eapply inv_leader.
Qed.

(** A vote is never taken back: the cluster's history never contains two
    votes of one member in one term for different candidates. *)
Theorem one_vote_per_term n w voter t c c' :
  reach members tmin tmax n w → (Z.of_nat n <= max_int64)%Z →
  (voter, t, c) ∈ w.(votes) → (voter, t, c') ∈ w.(votes) → c = c'.
Proof. intros Hr Hn. by apply (inv_unique _ w (reach_inv n w Hr Hn)). Qed.

End safety.

(** ** A run of a three-node cluster *)

Section samples.
#[local] Existing Instance mem_store.
#[local] Existing Instance mem_store_reliable.
#[local] Existing Instance sample_env.

Definition sample_members : list string := ["a"; "b"; "c"].

Definition fresh_proc (i : string) : proc (Z * string) :=
  mkProc (mkNodeState (Node_New (config_of sample_members 0 0 i)) (0%Z, "") 0) None.

Definition sample_net : net (Z * string) :=
  mkNet (list_to_map ((λ i, (i, fresh_proc i)) <$> sample_members)) [] [] [] [] [].

Lemma sample_initial : initial sample_members 0 0 sample_net.
Proof.
  split_and!; try done.
  - intros i. rewrite <- (elem_of_dom (D:=gset string)).
    assert (dom (procs sample_net) = list_to_set (C:=gset string) sample_members) as ->
      by (apply (bool_decide_unpack _); by vm_compute).
    by rewrite elem_of_list_to_set.
  - intros i p Hp%elem_of_list_to_map_2%list_elem_of_fmap. by destruct Hp as (j & [= -> ->] & _).
Qed.

Lemma sample_members_ok :
  NoDup sample_members ∧ "" ∉ sample_members ∧
  (Z.of_nat (length sample_members) < max_int64)%Z.
Proof. split_and!; [apply (bool_decide_unpack _)|apply (bool_decide_unpack _)|]; by vm_compute. Qed.

Definition member_proc (w : net (Z * string)) (i : string) : proc (Z * string) :=
  default (fresh_proc i) (w.(procs) !! i).

(** Node "a" campaigns in term 1 and asks for votes; "b" grants its vote; the
    reply reaches "a", which becomes leader. *)
Definition run1 : net (Z * string) :=
  let p := campaigning (member_proc sample_net "a") in
  grow sample_net "a" p [("a", p_term p)] [] [] [("a", p_term p, "a")] [].
Definition run2 : net (Z * string) :=
  let p := member_proc run1 "b" in
  grow run1 "b" (mkProc (exec (HandleVote 1 "a") p.(p_ns)) p.(p_camp)) []
    [mkReply "b" "a" 1 true 1] [] [("b", 1%Z, "a")] [].
Definition run3 : net (Z * string) :=
  let p := member_proc run2 "a" in
  let p' := counted p (mkCampaign 1 ["b"; "c"] 1) "b" (mkVoteResult true 1 true) in
  grow run2 "a" p' [] [] [] [] (if p_leads p' && negb (p_leads p) then [("a", p_term p')] else []).

Lemma run3_reach : reach sample_members 0 0 3 run3.
Proof.
  apply (reach_step _ _ _ 2 run2); [apply (reach_step _ _ _ 1 run1); [apply (reach_step _ _ _ 0 sample_net)|]|].
  - apply reach_init, sample_initial.
  - by apply (step_campaign _ _ _ sample_net "a" (member_proc sample_net "a")).
  - apply (step_handle _ _ _ run1 "b" (member_proc run1 "b") "a" 1 true 1); [by vm_compute|by left|by vm_compute].
  - apply (step_vote _ _ _ run2 "a" (member_proc run2 "a") (mkCampaign 1 ["b"; "c"] 1)
      (mkReply "b" "a" 1 true 1)); [by vm_compute|by vm_compute|by left|done|done|by left].
Qed.

(** Then "a" restarts. *)
Definition run4 : net (Z * string) :=
  let p := restarted sample_members 0 0 "a" (member_proc run3 "a") in
  grow run3 "a" p [] [] [] (if p_leads p then [("a", p_term p, "a")] else []) (if p_leads p then [("a", p_term p)] else []).

Lemma run4_step : nsteps (step sample_members 0 0) 1 run3 run4.
Proof. apply nsteps_once. apply (step_start sample_members 0 0 run3 "a" (member_proc run3 "a")). by vm_compute. Qed.

Lemma one_leader_per_term_witness :
  p_leads (member_proc run3 "a") = true ∧ p_leads (member_proc run4 "a") = false ∧
  ∀ j q, run4.(procs) !! j = Some q → p_leads q = true → p_term q = 1%Z → "a" = j.
Proof.
  split; [by vm_compute|]. split; [by vm_compute|]. intros j q Hq Hl Ht.
  apply (one_leader_per_term sample_members 0 0 (proj1 sample_members_ok)
    (proj1 (proj2 sample_members_ok)) (proj2 (proj2 sample_members_ok))
    3 1 run3 run4 "a" j (member_proc run3 "a") q run3_reach run4_step); [by vm_compute|by vm_compute|done|by vm_compute|done|].
  rewrite Ht. by vm_compute.
Defined.

End samples.
