(* ===== verification/Store.v ===== *)
(** * The durable store (internal/store/store.go)

    BoltDB and the protobuf codec are the environment of this component: the
    classes [Bolt] and [Codec] state what their documentation promises.  The
    operations of [store.go] are defined on top of them, and proved to implement
    three finite maps (jobs, workers, dead letters) and the election state, with
    failed operations leaving everything unchanged. *)

From S2P Require Import Prelude Types Env Cluster.

(** ** The environment: protobuf and BoltDB *)

(** [proto.Marshal] and [proto.Unmarshal].  Marshalling may fail (a string that
    is not UTF-8); what was marshalled can be read back. *)
Class Codec := {
  marshal_job : Job → string + string;
  unmarshal_job : string → Job + string;
  marshal_worker : WorkerInfo → string + string;
  unmarshal_worker : string → WorkerInfo + string;
  job_roundtrip j b : marshal_job j = inl b → unmarshal_job b = inl j;
  worker_roundtrip w b : marshal_worker w = inl b → unmarshal_worker b = inl w
}.

(** The contents of a database: buckets by name, each a map of byte strings. *)
Abbreviation bucket := (gmap string string).
Abbreviation buckets := (gmap string bucket).

(** An open BoltDB.  [Bolt_Update f] runs [f] in a read-write transaction: an
    error of [f] rolls back, success commits, and the commit itself may fail,
    which changes nothing.  [Bolt_View_error] is the error of opening a
    read-only transaction.  [Bucket_Put_error] is the error [Bucket.Put] gives
    for a key and value (an empty or too large key, a too large value). *)
Class Bolt (DB : Type) := {
  contents : DB → buckets;
  Bolt_Update : M buckets (option string) → DB → option string * DB;
  Bolt_View_error : DB → option string;
  Bucket_Put_error : string → string → option string;
  CreateBucket_error : string → option string;
  Bucket_ForEach : bucket → list (string * string);
  Bucket_KeyN : bucket → Z;

  put_key_required v : Bucket_Put_error "" v ≠ None;
  update_rollback f db e :
    eval f (contents db) = Some e →
    (Bolt_Update f db).1 = Some e ∧ contents (Bolt_Update f db).2 = contents db;
  update_commit f db db' :
    eval f (contents db) = None → Bolt_Update f db = (None, db') →
    contents db' = exec f (contents db);
  update_failed f db e db' :
    Bolt_Update f db = (Some e, db') → contents db' = contents db;
  foreach_entries b : Bucket_ForEach b ≡ₚ map_to_list b;
  foreach_order b : StronglySorted (λ x y, String.ltb x.1 y.1 = true) (Bucket_ForEach b);
  keyn_size b : Bucket_KeyN b = Z.of_nat (size b)
}.

(** ** encoding/binary: big-endian [uint64] *)

Definition uint64 (z : Z) : Z := (z mod 2 ^ 64)%Z.

Definition byte_of (z : Z) (i : Z) : Ascii.ascii :=
  Ascii.ascii_of_N (Z.to_N (Z.land (Z.shiftr z (8 * i)) 255)).

Definition PutUint64 (z : Z) : string :=
  String (byte_of z 7) (String (byte_of z 6) (String (byte_of z 5) (String (byte_of z 4)
  (String (byte_of z 3) (String (byte_of z 2) (String (byte_of z 1) (String (byte_of z 0)
  EmptyString))))))).

Definition byte_val (c : Ascii.ascii) : Z := Z.of_N (Ascii.N_of_ascii c).

(** The first eight bytes, the first being the most significant. *)
Fixpoint Uint64_loop (n : nat) (acc : Z) (s : string) : Z :=
  match n, s with
  | S n, String c s => Uint64_loop n (Z.lor (Z.shiftl acc 8) (byte_val c)) s
  | _, _ => acc
  end.

Definition Uint64 (s : string) : Z := Uint64_loop 8 0 s.

(** ** Model *)

(** [ErrNotFound] is the sentinel callers test for with [errors.Is]. *)
Inductive StoreError := ErrNotFound | ErrOther (msg : string).

(** The text of an error. *)
Definition StoreError_Error (e : StoreError) : string :=
  match e with ErrNotFound => "not found" | ErrOther msg => msg end.

Definition bucketJobs : string := "jobs".
Definition bucketWorkers : string := "workers".
Definition bucketDeadLetter : string := "dead_letter".
Definition bucketMeta : string := "meta".
Definition metaTerm : string := "election_term".
Definition metaVotedFor : string := "election_voted_for".

Section store.
Context {DB : Type} {Gbolt : Bolt DB} {Gcodec : Codec} {Genv : Env}.

(** [tx.Bucket(b)] is nil for a bucket that does not exist, and using it
    panics, which rolls the transaction back; [nil_bucket] stands for that
    outcome.  [Open] creates the buckets, so it does not happen. *)
Definition nil_bucket : string := "nil bucket".

Definition tx_Put (b k v : string) : M buckets (option string) := λ t,
  match t !! b with
  | None => (Some nil_bucket, t)
  | Some m =>
      match Bucket_Put_error k v with
      | Some e => (Some e, t)
      | None => (None, <[b := <[k:=v]> m]> t)
      end
  end.

Definition tx_Delete (b k : string) : M buckets (option string) := λ t,
  match t !! b with
  | None => (Some nil_bucket, t)
  | Some m => (None, <[b := delete k m]> t)
  end.

Definition tx_CreateBucketIfNotExists (b : string) : M buckets (option string) := λ t,
  match CreateBucket_error b with
  | Some e => (Some e, t)
  | None => (None, match t !! b with Some _ => t | None => <[b:=∅]> t end)
  end.

(** A read-only transaction on one bucket. *)
Definition View {A} (b : string) (f : bucket → A + StoreError) (db : DB) : A + StoreError :=
  match Bolt_View_error db with
  | Some e => inr (ErrOther e)
  | None => match contents db !! b with None => inr (ErrOther nil_bucket) | Some m => f m end
  end.

Fixpoint create_all (bs : list string) : M buckets (option string) :=
  match bs with
  | [] => mret None
  | b :: bs =>
      err ← tx_CreateBucketIfNotExists b;
      match err with
      | Some e => mret (Some ("create bucket " +:+ env_quote b +:+ ": " +:+ e)%string)
      | None => create_all bs
      end
  end.

(** [Open], given what [bolt.Open] returned for the path. *)
Definition Open (path : string) (opened : DB + string) : DB + string :=
  match opened with
  | inr e => inr ("open bolt " +:+ env_quote path +:+ ": " +:+ e)%string
  | inl db =>
      match Bolt_Update (create_all [bucketJobs; bucketWorkers; bucketDeadLetter; bucketMeta]) db with
      | (None, db') => inl db'
      | (Some e, _) => inr e
      end
  end.

(** The shape shared by the three put operations of a [kind] of record, the two single reads and the
    three listings: marshal then put in one transaction; get then unmarshal;
    unmarshal every value in key order, stopping at the first error. *)
Definition put_in (kind b k : string) (data : string + string) : M DB (option string) := λ db,
  match data with
  | inr e => (Some ("marshal " +:+ kind +:+ " " +:+ env_quote k +:+ ": " +:+ e)%string, db)
  | inl v => Bolt_Update (tx_Put b k v) db
  end.

Definition get_in {A} (b : string) (unmarshal : string → A + string) (id : string) (db : DB)
    : A + StoreError :=
  View b (λ m,
    match m !! id with
    | None => inr ErrNotFound
    | Some data => match unmarshal data with inl x => inl x | inr e => inr (ErrOther e) end
    end) db.

Fixpoint decode_all {A} (unmarshal : string → A + string) (kvs : list (string * string))
    : list A + StoreError :=
  match kvs with
  | [] => inl []
  | (_, v) :: kvs =>
      match unmarshal v with
      | inr e => inr (ErrOther e)
      | inl x => match decode_all unmarshal kvs with inl xs => inl (x :: xs) | inr e => inr e end
      end
  end.

Definition list_in {A} (b : string) (unmarshal : string → A + string) (db : DB)
    : list A + StoreError :=
  View b (λ m, decode_all unmarshal (Bucket_ForEach m)) db.

Definition Store_PutJob (job : Job) : M DB (option string) :=
  put_in "job" bucketJobs job.(Job_Id) (marshal_job job).
Definition Store_GetJob (id : string) (db : DB) : Job + StoreError :=
  get_in bucketJobs unmarshal_job id db.
Definition Store_DeleteJob (id : string) : M DB (option string) :=
  Bolt_Update (tx_Delete bucketJobs id).
Definition Store_ListJobs (db : DB) : list Job + StoreError :=
  list_in bucketJobs unmarshal_job db.
Definition Store_PutWorker (w : WorkerInfo) : M DB (option string) :=
  put_in "worker" bucketWorkers w.(WorkerInfo_Id) (marshal_worker w).
Definition Store_GetWorker (id : string) (db : DB) : WorkerInfo + StoreError :=
  get_in bucketWorkers unmarshal_worker id db.
Definition Store_ListWorkers (db : DB) : list WorkerInfo + StoreError :=
  list_in bucketWorkers unmarshal_worker db.
Definition Store_DeleteWorker (id : string) : M DB (option string) :=
  Bolt_Update (tx_Delete bucketWorkers id).
Definition Store_PutDeadLetter (job : Job) : M DB (option string) :=
  put_in "dead-letter job" bucketDeadLetter job.(Job_Id) (marshal_job job).
Definition Store_ListDeadLetter (db : DB) : list Job + StoreError :=
  list_in bucketDeadLetter unmarshal_job db.

(** [n] stays 0 when the view fails. *)
Definition Store_CountDeadLetter (db : DB) : Z * option StoreError :=
  match View bucketDeadLetter (λ m, inl (Bucket_KeyN m)) db with
  | inl n => (n, None)
  | inr e => (0%Z, Some e)
  end.

Definition SaveElectionState (term : Z) (votedFor : string) : M DB (option string) :=
  Bolt_Update
    (err ← tx_Put bucketMeta metaTerm (PutUint64 (uint64 term));
     match err with
     | Some e => mret (Some e)
     | None => tx_Put bucketMeta metaVotedFor votedFor
     end).

Definition read_election (m : bucket) : Z * string :=
  (match m !! metaTerm with Some v => int64 (Uint64 v) | None => 0%Z end,
   match m !! metaVotedFor with Some v => v | None => "" end).

Definition LoadElectionState (db : DB) : (Z * string) + StoreError :=
  View bucketMeta (λ m, inl (read_election m)) db.

End store.

(** ** The contract *)

(** What the store holds, as the rest of the scheduler sees it. *)
Record view := mkView {
  v_jobs : gmap string Job;
  v_workers : gmap string WorkerInfo;
  v_dead : gmap string Job;
  v_saved : Z * string
}.

Definition view_put_job (j : Job) (v : view) : view :=
  mkView (<[j.(Job_Id):=j]> v.(v_jobs)) v.(v_workers) v.(v_dead) v.(v_saved).
Definition view_delete_job (id : string) (v : view) : view :=
  mkView (delete id v.(v_jobs)) v.(v_workers) v.(v_dead) v.(v_saved).
Definition view_put_worker (w : WorkerInfo) (v : view) : view :=
  mkView v.(v_jobs) (<[w.(WorkerInfo_Id):=w]> v.(v_workers)) v.(v_dead) v.(v_saved).
Definition view_delete_worker (id : string) (v : view) : view :=
  mkView v.(v_jobs) (delete id v.(v_workers)) v.(v_dead) v.(v_saved).
Definition view_put_dead (j : Job) (v : view) : view :=
  mkView v.(v_jobs) v.(v_workers) (<[j.(Job_Id):=j]> v.(v_dead)) v.(v_saved).
Definition view_save (t : Z) (w : string) (v : view) : view :=
  mkView v.(v_jobs) v.(v_workers) v.(v_dead) (int64 t, w).

(** A write performs its update and reports no error, or changes nothing. *)
Definition writes {St} (st_view : St → view) (op : M St (option string)) (f : view → view) : Prop :=
  ∀ st, st_view (exec op st) = match eval op st with None => f (st_view st) | Some _ => st_view st end.

(** A read gives the entry, reports it missing, or fails for another reason. *)
Definition read_ok {A} (m : gmap string A) (id : string) (r : A + StoreError) : Prop :=
  match r with
  | inl x => m !! id = Some x
  | inr ErrNotFound => m !! id = None
  | inr (ErrOther _) => True
  end.

(** A listing gives every entry once, in the order of the ids. *)
Definition listed {A} (idOf : A → string) (m : gmap string A) (r : list A + StoreError) : Prop :=
  match r with
  | inl xs => xs ≡ₚ (map_to_list m).*2 ∧
      StronglySorted (λ x y, String.ltb (idOf x) (idOf y) = true) xs
  | inr e => e ≠ ErrNotFound
  end.

Class JobStore (St : Type) := {
  st_view : St → view;
  PutJob : Job → M St (option string);
  GetJob : string → St → Job + StoreError;
  DeleteJob : string → M St (option string);
  ListJobs : St → list Job + StoreError;
  PutWorker : WorkerInfo → M St (option string);
  ListWorkers : St → list WorkerInfo + StoreError;
  PutDeadLetter : Job → M St (option string);
  CountDeadLetter : St → Z * option StoreError;
  SaveElection : Z → string → M St (option string);
  LoadElection : St → (Z * string) + StoreError;

  jobs_keyed st id j : (st_view st).(v_jobs) !! id = Some j → j.(Job_Id) = id;
  workers_keyed st id w : (st_view st).(v_workers) !! id = Some w → w.(WorkerInfo_Id) = id;
  no_empty_keys st : (st_view st).(v_jobs) !! "" = None ∧ (st_view st).(v_workers) !! "" = None;
  PutJob_writes j : writes st_view (PutJob j) (view_put_job j);
  GetJob_reads id st : read_ok (st_view st).(v_jobs) id (GetJob id st);
  DeleteJob_writes id : writes st_view (DeleteJob id) (view_delete_job id);
  ListJobs_lists st : listed Job_Id (st_view st).(v_jobs) (ListJobs st);
  PutWorker_writes w : writes st_view (PutWorker w) (view_put_worker w);
  ListWorkers_lists st : listed WorkerInfo_Id (st_view st).(v_workers) (ListWorkers st);
  PutDeadLetter_writes j : writes st_view (PutDeadLetter j) (view_put_dead j);
  CountDeadLetter_counts st :
    CountDeadLetter st = (Z.of_nat (size (st_view st).(v_dead)), None) ∨
    ∃ e, CountDeadLetter st = (0%Z, Some e);
  SaveElection_writes t v : writes st_view (SaveElection t v) (view_save t v);
  LoadElection_loads st tv : LoadElection st = inl tv → tv = (st_view st).(v_saved)
}.

(** A store on a device that does not fail: from a [healthy] state every access
    under an id succeeds, reads find what is there, and the state stays healthy,
    also after a refused access. *)
Class DurableStore (St : Type) `{!JobStore St} := {
  healthy : St → Prop;
  PutJob_succeeds j st : healthy st → j.(Job_Id) ≠ "" → eval (PutJob j) st = None;
  PutJob_healthy j st : healthy st → healthy (exec (PutJob j) st);
  GetJob_finds id st j : healthy st → (st_view st).(v_jobs) !! id = Some j → GetJob id st = inl j;
  ListJobs_succeeds st : healthy st → ∃ jobs, ListJobs st = inl jobs;
  ListWorkers_succeeds st : healthy st → ∃ ws, ListWorkers st = inl ws;
  PutWorker_succeeds w st : healthy st → w.(WorkerInfo_Id) ≠ "" → eval (PutWorker w) st = None;
  PutWorker_healthy w st : healthy st → healthy (exec (PutWorker w) st);
  PutDeadLetter_succeeds j st : healthy st → j.(Job_Id) ≠ "" → eval (PutDeadLetter j) st = None;
  PutDeadLetter_healthy j st : healthy st → healthy (exec (PutDeadLetter j) st);
  SaveElection_succeeds t v st : healthy st → eval (SaveElection t v) st = None;
  SaveElection_healthy t v st : healthy st → healthy (exec (SaveElection t v) st)
}.

(** The election's view of the store ([electionStore] in server.go). *)
#[export] Instance election_store {St} `{!JobStore St} : StateStore St.
Proof.
  refine {|
    LoadState st := match LoadElection st with inl tv => inl tv | inr e => inr (StoreError_Error e) end;
    SaveState := SaveElection;
    saved st := (st_view st).(v_saved)
  |}.
  - intros t v st st' H. pose proof (SaveElection_writes t v st) as Hw.
    unfold exec, eval in Hw. rewrite H in Hw. simpl in Hw. by rewrite Hw.
  - intros t v st e st' H. pose proof (SaveElection_writes t v st) as Hw.
    unfold exec, eval in Hw. rewrite H in Hw. simpl in Hw. by rewrite Hw.
  - intros st tv. destruct (LoadElection st) as [tv'|] eqn:E; [|done]. intros [= ->].
    by apply LoadElection_loads.
Defined.

(** ** The big-endian encoding *)

Lemma byte_val_of z i : byte_val (byte_of z i) = Z.land (Z.shiftr z (8 * i)) 255.
Proof.
  unfold byte_val, byte_of.
  assert (0 <= Z.land (Z.shiftr z (8 * i)) 255 < 256)%Z as Hb.
  { change 255%Z with (Z.ones 8). rewrite Z.land_ones by lia. apply Z.mod_pos_bound. lia. }
  rewrite Ascii.N_ascii_embedding by lia. lia.
Qed.

Lemma PutUint64_length z : String.length (PutUint64 z) = 8.
Proof. reflexivity. Qed.

(** Appending the low byte of a shifted value completes the next shift. *)
Lemma shift_in z i j :
  (0 <= i)%Z → j = (i + 1)%Z →
  Z.lor (Z.shiftl (Z.shiftr z (8 * j)) 8) (Z.land (Z.shiftr z (8 * i)) 255) =
  Z.shiftr z (8 * i).
Proof.
  intros Hi ->. replace (8 * (i + 1))%Z with (8 * i + 8)%Z by lia.
  rewrite <- Z.shiftr_shiftr by lia. generalize (Z.shiftr z (8 * i)). intros y.
  change 255%Z with (Z.ones 8). rewrite <- Z.ldiff_ones_r by lia.
  apply Z.bits_inj'. intros n Hn. rewrite Z.lor_spec, Z.ldiff_spec, Z.land_spec.
  destruct (Z.testbit y n), (Z.testbit (Z.ones 8) n); done.
Qed.

Lemma Uint64_PutUint64 z : (0 <= z < 2 ^ 64)%Z → Uint64 (PutUint64 z) = z.
Proof.
  intros Hz. unfold Uint64, PutUint64. simpl Uint64_loop. rewrite !byte_val_of.
  assert (0 = Z.shiftr z (8 * 8))%Z as H0.
  { symmetry. rewrite Z.shiftr_div_pow2 by lia. apply Z.div_small. simpl. lia. }
  rewrite H0 at 1. rewrite (shift_in z 7 8), (shift_in z 6 7), (shift_in z 5 6), (shift_in z 4 5),
    (shift_in z 3 4), (shift_in z 2 3), (shift_in z 1 2), (shift_in z 0 1) by lia.
  by rewrite Z.shiftr_0_r.
Qed.

Lemma int64_uint64 t : int64 (uint64 t) = int64 t.
Proof.
  unfold int64, uint64, wrap. rewrite Z.add_mod_idemp_l by done. done.
Qed.

(** The election term survives the store: for every term,
    what [SaveElectionState] encodes in eight bytes decodes to the [int64] that
    was saved. *)
Theorem term_roundtrip (t : Z) :
  (min_int64 <= t <= max_int64)%Z → int64 (Uint64 (PutUint64 (uint64 t))) = t.
Proof.
  intros Ht. rewrite Uint64_PutUint64 by (apply Z.mod_pos_bound; lia).
  rewrite int64_uint64. by apply int64_small.
Qed.

(** ** The implementation meets the contract *)

Section implementation.
Context {DB : Type} {Gbolt : Bolt DB} {Gcodec : Codec} {Genv : Env}.
Implicit Types (t : buckets) (m : bucket) (db : DB).

Definition decoded {A} (unmarshal : string → A + string) m : gmap string A :=
  omap (λ v, match unmarshal v with inl x => Some x | inr _ => None end) m.

(** Every value of the bucket decodes, to an object with the key's id, which is
    not empty. *)
Definition entries_ok {A} (unmarshal : string → A + string) (idOf : A → string) m : Prop :=
  ∀ k v, m !! k = Some v → ∃ x, unmarshal v = inl x ∧ idOf x = k ∧ k ≠ "".

Definition has_entries {A} (unmarshal : string → A + string) (idOf : A → string) (b : string) t : Prop :=
  ∃ m, t !! b = Some m ∧ entries_ok unmarshal idOf m.

Record store_wf t : Prop := mkStoreWf {
  wf_jobs : has_entries unmarshal_job Job_Id bucketJobs t;
  wf_workers : has_entries unmarshal_worker WorkerInfo_Id bucketWorkers t;
  wf_dead : has_entries unmarshal_job Job_Id bucketDeadLetter t;
  wf_meta : is_Some (t !! bucketMeta)
}.

Definition store_view t : view :=
  mkView (decoded unmarshal_job (t !!! bucketJobs)) (decoded unmarshal_worker (t !!! bucketWorkers))
    (decoded unmarshal_job (t !!! bucketDeadLetter)) (read_election (t !!! bucketMeta)).

Lemma entries_put {A} (un : string → A + string) idOf m k v x :
  entries_ok un idOf m → un v = inl x → idOf x = k → k ≠ "" →
  entries_ok un idOf (<[k:=v]> m) ∧ decoded un (<[k:=v]> m) = <[k:=x]> (decoded un m).
Proof.
  intros Hm Hv Hk Hne. split.
  - intros k' v' [[<- <-]|[_ H]]%lookup_insert_Some; eauto.
  - unfold decoded. apply omap_insert_Some. by rewrite Hv.
Qed.

Lemma entries_delete {A} (un : string → A + string) idOf m k :
  entries_ok un idOf m →
  entries_ok un idOf (delete k m) ∧ decoded un (delete k m) = delete k (decoded un m).
Proof.
  intros Hm. split.
  - intros k' v' [_ H]%lookup_delete_Some. eauto.
  - unfold decoded. by rewrite omap_delete.
Qed.

Lemma entries_no_empty {A} (un : string → A + string) idOf b t :
  has_entries un idOf b t → decoded un (t !!! b) !! "" = None.
Proof.
  intros (m & Hb & Hm). rewrite (lookup_total_correct _ _ _ Hb). unfold decoded. rewrite lookup_omap.
  destruct (m !! "") as [v|] eqn:E; [|done]. by destruct (Hm _ v E) as (_ & _ & _ & ?).
Qed.

Lemma entries_lookup {A} (un : string → A + string) idOf m k :
  entries_ok un idOf m →
  decoded un m !! k = match m !! k with
                      | Some v => match un v with inl x => Some x | inr _ => None end
                      | None => None end ∧
  ∀ x, decoded un m !! k = Some x → idOf x = k.
Proof.
  intros Hm. unfold decoded. rewrite lookup_omap. destruct (m !! k) as [v|] eqn:E; simpl; [|done].
  destruct (Hm k v E) as (x & Hx & Hk & _). rewrite Hx. split; [done|]. by intros y [= <-].
Qed.

(** An operation on the database meets its specification [g] on views. *)
Definition implements (op : M DB (option string)) (g : view → view) : Prop :=
  ∀ db, store_wf (contents db) →
    store_wf (contents (exec op db)) ∧
    store_view (contents (exec op db)) =
      match eval op db with
      | None => g (store_view (contents db)) | Some _ => store_view (contents db) end.

(** A write of a transaction carries over to the database. *)
Lemma update_implements (f : M buckets (option string)) (g : view → view) :
  (∀ t, store_wf t → eval f t = None → store_wf (exec f t) ∧ store_view (exec f t) = g (store_view t)) →
  implements (Bolt_Update f) g.
Proof.
  intros Hf db Hwf. unfold exec, eval. destruct (Bolt_Update f db) as [o db'] eqn:E. simpl.
  destruct (eval f (contents db)) as [e|] eqn:Ef.
  - destruct (update_rollback f db e Ef) as [H1 H2]. rewrite E in H1, H2. simpl in H1, H2.
    subst o. by rewrite H2.
  - destruct o as [e|].
    + by rewrite (update_failed _ _ _ _ E).
    + rewrite (update_commit _ _ _ Ef E). by apply Hf.
Qed.

Lemma put_runs b k v t m :
  t !! b = Some m → eval (tx_Put b k v) t = None →
  exec (tx_Put b k v) t = <[b:=<[k:=v]> m]> t ∧ k ≠ "".
Proof.
  intros Hb. unfold eval, exec, tx_Put. rewrite Hb. destruct (Bucket_Put_error k v) eqn:E; [done|].
  intros _. split; [done|]. intros ->. by apply (put_key_required v).
Qed.

Lemma has_entries_other {A} (un : string → A + string) idOf b b' m t :
  b ≠ b' → has_entries un idOf b t → has_entries un idOf b (<[b':=m]> t).
Proof. intros Hne (m' & Hm & Hok). exists m'. by rewrite lookup_insert_ne. Qed.

Lemma has_entries_here {A} (un : string → A + string) idOf b m t :
  entries_ok un idOf m → has_entries un idOf b (<[b:=m]> t).
Proof. intros Hm. exists m. by rewrite lookup_insert_eq. Qed.

(** Replacing one bucket leaves the well-formedness of the others. *)
Ltac other_buckets :=
  first [done | by apply has_entries_here | by apply has_entries_other
        | by rewrite lookup_insert_ne | by rewrite lookup_insert_eq].
Ltac view_buckets Hb :=
  unfold store_view; rewrite ?lookup_total_insert_eq, ?lookup_total_insert_ne by done;
  rewrite ?(lookup_total_correct _ _ _ Hb).

Lemma put_implements {A} (un : string → A + string) (idOf : A → string) (b : string)
    (kind : string) (data : string + string) (x : A) (g : view → view) :
  (∀ v, data = inl v → un v = inl x) →
  (∀ t m, store_wf t → t !! b = Some m → entries_ok un idOf m) →
  (∀ t, store_wf t → is_Some (t !! b)) →
  (∀ t m m', store_wf t → t !! b = Some m → entries_ok un idOf m' →
     decoded un m' = <[idOf x:=x]> (decoded un m) →
     store_wf (<[b:=m']> t) ∧ store_view (<[b:=m']> t) = g (store_view t)) →
  implements (put_in kind b (idOf x) data) g.
Proof.
  intros Hdata Hok Hsome Hput db Hwf. unfold put_in. destruct data as [v|e]; [|done].
  apply update_implements; [|done]. clear db Hwf. intros t Hwf He.
  destruct (Hsome t Hwf) as [m Hb]. destruct (put_runs _ _ _ _ _ Hb He) as [-> Hne].
  destruct (entries_put un idOf m (idOf x) v x) as [Hm' Hv]; eauto.
Qed.

Lemma Store_PutJob_implements j : implements (Store_PutJob j) (view_put_job j).
Proof.
  apply put_implements with (un := unmarshal_job); [apply job_roundtrip|..].
  - intros t m [(m' & Hb' & ?) _ _ _] Hb. by simplify_eq.
  - intros t [(m & Hb & _) _ _ _]. by exists m.
  - intros t m m' [Hj Hw Hd [? Hmt]] Hb Hm' Hv.
    split; [split; other_buckets|]. view_buckets Hb. by rewrite Hv.
Qed.

Lemma Store_PutDeadLetter_implements j : implements (Store_PutDeadLetter j) (view_put_dead j).
Proof.
  apply put_implements with (un := unmarshal_job); [apply job_roundtrip|..].
  - intros t m [_ _ (m' & Hb' & ?) _] Hb. by simplify_eq.
  - intros t [_ _ (m & Hb & _) _]. by exists m.
  - intros t m m' [Hj Hw Hd [? Hmt]] Hb Hm' Hv.
    split; [split; other_buckets|]. view_buckets Hb. by rewrite Hv.
Qed.

Lemma Store_PutWorker_implements w : implements (Store_PutWorker w) (view_put_worker w).
Proof.
  apply put_implements with (un := unmarshal_worker); [apply worker_roundtrip|..].
  - intros t m [_ (m' & Hb' & ?) _ _] Hb. by simplify_eq.
  - intros t [_ (m & Hb & _) _ _]. by exists m.
  - intros t m m' [Hj Hw Hd [? Hmt]] Hb Hm' Hv.
    split; [split; other_buckets|]. view_buckets Hb. by rewrite Hv.
Qed.

Lemma Store_DeleteJob_implements id : implements (Store_DeleteJob id) (view_delete_job id).
Proof.
  apply update_implements. intros t [(m & Hb & Hm) Hw Hd [? Hmt]] _.
  unfold exec, tx_Delete. rewrite Hb. simpl.
  destruct (entries_delete unmarshal_job Job_Id m id Hm) as [Hm' Hv].
  split; [split; other_buckets|]. view_buckets Hb. by rewrite Hv.
Qed.

Lemma Store_DeleteWorker_implements id : implements (Store_DeleteWorker id) (view_delete_worker id).
Proof.
  apply update_implements. intros t [Hj (m & Hb & Hm) Hd [? Hmt]] _.
  unfold exec, tx_Delete. rewrite Hb. simpl.
  destruct (entries_delete unmarshal_worker WorkerInfo_Id m id Hm) as [Hm' Hv].
  split; [split; other_buckets|]. view_buckets Hb. by rewrite Hv.
Qed.

Lemma read_saved (t : Z) v m :
  read_election (<[metaVotedFor:=v]> (<[metaTerm:=PutUint64 (uint64 t)]> m)) = (int64 t, v).
Proof.
  unfold read_election.
  rewrite lookup_insert_eq, lookup_insert_ne, lookup_insert_eq by done.
  by rewrite Uint64_PutUint64, int64_uint64 by (apply Z.mod_pos_bound; lia).
Qed.

Lemma SaveElectionState_implements (t : Z) v : implements (SaveElectionState t v) (view_save t v).
Proof.
  apply update_implements. intros b [Hj Hw Hd [m Hb]]. mrun.
  destruct (eval (tx_Put bucketMeta metaTerm _) b) eqn:E1; mrun; [done|].
  rewrite (proj1 (put_runs _ _ _ _ _ Hb E1)). intros E2.
  rewrite (proj1 (put_runs _ _ _ _ (<[metaTerm:=PutUint64 (uint64 t)]> m) (lookup_insert_eq _ _ _) E2)).
  rewrite insert_insert_eq. split; [split; other_buckets|].
  unfold store_view. rewrite !lookup_total_insert_ne, lookup_total_insert_eq by done.
  by rewrite read_saved.
Qed.

Lemma get_reads {A} (un : string → A + string) idOf b id db :
  has_entries un idOf b (contents db) →
  read_ok (decoded un (contents db !!! b)) id (get_in b un id db).
Proof.
  intros (m & Hb & Hm). unfold get_in, View. rewrite Hb, (lookup_total_correct _ _ _ Hb).
  destruct (Bolt_View_error db); [done|]. destruct (entries_lookup un idOf m id Hm) as [Hl _].
  destruct (m !! id) as [v|]; simpl; [|done]. by destruct (un v).
Qed.

Lemma decode_all_ok {A} (un : string → A + string) (idOf : A → string) kvs :
  (∀ k v, (k, v) ∈ kvs → ∃ x, un v = inl x ∧ idOf x = k ∧ k ≠ "") →
  ∃ xs, decode_all un kvs = inl xs ∧
    Forall2 (λ kv x, un kv.2 = inl x ∧ idOf x = kv.1) kvs xs.
Proof.
  induction kvs as [|[k v] kvs IH]; intros H; simpl; [by exists []|].
  destruct (H k v) as (x & Hx & Hk & _); [by left|]. rewrite Hx.
  destruct IH as (xs & -> & Hxs); [intros; apply H; by right|].
  exists (x :: xs). split; [done|]. by constructor.
Qed.

Lemma decoded_values {A} (un : string → A + string) (idOf : A → string) kvs xs m :
  kvs ≡ₚ map_to_list m → entries_ok un idOf m →
  Forall2 (λ kv x, un kv.2 = inl x ∧ idOf x = kv.1) kvs xs →
  xs ≡ₚ (map_to_list (decoded un m)).*2.
Proof.
  intros Hp Hm Hxs. assert (NoDup kvs.*1) as Hnd.
  { rewrite Hp. apply NoDup_fst_map_to_list. }
  assert (m = list_to_map kvs) as Em.
  { symmetry. by rewrite (list_to_map_proper kvs _ Hnd Hp), list_to_map_to_list. }
  clear Hp Hm. subst m. induction Hxs as [|[k v] x kvs xs [Hx Hk] Hxs IH]; simpl.
  { unfold decoded. by rewrite omap_empty, map_to_list_empty. }
  simpl in *. apply NoDup_cons in Hnd as [Hn Hnd]. unfold decoded.
  rewrite (omap_insert_Some _ _ _ _ x) by (by rewrite Hx).
  rewrite map_to_list_insert; [simpl; by rewrite <- IH|].
  rewrite lookup_omap, not_elem_of_list_to_map_1; done.
Qed.

Lemma list_lists {A} (un : string → A + string) (idOf : A → string) b db :
  has_entries un idOf b (contents db) →
  listed idOf (decoded un (contents db !!! b)) (list_in b un db).
Proof.
  intros (m & Hb & Hm). unfold list_in, View. rewrite Hb, (lookup_total_correct _ _ _ Hb).
  destruct (Bolt_View_error db); simpl; [done|].
  destruct (decode_all_ok un idOf (Bucket_ForEach m)) as (xs & -> & Hxs).
  { intros k v Hkv. rewrite foreach_entries in Hkv. by apply Hm, elem_of_map_to_list. }
  split; [by eapply decoded_values; [apply foreach_entries|..]|].
  pose proof (foreach_order m) as Ho.
  induction Hxs as [|[k v] x kvs xs [_ Hk] Hxs IH]; [constructor|].
  apply StronglySorted_inv in Ho as [Ho Hall]. constructor; [auto|].
  apply Forall_lookup. intros i y Hi.
  destruct (Forall2_lookup_r _ _ _ _ _ Hxs Hi) as ([k' v'] & Hkv & _ & Hk').
  simpl in *. rewrite Hk, Hk'. exact (proj1 (Forall_lookup _ _) Hall i (k', v') Hkv).
Qed.

(** A database opened by [Open] and changed by these operations only. *)
Definition Opened : Type := { db : DB | store_wf (contents db) }.

Definition on_opened (op : M DB (option string)) (g : view → view) (H : implements op g)
    : M Opened (option string) := λ st,
  (eval op (`st), exist _ (exec op (`st)) (proj1 (H (`st) (proj2_sig st)))).

Lemma on_opened_writes op g (H : implements op g) :
  writes (λ st : Opened, store_view (contents (`st))) (on_opened op g H) g.
Proof. intros [db Hwf]. by apply H. Qed.

(** The BoltDB store provides the interface the scheduler relies on. *)
#[export] Instance bolt_store : JobStore Opened.
Proof.
  refine {|
    st_view st := store_view (contents (`st));
    PutJob j := on_opened _ _ (Store_PutJob_implements j);
    GetJob id st := Store_GetJob id (`st);
    DeleteJob id := on_opened _ _ (Store_DeleteJob_implements id);
    ListJobs st := Store_ListJobs (`st);
    PutWorker w := on_opened _ _ (Store_PutWorker_implements w);
    ListWorkers st := Store_ListWorkers (`st);
    PutDeadLetter j := on_opened _ _ (Store_PutDeadLetter_implements j);
    CountDeadLetter st := Store_CountDeadLetter (`st);
    SaveElection term v := on_opened _ _ (SaveElectionState_implements term v);
    LoadElection st := LoadElectionState (`st)
  |}.
  - intros [db Hwf] id j. simpl. destruct Hwf as [(m & Hb & Hm) _ _ _]. rewrite (lookup_total_correct _ _ _ Hb).
    by apply entries_lookup.
  - intros [db Hwf] id j. simpl. destruct Hwf as [_ (m & Hb & Hm) _ _]. rewrite (lookup_total_correct _ _ _ Hb).
    by apply entries_lookup.
  - intros [db Hwf]. split; eapply entries_no_empty; apply Hwf.
  - intros. apply on_opened_writes.
  - intros id [db Hwf]. by apply (get_reads _ Job_Id), wf_jobs.
  - intros. apply on_opened_writes.
  - intros [db Hwf]. by apply list_lists, wf_jobs.
  - intros. apply on_opened_writes.
  - intros [db Hwf]. by apply list_lists, wf_workers.
  - intros. apply on_opened_writes.
  - intros [db Hwf]. simpl. destruct Hwf as [_ _ (m & Hb & Hm) _]. unfold Store_CountDeadLetter, View.
    rewrite Hb, (lookup_total_correct _ _ _ Hb). destruct (Bolt_View_error db); [by eauto|].
    left. rewrite keyn_size. do 2 f_equal. unfold decoded.
    assert (dom (omap (λ v, match unmarshal_job v with inl x => Some x | inr _ => None end) m) = dom m) as Hd.
    { apply set_eq. intros k. rewrite !elem_of_dom, lookup_omap.
      destruct (m !! k) as [v|] eqn:E; simpl; [|done]. destruct (Hm k v E) as (x & -> & _). by split; eauto. }
    by rewrite <- !size_dom, Hd.
  - intros. apply on_opened_writes.
  - intros [db Hwf] tv. simpl. destruct Hwf as [_ _ _ [m Hb]]. unfold LoadElectionState, View.
    rewrite Hb, (lookup_total_correct _ _ _ Hb). by destruct (Bolt_View_error db); intros [= <-].
Defined.

(** C38. A job that was stored reads back as it was stored, and storing it does
    not change what any other id reads. *)
Theorem Store_PutJob_GetJob j id db db' :
  store_wf (contents db) → Store_PutJob j db = (None, db') →
  Bolt_View_error db = None → Bolt_View_error db' = None →
  Store_GetJob id db' = if decide (id = j.(Job_Id)) then inl j else Store_GetJob id db.
Proof.
  intros Hwf Hput He He'. destruct (Store_PutJob_implements j db Hwf) as [Hwf' Hv].
  unfold exec, eval in Hv, Hwf'. rewrite Hput in Hv, Hwf'. simpl in Hv, Hwf'.
  apply (f_equal v_jobs) in Hv. simpl in Hv. revert Hv.
  destruct Hwf as [(m & Hb & Hm) _ _ _], Hwf' as [(m' & Hb' & Hm') _ _ _].
  rewrite (lookup_total_correct _ _ _ Hb), (lookup_total_correct _ _ _ Hb'). intros Hv.
  unfold Store_GetJob, get_in, View. rewrite He, He', Hb, Hb'.
  apply (f_equal (lookup id)) in Hv. revert Hv.
  rewrite (proj1 (entries_lookup _ _ _ id Hm')). case_decide as Hid; subst.
  - rewrite lookup_insert_eq. destruct (m' !! _) as [v|]; [|done].
    by destruct (unmarshal_job v); intros [= ->].
  - rewrite lookup_insert_ne, (proj1 (entries_lookup _ _ _ id Hm)) by done.
    destruct (m' !! id) as [v'|] eqn:E', (m !! id) as [v|] eqn:E;
      repeat match goal with
      | H : m' !! _ = Some _ |- _ => destruct (Hm' _ _ H) as (? & -> & _); clear H
      | H : m !! _ = Some _ |- _ => destruct (Hm _ _ H) as (? & -> & _); clear H
      end; congruence.
Qed.

Definition required_buckets : list string := [bucketJobs; bucketWorkers; bucketDeadLetter; bucketMeta].

Lemma create_all_keeps bs t :
  eval (create_all bs) t = None →
  ∀ b, exec (create_all bs) t !! b =
    match t !! b with Some m => Some m | None => if decide (b ∈ bs) then Some ∅ else None end.
Proof.
  revert t. induction bs as [|b0 bs IH]; intros t; simpl; mrun.
  { intros _ b. by destruct (t !! b). }
  assert (eval (tx_CreateBucketIfNotExists b0) t = CreateBucket_error b0) as ->
    by (unfold eval, tx_CreateBucketIfNotExists; by destruct (CreateBucket_error b0)).
  destruct (CreateBucket_error b0) eqn:Ec; mrun; [done|]. intros He b. rewrite IH by done.
  unfold exec, tx_CreateBucketIfNotExists. rewrite Ec. simpl.
  destruct (t !! b0) as [m0|] eqn:E0.
  - destruct (t !! b) eqn:Eb; [done|]. repeat case_decide; set_solver.
  - destruct (decide (b = b0)) as [->|Hne].
    + rewrite lookup_insert_eq, E0. case_decide; [done|]. set_solver.
    + rewrite lookup_insert_ne by done. destruct (t !! b); [done|]. repeat case_decide; set_solver.
Qed.

(** [Open] yields a well-formed store: on a new file an empty one, and on
    the file of a well-formed store the same contents. *)
Theorem Open_wf path db db' :
  contents db = ∅ ∨ store_wf (contents db) → Open path (inl db) = inl db' →
  store_wf (contents db') ∧
  store_view (contents db') =
    if decide (contents db = ∅) then mkView ∅ ∅ ∅ (0%Z, "") else store_view (contents db).
Proof.
  intros Hdb. unfold Open. destruct (Bolt_Update _ db) as [[e|] db1] eqn:E; intros [= <-].
  fold required_buckets in E.
  destruct (eval (create_all required_buckets) (contents db)) eqn:Ef.
  { apply update_rollback in Ef as [H1 _]. by rewrite E in H1. }
  pose proof (create_all_keeps _ _ Ef) as Hk. rewrite (update_commit _ _ _ Ef E).
  revert Hk. generalize (exec (create_all required_buckets) (contents db)). intros t Hk.
  pose proof (Hk bucketJobs) as H1. pose proof (Hk bucketWorkers) as H2.
  pose proof (Hk bucketDeadLetter) as H3. pose proof (Hk bucketMeta) as H4. clear Hk E Ef.
  destruct (decide (contents db = ∅)) as [Hemp|Hemp].
  - rewrite Hemp in H1, H2, H3, H4. vm_compute decide in H1, H2, H3, H4.
    rewrite lookup_empty in H1. rewrite lookup_empty in H2.
    rewrite lookup_empty in H3. rewrite lookup_empty in H4.
    assert (∀ A (un : string → A + string) idOf b, t !! b = Some ∅ → has_entries un idOf b t) as Hhas.
    { intros A un idOf b Hb. exists ∅. split; [done|]. intros k v. by rewrite lookup_empty. }
    split; [split; eauto|].
    unfold store_view. by rewrite (lookup_total_correct _ _ _ H1), (lookup_total_correct _ _ _ H2),
      (lookup_total_correct _ _ _ H3), (lookup_total_correct _ _ _ H4).
  - destruct Hdb as [?|[(m1 & E1 & ?) (m2 & E2 & ?) (m3 & E3 & ?) [m4 E4]]]; [done|].
    rewrite E1 in H1. rewrite E2 in H2. rewrite E3 in H3. rewrite E4 in H4.
    split; [split; unfold has_entries; eauto|]. unfold store_view.
    by rewrite (lookup_total_correct _ _ _ H1), (lookup_total_correct _ _ _ H2),
      (lookup_total_correct _ _ _ H3), (lookup_total_correct _ _ _ H4), (lookup_total_correct _ _ _ E1),
      (lookup_total_correct _ _ _ E2), (lookup_total_correct _ _ _ E3), (lookup_total_correct _ _ _ E4).
Qed.

(** [ListJobs] on an open database returns every stored job exactly once,
    in increasing order of id. *)
Theorem Store_ListJobs_complete db :
  store_wf (contents db) → Bolt_View_error db = None →
  ∃ jobs, Store_ListJobs db = inl jobs ∧
    (∀ j, j ∈ jobs ↔ Store_GetJob j.(Job_Id) db = inl j) ∧
    StronglySorted (λ x y, String.ltb x.(Job_Id) y.(Job_Id) = true) jobs.
Proof.
  intros [Hj _ _ _] He. pose proof (list_lists _ _ _ db Hj) as Hl. fold (Store_ListJobs db) in Hl.
  destruct Hj as (m & Hb & Hm). rewrite (lookup_total_correct _ _ _ Hb) in Hl.
  destruct (Store_ListJobs db) as [jobs|e] eqn:E.
  - exists jobs. destruct Hl as [Hp Hs]. split_and!; [done| |done]. intros j.
    unfold Store_GetJob, get_in, View. rewrite He, Hb, Hp, list_elem_of_fmap. split.
    + intros ([k x] & -> & Hx%elem_of_map_to_list). simpl.
      pose proof (entries_lookup _ _ _ k Hm) as [Hk Hid]. rewrite (Hid _ Hx). rewrite Hx in Hk.
      destruct (m !! k) as [v|]; [|done]. by destruct (unmarshal_job v); simplify_eq.
    + intros Hg. exists (Job_Id j, j). split; [done|]. apply elem_of_map_to_list.
      rewrite (proj1 (entries_lookup _ _ _ _ Hm)). destruct (m !! _) as [v|]; [|done].
      by destruct (unmarshal_job v); simplify_eq.
  - exfalso. unfold Store_ListJobs, list_in, View in E. rewrite He, Hb in E.
    destruct (decode_all_ok unmarshal_job Job_Id (Bucket_ForEach m)) as (xs & Hxs & _); [|congruence].
    intros k v Hkv. rewrite foreach_entries in Hkv. by apply Hm, elem_of_map_to_list.
Qed.

End implementation.

Arguments Opened : clear implicits.
Arguments Opened DB {Gbolt Gcodec}.

(** ** A concrete database and codec

    The database keeps its buckets in memory and refuses empty keys; the codec
    handles messages that have nothing but an id. *)

Definition key_le (x y : string * string) : Prop := String.le x.1 y.1.
#[local] Instance key_le_dec : RelDecision key_le.
Proof. intros x y. unfold key_le. apply _. Defined.
#[local] Instance key_le_total : Total key_le.
Proof. intros x y. unfold key_le. apply (total String.le). Qed.
#[local] Instance key_le_trans : Transitive key_le.
Proof. intros x y z. unfold key_le. apply transitivity. Qed.

Lemma sorted_keys (b : bucket) :
  StronglySorted (λ x y, String.ltb x.1 y.1 = true) (merge_sort key_le (map_to_list b)).
Proof.
  pose proof (StronglySorted_merge_sort key_le (map_to_list b)) as Hs.
  assert (NoDup (merge_sort key_le (map_to_list b)).*1) as Hnd
    by (rewrite merge_sort_Permutation; apply NoDup_fst_map_to_list).
  revert Hs Hnd. generalize (merge_sort key_le (map_to_list b)). intros l.
  induction 1 as [|x l Hs IH Hx]; intros Hnd; [constructor|].
  apply NoDup_cons in Hnd as [Hx' Hnd]. constructor; [auto|].
  rewrite Forall_forall in Hx |- *. intros y Hy. apply ltb_true. split; [by apply Hx|].
  intros Heq. apply Hx'. rewrite Heq. apply list_elem_of_fmap. eauto.
Qed.

Definition mem_bolt : Bolt buckets.
Proof.
  refine {|
    contents t := t;
    Bolt_Update f t := match f t with (None, t') => (None, t') | (Some e, _) => (Some e, t) end;
    Bolt_View_error _ := None;
    Bucket_Put_error k v := if String.eqb k "" then Some "key required" else None;
    CreateBucket_error _ := None;
    Bucket_ForEach b := merge_sort key_le (map_to_list b);
    Bucket_KeyN b := Z.of_nat (size b)
  |}.
  - abstract done.
  - abstract (intros f t e; unfold eval; destruct (f t) as [[?|] ?]; naive_solver).
  - abstract (intros f t t'; unfold eval, exec; destruct (f t) as [[?|] ?]; naive_solver).
  - abstract (intros f t e t'; destruct (f t) as [[?|] ?]; naive_solver).
  - abstract (intros b; apply merge_sort_Permutation).
  - exact sorted_keys.
  - abstract done.
Defined.

Definition blank_job (id : string) : Job :=
  mkJob id "" 0 None [] None None JOB_STATE_QUEUED 0 "" "" None None None None None.

Definition blank_worker (id : string) : WorkerInfo :=
  mkWorkerInfo id "" 1 ∅ WORKER_STATE_ALIVE None 0.

Definition id_codec : Codec.
Proof.
  refine {|
    marshal_job j := if decide (j = blank_job j.(Job_Id)) then inl j.(Job_Id) else inr "unsupported";
    unmarshal_job b := inl (blank_job b);
    marshal_worker w :=
      if decide (w = blank_worker w.(WorkerInfo_Id)) then inl w.(WorkerInfo_Id) else inr "unsupported";
    unmarshal_worker b := inl (blank_worker b)
  |}.
  - abstract (intros j b; case_decide; intros [= <-]; by f_equal).
  - abstract (intros w b; case_decide; intros [= <-]; by f_equal).
Defined.

Section samples.
#[local] Existing Instance mem_bolt.
#[local] Existing Instance id_codec.
#[local] Existing Instance sample_env.

Definition sample_db : buckets :=
  list_to_map ((λ b, (b, ∅)) <$> required_buckets).

Definition sample_db' : buckets := exec (Store_PutJob (blank_job "b")) (exec (Store_PutJob (blank_job "a")) sample_db).

Lemma Open_sample : Open "store.db" (inl (∅ : buckets)) = inl sample_db.
Proof. vm_cast_no_check (@eq_refl (buckets + string) (inl sample_db)). Qed.

Lemma Open_wf_witness : store_wf (contents sample_db).
Proof. exact (proj1 (Open_wf "store.db" ∅ sample_db (or_introl eq_refl) Open_sample)). Defined.

Lemma sample_db_wf : store_wf (contents sample_db).
Proof.
  assert (∀ A (un : string → A + string) idOf b, sample_db !! b = Some ∅ → has_entries un idOf b sample_db) as H.
  { intros A un idOf b Hb. exists ∅. split; [done|]. by intros k v. }
  split; try apply H; try by vm_compute. eexists. by vm_compute.
Qed.

Lemma sample_db_wf' : store_wf (contents sample_db').
Proof.
  exact (proj1 (Store_PutJob_implements (blank_job "b") _
    (proj1 (Store_PutJob_implements (blank_job "a") sample_db sample_db_wf)))).
Qed.

Lemma sample_put : Store_PutJob (blank_job "c") sample_db' = (None, exec (Store_PutJob (blank_job "c")) sample_db').
Proof.
  vm_cast_no_check (@eq_refl (option string * buckets) (None, exec (Store_PutJob (blank_job "c")) sample_db')).
Qed.

Lemma Store_PutJob_GetJob_witness :
  Store_GetJob "c" (exec (Store_PutJob (blank_job "c")) sample_db') = inl (blank_job "c").
Proof.
  exact (Store_PutJob_GetJob (blank_job "c") "c" sample_db' _ sample_db_wf' sample_put eq_refl eq_refl).
Defined.

Lemma Store_ListJobs_complete_witness :
  ∃ jobs, Store_ListJobs sample_db' = inl jobs ∧ jobs = [blank_job "a"; blank_job "b"].
Proof.
  destruct (Store_ListJobs_complete sample_db' sample_db_wf' eq_refl) as (jobs & H & _).
  exists jobs. split; [done|]. vm_compute in H. by injection H as <-.
Defined.

End samples.
