(* ===== verification/MemStore.v ===== *)
(** * A store in memory

    An instance of the store interface whose operations succeed (except that an
    empty id is refused, as by BoltDB), to run the scheduler on concrete inputs,
    and one whose writes fail from some point on, to run its error paths. *)

From S2P Require Import Prelude Types Env Cluster Store.

Definition keyed (v : view) : Prop :=
  map_Forall (λ id j, j.(Job_Id) = id ∧ id ≠ "") v.(v_jobs) ∧
  map_Forall (λ id w, w.(WorkerInfo_Id) = id ∧ id ≠ "") v.(v_workers).

(** [budget] is the number of writes that will still succeed; [None] is no
    limit. *)
Record MemStore := mkMemStore {
  mem_view : view;
  mem_budget : option nat;
  mem_keyed : keyed mem_view
}.

Lemma keyed_put_job j : j.(Job_Id) ≠ "" → ∀ v, keyed v → keyed (view_put_job j v).
Proof. intros Hid v [H1 H2]. split; [|done]. by apply map_Forall_insert_2. Qed.

Lemma keyed_delete_job id : "x" ≠ "" → ∀ v, keyed v → keyed (view_delete_job id v).
Proof. intros _ v [H1 H2]. split; [|done]. by apply map_Forall_delete. Qed.

Lemma keyed_put_worker w : w.(WorkerInfo_Id) ≠ "" → ∀ v, keyed v → keyed (view_put_worker w v).
Proof. intros Hid v [H1 H2]. split; [done|]. by apply map_Forall_insert_2. Qed.

Lemma keyed_put_dead j : j.(Job_Id) ≠ "" → ∀ v, keyed v → keyed (view_put_dead j v).
Proof. done. Qed.

Lemma keyed_save t w : "x" ≠ "" → ∀ v, keyed v → keyed (view_save t w v).
Proof. done. Qed.

(** A write of [f] that fails on an empty id or an exhausted budget. *)
Definition mem_write (id : string) (f : view → view) (H : id ≠ "" → ∀ v, keyed v → keyed (f v))
    : M MemStore (option string) := λ st,
  match decide (id = "") with
  | left _ => (Some "key required", st)
  | right Hid =>
      match st.(mem_budget) with
      | Some 0 => (Some "disk full", st)
      | Some (S n) => (None, mkMemStore (f st.(mem_view)) (Some n) (H Hid _ st.(mem_keyed)))
      | None => (None, mkMemStore (f st.(mem_view)) None (H Hid _ st.(mem_keyed)))
      end
  end.

Lemma mem_write_writes id f H : writes mem_view (mem_write id f H) f.
Proof.
  intros st. unfold eval, exec, mem_write. destruct (decide (id = "")) as [?|?]; [done|].
  by destruct (mem_budget st) as [[|k]|].
Qed.

Definition id_le {A} (idOf : A → string) (x y : A) : Prop := String.le (idOf x) (idOf y).
#[local] Instance id_le_dec {A} (idOf : A → string) : RelDecision (id_le idOf).
Proof. intros x y. unfold id_le. apply _. Defined.
#[local] Instance id_le_total {A} (idOf : A → string) : Total (id_le idOf).
Proof. intros x y. unfold id_le. apply (total String.le). Qed.
#[local] Instance id_le_trans {A} (idOf : A → string) : Transitive (id_le idOf).
Proof. intros x y z. unfold id_le. apply transitivity. Qed.

Definition mem_list {A} (idOf : A → string) (m : gmap string A) : list A :=
  merge_sort (id_le idOf) (map_to_list m).*2.

Lemma mem_list_listed {A} (idOf : A → string) (m : gmap string A) :
  map_Forall (λ id x, idOf x = id ∧ id ≠ "") m → listed idOf m (inl (mem_list idOf m)).
Proof.
  intros Hm. simpl. split; [apply merge_sort_Permutation|].
  pose proof (StronglySorted_merge_sort (id_le idOf) (map_to_list m).*2) as Hs.
  assert (NoDup (idOf <$> mem_list idOf m)) as Hnd.
  { unfold mem_list. rewrite merge_sort_Permutation, <- list_fmap_compose.
    rewrite (list_fmap_ext _ fst); [apply NoDup_fst_map_to_list|].
    intros i [k x] Hx. apply list_elem_of_lookup_2, elem_of_map_to_list in Hx. by apply (Hm k x Hx). }
  fold (mem_list idOf m) in Hs. revert Hs Hnd. generalize (mem_list idOf m). intros l.
  induction 1 as [|x l Hs IH Hx]; intros Hnd; [constructor|].
  apply NoDup_cons in Hnd as [Hx' Hnd]. constructor; [auto|].
  rewrite Forall_forall in Hx |- *. intros y Hy. apply ltb_true. split; [by apply Hx|].
  intros Heq. apply Hx'. rewrite Heq. apply list_elem_of_fmap. eauto.
Qed.

#[export] Instance mem_jobstore : JobStore MemStore.
Proof.
  refine {|
    st_view := mem_view;
    PutJob j := mem_write j.(Job_Id) (view_put_job j) (keyed_put_job j);
    GetJob id st := match st.(mem_view).(v_jobs) !! id with Some j => inl j | None => inr ErrNotFound end;
    DeleteJob id := mem_write "x" (view_delete_job id) (keyed_delete_job id);
    ListJobs st := inl (mem_list Job_Id st.(mem_view).(v_jobs));
    PutWorker w := mem_write w.(WorkerInfo_Id) (view_put_worker w) (keyed_put_worker w);
    ListWorkers st := inl (mem_list WorkerInfo_Id st.(mem_view).(v_workers));
    PutDeadLetter j := mem_write j.(Job_Id) (view_put_dead j) (keyed_put_dead j);
    CountDeadLetter st := (Z.of_nat (size st.(mem_view).(v_dead)), None);
    SaveElection t v := mem_write "x" (view_save t v) (keyed_save t v);
    LoadElection st := inl st.(mem_view).(v_saved)
  |}.
  - intros st id j Hj. apply (proj1 (mem_keyed st) id j Hj).
  - intros st id w Hw. apply (proj2 (mem_keyed st) id w Hw).
  - intros st. split.
    + destruct (v_jobs (mem_view st) !! "") as [j|] eqn:E; [|done]. by apply (proj1 (mem_keyed st)) in E as [_ ?].
    + destruct (v_workers (mem_view st) !! "") as [w|] eqn:E; [|done]. by apply (proj2 (mem_keyed st)) in E as [_ ?].
  - intros. apply mem_write_writes.
  - intros id st. unfold read_ok. by destruct (_ !! id) eqn:E.
  - intros. apply mem_write_writes.
  - intros st. apply mem_list_listed, (proj1 (mem_keyed st)).
  - intros. apply mem_write_writes.
  - intros st. apply mem_list_listed, (proj2 (mem_keyed st)).
  - intros. apply mem_write_writes.
  - intros st. by left.
  - intros. apply mem_write_writes.
  - intros st tv. by intros [= <-].
Defined.

Lemma empty_keyed : keyed (mkView ∅ ∅ ∅ (0%Z, "")).
Proof. split; apply map_Forall_empty. Qed.

Definition empty_store : MemStore := mkMemStore (mkView ∅ ∅ ∅ (0%Z, "")) None empty_keyed.

(** The same store with only [n] more writes. *)
Definition failing_after (n : nat) (st : MemStore) : MemStore :=
  mkMemStore st.(mem_view) (Some n) st.(mem_keyed).

(** With no limit on writes the store is durable. *)
#[export] Instance mem_durable : DurableStore MemStore.
Proof.
  assert (∀ id f H st, st.(mem_budget) = None → id ≠ "" → eval (mem_write id f H) st = None) as Hw.
  { intros id f H st Hb Hid. unfold mem_write, eval. destruct (decide (id = "")); [done|]. by rewrite Hb. }
  assert (∀ id f H st, st.(mem_budget) = None → (exec (mem_write id f H) st).(mem_budget) = None) as Hk.
  { intros id f H st Hb. unfold mem_write, exec. destruct (decide (id = "")); [done|]. by rewrite Hb. }
  refine {| healthy st := st.(mem_budget) = None |}.
  - intros j st. apply Hw.
  - intros j st. apply Hk.
  - intros id st j _ Hj. simpl in *. by rewrite Hj.
  - by eexists.
  - by eexists.
  - intros w st. apply Hw.
  - intros w st. apply Hk.
  - intros j st. apply Hw.
  - intros j st. apply Hk.
  - intros t v st Hb. by apply Hw.
  - intros t v st. apply Hk.
Defined.

Lemma empty_store_healthy : healthy empty_store.
Proof. done. Qed.
