(* ===== verification/Server.v ===== *)
(** * The scheduler node: state and shared operations (internal/scheduler/server.go)

    [Server] is the state of one scheduler node.  Handlers are computations over
    it; each mutex-protected region of the code is a field access here, and a
    handler runs without interruption.  Log calls are left out, metrics counters
    are kept.  Questions to the outside (clock, randomness, fresh ids, map
    order) consume a tick of the environment of [Env.v]. *)

From S2P Require Import Prelude Types Queue Retry Env Cluster Store.

(** ** Configuration and errors *)

Record Member := mkMember { Member_ID : string; Member_Address : string }.

Definition Millisecond : Z := 1000000.
Definition Second : Z := 1000 * Millisecond.

Record Config := mkConfig {
  Config_NodeID : string;
  Config_ListenAddr : string;
  Config_DataDir : string;
  Config_Members : list Member;
  Config_HeartbeatTimeout : Z;
  Config_LeaseTTL : Z;
  Config_HeartbeatInterval : Z;
  Config_ElectionTimeoutMin : Z;
  Config_ElectionTimeoutMax : Z;
  Config_ReaperInterval : Z;
  Config_MetricsAddr : string
}.

Definition or_default (x d : Z) : Z := if (x =? 0)%Z then d else x.
Definition or_default_s (x d : string) : string := if String.eqb x "" then d else x.

Definition Config_withDefaults (c : Config) : Config :=
  let NodeID := or_default_s c.(Config_NodeID) "scheduler-1" in
  let ListenAddr := or_default_s c.(Config_ListenAddr) ":7070" in
  mkConfig NodeID ListenAddr
    (or_default_s c.(Config_DataDir) "./data")
    (match c.(Config_Members) with [] => [mkMember NodeID ListenAddr] | ms => ms end)
    (or_default c.(Config_HeartbeatTimeout) (15 * Second))
    (or_default c.(Config_LeaseTTL) (30 * Second))
    (or_default c.(Config_HeartbeatInterval) (250 * Millisecond))
    (or_default c.(Config_ElectionTimeoutMin) (800 * Millisecond))
    (or_default c.(Config_ElectionTimeoutMax) (1600 * Millisecond))
    (or_default c.(Config_ReaperInterval) (3 * Second))
    c.(Config_MetricsAddr).

(** gRPC status errors: the codes the scheduler returns, the one of an
    unreachable server, and any other. *)
Inductive Code := InvalidArgument | NotFound | FailedPrecondition | Internal | Unavailable | OtherCode (n : Z).

Record Status := mkStatus { status_code : Code; status_msg : string }.

(** An [error] a client handles: the status of an RPC, or another error's text. *)
Inductive GoError := StatusError (s : Status) | TextError (msg : string).

Definition notLeaderError (leaderAddr : string) : Status :=
  mkStatus FailedPrecondition ("not leader; leader_addr=" +:+ leaderAddr)%string.

(** ** Cron: github.com/robfig/cron

    [ParseStandard] gives a schedule, that is the function from an instant to
    its next fire time, or an error. *)
Class Cron := {
  cron_ParseStandard : string → (Z → Z) + string
}.

Definition nextCron {Gcron : Cron} (expr : string) (now : Z) : Z + string :=
  match cron_ParseStandard expr with
  | inl next => inl (next now)
  | inr e => inr e
  end.

(** ** State *)

Record lease := mkLease {
  lease_taskID : string;
  lease_jobID : string;
  lease_workerID : string;
  lease_attempt : Z;
  lease_deadline : Z
}.

(** The event counters of internal/metrics. *)
Record Metrics := mkMetrics {
  JobsSubmitted : Z;
  JobsSucceeded : Z;
  JobsDeadLettered : Z;
  JobsCanceled : Z;
  TasksDispatched : Z;
  TasksRetried : Z;
  TasksRequeued : Z
}.

Definition inc_JobsSubmitted (m : Metrics) : Metrics :=
  mkMetrics (m.(JobsSubmitted) + 1) m.(JobsSucceeded) m.(JobsDeadLettered)
    m.(JobsCanceled) m.(TasksDispatched) m.(TasksRetried) m.(TasksRequeued).

Definition inc_JobsSucceeded (m : Metrics) : Metrics :=
  mkMetrics m.(JobsSubmitted) (m.(JobsSucceeded) + 1) m.(JobsDeadLettered)
    m.(JobsCanceled) m.(TasksDispatched) m.(TasksRetried) m.(TasksRequeued).

Definition inc_JobsDeadLettered (m : Metrics) : Metrics :=
  mkMetrics m.(JobsSubmitted) m.(JobsSucceeded) (m.(JobsDeadLettered) + 1)
    m.(JobsCanceled) m.(TasksDispatched) m.(TasksRetried) m.(TasksRequeued).

Definition inc_JobsCanceled (m : Metrics) : Metrics :=
  mkMetrics m.(JobsSubmitted) m.(JobsSucceeded) m.(JobsDeadLettered) (m.(JobsCanceled) +
    1) m.(TasksDispatched) m.(TasksRetried) m.(TasksRequeued).

Definition inc_TasksDispatched (m : Metrics) : Metrics :=
  mkMetrics m.(JobsSubmitted) m.(JobsSucceeded) m.(JobsDeadLettered) m.(JobsCanceled)
    (m.(TasksDispatched) + 1) m.(TasksRetried) m.(TasksRequeued).

Definition inc_TasksRetried (m : Metrics) : Metrics :=
  mkMetrics m.(JobsSubmitted) m.(JobsSucceeded) m.(JobsDeadLettered) m.(JobsCanceled)
    m.(TasksDispatched) (m.(TasksRetried) + 1) m.(TasksRequeued).

Definition inc_TasksRequeued (m : Metrics) : Metrics :=
  mkMetrics m.(JobsSubmitted) m.(JobsSucceeded) m.(JobsDeadLettered) m.(JobsCanceled)
    m.(TasksDispatched) m.(TasksRetried) (m.(TasksRequeued) + 1).

Section server.
Context {St : Type} {Gstore : JobStore St} {Genv : Env} {Gcron : Cron}.

(** [sv_retryTimers] maps a job to the delay its pending timer was armed with;
    [sv_tick] counts the questions asked to the environment. *)
Record Server := mkServer {
  sv_cfg : Config;
  sv_members : gmap string string;
  sv_selfAddr : string;
  sv_store : St;
  sv_queue : PriorityQueue;
  sv_node : Node;
  sv_workers : gmap string WorkerInfo;
  sv_leases : gmap string lease;
  sv_retryTimers : gmap string Z;
  sv_replLog : list ReplicationEntry;
  sv_replSeq : Z;
  sv_peerAcked : gmap string Z;
  sv_revIndex : gmap string (gset string);
  sv_metrics : Metrics;
  sv_closed : bool;
  sv_tick : nat
}.

Definition set_sv_store (x : St) (r : Server) : Server :=
  mkServer r.(sv_cfg) r.(sv_members) r.(sv_selfAddr) x r.(sv_queue) r.(sv_node)
    r.(sv_workers) r.(sv_leases) r.(sv_retryTimers) r.(sv_replLog) r.(sv_replSeq)
    r.(sv_peerAcked) r.(sv_revIndex) r.(sv_metrics) r.(sv_closed) r.(sv_tick).

Definition set_sv_queue (x : PriorityQueue) (r : Server) : Server :=
  mkServer r.(sv_cfg) r.(sv_members) r.(sv_selfAddr) r.(sv_store) x r.(sv_node)
    r.(sv_workers) r.(sv_leases) r.(sv_retryTimers) r.(sv_replLog) r.(sv_replSeq)
    r.(sv_peerAcked) r.(sv_revIndex) r.(sv_metrics) r.(sv_closed) r.(sv_tick).

Definition set_sv_node (x : Node) (r : Server) : Server :=
  mkServer r.(sv_cfg) r.(sv_members) r.(sv_selfAddr) r.(sv_store) r.(sv_queue) x
    r.(sv_workers) r.(sv_leases) r.(sv_retryTimers) r.(sv_replLog) r.(sv_replSeq)
    r.(sv_peerAcked) r.(sv_revIndex) r.(sv_metrics) r.(sv_closed) r.(sv_tick).

Definition set_sv_workers (x : gmap string WorkerInfo) (r : Server) : Server :=
  mkServer r.(sv_cfg) r.(sv_members) r.(sv_selfAddr) r.(sv_store) r.(sv_queue) r.(sv_node)
    x r.(sv_leases) r.(sv_retryTimers) r.(sv_replLog) r.(sv_replSeq) r.(sv_peerAcked)
    r.(sv_revIndex) r.(sv_metrics) r.(sv_closed) r.(sv_tick).

Definition set_sv_leases (x : gmap string lease) (r : Server) : Server :=
  mkServer r.(sv_cfg) r.(sv_members) r.(sv_selfAddr) r.(sv_store) r.(sv_queue) r.(sv_node)
    r.(sv_workers) x r.(sv_retryTimers) r.(sv_replLog) r.(sv_replSeq) r.(sv_peerAcked)
    r.(sv_revIndex) r.(sv_metrics) r.(sv_closed) r.(sv_tick).

Definition set_sv_retryTimers (x : gmap string Z) (r : Server) : Server :=
  mkServer r.(sv_cfg) r.(sv_members) r.(sv_selfAddr) r.(sv_store) r.(sv_queue) r.(sv_node)
    r.(sv_workers) r.(sv_leases) x r.(sv_replLog) r.(sv_replSeq) r.(sv_peerAcked)
    r.(sv_revIndex) r.(sv_metrics) r.(sv_closed) r.(sv_tick).

Definition set_sv_replLog (x : list ReplicationEntry) (r : Server) : Server :=
  mkServer r.(sv_cfg) r.(sv_members) r.(sv_selfAddr) r.(sv_store) r.(sv_queue) r.(sv_node)
    r.(sv_workers) r.(sv_leases) r.(sv_retryTimers) x r.(sv_replSeq) r.(sv_peerAcked)
    r.(sv_revIndex) r.(sv_metrics) r.(sv_closed) r.(sv_tick).

Definition set_sv_replSeq (x : Z) (r : Server) : Server :=
  mkServer r.(sv_cfg) r.(sv_members) r.(sv_selfAddr) r.(sv_store) r.(sv_queue) r.(sv_node)
    r.(sv_workers) r.(sv_leases) r.(sv_retryTimers) r.(sv_replLog) x r.(sv_peerAcked)
    r.(sv_revIndex) r.(sv_metrics) r.(sv_closed) r.(sv_tick).

Definition set_sv_peerAcked (x : gmap string Z) (r : Server) : Server :=
  mkServer r.(sv_cfg) r.(sv_members) r.(sv_selfAddr) r.(sv_store) r.(sv_queue) r.(sv_node)
    r.(sv_workers) r.(sv_leases) r.(sv_retryTimers) r.(sv_replLog) r.(sv_replSeq) x
    r.(sv_revIndex) r.(sv_metrics) r.(sv_closed) r.(sv_tick).

Definition set_sv_revIndex (x : gmap string (gset string)) (r : Server) : Server :=
  mkServer r.(sv_cfg) r.(sv_members) r.(sv_selfAddr) r.(sv_store) r.(sv_queue) r.(sv_node)
    r.(sv_workers) r.(sv_leases) r.(sv_retryTimers) r.(sv_replLog) r.(sv_replSeq)
    r.(sv_peerAcked) x r.(sv_metrics) r.(sv_closed) r.(sv_tick).

Definition set_sv_metrics (x : Metrics) (r : Server) : Server :=
  mkServer r.(sv_cfg) r.(sv_members) r.(sv_selfAddr) r.(sv_store) r.(sv_queue) r.(sv_node)
    r.(sv_workers) r.(sv_leases) r.(sv_retryTimers) r.(sv_replLog) r.(sv_replSeq)
    r.(sv_peerAcked) r.(sv_revIndex) x r.(sv_closed) r.(sv_tick).

Definition set_sv_closed (x : bool) (r : Server) : Server :=
  mkServer r.(sv_cfg) r.(sv_members) r.(sv_selfAddr) r.(sv_store) r.(sv_queue) r.(sv_node)
    r.(sv_workers) r.(sv_leases) r.(sv_retryTimers) r.(sv_replLog) r.(sv_replSeq)
    r.(sv_peerAcked) r.(sv_revIndex) r.(sv_metrics) x r.(sv_tick).

Definition set_sv_tick (x : nat) (r : Server) : Server :=
  mkServer r.(sv_cfg) r.(sv_members) r.(sv_selfAddr) r.(sv_store) r.(sv_queue) r.(sv_node)
    r.(sv_workers) r.(sv_leases) r.(sv_retryTimers) r.(sv_replLog) r.(sv_replSeq)
    r.(sv_peerAcked) r.(sv_revIndex) r.(sv_metrics) r.(sv_closed) x.

(** ** Plumbing *)

Definition on_store {A} (op : M St A) : M Server A := λ s,
  (eval op s.(sv_store), set_sv_store (exec op s.(sv_store)) s).

(** A method of the election node, which persists to the same store. *)
Definition on_node {A} (op : M (NodeState St) A) : M Server A := λ s,
  let '(a, n) := op (mkNodeState s.(sv_node) s.(sv_store) s.(sv_tick)) in
  (a, s |> set_sv_node n.(ns_node) |> set_sv_store n.(ns_store) |> set_sv_tick n.(ns_tick)).

Definition on_queue {A} (op : PriorityQueue → A * PriorityQueue) : M Server A := λ s,
  let '(a, q) := op s.(sv_queue) in (a, set_sv_queue q s).

Definition next_tick : M Server nat := λ s, (s.(sv_tick), set_sv_tick (S s.(sv_tick)) s).

(** [time.Now()] *)
Definition Now : M Server Z := k ← next_tick; mret (env_now k).

(** [ids.New(prefix)] *)
Definition new_id (prefix : string) : M Server string :=
  k ← next_tick; mret (ids_New prefix (env_uuid k)).

(** The keys of a map in the order [range] happens to visit them. *)
Definition range_keys (keys : list string) : M Server (list string) :=
  k ← next_tick; mret (env_order k keys).

(** [time.Until(t)] *)
Definition Until (t : Z) : M Server Z := now ← Now; mret (saturate64 (t - now)).

Definition count (inc : Metrics → Metrics) : M Server unit :=
  modify (λ s, set_sv_metrics (inc s.(sv_metrics)) s).

Definition is_leader : M Server bool := gets (λ s, IsLeader s.(sv_node)).

(** ** Shared operations *)

(** The address is the map's zero value "" when the leader is unknown. *)
Definition leaderAddr : M Server string :=
  gets (λ s, default "" (s.(sv_members) !! LeaderID s.(sv_node))).

Definition requireLeader : M Server (option Status) :=
  l ← is_leader;
  if (l : bool) then mret None else (a ← leaderAddr; mret (Some (notLeaderError a))).

Definition appendRepl (e : ReplicationEntry) : M Server unit :=
  l ← is_leader;
  if negb l then mret tt
  else
    modify (λ s, set_sv_replSeq (int64 (s.(sv_replSeq) + 1)) s);;
    modify (λ s, set_sv_replLog (s.(sv_replLog) ++ [set_ReplicationEntry_Seq s.(sv_replSeq) e]) s).

Definition putJob (job : Job) : M Server (option string) :=
  err ← on_store (PutJob job);
  match err : option string with
  | Some e => mret (Some e)
  | None =>
      appendRepl (mkReplicationEntry 0 (Some (ReplicationEntry_UpsertJob job)));;
      mret None
  end.

Definition putWorker (w : WorkerInfo) : M Server (option string) :=
  err ← on_store (PutWorker w);
  match err : option string with
  | Some e => mret (Some e)
  | None =>
      appendRepl (mkReplicationEntry 0 (Some (ReplicationEntry_UpsertWorker w)));;
      modify (λ s, set_sv_workers (<[w.(WorkerInfo_Id):=w]> s.(sv_workers)) s);;
      mret None
  end.

Definition getJob (id : string) : M Server (Job + StoreError) :=
  gets (λ s, GetJob id s.(sv_store)).

Definition enqueueJob (jobID : string) : M Server unit :=
  closed ← gets sv_closed;
  l ← is_leader;
  if closed || negb l then mret tt
  else
    r ← getJob jobID;
    match r : Job + StoreError with
    | inr _ => mret tt
    | inl job =>
        if bool_decide (job.(Job_State) ≠ JOB_STATE_QUEUED) then mret tt
        else
          _ ← on_queue (Queue_Push job.(Job_Id) job.(Job_Priority) (AsTime job.(Job_CreatedAt)));
          mret tt
    end.

Definition armEnqueue (jobID : string) (delay : Z) : M Server unit :=
  if (delay <=? 0)%Z then enqueueJob jobID
  else modify (λ s, set_sv_retryTimers (<[jobID:=delay]> s.(sv_retryTimers)) s).

(** The function [armEnqueue] gives to [time.AfterFunc]. *)
Definition timer_fired (jobID : string) : M Server unit :=
  modify (λ s, set_sv_retryTimers (delete jobID s.(sv_retryTimers)) s);;
  enqueueJob jobID.

Definition clearSchedulingState : M Server unit :=
  on_queue (λ q, (tt, Queue_Clear q));;
  modify (set_sv_retryTimers ∅);;
  modify (set_sv_leases ∅);;
  modify (set_sv_revIndex ∅).

Definition addLease (l : lease) : M Server unit :=
  modify (λ s, set_sv_leases (<[l.(lease_taskID):=l]> s.(sv_leases)) s).

Definition getLease (taskID : string) : M Server (option lease) :=
  gets (λ s, s.(sv_leases) !! taskID).

Definition removeLease (taskID : string) : M Server unit :=
  modify (λ s, set_sv_leases (delete taskID s.(sv_leases)) s).

Definition workerKnown (id : string) : M Server bool :=
  gets (λ s, bool_decide (is_Some (s.(sv_workers) !! id))).

(** ** Observers *)

Definition QueueDepth (s : Server) : nat := Queue_Len s.(sv_queue).
Definition InFlight (s : Server) : nat := size s.(sv_leases).
Definition DeadLetterCount (s : Server) : Z := (CountDeadLetter s.(sv_store)).1.

Definition count_state (st : WorkerState) (s : Server) : nat :=
  size (filter (λ p : string * WorkerInfo, p.2.(WorkerInfo_State) = st) s.(sv_workers)).

Definition workersByState (s : Server) : list (string * nat) :=
  [("alive", count_state WORKER_STATE_ALIVE s); ("suspect", count_state WORKER_STATE_SUSPECT s);
   ("dead", count_state WORKER_STATE_DEAD s)].

End server.

Arguments Server : clear implicits.

