(* ===== verification/Cycle.v ===== *)
(** * Dependency cycles (the search of wouldCreateCycle, internal/scheduler/deps.go)

    [wouldCreateCycle] runs a depth-first search over the [depends_on] edges with
    a [visited] and a [stack] set.  The search is proved to terminate within the
    fuel it is given, to report a cycle only when there is one, and to miss none
    that is reachable from its start. *)

From S2P Require Import Prelude Types.
From stdpp Require Import relations.

(** ** Model *)

Abbreviation graph := (gmap string (list string)).

(** The closure [dfs]; the pair is [visited] and [stack].  [None] is running out
    of fuel, which [dfs_from_scratch] excludes. *)
Fixpoint dfs (fuel : nat) (g : graph) (n : string) (vs : gset string * gset string)
    : option (bool * (gset string * gset string)) :=
  match fuel with
  | O => None
  | S fuel =>
      (fix each (ds : list string) (vs : gset string * gset string) :=
         match ds with
         | [] => Some (false, (vs.1, vs.2 ∖ {[n]}))
         | d :: ds =>
             if decide (d ∈ vs.2) then Some (true, vs)
             else if decide (d ∈ vs.1) then each ds vs
             else
               match dfs fuel g d vs with
               | Some (true, vs) => Some (true, vs)
               | Some (false, vs) => each ds vs
               | None => None
               end
         end) (default [] (g !! n)) ({[n]} ∪ vs.1, {[n]} ∪ vs.2)
  end.

(** [graph[j.GetId()] = j.GetDependsOn()] for every job, in order. *)
Definition depends_graph (jobs : list Job) : graph :=
  foldl (λ g j, <[j.(Job_Id):=j.(Job_DependsOn)]> g) ∅ jobs.

(** The search from [newID] in the graph extended with its dependencies. *)
Definition creates_cycle (jobs : list Job) (newID : string) (deps : list string) : bool :=
  let g := <[newID:=deps]> (depends_graph jobs) in
  match dfs (S (size g)) g newID (∅, ∅) with
  | Some (b, _) => b
  | None => false
  end.

(** ** What a cycle is *)

Definition edge (g : graph) (a b : string) : Prop := b ∈ default [] (g !! a).

Definition acyclic (g : graph) : Prop := ∀ a, ¬ tc (edge g) a a.

(** [b] is safe: every path of edges from it is finite. *)
Definition safe (g : graph) (b : string) : Prop := Acc (flip (edge g)) b.

(** ** The search *)

Section search.
Context (g : graph).
Implicit Types (n d : string) (V S : gset string).

(** The loop of [dfs] at node [n], named for the proofs. *)
Definition each (fuel : nat) (n : string)
    : list string → gset string * gset string → option (bool * (gset string * gset string)) :=
  fix each ds vs :=
    match ds with
    | [] => Some (false, (vs.1, vs.2 ∖ {[n]}))
    | d :: ds =>
        if decide (d ∈ vs.2) then Some (true, vs)
        else if decide (d ∈ vs.1) then each ds vs
        else
          match dfs fuel g d vs with
          | Some (true, vs) => Some (true, vs)
          | Some (false, vs) => each ds vs
          | None => None
          end
    end.

Lemma dfs_eq fuel n V S :
  dfs (Datatypes.S fuel) g n (V, S) = each fuel n (default [] (g !! n)) ({[n]} ∪ V, {[n]} ∪ S).
Proof. reflexivity. Qed.

(** Fuel bounded by the number of unvisited nodes with edges. *)
Definition unvisited V : nat := size (dom g ∖ V).

Lemma unvisited_mono V V' : V ⊆ V' → unvisited V' ≤ unvisited V.
Proof. intros H. unfold unvisited. apply subseteq_size. set_solver. Qed.

Lemma unvisited_visit V n : n ∉ V → n ∈ dom g → unvisited ({[n]} ∪ V) < unvisited V.
Proof. intros HV Hn. unfold unvisited. apply subset_size. set_solver. Qed.

(** What a completed search from [n] with result [false] establishes: the stack
    is as before, the nodes newly finished are safe, [n] among them. *)
Definition finished n V S V' S' : Prop :=
  V ⊆ V' ∧ n ∈ V' ∧ S' = S ∧ (∀ b, b ∈ V' → b ∉ S → safe g b).

Definition outcome n V S (r : option (bool * (gset string * gset string))) : Prop :=
  match r with
  | None => False
  | Some (true, _) => ∃ d, tc (edge g) d d
  | Some (false, (V', S')) => finished n V S V' S'
  end.

(** What [dfs] needs to start at [n]. *)
Definition ready n V S : Prop :=
  n ∉ V ∧ S ⊆ V ∧ (∀ b, b ∈ V → b ∉ S → safe g b) ∧ (∀ x, x ∈ S → tc (edge g) x n).

Lemma each_spec fuel n V S :
  (∀ d V1 S1, unvisited V1 < fuel → ready d V1 S1 → outcome d V1 S1 (dfs fuel g d (V1, S1))) →
  unvisited V < Datatypes.S fuel → ready n V S →
  ∀ ds V1, (∀ d, d ∈ ds → edge g n d) → {[n]} ∪ V ⊆ V1 →
    (∀ b, b ∈ V1 → b ∉ {[n]} ∪ S → safe g b) →
    (∀ d, edge g n d → d ∉ ds → safe g d) →
    outcome n V S (each fuel n ds (V1, {[n]} ∪ S)).
Proof.
  intros IH Hf (Hn & HS & _ & Hstack) ds.
  induction ds as [|d ds IHds]; intros V1 Hds HV1 Hs1 Hdone; simpl.
  { split_and!; [set_solver|set_solver|set_solver|]. intros b Hb HbS.
    destruct (decide (b = n)) as [->|Hbn]; [|apply Hs1; set_solver].
    constructor. intros d Hd. apply Hdone; [done|apply not_elem_of_nil]. }
  assert (edge g n d) as He by (apply Hds; by left).
  assert (∀ x, x ∈ {[n]} ∪ S → tc (edge g) x d) as Hstack'.
  { intros x [->%elem_of_singleton|Hx]%elem_of_union; [by apply tc_once|]. eapply tc_r; eauto. }
  assert (∀ V2, {[n]} ∪ V ⊆ V2 → (∀ b, b ∈ V2 → b ∉ {[n]} ∪ S → safe g b) → safe g d →
    outcome n V S (each fuel n ds (V2, {[n]} ∪ S))) as Hnext.
  { intros V2 HV2 Hs2 Hd. apply IHds; auto; [intros; apply Hds; by right|].
    intros x Hx Hxs. destruct (decide (x = d)) as [->|]; [done|]. apply Hdone; set_solver. }
  destruct (decide (d ∈ {[n]} ∪ S)) as [Hd|Hd]; simpl; [by exists d; apply Hstack'|].
  destruct (decide (d ∈ V1)) as [Hv|Hv]; [apply Hnext; auto|].
  assert (n ∈ dom g) as Hdom.
  { apply elem_of_dom. unfold edge in He. destruct (g !! n); [by eauto|by apply not_elem_of_nil in He]. }
  pose proof (unvisited_visit V n Hn Hdom). pose proof (unvisited_mono _ _ HV1).
  assert (outcome d V1 ({[n]} ∪ S) (dfs fuel g d (V1, {[n]} ∪ S))) as Hout
    by (apply IH; [lia|split_and!; auto; set_solver]).
  destruct (dfs fuel g d (V1, {[n]} ∪ S)) as [[[|] [V2 S2]]|]; simpl in Hout; [done| |done].
  destruct Hout as (H1 & H2 & -> & H3). apply Hnext; [set_solver|done|by apply H3].
Qed.

Lemma dfs_spec fuel n V S :
  unvisited V < fuel → ready n V S → outcome n V S (dfs fuel g n (V, S)).
Proof.
  revert n V S. induction fuel as [|fuel IH]; intros n V S Hf Hr; [lia|].
  rewrite dfs_eq. apply each_spec; auto.
  - intros b Hb HbS. apply Hr; set_solver.
  - intros d Hd Hd'. done.
Qed.

(** The search from scratch: with fuel for every node it answers, [true] means a
    cycle, [false] means the start is safe. *)
Lemma dfs_from_scratch n :
  match dfs (S (size g)) g n (∅, ∅) with
  | None => False
  | Some (true, _) => ∃ d, tc (edge g) d d
  | Some (false, _) => safe g n
  end.
Proof.
  assert (outcome n ∅ ∅ (dfs (Datatypes.S (size g)) g n (∅, ∅))) as H.
  { apply dfs_spec; [|split_and!; set_solver].
    unfold unvisited. rewrite difference_empty_L, size_dom. lia. }
  destruct (dfs _ g n (∅, ∅)) as [[[|] [V' S']]|]; [done| |done].
  destruct H as (_ & Hn & _ & Hs). apply Hs; [done|set_solver].
Qed.

Lemma safe_no_cycle a : safe g a → ¬ tc (edge g) a a.
Proof.
  intros Ha. induction Ha as [a _ IH]. intros Hc.
  inversion Hc as [x y He|x y z He Hyz]; subst.
  - by apply (IH a).
  - apply (IH y); [done|]. eapply tc_r; eauto.
Qed.

End search.

(** A path in the extended graph that avoids the new node's edges is one of the
    original graph. *)
Lemma path_through g newID deps a b :
  let g' := <[newID:=deps]> g in
  tc (edge g') a b → tc (edge g) a b ∨ (rtc (edge g') a newID ∧ tc (edge g') newID b).
Proof.
  intros g'. assert (∀ x y, x ≠ newID → edge g' x y → edge g x y) as Hold.
  { intros x y Hx. unfold edge, g'. by rewrite lookup_insert_ne by done. }
  induction 1 as [x y He|x y z He Hyz IH].
  - destruct (decide (x = newID)) as [->|Hx]; [right; split; [done|by apply tc_once]|].
    left. apply tc_once. auto.
  - destruct (decide (x = newID)) as [->|Hx]; [right; split; [done|by eapply tc_l]|].
    destruct IH as [IH|[H1 H2]]; [left; eapply tc_l; eauto|right].
    split; [by eapply rtc_l|done].
Qed.

Lemma creates_cycle_iff jobs newID deps :
  acyclic (depends_graph jobs) →
  creates_cycle jobs newID deps = false ↔ acyclic (<[newID:=deps]> (depends_graph jobs)).
Proof.
  intros Hac. unfold creates_cycle. set (g' := <[newID:=deps]> (depends_graph jobs)).
  pose proof (dfs_from_scratch g' newID) as H.
  destruct (dfs (S (size g')) g' newID (∅, ∅)) as [[[|] vs]|]; [| |done].
  - split; [done|]. intros Hn. destruct H as [d Hd]. by destruct (Hn d).
  - split; [|done]. intros _ a Ha. destruct (path_through _ newID deps a a Ha) as [Hold|[H1 H2]].
    + by apply (Hac a).
    + apply (safe_no_cycle g' newID H). by eapply tc_rtc_r.
Qed.

Lemma acyclic_leaf g id : acyclic g → acyclic (<[id:=[]]> g).
Proof.
  intros Hg a Ha. destruct (path_through g id [] a a Ha) as [Hold|[_ Hnew]]; [by apply (Hg a)|].
  assert (∀ y, ¬ edge (<[id:=[]]> g) id y) as Hno.
  { intros y. unfold edge. rewrite lookup_insert_eq. apply not_elem_of_nil. }
  inversion Hnew as [? ? He|? ? ? He _]; by apply Hno in He.
Qed.

Lemma acyclic_empty : acyclic ∅.
Proof.
  intros x Hx. assert (∀ y z, ¬ edge ∅ y z) as H
    by (intros y z; unfold edge; rewrite lookup_empty; apply not_elem_of_nil).
  destruct Hx as [? ? He|? ? ? He]; by apply H in He.
Qed.

(** C35. The cycle check ends, on any stored jobs, also ones whose dependencies
    form cycles already: the depth-first search visits each job at most once,
    reports a cycle only if there is one, and otherwise every chain of
    dependencies from the new job is finite. *)
Theorem cycle_check_terminates jobs newID deps :
  let g := <[newID:=deps]> (depends_graph jobs) in
  ∃ vs, dfs (S (size g)) g newID (∅, ∅) = Some (creates_cycle jobs newID deps, vs) ∧
    if creates_cycle jobs newID deps then ∃ d, tc (edge g) d d else safe g newID.
Proof.
  intros g. unfold creates_cycle. fold g. pose proof (dfs_from_scratch g newID) as H.
  destruct (dfs (S (size g)) g newID (∅, ∅)) as [[[|] vs]|]; [| |done]; by exists vs.
Qed.

(** C10. Cycle detection is exact: when the jobs already accepted have no
    dependency cycle, the search rejects a new job if and only if its
    dependencies would close one. *)
Theorem creates_cycle_exact jobs newID deps :
  acyclic (depends_graph jobs) →
  creates_cycle jobs newID deps = false ↔ acyclic (<[newID:=deps]> (depends_graph jobs)).
Proof. apply creates_cycle_iff. Qed.

Definition dep_job (id : string) (deps : list string) : Job :=
  mkJob id "" 0 None deps None None JOB_STATE_PENDING 0 "" "" None None None None None.

Lemma creates_cycle_exact_witness :
  creates_cycle [dep_job "a" []; dep_job "b" ["a"]] "c" ["b"; "a"] = false ∧
  acyclic (<["c":=["b"; "a"]]> (depends_graph [dep_job "a" []; dep_job "b" ["a"]])).
Proof.
  split; [by vm_compute|]. apply creates_cycle_exact; [|by vm_compute].
  apply (creates_cycle_exact [dep_job "a" []] "b" ["a"]); [|by vm_compute].
  apply (creates_cycle_exact [] "a" []); [|by vm_compute]. apply acyclic_empty.
Defined.
