(* ===== verification/Deps.v ===== *)
(** * Dependencies and schedules (internal/scheduler/deps.go)

    The reverse dependency index, promotion of waiting jobs, cancellation of
    jobs that can never run, and cron schedules. *)

From S2P Require Import Prelude Types Queue Retry Env Cluster Store Server Cycle.

(** ** Model *)

Definition terminal (s : JobState) : bool :=
  match s with
  | JOB_STATE_SUCCEEDED | JOB_STATE_FAILED | JOB_STATE_CANCELED => true
  | _ => false
  end.

Definition upstream_failed (dep : string) : string :=
  ("upstream dependency " +:+ dep +:+ " did not succeed")%string.

Abbreviation index := (gmap string (gset string)).

Definition add_edges (id : string) (deps : list string) (ix : index) : index :=
  foldl (λ ix dep, <[dep := {[id]} ∪ default ∅ (ix !! dep)]> ix) ix deps.

Definition drop_dependent (id : string) (ix : index) : index :=
  omap (λ set, let set' := set ∖ {[id]} in if decide (set' = ∅) then None else Some set') ix.

(** An upper bound on the insertions of [cancelCascade]'s work list. *)
Definition index_size (ix : index) : nat :=
  map_fold (λ _ set n, size set + n) 0 ix.

Section deps.
Context {St : Type} {Gstore : JobStore St} {Genv : Env} {Gcron : Cron}.

Definition addDeps (job : Job) : M (Server St) unit :=
  match job.(Job_DependsOn) with
  | [] => mret tt
  | deps => modify (λ s, set_sv_revIndex (add_edges job.(Job_Id) deps s.(sv_revIndex)) s)
  end.

Definition removeFromIndex (jobID : string) : M (Server St) unit :=
  modify (λ s, set_sv_revIndex (drop_dependent jobID s.(sv_revIndex)) s).

Definition dependentsOf (depID : string) : M (Server St) (list string) :=
  set ← gets (λ s, default ∅ (s.(sv_revIndex) !! depID));
  range_keys (elements (set : gset string)).

(** Ready, and the id of a dependency that did not succeed ("" if none). *)
Fixpoint deps_ready (st : St) (deps : list string) : bool * string :=
  match deps with
  | [] => (true, "")
  | depID :: deps =>
      match GetJob depID st with
      | inr _ => (false, "")
      | inl dep =>
          match dep.(Job_State) with
          | JOB_STATE_SUCCEEDED => deps_ready st deps
          | JOB_STATE_FAILED | JOB_STATE_CANCELED => (false, depID)
          | _ => (false, "")
          end
      end
  end.

Definition depsSatisfied (job : Job) : M (Server St) (bool * string) :=
  gets (λ s, deps_ready s.(sv_store) job.(Job_DependsOn)).

Definition wouldCreateCycle (newID : string) (deps : list string) : M (Server St) bool :=
  gets (λ s,
    match ListJobs s.(sv_store) with
    | inr _ => false
    | inl jobs => creates_cycle jobs newID deps
    end).

(** The schedule's fire time and the delay until it; (no change, 0) for a job
    without a schedule, with an unusable one or one in the past. *)
Definition fire_time (job : Job) (now : Z) : M (Server St) (Job * Z) :=
  match job.(Job_Schedule) with
  | None => mret (job, 0%Z)
  | Some _ =>
      let expr := Schedule_GetCronExpr job.(Job_Schedule) in
      if negb (String.eqb expr "") then
        match nextCron expr now with
        | inl next => delay ← Until next; mret (set_Job_ScheduledAt (Some next) job, delay)
        | inr _ => mret (job, 0%Z)
        end
      else
        match Schedule_GetRunAt job.(Job_Schedule) with
        | Some ra =>
            if (now <? ra)%Z
            then (delay ← Until ra; mret (set_Job_ScheduledAt (Some ra) job, delay))
            else mret (job, 0%Z)
        | None => mret (job, 0%Z)
        end
  end.

Definition makeReady (job : Job) (now : Z) : M (Server St) unit :=
  jd ← fire_time job now;
  let job := jd.1 |> set_Job_State JOB_STATE_QUEUED |> set_Job_UpdatedAt (Some now) in
  err ← putJob job;
  match err : option string with
  | Some _ => mret tt
  | None => armEnqueue job.(Job_Id) jd.2
  end.

Definition placeNewJob (job : Job) (now : Z) : M (Server St) unit :=
  rf ← depsSatisfied job;
  if negb (String.eqb rf.2 "") then
    let job := job |> set_Job_State JOB_STATE_CANCELED
                   |> set_Job_LastError (upstream_failed rf.2)
                   |> set_Job_UpdatedAt (Some now) in
    _ ← putJob job;
    count inc_JobsCanceled
  else if negb rf.1 then
    let job := job |> set_Job_State JOB_STATE_PENDING |> set_Job_UpdatedAt (Some now) in
    _ ← putJob job;
    addDeps job
  else makeReady job now.

(** One round of [cancelCascade]'s loop on the job [cur]; returns the jobs that
    depend on it. *)
Definition cascade_step (cur reason : string) (now : Z) : M (Server St) (list string) :=
  r ← getJob cur;
  match r : Job + StoreError with
  | inl job =>
      if terminal job.(Job_State) then mret tt
      else
        _ ← putJob (job |> set_Job_State JOB_STATE_CANCELED
                        |> set_Job_LastError reason
                        |> set_Job_UpdatedAt (Some now));
        _ ← on_queue (Queue_Remove cur);
        count inc_JobsCanceled
  | inr _ => mret tt
  end;;
  dependents ← dependentsOf cur;
  removeFromIndex cur;;
  mret dependents.

(** The work list with its top first; [false] is running out of fuel. *)
Fixpoint cascade (fuel : nat) (work : list string) (visited : gset string) (reason : string)
    (now : Z) : M (Server St) bool :=
  match work with
  | [] => mret true
  | cur :: work =>
      match fuel with
      | O => mret false
      | S fuel =>
          if decide (cur ∈ visited) then cascade fuel work visited reason now
          else
            dependents ← cascade_step cur reason now;
            cascade fuel (rev dependents ++ work) ({[cur]} ∪ visited) (upstream_failed cur) now
      end
  end.

Definition cancelCascade (jobID reason : string) : M (Server St) bool :=
  now ← Now;
  fuel ← gets (λ s, S (index_size s.(sv_revIndex)));
  cascade fuel [jobID] ∅ reason now.

Definition tryPromote (jobID : string) : M (Server St) unit :=
  r ← getJob jobID;
  match r : Job + StoreError with
  | inr _ => mret tt
  | inl job =>
      if bool_decide (job.(Job_State) ≠ JOB_STATE_PENDING) then mret tt
      else
        rf ← depsSatisfied job;
        if negb (String.eqb rf.2 "") then
          _ ← cancelCascade jobID (upstream_failed rf.2); mret tt
        else if (rf.1 : bool) then
          now ← Now;
          makeReady job now;;
          removeFromIndex jobID
        else mret tt
  end.

Definition promoteDependents (depID : string) : M (Server St) unit :=
  ds ← dependentsOf depID;
  forM_ ds tryPromote.

(** Also returns the job as the caller's pointer leaves it. *)
Definition maybeRescheduleCron (job : Job) (now : Z) : M (Server St) (bool * Job) :=
  let expr := Schedule_GetCronExpr job.(Job_Schedule) in
  if String.eqb expr "" then mret (false, job)
  else
    match nextCron expr now with
    | inr _ => mret (false, job)
    | inl next =>
        let job := job |> set_Job_State JOB_STATE_QUEUED
                       |> set_Job_Attempt 0
                       |> set_Job_AssignedWorkerId ""
                       |> set_Job_LastError ""
                       |> set_Job_FinishedAt None
                       |> set_Job_ScheduledAt (Some next)
                       |> set_Job_UpdatedAt (Some now) in
        err ← putJob job;
        match err : option string with
        | Some _ => mret (false, job)
        | None =>
            delay ← Until next;
            armEnqueue job.(Job_Id) delay;;
            mret (true, job)
        end
    end.

End deps.
