(* ===== verification/Lifecycle.v ===== *)
(** * The life of a job: an abstract specification

    What the scheduler promises about stored jobs, independently of queues,
    timers and leases: the writes that are legal in a given set of stored jobs.
    [Refinement.v] shows that the handlers perform no others; this file shows
    what follows from that. *)

From S2P Require Import Prelude Types Retry Deps.
From stdpp Require Import relations.

(** ** Legal writes *)

Abbreviation jobs_map := (gmap string Job).

(** The fields a job keeps for ever. *)
Definition same_identity (j j' : Job) : Prop :=
  j'.(Job_Id) = j.(Job_Id) ∧ j'.(Job_Name) = j.(Job_Name) ∧ j'.(Job_Priority) = j.(Job_Priority) ∧
  j'.(Job_Spec) = j.(Job_Spec) ∧ j'.(Job_DependsOn) = j.(Job_DependsOn) ∧
  j'.(Job_Schedule) = j.(Job_Schedule) ∧ j'.(Job_RetryPolicy) = j.(Job_RetryPolicy) ∧
  j'.(Job_CreatedAt) = j.(Job_CreatedAt).

(** Every dependency is stored and has succeeded. *)
Definition deps_done (m : jobs_map) (deps : list string) : Prop :=
  ∀ d, d ∈ deps → ∃ dj, m !! d = Some dj ∧ dj.(Job_State) = JOB_STATE_SUCCEEDED.

Definition is_cron (j : Job) : Prop := Schedule_GetCronExpr j.(Job_Schedule) ≠ "".

(** The transitions of an existing job [j] to [j'], given the stored jobs [m]
    and dead letters [d]. *)
Inductive transition (m d : jobs_map) (j j' : Job) : Prop :=
| t_ready :
    j.(Job_State) = JOB_STATE_PENDING → j'.(Job_State) = JOB_STATE_QUEUED →
    j'.(Job_Attempt) = j.(Job_Attempt) → deps_done m j.(Job_DependsOn) → transition m d j j'
| t_cancel :
    terminal j.(Job_State) = false → j'.(Job_State) = JOB_STATE_CANCELED →
    j'.(Job_Attempt) = j.(Job_Attempt) → transition m d j j'
| t_dispatch :
    j.(Job_State) = JOB_STATE_QUEUED → j'.(Job_State) = JOB_STATE_RUNNING →
    j'.(Job_Attempt) = int32 (j.(Job_Attempt) + 1) → transition m d j j'
| t_succeed :
    j.(Job_State) = JOB_STATE_RUNNING → j'.(Job_State) = JOB_STATE_SUCCEEDED →
    (j'.(Job_Attempt) = j.(Job_Attempt) ∨ is_cron j ∧ j'.(Job_Attempt) = 0%Z) → transition m d j j'
| t_retry :
    j.(Job_State) = JOB_STATE_RUNNING → j'.(Job_State) = JOB_STATE_QUEUED →
    (j.(Job_Attempt) < MaxAttempts j.(Job_RetryPolicy))%Z →
    j'.(Job_Attempt) = j.(Job_Attempt) → transition m d j j'
| t_cron :
    j.(Job_State) = JOB_STATE_RUNNING → j'.(Job_State) = JOB_STATE_QUEUED →
    is_cron j → j'.(Job_Attempt) = 0%Z → transition m d j j'
| t_dead :
    j.(Job_State) = JOB_STATE_RUNNING → j'.(Job_State) = JOB_STATE_FAILED →
    (MaxAttempts j.(Job_RetryPolicy) <= j.(Job_Attempt))%Z →
    (j'.(Job_Attempt) = j.(Job_Attempt) ∨ is_cron j ∧ j'.(Job_Attempt) = 0%Z) →
    is_Some (d !! j.(Job_Id)) → transition m d j j'.

(** The state of a new job: waiting, canceled because a dependency did not
    succeed, or ready because all did. *)
Inductive admission (m : jobs_map) (j : Job) : Prop :=
| a_pending : j.(Job_State) = JOB_STATE_PENDING → admission m j
| a_canceled : j.(Job_State) = JOB_STATE_CANCELED → admission m j
| a_ready : j.(Job_State) = JOB_STATE_QUEUED → deps_done m j.(Job_DependsOn) → admission m j.

(** [max_attempts] is an [int32] on the wire. *)
Definition wire_job (j : Job) : Prop := (MaxAttempts j.(Job_RetryPolicy) <= max_int32)%Z.

(** What a handler may do: the new jobs it admits, and the jobs it is working
    on.  Other jobs it only promotes or finishes. *)
Record scope := mkScope {
  adm : Job → Prop;
  touch : string → Prop
}.

Definition in_scope (sc : scope) (j j' : Job) : Prop :=
  sc.(touch) j.(Job_Id) ∨ j.(Job_State) = JOB_STATE_PENDING ∨ terminal j'.(Job_State) = true.

(** One write to the stored jobs and the dead letters. *)
Inductive write (sc : scope) : jobs_map * jobs_map → jobs_map * jobs_map → Prop :=
| w_submit m d j :
    m !! j.(Job_Id) = None → sc.(adm) j → j.(Job_Attempt) = 0%Z → admission m j →
    write sc (m, d) (<[j.(Job_Id):=j]> m, d)
| w_update m d j j' :
    m !! j.(Job_Id) = Some j → same_identity j j' → transition m d j j' → in_scope sc j j' →
    write sc (m, d) (<[j'.(Job_Id):=j']> m, d)
| w_dead_letter m d j :
    is_Some (m !! j.(Job_Id)) → write sc (m, d) (m, <[j.(Job_Id):=j]> d).

Abbreviation history sc := (rtc (write sc)).

(** ** Invariants *)

(** A job past waiting has all its dependencies succeeded. *)
Definition active (s : JobState) : bool :=
  match s with
  | JOB_STATE_QUEUED | JOB_STATE_RUNNING | JOB_STATE_SUCCEEDED => true
  | _ => false
  end.

Definition dag_ok (m : jobs_map) : Prop :=
  ∀ id j, m !! id = Some j → active j.(Job_State) = true → deps_done m j.(Job_DependsOn).

(** Attempts stay within the policy, with room for one more while queued. *)
Definition attempts_ok (j : Job) : Prop :=
  (0 <= j.(Job_Attempt) <= MaxAttempts j.(Job_RetryPolicy))%Z ∧
  (j.(Job_State) = JOB_STATE_QUEUED → j.(Job_Attempt) < MaxAttempts j.(Job_RetryPolicy))%Z ∧
  (j.(Job_State) = JOB_STATE_PENDING → j.(Job_Attempt) = 0)%Z ∧
  (j.(Job_State) = JOB_STATE_RUNNING → 1 <= j.(Job_Attempt))%Z.

Record sound (md : jobs_map * jobs_map) : Prop := mkSound {
  sound_dag : dag_ok md.1;
  sound_attempts : map_Forall (λ _ j, attempts_ok j) md.1;
  sound_policy : map_Forall (λ _ j, wire_job j) md.1;
  sound_dead : map_Forall (λ id j, j.(Job_State) = JOB_STATE_FAILED → is_Some (md.2 !! id)) md.1
}.

(** ** What legal writes imply *)

Lemma MaxAttempts_pos p : (1 <= MaxAttempts p)%Z.
Proof.
  unfold MaxAttempts, DefaultMaxAttempts. destruct p as [q|]; [|lia].
  destruct (Z.leb_spec (RetryPolicy_MaxAttempts q) 0); lia.
Qed.

Lemma transition_from m d j j' : transition m d j j' → terminal j.(Job_State) = false.
Proof. destruct 1 as [H|H|H|H|H|H|H]; by rewrite H. Qed.

Lemma transition_active m d j j' :
  transition m d j j' → active j'.(Job_State) = true →
  deps_done m j.(Job_DependsOn) ∨ active j.(Job_State) = true.
Proof.
  destruct 1 as [H H'|H H'|H H'|H H'|H H'|H H'|H H']; rewrite H'; intros Ha; auto;
    first [discriminate Ha|rewrite H; auto].
Qed.

Section implied.
Context (sc : scope).

(** A stored job is kept, with its identity; a finished one is kept as it is. *)
Lemma write_keeps md md' id j :
  write sc md md' → md.1 !! id = Some j →
  ∃ j', md'.1 !! id = Some j' ∧ same_identity j j' ∧ (terminal j.(Job_State) = true → j' = j).
Proof.
  assert (∀ x, same_identity x x) as Hrefl by (intros x; by split_and!).
  intros [m d j0 Hn|m d j0 j1 Hj0 Hsame Ht Hsc|m d j0 _] Hj; simpl in *.
  - exists j. rewrite lookup_insert_ne by congruence. auto.
  - destruct (decide (Job_Id j0 = id)) as [<-|Hne].
    + exists j1. simplify_eq. pose proof Hsame as (-> & _). rewrite lookup_insert_eq.
      split_and!; auto. apply transition_from in Ht. congruence.
    + exists j. pose proof Hsame as (-> & _). rewrite lookup_insert_ne by done. auto.
  - exists j. auto.
Qed.

Lemma same_identity_trans a b c : same_identity a b → same_identity b c → same_identity a c.
Proof. unfold same_identity. intros (?&?&?&?&?&?&?&?) (?&?&?&?&?&?&?&?). split_and!; congruence. Qed.

Lemma history_keeps md md' id j :
  history sc md md' → md.1 !! id = Some j →
  ∃ j', md'.1 !! id = Some j' ∧ same_identity j j' ∧ (terminal j.(Job_State) = true → j' = j).
Proof.
  intros Hh. revert j. induction Hh as [md|md md1 md' Hw _ IH]; intros j Hj.
  - exists j. split_and!; auto. by split_and!.
  - destruct (write_keeps _ _ _ _ Hw Hj) as (j1 & Hj1 & Hs1 & Ht1).
    destruct (IH j1 Hj1) as (j2 & Hj2 & Hs2 & Ht2). exists j2.
    split_and!; [done|by eapply same_identity_trans|]. intros Ht. rewrite Ht1 in Ht2 by done. auto.
Qed.

Lemma deps_done_write md md' deps : write sc md md' → deps_done md.1 deps → deps_done md'.1 deps.
Proof.
  intros Hw Hd x Hx. destruct (Hd x Hx) as (dj & Hdj & Hs).
  destruct (write_keeps _ _ _ _ Hw Hdj) as (dj' & Hdj' & _ & Ht). exists dj'. split; [done|].
  by rewrite Ht by (by rewrite Hs).
Qed.

Lemma deps_done_history md md' deps : history sc md md' → deps_done md.1 deps → deps_done md'.1 deps.
Proof. intros Hh Hd. induction Hh; eauto using deps_done_write. Qed.

Lemma dag_write md md' : write sc md md' → dag_ok md.1 → dag_ok md'.1.
Proof.
  intros Hw Hdag. pose proof (deps_done_write md md') as Hmono.
  assert (∀ id j, md.1 !! id = Some j → active (Job_State j) = true → deps_done md'.1 (Job_DependsOn j))
    as Hold by eauto.
  revert Hmono Hold. destruct Hw as [m d j0 Hn Hwire Ha0 Hadm|m d j0 j1 Hj0 Hsame Ht Hsc|m d j0 Hj0];
    simpl in *; intros Hmono Hold id j.
  - intros [[<- <-]|[_ Hj]]%lookup_insert_Some Ha; [|eauto].
    destruct Hadm as [Hs|Hs|Hs Hd]; [by rewrite Hs in Ha|by rewrite Hs in Ha|].
    apply Hmono; [by constructor; [..|apply a_ready]|done].
  - intros [[<- <-]|[_ Hj]]%lookup_insert_Some Ha; [|eauto].
    assert (Job_DependsOn j1 = Job_DependsOn j0) as -> by apply Hsame.
    destruct (transition_active _ _ _ _ Ht Ha) as [Hd|Hact]; [|eauto].
    apply Hmono; [by econstructor|done].
  - eauto.
Qed.

Lemma dag_history md md' : history sc md md' → dag_ok md.1 → dag_ok md'.1.
Proof. induction 1; eauto using dag_write. Qed.

Lemma attempts_transition m d j j' :
  attempts_ok j → wire_job j → same_identity j j' → transition m d j j' → attempts_ok j'.
Proof.
  intros (H1 & H2 & H3 & H4) Hw Hs Ht. pose proof (MaxAttempts_pos (Job_RetryPolicy j)).
  assert (Job_RetryPolicy j' = Job_RetryPolicy j) as Hp by apply Hs.
  unfold attempts_ok, wire_job in *. rewrite Hp.
  destruct Ht as [Hs0 Hs1 Ha _|Hs0 Hs1 Ha|Hs0 Hs1 Ha|Hs0 Hs1 Ha|Hs0 Hs1 Hlt Ha|Hs0 Hs1 _ Ha|Hs0 Hs1 Hge Ha _].
  all: rewrite Hs1; try specialize (H2 Hs0); try specialize (H3 Hs0); try specialize (H4 Hs0).
  3: rewrite int32_small in Ha by (unfold max_int32 in *; lia).
  all: try match type of Ha with _ ∨ _ => destruct Ha as [Ha|[_ Ha]] end.
  all: split_and!; try done; try match goal with |- _ = _ → _ => intros _ end; lia.
Qed.

Context (adm_wire : ∀ j, sc.(adm) j → wire_job j).

Lemma sound_write md md' : write sc md md' → sound md → sound md'.
Proof.
  intros Hw [Hdag Hatt Hpol Hdead]. split; [by eapply dag_write|..]; clear Hdag;
    destruct Hw as [m d j0 Hn Hwire Ha0 Hadm|m d j0 j1 Hj0 Hsame Ht Hsc|m d j0 Hj0]; simpl in *.
  - apply map_Forall_insert_2; [|done]. pose proof (MaxAttempts_pos (Job_RetryPolicy j0)).
    unfold attempts_ok. rewrite Ha0. split_and!; try done; try lia.
    destruct Hadm as [Hs|Hs|Hs _]; by rewrite Hs.
  - apply map_Forall_insert_2; [|done].
    by eapply attempts_transition; eauto.
  - done.
  - apply map_Forall_insert_2; [by apply adm_wire|done].
  - apply map_Forall_insert_2; [|done]. specialize (Hpol _ _ Hj0). unfold wire_job in *.
    by replace (Job_RetryPolicy j1) with (Job_RetryPolicy j0) by (symmetry; apply Hsame).
  - done.
  - apply map_Forall_insert_2; [|done]. destruct Hadm as [Hs|Hs|Hs _]; by rewrite Hs.
  - apply map_Forall_insert_2; [|done]. intros Hs.
    assert (Job_Id j1 = Job_Id j0) as -> by apply Hsame.
    destruct Ht as [? Hs'|? Hs'|? Hs'|? Hs'|? Hs'|? Hs'|? Hs' ? ? ?]; congruence || done.
  - intros id j Hj Hf. destruct (Hdead id j Hj Hf) as [x Hx].
    destruct (decide (id = Job_Id j0)) as [->|Hne]; [by rewrite lookup_insert_eq|].
    rewrite lookup_insert_ne; eauto.
Qed.

Lemma sound_history md md' : history sc md md' → sound md → sound md'.
Proof. induction 1; eauto using sound_write. Qed.

End implied.

(** ** The dependency graph of the stored jobs *)

Definition job_graph (m : jobs_map) : gmap string (list string) := Job_DependsOn <$> m.

Lemma graph_write sc md md' :
  write sc md md' →
  job_graph md'.1 = job_graph md.1 ∨
  ∃ j, sc.(adm) j ∧ job_graph md'.1 = <[j.(Job_Id):=j.(Job_DependsOn)]> (job_graph md.1).
Proof.
  unfold job_graph. destruct 1 as [m d j Hn Ha|m d j j' Hj Hs Ht _|]; simpl.
  - right. exists j. by rewrite fmap_insert.
  - left. rewrite fmap_insert. replace (Job_Id j') with (Job_Id j) by (symmetry; apply Hs).
    replace (Job_DependsOn j') with (Job_DependsOn j) by (symmetry; apply Hs).
    apply insert_id. by rewrite lookup_fmap, Hj.
  - by left.
Qed.

(** When only a job with the given id and dependencies is admitted. *)
Lemma graph_history sc id deps md md' :
  (∀ j, sc.(adm) j → j.(Job_Id) = id ∧ j.(Job_DependsOn) = deps) → history sc md md' →
  job_graph md'.1 = job_graph md.1 ∨ job_graph md'.1 = <[id:=deps]> (job_graph md.1).
Proof.
  intros Hadm. induction 1 as [md|md md1 md' Hw _ IH]; [by left|].
  destruct (graph_write _ _ _ Hw) as [<-|(j & [<- <-]%Hadm & Hg)]; [done|]. right.
  destruct IH as [-> | ->]; [done|]. by rewrite Hg, insert_insert_eq.
Qed.

Lemma graph_history_none sc md md' :
  (∀ j, sc.(adm) j → False) → history sc md md' → job_graph md'.1 = job_graph md.1.
Proof.
  intros Hadm. induction 1 as [md|md md1 md' Hw _ IH]; [done|].
  destruct (graph_write _ _ _ Hw) as [<-|(j & []%Hadm & _)]. done.
Qed.
