(* ===== verification/Dispatch.v ===== *)
(** * Dispatch (internal/scheduler/dispatch.go)

    Leasing ready jobs to workers, recording their results, and the retry or
    dead-letter decision for a failed attempt. *)

From S2P Require Import Prelude Types Queue Retry Env Cluster Store Server Deps.

(** ** Model *)

Definition maxBatch : Z := 64.

(** The number of tasks a poll may lease. *)
Definition batch_size (maxTasks : Z) : Z :=
  let n := if (maxTasks <=? 0)%Z then 1%Z else maxTasks in
  if (maxBatch <? n)%Z then maxBatch else n.

Section dispatch.
Context {St : Type} {Gstore : JobStore St} {Genv : Env} {Gcron : Cron}.

(** The job a poll hands to a worker. *)
Definition dispatched (workerID : string) (now : Z) (job : Job) : Job :=
  job |> set_Job_State JOB_STATE_RUNNING
      |> set_Job_Attempt (int32 (job.(Job_Attempt) + 1))
      |> set_Job_AssignedWorkerId workerID
      |> set_Job_ScheduledAt None
      |> set_Job_StartedAt (Some now)
      |> set_Job_UpdatedAt (Some now).

(** The loop of [PollTask]; the flag is [false] when the fuel runs out. *)
Fixpoint poll_loop (fuel : nat) (n : Z) (workerID : string) (now : Z) (out : list TaskAssignment)
    : M (Server St) (bool * list TaskAssignment) :=
  if (n <=? Z.of_nat (length out))%Z then mret (true, out)
  else
    match fuel with
    | O => mret (false, out)
    | S fuel =>
        popped ← on_queue Queue_Pop;
        match popped : option string with
        | None => mret (true, out)
        | Some jobID =>
            r ← getJob jobID;
            match r : Job + StoreError with
            | inr _ => poll_loop fuel n workerID now out
            | inl job =>
                if bool_decide (job.(Job_State) ≠ JOB_STATE_QUEUED)
                then poll_loop fuel n workerID now out
                else
                  taskID ← new_id "task";
                  deadline ← gets (λ s : Server St, now + s.(sv_cfg).(Config_LeaseTTL))%Z;
                  let job := dispatched workerID now job in
                  err ← putJob job;
                  match err : option string with
                  | Some _ =>
                      _ ← on_queue (Queue_Push jobID job.(Job_Priority) (AsTime job.(Job_CreatedAt)));
                      mret (true, out)
                  | None =>
                      addLease (mkLease taskID jobID workerID job.(Job_Attempt) deadline);;
                      count inc_TasksDispatched;;
                      poll_loop fuel n workerID now
                        (out ++ [mkTaskAssignment taskID jobID job.(Job_Attempt) job.(Job_Spec) (Some deadline)])
                  end
            end
        end
    end.

Definition PollTask (workerID : string) (maxTasks : Z)
    : M (Server St) (list TaskAssignment + Status) :=
  e ← requireLeader;
  match e : option Status with
  | Some e => mret (inr e)
  | None =>
      known ← workerKnown workerID;
      if negb known then
        mret (inr (mkStatus FailedPrecondition ("unknown worker " +:+ env_quote workerID +:+ "; re-register")%string))
      else
        now ← Now;
        fuel ← gets (λ s, S (Queue_Len s.(sv_queue)));
        r ← poll_loop fuel (batch_size maxTasks) workerID now [];
        mret (inl r.2)
  end.

(** The error to return, and the job as the caller's pointer leaves it. *)
Definition handleFailure (job : Job) (errMsg : string) (now : Z)
    : M (Server St) (option Status * Job) :=
  let job := job |> set_Job_LastError errMsg
                 |> set_Job_AssignedWorkerId ""
                 |> set_Job_UpdatedAt (Some now) in
  let maxAttempts := MaxAttempts job.(Job_RetryPolicy) in
  if (job.(Job_Attempt) <? maxAttempts)%Z then
    k ← next_tick;
    let delay := Backoff env_oor job.(Job_RetryPolicy) job.(Job_Attempt) (env_float64 k) in
    let job := job |> set_Job_State JOB_STATE_QUEUED
                   |> set_Job_ScheduledAt (Some (now + delay)%Z) in
    err ← putJob job;
    match err : option string with
    | Some e => mret (Some (mkStatus Internal ("persist retry: " +:+ e)%string), job)
    | None =>
        armEnqueue job.(Job_Id) delay;;
        count inc_TasksRetried;;
        mret (None, job)
    end
  else
    cj ← maybeRescheduleCron job now;
    if (cj.1 : bool) then mret (None, cj.2)
    else
      let job := cj.2 |> set_Job_State JOB_STATE_FAILED
                      |> set_Job_FinishedAt (Some now) in
      err ← on_store (PutDeadLetter job);
      match err : option string with
      | Some e => mret (Some (mkStatus Internal ("persist dead-letter: " +:+ e)%string), job)
      | None =>
          err ← putJob job;
          match err : option string with
          | Some e => mret (Some (mkStatus Internal ("persist failure: " +:+ e)%string), job)
          | None =>
              count inc_JobsDeadLettered;;
              removeFromIndex job.(Job_Id);;
              _ ← cancelCascade job.(Job_Id) (upstream_failed job.(Job_Id));
              mret (None, job)
          end
      end.

(** The job a successful report leaves behind. *)
Definition succeeded (now : Z) (job : Job) : Job :=
  job |> set_Job_State JOB_STATE_SUCCEEDED
      |> set_Job_AssignedWorkerId ""
      |> set_Job_LastError ""
      |> set_Job_FinishedAt (Some now)
      |> set_Job_UpdatedAt (Some now).

(** [inl true] is the acknowledgement. *)
Definition ReportTask (taskID : string) (result : TaskResult) (errMsg : string)
    : M (Server St) (bool + Status) :=
  e ← requireLeader;
  match e : option Status with
  | Some e => mret (inr e)
  | None =>
      ls ← getLease taskID;
      match ls : option lease with
      | None => mret (inl true)
      | Some ls =>
          r ← getJob ls.(lease_jobID);
          match r : Job + StoreError with
          | inr _ => removeLease taskID;; mret (inl true)
          | inl job =>
              if bool_decide (job.(Job_State) ≠ JOB_STATE_RUNNING)
              then removeLease taskID;; mret (inl true)
              else
                now ← Now;
                match result with
                | TASK_RESULT_SUCCEEDED =>
                    removeLease taskID;;
                    cj ← maybeRescheduleCron job now;
                    if (cj.1 : bool) then mret (inl true)
                    else
                      let job := succeeded now cj.2 in
                      err ← putJob job;
                      match err : option string with
                      | Some e => mret (inr (mkStatus Internal ("persist success: " +:+ e)%string))
                      | None =>
                          count inc_JobsSucceeded;;
                          removeFromIndex job.(Job_Id);;
                          promoteDependents job.(Job_Id);;
                          mret (inl true)
                      end
                | TASK_RESULT_FAILED =>
                    fj ← handleFailure job errMsg now;
                    match (fj.1 : option Status) with
                    | Some e => mret (inr e)
                    | None => removeLease taskID;; mret (inl true)
                    end
                | _ => mret (inr (mkStatus InvalidArgument "task result is required"))
                end
          end
      end
  end.

End dispatch.
