(* ===== verification/Jobs.v ===== *)
(** * The job service (internal/scheduler/job.go) *)

From S2P Require Import Prelude Types Queue Retry Env Cluster Store Server Cycle Deps.

(** ** Model *)

Section jobs.
Context {St : Type} {Gstore : JobStore St} {Genv : Env} {Gcron : Cron}.

Definition loadJob (id : string) : M (Server St) (Job + Status) :=
  if String.eqb id "" then mret (inr (mkStatus InvalidArgument "job_id is required"))
  else
    r ← getJob id;
    match r : Job + StoreError with
    | inl job => mret (inl job)
    | inr ErrNotFound => mret (inr (mkStatus NotFound ("job " +:+ env_quote id +:+ " not found")%string))
    | inr e => mret (inr (mkStatus Internal ("load job: " +:+ StoreError_Error e)%string))
    end.

Definition valid_cron (job : Job) : M (Server St) (option Status) :=
  let expr := Schedule_GetCronExpr job.(Job_Schedule) in
  if String.eqb expr "" then mret None
  else
    now ← Now;
    match nextCron expr now with
    | inl _ => mret None
    | inr e => mret (Some (mkStatus InvalidArgument ("invalid cron_expr: " +:+ e)%string))
    end.

(** The request's job with its fresh bookkeeping fields. *)
Definition new_job (now : Z) (job : Job) : Job :=
  job |> set_Job_Attempt 0
      |> set_Job_AssignedWorkerId ""
      |> set_Job_LastError ""
      |> set_Job_CreatedAt (Some now)
      |> set_Job_UpdatedAt (Some now).

Definition with_id (job : Job) : M (Server St) Job :=
  if String.eqb job.(Job_Id) "" then (id ← new_id "job"; mret (set_Job_Id id job)) else mret job.

Definition rejects_cycle (job : Job) : M (Server St) bool :=
  match job.(Job_DependsOn) with
  | [] => mret false
  | deps => wouldCreateCycle job.(Job_Id) deps
  end.

Definition SubmitJob (req : option Job) : M (Server St) (string + Status) :=
  e ← requireLeader;
  match e : option Status with
  | Some e => mret (inr e)
  | None =>
      match req with
      | None => mret (inr (mkStatus InvalidArgument "job is required"))
      | Some job =>
          if String.eqb (TaskSpec_GetCommand job.(Job_Spec)) ""
          then mret (inr (mkStatus InvalidArgument "job.spec.command is required"))
          else
            e ← valid_cron job;
            match e : option Status with
            | Some e => mret (inr e)
            | None =>
                job ← with_id job;
                c ← rejects_cycle job;
                if (c : bool)
                then mret (inr (mkStatus InvalidArgument "dependencies form a cycle"))
                else
                  now ← Now;
                  placeNewJob (new_job now job) now;;
                  count inc_JobsSubmitted;;
                  mret (inl job.(Job_Id))
            end
      end
  end.

Definition Server_GetJob (id : string) : M (Server St) (Job + Status) := loadJob id.

Definition Server_ListJobs (filter_ : JobState) (pageSize : Z) : M (Server St) (list Job + Status) :=
  all ← gets (λ s, ListJobs s.(sv_store));
  match all : list Job + StoreError with
  | inr e => mret (inr (mkStatus Internal ("list jobs: " +:+ StoreError_Error e)%string))
  | inl all =>
      let out := filter (λ j, filter_ = JOB_STATE_UNSPECIFIED ∨ j.(Job_State) = filter_) all in
      mret (inl (if (0 <? pageSize)%Z && (pageSize <? Z.of_nat (length out))%Z
                 then take (Z.to_nat pageSize) out else out))
  end.

Definition CancelJob (id : string) : M (Server St) (Job + Status) :=
  e ← requireLeader;
  match e : option Status with
  | Some e => mret (inr e)
  | None =>
      r ← loadJob id;
      match r : Job + Status with
      | inr e => mret (inr e)
      | inl job =>
          match job.(Job_State) with
          | JOB_STATE_CANCELED => mret (inl job)
          | JOB_STATE_SUCCEEDED | JOB_STATE_FAILED =>
              mret (inr (mkStatus FailedPrecondition
                ("job " +:+ env_quote job.(Job_Id) +:+ " already in terminal state " +:+
                   JobState_String job.(Job_State))%string))
          | _ =>
              now ← Now;
              let job := job |> set_Job_State JOB_STATE_CANCELED |> set_Job_UpdatedAt (Some now) in
              err ← putJob job;
              match err : option string with
              | Some e => mret (inr (mkStatus Internal ("persist cancel: " +:+ e)%string))
              | None =>
                  _ ← on_queue (Queue_Remove job.(Job_Id));
                  count inc_JobsCanceled;;
                  _ ← cancelCascade job.(Job_Id)
                        ("upstream dependency " +:+ job.(Job_Id) +:+ " was canceled")%string;
                  mret (inl job)
              end
          end
      end
  end.

End jobs.
