(* ===== verification/Workers.v ===== *)
(** * The worker service (internal/scheduler/worker.go) and lost workers
      (internal/scheduler/recovery.go) *)

From S2P Require Import Prelude Types Queue Retry Env Cluster Store Server Deps Dispatch.

(** ** Model *)

Section workers.
Context {St : Type} {Gstore : JobStore St} {Genv : Env} {Gcron : Cron}.

(** The worker id and the address of this node. *)
Definition RegisterWorker (req : option WorkerInfo) : M (Server St) ((string * string) + Status) :=
  e ← requireLeader;
  match e : option Status with
  | Some e => mret (inr e)
  | None =>
      match req with
      | None => mret (inr (mkStatus InvalidArgument "worker is required"))
      | Some w =>
          id ← (if String.eqb w.(WorkerInfo_Id) "" then new_id "worker" else mret w.(WorkerInfo_Id));
          now ← Now;
          let w := w |> set_WorkerInfo_Id id
                     |> set_WorkerInfo_Capacity
                          (if (w.(WorkerInfo_Capacity) <=? 0)%Z then 1%Z else w.(WorkerInfo_Capacity))
                     |> set_WorkerInfo_State WORKER_STATE_ALIVE
                     |> set_WorkerInfo_LastHeartbeat (Some now)
                     |> set_WorkerInfo_RunningTasks 0 in
          err ← putWorker w;
          match err : option string with
          | Some e => mret (inr (mkStatus Internal ("persist worker: " +:+ e)%string))
          | None => addr ← gets sv_selfAddr; mret (inl (w.(WorkerInfo_Id), addr))
          end
      end
  end.

(** [ok] and, when the worker must register again, this node's address. *)
Definition Heartbeat (workerID : string) (runningTaskIds : list string)
    : M (Server St) ((bool * string) + Status) :=
  e ← requireLeader;
  match e : option Status with
  | Some e => mret (inr e)
  | None =>
      cur ← gets (λ s, s.(sv_workers) !! workerID);
      match cur : option WorkerInfo with
      | None => addr ← gets sv_selfAddr; mret (inl (false, addr))
      | Some cur =>
          now ← Now;
          let w := cur |> set_WorkerInfo_State WORKER_STATE_ALIVE
                       |> set_WorkerInfo_LastHeartbeat (Some now)
                       |> set_WorkerInfo_RunningTasks (int32 (Z.of_nat (length runningTaskIds))) in
          err ← putWorker w;
          match err : option string with
          | Some e => mret (inr (mkStatus Internal ("persist heartbeat: " +:+ e)%string))
          | None => mret (inl (true, ""))
          end
      end
  end.

Definition requeueLease (taskID reason : string) : M (Server St) unit :=
  l ← getLease taskID;
  match l : option lease with
  | None => mret tt
  | Some l =>
      removeLease taskID;;
      r ← getJob l.(lease_jobID);
      match r : Job + StoreError with
      | inr _ => mret tt
      | inl job =>
          if bool_decide (job.(Job_State) ≠ JOB_STATE_RUNNING) then mret tt
          else
            count inc_TasksRequeued;;
            now ← Now;
            _ ← handleFailure job reason now;
            mret tt
      end
  end.

(** The keys of the leases that satisfy a condition, in map order. *)
Definition leases_where (P : lease → bool) : M (Server St) (list string) :=
  ls ← gets sv_leases;
  ks ← range_keys (map_to_list (ls : gmap string lease)).*1;
  mret (filter (λ t, P (default (mkLease "" "" "" 0 0) (ls !! t)) = true) ks).

Definition requeueLeasesForWorker (workerID reason : string) : M (Server St) unit :=
  ts ← leases_where (λ l, String.eqb l.(lease_workerID) workerID);
  forM_ ts (λ t, requeueLease t reason).

(** The liveness a worker's last heartbeat implies at [now]; Go's [/] on
    durations truncates. *)
Definition liveness (timeout now : Z) (w : WorkerInfo) : WorkerState :=
  let age := saturate64 (now - AsTime w.(WorkerInfo_LastHeartbeat)) in
  if (timeout <? age)%Z then WORKER_STATE_DEAD
  else if (Z.quot timeout 2 <? age)%Z then WORKER_STATE_SUSPECT
  else WORKER_STATE_ALIVE.

(** Workers whose recorded state must change, with their new record; a worker
    is never marked alive here. *)
Definition liveness_changes (timeout now : Z) (ws : list (string * WorkerInfo))
    : list (string * WorkerInfo) :=
  omap (λ p, let target := liveness timeout now p.2 in
    if bool_decide (target ≠ WORKER_STATE_ALIVE ∧ p.2.(WorkerInfo_State) ≠ target)
    then Some (p.1, set_WorkerInfo_State target p.2) else None) ws.

Definition reapOnce : M (Server St) unit :=
  now ← Now;
  timeout ← gets (λ s, s.(sv_cfg).(Config_HeartbeatTimeout));
  ws ← gets sv_workers;
  ids ← range_keys (map_to_list (ws : gmap string WorkerInfo)).*1;
  let changes := liveness_changes timeout now
    (omap (λ id, match ws !! id with Some w => Some (id, w) | None => None end) ids) in
  forM_ changes (λ c, _ ← putWorker c.2; mret tt);;
  forM_ (filter (λ c, c.2.(WorkerInfo_State) = WORKER_STATE_DEAD) changes)
    (λ c, requeueLeasesForWorker c.1 "worker missed heartbeats");;
  expired ← leases_where (λ l, (l.(lease_deadline) <? now)%Z);
  forM_ expired (λ t, requeueLease t "lease deadline exceeded").

(** One tick of [reaperLoop]. *)
Definition reaper_tick : M (Server St) unit :=
  l ← is_leader;
  whenM l reapOnce.

End workers.
