(* ===== verification/Replication.v ===== *)
(** * Replication and cluster service (internal/scheduler/cluster.go, the
      replication half of server.go)

    The leader keeps a log of upserts with increasing sequence numbers and ships
    to each follower the entries past the follower's acknowledged cursor. *)

From S2P Require Import Prelude Types Queue Retry Env Cluster Store Server.

(** ** Model *)

Section replication.
Context {St : Type} {Gstore : JobStore St} {Genv : Env} {Gcron : Cron}.

Definition RequestVote (term : Z) (candidateID : string) : M (Server St) (bool * Z) :=
  on_node (HandleVote term candidateID).

Definition applyEntry (e : ReplicationEntry) : M (Server St) unit :=
  match e.(ReplicationEntry_Mutation) with
  | Some (ReplicationEntry_UpsertJob j) => _ ← on_store (PutJob j); mret tt
  | Some (ReplicationEntry_UpsertWorker w) =>
      err ← on_store (PutWorker w);
      match err : option string with
      | Some _ => mret tt
      | None => modify (λ s, set_sv_workers (<[w.(WorkerInfo_Id):=w]> s.(sv_workers)) s)
      end
  | Some (ReplicationEntry_DeleteJobId id) => _ ← on_store (DeleteJob id); mret tt
  | None => mret tt
  end.

(** The highest sequence number, 0 if there is none above. *)
Definition highest_seq (entries : list ReplicationEntry) : Z :=
  foldl (λ last e, if (last <? e.(ReplicationEntry_Seq))%Z then e.(ReplicationEntry_Seq) else last)
    0%Z entries.

Definition applyEntries (entries : list ReplicationEntry) : M (Server St) Z :=
  forM_ entries applyEntry;; mret (highest_seq entries).

(** Accepted, current term, applied through. *)
Definition Replicate (term : Z) (leaderID : string) (entries : list ReplicationEntry)
    : M (Server St) (bool * Z * Z) :=
  ac ← on_node (ObserveLeader term leaderID);
  if negb ac.1 then mret (false, ac.2, 0%Z)
  else (applied ← applyEntries entries; mret (true, ac.2, applied)).

Definition entriesForPeer (peerID : string) (s : Server St) : list ReplicationEntry :=
  filter (λ e, default 0%Z (s.(sv_peerAcked) !! peerID) < e.(ReplicationEntry_Seq))%Z s.(sv_replLog).

Definition ackPeer (peerID : string) (applied : Z) : M (Server St) unit :=
  if (applied <=? 0)%Z then mret tt
  else modify (λ s,
    if (default 0%Z (s.(sv_peerAcked) !! peerID) <? applied)%Z
    then set_sv_peerAcked (<[peerID:=applied]> s.(sv_peerAcked)) s else s).

(** The leader's step for one follower; [rpc] is the follower's answer to the
    shipped entries, [None] when it is unreachable. *)
Definition replicate_to (term : Z) (rpc : Z → list ReplicationEntry → option (bool * Z * Z))
    (peerID : string) : M (Server St) unit :=
  entries ← gets (entriesForPeer peerID);
  match rpc term entries with
  | None => mret tt
  | Some (ok, peerTerm, applied) =>
      if negb ok then on_node (MaybeStepDown peerTerm) else ackPeer peerID applied
  end.

Definition broadcastReplicate (rpc : string → Z → list ReplicationEntry → option (bool * Z * Z))
    : M (Server St) unit :=
  term ← gets (λ s, Term s.(sv_node));
  self ← gets (λ s, s.(sv_cfg).(Config_NodeID));
  ids ← gets (λ s : Server St, (map_to_list s.(sv_members)).*1);
  ids ← range_keys ids;
  forM_ ids (λ id, if String.eqb id self then mret tt else replicate_to term (rpc id) id).

(** One tick of [replicationLoop]. *)
Definition replication_tick rpc : M (Server St) unit :=
  l ← is_leader;
  whenM l (broadcastReplicate rpc).

(** A listing that failed counts as empty. *)
Definition snapshot (st : St) : list isReplicationEntry_Mutation :=
  (match ListJobs st with inl js => ReplicationEntry_UpsertJob <$> js | inr _ => [] end) ++
  (match ListWorkers st with inl ws => ReplicationEntry_UpsertWorker <$> ws | inr _ => [] end).

Definition append_entry (m : isReplicationEntry_Mutation) : M (Server St) unit :=
  modify (λ s, set_sv_replSeq (int64 (s.(sv_replSeq) + 1)) s);;
  modify (λ s, set_sv_replLog (s.(sv_replLog) ++ [mkReplicationEntry s.(sv_replSeq) (Some m)]) s).

Definition seedReplication : M (Server St) unit :=
  ms ← gets (λ s, snapshot s.(sv_store));
  modify (set_sv_replLog []);;
  modify (set_sv_replSeq 0);;
  modify (set_sv_peerAcked ∅);;
  forM_ ms append_entry.

Definition GetClusterStatus : M (Server St) (GetClusterStatusResponse + Status) :=
  leaderID ← gets (λ s, LeaderID s.(sv_node));
  term ← gets (λ s, Term s.(sv_node));
  ms ← gets sv_members;
  ids ← range_keys (map_to_list (ms : gmap string string)).*1;
  let nodes := (λ id, mkSchedulerNode id (default "" (ms !! id))
    (if String.eqb id leaderID then SCHEDULER_ROLE_LEADER else SCHEDULER_ROLE_FOLLOWER) None) <$> ids in
  ws ← gets (λ s, ListWorkers s.(sv_store));
  match ws : list WorkerInfo + StoreError with
  | inr e => mret (inr (mkStatus Internal ("list workers: " +:+ StoreError_Error e)%string))
  | inl ws => mret (inl (mkGetClusterStatusResponse (Some (mkLeaseInfo leaderID term None None)) nodes ws))
  end.

End replication.
