(* ===== verification/Leadership.v ===== *)
(** * Leadership changes, start and shutdown (internal/scheduler/server.go)

    What a node does when it starts, becomes leader, steps down or stops. *)

From S2P Require Import Prelude Types Queue Retry Env Cluster Store Server Deps Dispatch Jobs Workers.
From S2P Require Import Replication.

(** ** Model *)

Section leadership.
Context {St : Type} {Gstore : JobStore St} {Genv : Env} {Gcron : Cron}.

(** One round of the first loop of [rebuildSchedulingState]; returns the job as
    the loop leaves it in the listing. *)
Definition rebuild_one (now : Z) (j : Job) : M (Server St) Job :=
  whenM (negb (terminal j.(Job_State))) (addDeps j);;
  match j.(Job_State) with
  | JOB_STATE_QUEUED =>
      match j.(Job_ScheduledAt) with
      | Some at_ =>
          if (now <? at_)%Z then armEnqueue j.(Job_Id) (saturate64 (at_ - now));; mret j
          else _ ← on_queue (Queue_Push j.(Job_Id) j.(Job_Priority) (AsTime j.(Job_CreatedAt))); mret j
      | None => _ ← on_queue (Queue_Push j.(Job_Id) j.(Job_Priority) (AsTime j.(Job_CreatedAt))); mret j
      end
  | JOB_STATE_RUNNING =>
      r ← handleFailure j "reclaimed orphaned task after leadership change" now;
      mret r.2
  | _ => mret j
  end.

Fixpoint rebuild_all (now : Z) (jobs : list Job) : M (Server St) (list Job) :=
  match jobs with
  | [] => mret []
  | j :: jobs => j ← rebuild_one now j; jobs ← rebuild_all now jobs; mret (j :: jobs)
  end.

Definition rebuildSchedulingState : M (Server St) unit :=
  clearSchedulingState;;
  r ← gets (λ s, ListJobs s.(sv_store));
  match r : list Job + StoreError with
  | inr _ => mret tt
  | inl jobs =>
      now ← Now;
      jobs ← rebuild_all now jobs;
      forM_ jobs (λ j, whenM (bool_decide (j.(Job_State) = JOB_STATE_PENDING)) (tryPromote j.(Job_Id)))
  end.

Definition onBecomeLeader (term : Z) : M (Server St) unit :=
  rebuildSchedulingState;; seedReplication.

Definition onStepDown (term : Z) : M (Server St) unit := clearSchedulingState.

(** [recover]: [None] on success. *)
Definition recover : M (Server St) (option string) :=
  r ← gets (λ s, ListWorkers s.(sv_store));
  match r : list WorkerInfo + StoreError with
  | inr e => mret (Some ("recover workers: " +:+ StoreError_Error e)%string)
  | inl ws =>
      forM_ ws (λ w, modify (λ s, set_sv_workers (<[w.(WorkerInfo_Id):=w]> s.(sv_workers)) s));;
      mret None
  end.

(** The server [New] builds before [recover], given the opened store. *)
Definition new_server (cfg : Config) (st : St) (tick : nat) : Server St :=
  let cfg := Config_withDefaults cfg in
  let members := foldl (λ m x, <[x.(Member_ID):=x.(Member_Address)]> m) ∅ cfg.(Config_Members) in
  mkServer cfg members (default "" (members !! cfg.(Config_NodeID))) st Queue_New
    (Node_New (mkClusterConfig cfg.(Config_NodeID) (Member_ID <$> cfg.(Config_Members))
       cfg.(Config_ElectionTimeoutMin) cfg.(Config_ElectionTimeoutMax)))
    ∅ ∅ ∅ [] 0 ∅ ∅ (mkMetrics 0 0 0 0 0 0 0) false tick.

(** [New] after the store is open: recover, then start the election node; a
    single member becomes leader at once. *)
Definition start_server : M (Server St) (option string) :=
  err ← recover;
  match err : option string with
  | Some e => mret (Some e)
  | None =>
      cb ← on_node Start;
      match cb : option callback with
      | Some (OnLeader term) => onBecomeLeader term
      | Some (OnStepDown term) => onStepDown term
      | None => mret tt
      end;;
      mret None
  end.

(** Run the [i]-th of the callbacks the election started with [go]; goroutines
    may run in any order. *)
Definition run_callback (i : nat) : M (Server St) unit :=
  cbs ← gets (λ s, s.(sv_node).(Node_spawned));
  match (cbs : list callback) !! i with
  | None => mret tt
  | Some cb =>
      modify (λ s, set_sv_node (mkNode s.(sv_node).(Node_cfg) s.(sv_node).(Node_role)
        s.(sv_node).(Node_currentTerm) s.(sv_node).(Node_votedFor) s.(sv_node).(Node_leaderID)
        s.(sv_node).(Node_electionDeadline) (delete i cbs)) s);;
      match cb with
      | OnLeader term => onBecomeLeader term
      | OnStepDown term => onStepDown term
      end
  end.

(** [Shutdown] up to the network and the store's file. *)
Definition Shutdown : M (Server St) unit :=
  modify (set_sv_closed true);;
  modify (set_sv_retryTimers ∅).

End leadership.
