(* ===== verification/Handlers.v ===== *)
(** * Walking the handlers once

    Many facts about the scheduler have the form "no handler breaks R", where R
    relates the states before and after and every elementary write is known to
    respect it.  This file goes through the handlers once, for any such
    preorder; an invariant [I] is the preorder [kept I]. *)

From S2P Require Import Prelude Types Queue Retry Env Cluster Store Server Cycle Deps Dispatch Jobs Workers.
From S2P Require Import Replication Leadership.

Definition kept {σ} (I : σ → Prop) (s s' : σ) : Prop := I s → I s'.

#[export] Instance kept_preorder {σ} (I : σ → Prop) : PreOrder (kept I).
Proof. split; [intros s Hs; exact Hs|]. intros a b c H1 H2 Hs. by apply H2, H1. Qed.

(** The liveness states the leader gives a worker. *)
Definition known (w : WorkerInfo) : bool :=
  match w.(WorkerInfo_State) with WORKER_STATE_ALIVE | WORKER_STATE_SUSPECT | WORKER_STATE_DEAD => true | _ => false end.

Lemma liveness_changes_known timeout now ws c : c ∈ liveness_changes timeout now ws → known c.2 = true.
Proof.
  unfold liveness_changes. intros ([id w] & _ & Hc)%list_elem_of_omap. destruct (bool_decide _); [|done].
  injection Hc as <-. unfold known, liveness. simpl. destruct (timeout <? _)%Z; [done|]. by destruct (Z.quot timeout 2 <? _)%Z.
Qed.

Section handlers.
Context {St : Type} {Gstore : JobStore St} {Genv : Env} {Gcron : Cron}.
Context (R : Server St → Server St → Prop) {HR : PreOrder R}.

(** ** The elementary steps *)

(** The writes of the handlers that leave the leases and workers alone. *)
Record job_steps : Prop := {
  js_tick : within R next_tick;
  js_putJob j : within R (putJob j);
  js_dead j : within R (on_store (PutDeadLetter j));
  js_push id p c : within R (on_queue (Queue_Push id p c));
  js_remove id : within R (on_queue (Queue_Remove id));
  js_count c : within R (count c);
  js_timers (f : Server St → gmap string Z) : within R (modify (λ s, set_sv_retryTimers (f s) s));
  js_index (f : Server St → index) : within R (modify (λ s, set_sv_revIndex (f s) s))
}.

(** The writes of a leader. *)
Record leader_steps : Prop := {
  ls_jobs : job_steps;
  ls_pop : within R (on_queue Queue_Pop);
  ls_putWorker w : known w = true → within R (putWorker w);
  ls_leases (f : Server St → gmap string lease) : within R (modify (λ s, set_sv_leases (f s) s))
}.

(** The writes of a takeover. *)
Record takeover_steps : Prop := {
  ts_jobs : job_steps;
  ts_leases (f : Server St → gmap string lease) : within R (modify (λ s, set_sv_leases (f s) s));
  ts_clear : within R (on_queue (λ q, (tt, Queue_Clear q)));
  ts_seed : within R seedReplication
}.

(** ** Handlers that leave the leases alone *)

Section jobs.
Context (H : job_steps).
#[local] Hint Resolve js_tick js_putJob js_dead js_push js_remove js_count js_timers js_index : pres.

Lemma w_Now : within R Now.
Proof. unfold Now. walk. Qed.
Lemma w_Until t : within R (Until t).
Proof. unfold Until, Now. walk. Qed.
Lemma w_new_id p : within R (new_id p).
Proof. unfold new_id. walk. Qed.
Lemma w_range ks : within R (range_keys ks).
Proof. unfold range_keys. walk. Qed.
Lemma w_requireLeader : within R requireLeader.
Proof. unfold requireLeader, is_leader, leaderAddr. walk. Qed.
Lemma w_enqueue id : within R (enqueueJob id).
Proof. unfold enqueueJob, is_leader, getJob. walk. Qed.
#[local] Hint Resolve w_Now w_Until w_new_id w_range w_requireLeader w_enqueue : pres.
Lemma w_timer id : within R (timer_fired id).
Proof. unfold timer_fired. walk. Qed.
Lemma w_arm id d : within R (armEnqueue id d).
Proof. unfold armEnqueue. walk. Qed.
#[local] Hint Resolve w_arm : pres.
Lemma w_removeFromIndex id : within R (removeFromIndex id).
Proof. unfold removeFromIndex. walk. Qed.
Lemma w_addDeps j : within R (addDeps j).
Proof. unfold addDeps. walk. Qed.
Lemma w_dependentsOf id : within R (dependentsOf id).
Proof. unfold dependentsOf. walk. Qed.
#[local] Hint Resolve w_removeFromIndex w_addDeps w_dependentsOf : pres.
Lemma w_makeReady j now : within R (makeReady j now).
Proof. unfold makeReady, fire_time. walk. Qed.
Lemma w_cascade_step cur reason now : within R (cascade_step cur reason now).
Proof. unfold cascade_step, getJob. walk. Qed.
#[local] Hint Resolve w_makeReady w_cascade_step : pres.
Lemma w_cascade fuel work visited reason now : within R (cascade fuel work visited reason now).
Proof.
  revert work visited reason. induction fuel as [|fuel IH]; intros [|cur work] visited reason; simpl; walk.
Qed.
#[local] Hint Resolve w_cascade : pres.
Lemma w_cancelCascade id reason : within R (cancelCascade id reason).
Proof. unfold cancelCascade. walk. Qed.
#[local] Hint Resolve w_cancelCascade : pres.
Lemma w_tryPromote id : within R (tryPromote id).
Proof. unfold tryPromote, getJob, depsSatisfied. walk. Qed.
#[local] Hint Resolve w_tryPromote : pres.
Lemma w_promoteDependents id : within R (promoteDependents id).
Proof. unfold promoteDependents. walk. Qed.
Lemma w_cron j now : within R (maybeRescheduleCron j now).
Proof. unfold maybeRescheduleCron. walk. Qed.
#[local] Hint Resolve w_promoteDependents w_cron : pres.
Lemma w_handleFailure j msg now : within R (handleFailure j msg now).
Proof. unfold handleFailure. walk. Qed.
Lemma w_SubmitJob req : within R (SubmitJob req).
Proof.
  unfold SubmitJob, valid_cron, with_id, rejects_cycle, wouldCreateCycle, placeNewJob, depsSatisfied. walk.
Qed.
Lemma w_CancelJob id : within R (CancelJob id).
Proof. unfold CancelJob, loadJob, getJob. walk. Qed.
Lemma w_leases_where P : within R (leases_where P).
Proof. unfold leases_where. walk. Qed.
#[local] Hint Resolve w_handleFailure : pres.
Lemma w_rebuild_all now jobs : within R (rebuild_all now jobs).
Proof. induction jobs as [|j jobs IH]; simpl; unfold rebuild_one; walk. Qed.
End jobs.

(** ** The other handlers of a leader *)

Section leader.
Context (H : leader_steps).
#[local] Hint Resolve ls_jobs ls_pop ls_putWorker ls_leases js_putJob js_push js_count : pres.
#[local] Hint Resolve w_Now w_new_id w_range w_requireLeader w_handleFailure w_cron w_removeFromIndex
  w_promoteDependents w_leases_where : pres.

Lemma w_removeLease t : within R (removeLease t).
Proof. unfold removeLease. walk. Qed.
Lemma w_addLease l : within R (addLease l).
Proof. unfold addLease. walk. Qed.
#[local] Hint Resolve w_removeLease w_addLease : pres.
Lemma w_requeueLease t reason : within R (requeueLease t reason).
Proof. unfold requeueLease, getLease, getJob. walk. Qed.
#[local] Hint Resolve w_requeueLease : pres.
Lemma w_poll_loop fuel n w now out : within R (poll_loop fuel n w now out).
Proof. revert out. induction fuel as [|fuel IH]; intros out; simpl; unfold getJob; walk. Qed.
#[local] Hint Resolve w_poll_loop : pres.
Lemma w_PollTask w n : within R (PollTask w n).
Proof. unfold PollTask, workerKnown. walk. Qed.
Lemma w_ReportTask t r msg : within R (ReportTask t r msg).
Proof. unfold ReportTask, getLease, getJob. walk. Qed.
Lemma w_RegisterWorker w : within R (RegisterWorker w).
Proof. unfold RegisterWorker. walk. Qed.
Lemma w_Heartbeat w ts : within R (Heartbeat w ts).
Proof. unfold Heartbeat. walk. Qed.
Lemma w_reaper_tick : within R reaper_tick.
Proof.
  unfold reaper_tick, is_leader, reapOnce, requeueLeasesForWorker. walk. by eapply ls_putWorker, liveness_changes_known.
Qed.
End leader.

(** ** Takeover and step-down *)

Section takeover.
Context (H : takeover_steps).
#[local] Hint Resolve ts_jobs ts_clear ts_seed w_Now w_rebuild_all w_tryPromote : pres.

Lemma w_clear : within R clearSchedulingState.
Proof.
  unfold clearSchedulingState. walk.
  - exact (js_timers (ts_jobs H) (λ _, ∅)).
  - exact (ts_leases H (λ _, ∅)).
  - exact (js_index (ts_jobs H) (λ _, ∅)).
Qed.
#[local] Hint Resolve w_clear : pres.
Lemma w_onBecomeLeader t : within R (onBecomeLeader t).
Proof. unfold onBecomeLeader, rebuildSchedulingState. walk. Qed.
Lemma w_onStepDown t : within R (onStepDown t).
Proof. unfold onStepDown. walk. Qed.
End takeover.

End handlers.
