(* ===== verification/Refinement.v ===== *)
(** * The handlers implement the job lifecycle

    Every handler, timer and background task changes the stored jobs only by
    legal writes of [Lifecycle.v], on every branch, including those taken when
    the store fails. *)

From S2P Require Import Prelude Types Queue Retry Env Cluster Store Server Cycle Deps Lifecycle Dispatch.
From S2P Require Import Jobs Workers Replication Leadership.
From stdpp Require Import relations.

Section refinement.
Context {St : Type} {Gstore : JobStore St} {Genv : Env} {Gcron : Cron}.
Context (sc : scope).
Implicit Types (s : Server St) (j : Job).

(** ** The abstraction *)

Definition jobs_of s : jobs_map := (st_view s.(sv_store)).(v_jobs).
Definition dead_of s : jobs_map := (st_view s.(sv_store)).(v_dead).
Definition abs s : jobs_map * jobs_map := (jobs_of s, dead_of s).

(** [s'] is reached from [s] by legal writes; [s'] has the same jobs as [s]. *)
Definition evolves s s' : Prop := history sc (abs s) (abs s').
Definition keeps s s' : Prop := abs s' = abs s.

#[export] Instance evolves_preorder : PreOrder evolves.
Proof. split; [by intros s; apply rtc_refl|]. intros a b c. unfold evolves. apply transitivity. Qed.
#[export] Instance keeps_preorder : PreOrder keeps.
Proof. split; [by intros s|]. intros a b c. unfold keeps. congruence. Qed.

Lemma keeps_evolves s s' : keeps s s' → evolves s s'.
Proof. unfold evolves. by intros ->. Qed.

Lemma within_keeps {A} (m : M (Server St) A) : within keeps m → within evolves m.
Proof. intros H s. apply keeps_evolves, H. Qed.

(** ** Operations that leave the jobs alone *)

Lemma keeps_modify (f : Server St → Server St) :
  (∀ s, (f s).(sv_store) = s.(sv_store)) → within keeps (modify f).
Proof. intros H s. unfold keeps, abs, jobs_of, dead_of. mrun. by rewrite H. Qed.

Lemma keeps_queue {A} (op : PriorityQueue → A * PriorityQueue) : within keeps (on_queue op).
Proof. intros s. unfold exec, on_queue. by destruct (op (sv_queue s)). Qed.

Lemma keeps_tick : within keeps next_tick.
Proof. by intros s. Qed.

#[local] Hint Resolve keeps_modify keeps_queue keeps_tick : pres.

Ltac quiet := walk; try (apply keeps_modify; intros s'; done).

Lemma keeps_Now : within keeps Now.
Proof. unfold Now. quiet. Qed.
Lemma keeps_new_id p : within keeps (new_id p).
Proof. unfold new_id. quiet. Qed.
Lemma keeps_range l : within keeps (range_keys l).
Proof. unfold range_keys. quiet. Qed.
Lemma keeps_Until t : within keeps (Until t).
Proof. unfold Until, Now. quiet. Qed.
Lemma keeps_count f : within keeps (count f).
Proof. by apply keeps_modify. Qed.
Lemma keeps_requireLeader : within keeps requireLeader.
Proof. unfold requireLeader, is_leader, leaderAddr. quiet. Qed.
Lemma keeps_getJob id : within keeps (getJob id).
Proof. unfold getJob. quiet. Qed.
Lemma keeps_appendRepl e : within keeps (appendRepl e).
Proof. unfold appendRepl, is_leader. quiet. Qed.
#[local] Hint Resolve keeps_Now keeps_new_id keeps_range keeps_Until keeps_count
  keeps_requireLeader keeps_getJob keeps_appendRepl : pres.

Lemma keeps_enqueueJob id : within keeps (enqueueJob id).
Proof. unfold enqueueJob, is_leader. quiet. Qed.
#[local] Hint Resolve keeps_enqueueJob : pres.
Lemma keeps_armEnqueue id d : within keeps (armEnqueue id d).
Proof. unfold armEnqueue. quiet. Qed.
Lemma keeps_timer_fired id : within keeps (timer_fired id).
Proof. unfold timer_fired. quiet. Qed.
Lemma keeps_addLease l : within keeps (addLease l).
Proof. by apply keeps_modify. Qed.
Lemma keeps_removeLease t : within keeps (removeLease t).
Proof. by apply keeps_modify. Qed.
Lemma keeps_removeFromIndex id : within keeps (removeFromIndex id).
Proof. by apply keeps_modify. Qed.
Lemma keeps_addDeps j : within keeps (addDeps j).
Proof. unfold addDeps. quiet. Qed.
Lemma keeps_dependentsOf id : within keeps (dependentsOf id).
Proof. unfold dependentsOf. quiet. Qed.
Lemma keeps_clear : within keeps clearSchedulingState.
Proof. unfold clearSchedulingState. quiet. Qed.
Lemma keeps_leases_where P : within keeps (leases_where P).
Proof. unfold leases_where. quiet. Qed.
#[local] Hint Resolve keeps_armEnqueue keeps_timer_fired keeps_addLease keeps_removeLease
  keeps_removeFromIndex keeps_addDeps keeps_dependentsOf keeps_clear keeps_leases_where : pres.

Lemma keeps_putWorker w : within keeps (putWorker w).
Proof.
  unfold putWorker. apply within_bind; [apply _| |intros [e|]; quiet].
  intros s. unfold keeps, abs, jobs_of, dead_of, on_store, exec. simpl.
  pose proof (PutWorker_writes w (sv_store s)) as H. unfold exec in H. rewrite H.
  by destruct (eval _ _).
Qed.

Lemma keeps_fire_time j now : within keeps (fire_time j now).
Proof. unfold fire_time. quiet. Qed.
#[local] Hint Resolve keeps_putWorker keeps_fire_time : pres.

(** The election node writes only its term and vote. *)
Definition node_keeps (n n' : NodeState St) : Prop :=
  (st_view n'.(ns_store)).(v_jobs) = (st_view n.(ns_store)).(v_jobs) ∧
  (st_view n'.(ns_store)).(v_dead) = (st_view n.(ns_store)).(v_dead) ∧
  (st_view n'.(ns_store)).(v_workers) = (st_view n.(ns_store)).(v_workers).

#[export] Instance node_keeps_preorder : PreOrder node_keeps.
Proof. split; [by intros n|]. intros a b c (?&?&?) (?&?&?). split_and!; congruence. Qed.

Lemma node_keeps_modify f : within node_keeps (modify_node f).
Proof. by intros n. Qed.
Lemma node_keeps_get : within node_keeps get_node.
Proof. by intros n. Qed.
Lemma node_keeps_tick : within node_keeps tick_node.
Proof. by intros n. Qed.
Lemma node_keeps_persist : within node_keeps persistLocked.
Proof.
  intros n. unfold exec, persistLocked, SaveState, election_store.
  pose proof (SaveElection_writes (Node_currentTerm (ns_node n)) (Node_votedFor (ns_node n)) (ns_store n)) as H.
  unfold exec, eval in H. destruct (SaveElection _ _ _) as [[e|] st]; simpl in *;
    unfold node_keeps; simpl; by rewrite H.
Qed.
#[local] Hint Resolve node_keeps_modify node_keeps_get node_keeps_tick node_keeps_persist : pres.

Lemma node_keeps_reset : within node_keeps resetElectionTimerLocked.
Proof. unfold resetElectionTimerLocked. walk. Qed.
#[local] Hint Resolve node_keeps_reset : pres.
Lemma node_keeps_follow t : within node_keeps (becomeFollowerLocked t).
Proof. unfold becomeFollowerLocked. walk. Qed.
#[local] Hint Resolve node_keeps_follow : pres.
Lemma node_keeps_HandleVote t c : within node_keeps (HandleVote t c).
Proof. unfold HandleVote. walk. Qed.
Lemma node_keeps_ObserveLeader t l : within node_keeps (ObserveLeader t l).
Proof. unfold ObserveLeader. walk. Qed.
Lemma node_keeps_MaybeStepDown t : within node_keeps (MaybeStepDown t).
Proof. unfold MaybeStepDown. walk. Qed.
Lemma node_keeps_Start : within node_keeps Start.
Proof. unfold Start. walk. Qed.
Lemma node_keeps_begin : within node_keeps startElection_begin.
Proof. unfold startElection_begin. walk. Qed.
Lemma node_keeps_vote t v r : within node_keeps (startElection_vote t v r).
Proof. unfold startElection_vote, becomeLeaderLocked. walk. Qed.

Lemma keeps_on_node {A} (op : M (NodeState St) A) : within node_keeps op → within keeps (on_node op).
Proof.
  intros H s. destruct (H (mkNodeState (sv_node s) (sv_store s) (sv_tick s))) as (H1 & H2 & _).
  unfold keeps, abs, jobs_of, dead_of, on_node, exec in *.
  destruct (op _) as [a n]. simpl in *. by rewrite H1, H2.
Qed.

(** ** Writes *)

(** The job is stored as it is. *)
Definition stored s j : Prop := jobs_of s !! j.(Job_Id) = Some j.

Lemma exec_keeps {A} (m : M (Server St) A) s : within keeps m → abs (exec m s) = abs s.
Proof. intros H. apply H. Qed.

Lemma stored_abs s s' j : abs s' = abs s → stored s j → stored s' j.
Proof. intros H. unfold stored. apply (f_equal fst) in H. simpl in H. by rewrite H. Qed.

Lemma getJob_stored s id j :
  eval (getJob id) s = inl j → stored s j ∧ j.(Job_Id) = id.
Proof.
  unfold getJob. mrun. intros H. pose proof (GetJob_reads id (sv_store s)) as Hr.
  rewrite H in Hr. simpl in Hr. pose proof (jobs_keyed _ _ _ Hr) as Hid.
  split; [|done]. unfold stored, jobs_of. by rewrite Hid.
Qed.

Lemma on_store_abs (op : M St (option string)) s :
  abs (exec (on_store op) s) =
    ((st_view (exec op s.(sv_store))).(v_jobs), (st_view (exec op s.(sv_store))).(v_dead)) ∧
  eval (on_store op) s = eval op s.(sv_store).
Proof. by split. Qed.

Lemma putJob_cases s j :
  (eval (putJob j) s = None ∧ abs (exec (putJob j) s) = (<[j.(Job_Id):=j]> (jobs_of s), dead_of s)) ∨
  (is_Some (eval (putJob j) s) ∧ abs (exec (putJob j) s) = abs s).
Proof.
  unfold putJob. mrun. destruct (on_store_abs (PutJob j) s) as [Ha He]. rewrite He.
  pose proof (PutJob_writes j (sv_store s)) as Hw.
  destruct (eval (PutJob j) (sv_store s)) as [e|]; rewrite Hw in Ha; mrun.
  - right. by split; [eexists|].
  - left. split; [done|]. rewrite (exec_keeps _ _ (keeps_appendRepl _)). exact Ha.
Qed.

Lemma putJob_update s j j' :
  stored s j → same_identity j j' → transition (jobs_of s) (dead_of s) j j' → in_scope sc j j' →
  evolves s (exec (putJob j') s).
Proof.
  intros Hj Hs Ht Hsc. destruct (putJob_cases s j') as [[_ Ha]|[_ Ha]]; [|by apply keeps_evolves].
  unfold evolves. rewrite Ha. apply rtc_once. by eapply w_update.
Qed.

Lemma putJob_submit s j :
  jobs_of s !! j.(Job_Id) = None → sc.(adm) j → j.(Job_Attempt) = 0%Z → admission (jobs_of s) j →
  evolves s (exec (putJob j) s).
Proof.
  intros. destruct (putJob_cases s j) as [[_ Ha]|[_ Ha]]; [|by apply keeps_evolves].
  unfold evolves. rewrite Ha. apply rtc_once. by apply w_submit.
Qed.

Lemma deps_ready_done st deps :
  (deps_ready st deps).1 = true → deps_done (st_view st).(v_jobs) deps.
Proof.
  induction deps as [|d deps IH]; simpl; intros H x Hx; [by apply not_elem_of_nil in Hx|].
  pose proof (GetJob_reads d st) as Hr. destruct (GetJob d st) as [dj|]; [|done].
  destruct (Job_State dj) eqn:E; try done.
  apply elem_of_cons in Hx as [->|Hx]; [by exists dj|by apply IH].
Qed.

Lemma evolves_bind {A B} (m : M (Server St) A) (f : A → M (Server St) B) s :
  evolves s (exec m s) → evolves (exec m s) (exec (f (eval m s)) (exec m s)) →
  evolves s (exec (m ≫= f) s).
Proof. intros H1 H2. rewrite exec_bind. by etrans. Qed.

(** A quiet prefix. *)
Lemma evolves_quiet {A B} (m : M (Server St) A) (f : A → M (Server St) B) s :
  within keeps m → evolves (exec m s) (exec (f (eval m s)) (exec m s)) →
  evolves s (exec (m ≫= f) s).
Proof. intros Hm. apply evolves_bind, keeps_evolves, Hm. Qed.

(** Remove the last quiet operations of a run. *)
Ltac peel_step :=
  match goal with
  | |- evolves ?s (exec ?m ?s1) => transitivity s1; [|apply (within_keeps m); solve [quiet]]
  end.
Ltac peel := mrun; repeat peel_step.

Lemma fire_time_spec s j now :
  same_identity j (eval (fire_time j now) s).1 ∧
  (eval (fire_time j now) s).1.(Job_Attempt) = j.(Job_Attempt).
Proof. unfold fire_time. repeat case_match; mrun; by split_and!. Qed.

(** [makeReady] evolves when storing the job as QUEUED does. *)
Lemma makeReady_evolves s j now :
  (∀ s' j', abs s' = abs s → same_identity j j' → j'.(Job_Attempt) = j.(Job_Attempt) →
     j'.(Job_State) = JOB_STATE_QUEUED → evolves s' (exec (putJob j') s')) →
  evolves s (exec (makeReady j now) s).
Proof.
  intros Hput. unfold makeReady. destruct (fire_time_spec s j now) as [Hs Hat].
  apply evolves_quiet; [apply keeps_fire_time|].
  apply evolves_bind; [apply Hput; auto; apply exec_keeps, keeps_fire_time|].
  destruct (eval (putJob _) _); mrun; [done|]. apply keeps_evolves, keeps_armEnqueue.
Qed.

Lemma placeNewJob_evolves s j now :
  jobs_of s !! j.(Job_Id) = None → (∀ j', same_identity j j' → sc.(adm) j') → j.(Job_Attempt) = 0%Z →
  evolves s (exec (placeNewJob j now) s).
Proof.
  intros Hn Hw Ha. unfold placeNewJob, depsSatisfied. mrun.
  destruct (deps_ready (sv_store s) (Job_DependsOn j)) as [ready failed] eqn:E. simpl.
  destruct (String.eqb failed ""); simpl.
  - destruct ready; simpl.
    + apply makeReady_evolves. intros s' j' Habs Hs Hat Hst.
      apply (f_equal fst) in Habs. simpl in Habs.
      assert (Job_DependsOn j' = Job_DependsOn j) as Hd by apply Hs.
      apply putJob_submit; rewrite ?Habs.
      * by replace (Job_Id j') with (Job_Id j) by (symmetry; apply Hs).
      * by apply Hw.
      * congruence.
      * apply a_ready; [done|]. rewrite Hd. apply deps_ready_done. by rewrite E.
    + apply evolves_bind; [|apply keeps_evolves, keeps_addDeps].
      apply putJob_submit; auto; [by apply Hw; split_and!|by apply a_pending].
  - apply evolves_bind; [|apply keeps_evolves, keeps_count].
    apply putJob_submit; auto; [by apply Hw; split_and!|by apply a_canceled].
Qed.

Lemma cascade_step_evolves cur reason now : within evolves (cascade_step cur reason now).
Proof.
  intros s. unfold cascade_step. peel.
  destruct (eval (getJob cur) s) as [j|e] eqn:E; [|peel; done].
  destruct (getJob_stored _ _ _ E) as [Hj Hid].
  destruct (terminal (Job_State j)) eqn:Ht; peel; [done|].
  eapply putJob_update; [done|by split_and!|by apply t_cancel|by right; right].
Qed.

Lemma cascade_evolves fuel work visited reason now :
  within evolves (cascade fuel work visited reason now).
Proof.
  revert work visited reason. induction fuel as [|fuel IH]; intros [|cur work] visited reason s;
    simpl; try done.
  destruct (decide (cur ∈ visited)); [apply IH|]. mrun.
  etrans; [apply cascade_step_evolves|apply IH].
Qed.

Lemma cancelCascade_evolves id reason : within evolves (cancelCascade id reason).
Proof. intros s. unfold cancelCascade. mrun. etrans; [|apply cascade_evolves]. peel. done. Qed.

Lemma tryPromote_evolves id : within evolves (tryPromote id).
Proof.
  intros s. unfold tryPromote, depsSatisfied. mrun.
  destruct (eval (getJob id) s) as [j|e] eqn:E; [|peel; done].
  destruct (getJob_stored _ _ _ E) as [Hj Hid].
  destruct (bool_decide_reflect (Job_State j ≠ JOB_STATE_PENDING)) as [Hp|Hp%dec_stable]; [peel; done|].
  mrun. change (exec (getJob id) s) with s.
  destruct (deps_ready (sv_store s) (Job_DependsOn j)) as [ready failed] eqn:Ed. simpl.
  destruct (String.eqb failed ""); simpl; mrun; [|apply cancelCascade_evolves].
  destruct ready; [|done]. peel.
  transitivity (exec Now s); [apply keeps_evolves, keeps_Now|].
  apply makeReady_evolves. intros s' j' Habs Hs Hat Hst.
  rewrite (exec_keeps _ _ keeps_Now) in Habs. injection Habs as Hjs Hds.
  apply (putJob_update _ j); [by eapply stored_abs; [|exact Hj]; unfold abs; congruence|done| |by right; left].
  apply t_ready; auto. rewrite Hjs. apply deps_ready_done. by rewrite Ed.
Qed.

Lemma promoteDependents_evolves id : within evolves (promoteDependents id).
Proof.
  unfold promoteDependents. apply within_bind; [apply _|apply within_keeps, keeps_dependentsOf|].
  intros ds. apply within_forM; [apply _|intros; apply tryPromote_evolves].
Qed.

(** [j'] is [j] up to state, error text and times; after a failed cron
    rescheduling its attempt count may have been reset. *)
Definition like j j' : Prop :=
  same_identity j j' ∧ (j'.(Job_Attempt) = j.(Job_Attempt) ∨ is_cron j ∧ j'.(Job_Attempt) = 0%Z).

Lemma maybeRescheduleCron_spec s j0 j now :
  stored s j0 → j0.(Job_State) = JOB_STATE_RUNNING → sc.(touch) j0.(Job_Id) →
  same_identity j0 j → j.(Job_Attempt) = j0.(Job_Attempt) →
  let r := eval (maybeRescheduleCron j now) s in
  let s' := exec (maybeRescheduleCron j now) s in
  evolves s s' ∧ (r.1 = false → abs s' = abs s ∧ like j0 r.2).
Proof.
  intros Hj Hr Htouch Hid Hat. unfold maybeRescheduleCron.
  assert (like j0 j) as Hlike by (split; auto).
  destruct (String.eqb_spec (Schedule_GetCronExpr (Job_Schedule j)) "") as [_|Hc]; simpl; [done|].
  destruct (nextCron _ now) as [next|e]; simpl; [|done].
  assert (is_cron j0) as Hcron.
  { unfold is_cron. by replace (Job_Schedule j0) with (Job_Schedule j) by apply Hid. }
  mrun. match goal with |- context [putJob ?x] => set (j' := x) end.
  assert (same_identity j0 j') as Hid' by (eapply same_identity_trans; [exact Hid|by split_and!]).
  destruct (putJob_cases s j') as [[He Ha]|[[e He] Ha]]; rewrite He; mrun.
  - split; [|done]. peel. apply (putJob_update _ j0); [done|done|by apply t_cron|by left].
  - split; [by apply keeps_evolves|]. intros _. split; [done|]. split; [done|by right].
Qed.

Lemma putDeadLetter_evolves s j :
  is_Some (jobs_of s !! j.(Job_Id)) →
  let s' := exec (on_store (PutDeadLetter j)) s in
  evolves s s' ∧ jobs_of s' = jobs_of s ∧
  (eval (on_store (PutDeadLetter j)) s = None → is_Some (dead_of s' !! j.(Job_Id))).
Proof.
  intros Hj s'. change (eval (on_store (PutDeadLetter j)) s) with (eval (PutDeadLetter j) (sv_store s)).
  unfold evolves, abs, dead_of, jobs_of in *.
  change (sv_store s') with (exec (PutDeadLetter j) (sv_store s)).
  rewrite (PutDeadLetter_writes j (sv_store s)). destruct (eval _ _); simpl; [done|].
  split_and!; [|done|by rewrite lookup_insert_eq]. apply rtc_once. by apply w_dead_letter.
Qed.

Lemma handleFailure_evolves s j msg now :
  stored s j → j.(Job_State) = JOB_STATE_RUNNING → sc.(touch) j.(Job_Id) →
  evolves s (exec (handleFailure j msg now) s).
Proof.
  intros Hj Hr Htouch. unfold handleFailure. cbv zeta.
  match goal with |- context [maybeRescheduleCron ?x] => set (j1 := x) end.
  assert (same_identity j j1) as Hid1 by (by split_and!).
  change (Job_Attempt j1) with (Job_Attempt j). change (Job_RetryPolicy j1) with (Job_RetryPolicy j).
  destruct (Z.ltb_spec (Job_Attempt j) (MaxAttempts (Job_RetryPolicy j))) as [Hlt|Hge].
  - mrun. transitivity (exec next_tick s); [apply keeps_evolves, keeps_tick|].
    match goal with |- context [putJob ?x] => set (j2 := x) end.
    etrans; [apply (putJob_update _ j j2); [done|by split_and!|by apply t_retry|by left]|].
    destruct (eval (putJob j2) _); peel; done.
  - destruct (maybeRescheduleCron_spec s j j1 now Hj Hr Htouch Hid1 eq_refl) as [Hev Hno].
    mrun. etrans; [exact Hev|]. destruct (eval (maybeRescheduleCron j1 now) s) as [[|] j2]; mrun; [done|].
    destruct (Hno eq_refl) as [Ha [Hid2 Hat2]]. simpl in Hid2, Hat2.
    revert Ha. generalize (exec (maybeRescheduleCron j1 now) s). intros s1 Ha.
    cbv [fst snd]. match goal with |- context [PutDeadLetter ?x] => set (j3 := x) end.
    assert (same_identity j j3) as Hid3 by (eapply same_identity_trans; [exact Hid2|by split_and!]).
    assert (Job_State j3 = JOB_STATE_FAILED ∧ Job_Attempt j3 = Job_Attempt j2) as [Hst3 Hat3] by done.
    clearbody j3. rewrite <- Hat3 in Hat2. assert (Job_Id j3 = Job_Id j) as Hi by apply Hid3.
    pose proof (stored_abs _ _ _ Ha Hj) as Hj1.
    destruct (putDeadLetter_evolves s1 j3) as (Hev2 & Hjs & Hdead); [rewrite Hi; by eexists|].
    mrun. etrans; [exact Hev2|]. destruct (eval (on_store (PutDeadLetter j3)) s1); mrun; [done|].
    etrans; [apply (putJob_update _ j j3)|].
    + unfold stored. by rewrite Hjs.
    + done.
    + apply t_dead; auto. rewrite <- Hi. by apply Hdead.
    + by left.
    + destruct (eval (putJob j3) _); mrun; [done|]. etrans; [|apply cancelCascade_evolves]. peel. done.
Qed.

(** ** The handlers *)

Lemma poll_loop_evolves fuel n w now out :
  (∀ id, sc.(touch) id) → within evolves (poll_loop fuel n w now out).
Proof.
  intros Htouch. revert out. induction fuel as [|fuel IH]; intros out s; simpl; destruct (n <=? _)%Z; try done.
  mrun. transitivity (exec (on_queue Queue_Pop) s); [apply keeps_evolves, keeps_queue|].
  generalize (exec (on_queue Queue_Pop) s). intros s1.
  destruct (eval (on_queue Queue_Pop) s) as [id|]; mrun; [|done].
  change (exec (getJob id) s1) with s1.
  destruct (eval (getJob id) s1) as [j|e] eqn:E; [|apply IH].
  destruct (getJob_stored _ _ _ E) as [Hj _].
  destruct (bool_decide_reflect (Job_State j ≠ JOB_STATE_QUEUED)) as [Hq|Hq%dec_stable]; [apply IH|].
  mrun. transitivity (exec (new_id "task") s1); [apply keeps_evolves, keeps_new_id|].
  pose proof (exec_keeps _ s1 (keeps_new_id "task")) as Ha.
  revert Ha. generalize (exec (new_id "task") s1). intros s2 Ha.
  etrans; [apply (putJob_update _ j (dispatched w now j))|].
  - by eapply stored_abs.
  - by split_and!.
  - by apply t_dispatch.
  - by left.
  - destruct (eval (putJob (dispatched w now j)) s2); mrun; [peel; done|].
    etrans; [|apply IH]. peel. done.
Qed.

Lemma PollTask_evolves w n : (∀ id, sc.(touch) id) → within evolves (PollTask w n).
Proof.
  intros Htouch. unfold PollTask. apply within_bind; [apply _|apply within_keeps, keeps_requireLeader|].
  intros [e|]; [by intros s|]. intros s. unfold workerKnown. mrun.
  destruct (bool_decide _); simpl; mrun; [|done].
  etrans; [|by apply poll_loop_evolves]. peel. done.
Qed.

Lemma same_leases_requireLeader s : sv_leases (exec requireLeader s) = sv_leases s.
Proof. unfold requireLeader, is_leader. mrun. by destruct (IsLeader (sv_node s)). Qed.

Lemma ReportTask_evolves t r msg s :
  (∀ ls, s.(sv_leases) !! t = Some ls → sc.(touch) ls.(lease_jobID)) →
  evolves s (exec (ReportTask t r msg) s).
Proof.
  rewrite <- same_leases_requireLeader. unfold ReportTask. mrun.
  intros Htouch. etrans; [apply keeps_evolves, keeps_requireLeader|]. revert Htouch.
  generalize (exec requireLeader s). intros s0 Htouch.
  destruct (eval requireLeader s) as [e|]; [done|]. clear s. rename s0 into s. unfold getLease. mrun.
  destruct (sv_leases s !! t) as [ls|] eqn:El; mrun; [|done]. specialize (Htouch ls eq_refl).
  change (exec (getJob (lease_jobID ls)) s) with s.
  destruct (eval (getJob (lease_jobID ls)) s) as [j|e] eqn:E; [|peel; done].
  destruct (getJob_stored _ _ _ E) as [Hj Hid]. rewrite <- Hid in Htouch.
  destruct (bool_decide_reflect (Job_State j ≠ JOB_STATE_RUNNING)) as [Hr|Hr%dec_stable]; [peel; done|].
  mrun. transitivity (exec Now s); [apply keeps_evolves, keeps_Now|].
  pose proof (stored_abs _ _ _ (exec_keeps _ s keeps_Now) Hj) as Hj1.
  revert Hj1. generalize (exec Now s), (eval Now s). intros s1 now Hj1.
  destruct r; mrun; try done.
  - transitivity (exec (removeLease t) s1); [apply keeps_evolves, keeps_removeLease|].
    pose proof (stored_abs _ _ _ (exec_keeps _ s1 (keeps_removeLease t)) Hj1) as Hj2.
    revert Hj2. generalize (exec (removeLease t) s1). intros s2 Hj2.
    destruct (maybeRescheduleCron_spec s2 j j now Hj2 Hr Htouch) as [Hev Hno]; [by split_and!|done|].
    etrans; [exact Hev|].
    destruct (eval (maybeRescheduleCron j now) s2) as [[|] j2]; mrun; [done|].
    destruct (Hno eq_refl) as [Ha [Hid2 Hat2]]. simpl in Hid2, Hat2. cbn [fst snd]. mrun.
    etrans; [apply (putJob_update _ j (succeeded now j2))|].
    + by eapply stored_abs.
    + eapply same_identity_trans; [exact Hid2|by split_and!].
    + by apply t_succeed.
    + by left.
    + destruct (eval (putJob (succeeded now j2)) _); mrun; [done|].
      etrans; [|apply promoteDependents_evolves]. peel. done.
  - etrans; [by apply (handleFailure_evolves s1 j msg now)|].
    destruct (eval (handleFailure j msg now) s1) as [[e|] j']; peel; done.
Qed.

Lemma requeueLease_evolves t reason s :
  (∀ ls, s.(sv_leases) !! t = Some ls → sc.(touch) ls.(lease_jobID)) →
  evolves s (exec (requeueLease t reason) s).
Proof.
  intros Htouch. unfold requeueLease, getLease. mrun.
  destruct (sv_leases s !! t) as [l|]; mrun; [|done]. specialize (Htouch l eq_refl).
  transitivity (exec (removeLease t) s); [apply keeps_evolves, keeps_removeLease|].
  generalize (exec (removeLease t) s). intros s1. change (exec (getJob (lease_jobID l)) s1) with s1.
  destruct (eval (getJob (lease_jobID l)) s1) as [j|e] eqn:E; [|peel; done].
  destruct (getJob_stored _ _ _ E) as [Hj Hid]. rewrite <- Hid in Htouch.
  destruct (bool_decide_reflect (Job_State j ≠ JOB_STATE_RUNNING)) as [Hr|Hr%dec_stable]; [peel; done|].
  mrun. etrans; [|apply handleFailure_evolves; [|done|done]]; [peel; done|].
  eapply stored_abs; [|exact Hj].
  by rewrite (exec_keeps _ _ keeps_Now), (exec_keeps _ _ (keeps_count _)).
Qed.

Lemma reapOnce_evolves : (∀ id, sc.(touch) id) → within evolves reapOnce.
Proof.
  intros Htouch. assert (∀ t reason, within evolves (requeueLease t reason)) as Hq
    by (intros t reason s; by apply requeueLease_evolves). unfold reapOnce, requeueLeasesForWorker.
  walk; first [apply Hq | apply within_keeps; solve [quiet]].
Qed.

Lemma reaper_tick_evolves : (∀ id, sc.(touch) id) → within evolves reaper_tick.
Proof.
  intros Htouch. unfold reaper_tick, is_leader. walk; by apply reapOnce_evolves.
Qed.

Lemma CancelJob_evolves id : within evolves (CancelJob id).
Proof.
  unfold CancelJob. apply within_bind; [apply _|apply within_keeps, keeps_requireLeader|].
  intros [e|]; [by intros s|]. intros s. unfold loadJob. mrun.
  destruct (String.eqb id ""); mrun; [done|].
  destruct (eval (getJob id) s) as [j|[|e]] eqn:E; mrun; [|done|done].
  destruct (getJob_stored _ _ _ E) as [Hj _]. change (exec (getJob id) s) with s.
  destruct (terminal (Job_State j)) eqn:Ht.
  { by destruct (Job_State j). }
  assert (∀ (m1 m2 m3 : M (Server St) (Job + Status)), match Job_State j with
    | JOB_STATE_CANCELED => m1 | JOB_STATE_SUCCEEDED | JOB_STATE_FAILED => m2 | _ => m3 end = m3) as Hm
    by (intros; by destruct (Job_State j)).
  rewrite Hm. mrun. transitivity (exec Now s); [apply keeps_evolves, keeps_Now|].
  pose proof (stored_abs _ _ _ (exec_keeps _ s keeps_Now) Hj) as Hj1.
  match goal with |- context [putJob ?x] => set (j' := x) end.
  etrans; [apply (putJob_update _ j j'); [done|by split_and!|by apply t_cancel|by right; right]|].
  destruct (eval (putJob j') _); mrun; [done|].
  etrans; [|apply cancelCascade_evolves]. peel. done.
Qed.

Lemma keeps_valid_cron j : within keeps (valid_cron j).
Proof. unfold valid_cron. quiet. Qed.
Lemma keeps_with_id j : within keeps (with_id j).
Proof. unfold with_id. quiet. Qed.
Lemma keeps_rejects_cycle j : within keeps (rejects_cycle j).
Proof. unfold rejects_cycle, wouldCreateCycle. quiet. Qed.

Lemma with_id_policy j s :
  (eval (with_id j) s).(Job_RetryPolicy) = j.(Job_RetryPolicy) ∧
  (eval (with_id j) s).(Job_DependsOn) = j.(Job_DependsOn).
Proof. unfold with_id. by destruct (String.eqb (Job_Id j) ""). Qed.

(** A new job keeps to the lifecycle when the id it is accepted under is not in
    use. *)
Lemma SubmitJob_evolves req s :
  (∀ j id j', req = Some j → eval (SubmitJob req) s = inl id → j'.(Job_Id) = id →
     j'.(Job_DependsOn) = j.(Job_DependsOn) → j'.(Job_RetryPolicy) = j.(Job_RetryPolicy) → sc.(adm) j') →
  (∀ id, eval (SubmitJob req) s = inl id → jobs_of s !! id = None) →
  evolves s (exec (SubmitJob req) s).
Proof.
  intros Hadm Hfresh. unfold SubmitJob in *. mrun. mrun in Hfresh. mrun in Hadm.
  transitivity (exec requireLeader s); [apply keeps_evolves, keeps_requireLeader|].
  pose proof (exec_keeps _ s keeps_requireLeader) as Ha. revert Hadm Hfresh Ha.
  generalize (exec requireLeader s). intros s1 Hadm Hfresh Ha1.
  destruct (eval requireLeader s) as [e|]; [done|]. destruct req as [j|]; [|done].
  destruct (String.eqb _ ""); [done|]. mrun. mrun in Hfresh. mrun in Hadm.
  transitivity (exec (valid_cron j) s1); [apply keeps_evolves, keeps_valid_cron|].
  pose proof (exec_keeps _ s1 (keeps_valid_cron j)) as Ha2. revert Hadm Hfresh Ha2.
  generalize (exec (valid_cron j) s1). intros s2 Hadm Hfresh Ha2.
  destruct (eval (valid_cron j) s1) as [e|]; [done|]. mrun. mrun in Hfresh. mrun in Hadm.
  transitivity (exec (with_id j) s2); [apply keeps_evolves, keeps_with_id|].
  pose proof (exec_keeps _ s2 (keeps_with_id j)) as Ha3. pose proof (with_id_policy j s2) as Hpol.
  revert Hadm Hfresh Ha3 Hpol. generalize (exec (with_id j) s2), (eval (with_id j) s2).
  intros s3 j1 Hadm Hfresh Ha3 [Hpol Hdep].
  transitivity (exec (rejects_cycle j1) s3); [apply keeps_evolves, keeps_rejects_cycle|].
  pose proof (exec_keeps _ s3 (keeps_rejects_cycle j1)) as Ha4. revert Hadm Hfresh Ha4.
  generalize (exec (rejects_cycle j1) s3). intros s4 Hadm Hfresh Ha4.
  destruct (eval (rejects_cycle j1) s3); [done|]. mrun in Hfresh. mrun in Hadm. peel.
  transitivity (exec Now s4); [apply keeps_evolves, keeps_Now|].
  assert (abs (exec Now s4) = abs s) as Ha by (rewrite (exec_keeps _ _ keeps_Now); congruence).
  apply placeNewJob_evolves; [| |done].
  - injection Ha as -> _. by apply Hfresh.
  - intros j' (Hi & _ & _ & _ & Hd & _ & Hp & _). simpl in Hi, Hd, Hp.
    apply (Hadm j (Job_Id j1)); congruence.
Qed.

(** Ticks of the replication loop, votes and cluster status leave jobs alone. *)
Lemma keeps_RequestVote t c : within keeps (RequestVote t c).
Proof. apply keeps_on_node, node_keeps_HandleVote. Qed.

Lemma keeps_replication_tick rpc : within keeps (replication_tick rpc).
Proof.
  unfold replication_tick, is_leader, broadcastReplicate, replicate_to, ackPeer.
  quiet; try (apply keeps_on_node, node_keeps_MaybeStepDown).
  intros s. unfold keeps. mrun. by destruct (_ <? _)%Z.
Qed.

Lemma keeps_seedReplication : within keeps seedReplication.
Proof. unfold seedReplication, append_entry. quiet. Qed.

End refinement.
