(* ===== verification/Rebuild.v ===== *)
(** * Taking over leadership

    [rebuildSchedulingState] works on a listing taken at its start while its
    own reclaiming of orphaned jobs changes the store.  The cascade spares jobs
    whose dependencies have succeeded, so the listing stays true for the jobs
    that are reclaimed, and the takeover keeps to the lifecycle. *)

From S2P Require Import Prelude Types Queue Retry Env Cluster Store Server Cycle Deps Lifecycle Dispatch.
From S2P Require Import Jobs Workers Replication Leadership Refinement.
From stdpp Require Import relations.

Lemma drop_dependent_sub id (ix : index) x set :
  drop_dependent id ix !! x = Some set → ∃ set0, ix !! x = Some set0 ∧ set ⊆ set0.
Proof.
  unfold drop_dependent. rewrite lookup_omap. destruct (ix !! x) as [set0|]; simpl; [|done].
  case_decide; [done|]. intros [= <-]. exists set0. set_solver.
Qed.

Section rebuild.
Context {St : Type} {Gstore : JobStore St} {Genv : Env} {Gcron : Cron}.
Context (sc : scope) (Htouch : ∀ id, sc.(touch) id).
Implicit Types (s : Server St) (j : Job).

(** ** The dependency index *)

Definition same_index s s' : Prop := s'.(sv_revIndex) = s.(sv_revIndex).

#[export] Instance same_index_preorder : PreOrder same_index.
Proof. split; [by intros s|]. intros a b c. unfold same_index. congruence. Qed.

Lemma same_index_modify (f : Server St → Server St) :
  (∀ s, (f s).(sv_revIndex) = s.(sv_revIndex)) → within same_index (modify f).
Proof. intros H s. apply H. Qed.
Lemma same_index_queue {A} (op : PriorityQueue → A * PriorityQueue) : within same_index (on_queue op).
Proof. intros s. unfold exec, on_queue. by destruct (op (sv_queue s)). Qed.
Lemma same_index_store {A} (op : M St A) : within same_index (on_store op).
Proof. by intros s. Qed.
Lemma same_index_tick : within same_index next_tick.
Proof. by intros s. Qed.
#[local] Hint Resolve same_index_queue same_index_store same_index_tick : pres.

Ltac still := walk; try (apply same_index_modify; intros s'; done).

Lemma same_index_putJob j : within same_index (putJob j).
Proof. unfold putJob, appendRepl, is_leader. still. Qed.
Lemma same_index_arm id d : within same_index (armEnqueue id d).
Proof. unfold armEnqueue, enqueueJob, is_leader, getJob. still. Qed.
Lemma same_index_count f : within same_index (count f).
Proof. by apply same_index_modify. Qed.
#[local] Hint Resolve same_index_putJob same_index_arm same_index_count : pres.
Lemma same_index_cron j now : within same_index (maybeRescheduleCron j now).
Proof. unfold maybeRescheduleCron, Until, Now. still. Qed.
Lemma same_index_Now : within same_index Now.
Proof. unfold Now. still. Qed.
#[local] Hint Resolve same_index_cron same_index_Now : pres.

(** Whoever is indexed as waiting for [x] is a stored job that depends on it. *)
Definition index_sound s : Prop :=
  ∀ x set d, s.(sv_revIndex) !! x = Some set → d ∈ set →
    ∃ jd, jobs_of s !! d = Some jd ∧ x ∈ jd.(Job_DependsOn).

Lemma index_sound_evolves s s' :
  evolves sc s s' → (∀ x set, s'.(sv_revIndex) !! x = Some set →
    ∃ set0, s.(sv_revIndex) !! x = Some set0 ∧ set ⊆ set0) →
  index_sound s → index_sound s'.
Proof.
  intros Hev Hix Hs x set d Hx Hd. destruct (Hix x set Hx) as (set0 & Hx0 & Hsub).
  destruct (Hs x set0 d Hx0) as (jd & Hjd & Hin); [set_solver|].
  destruct (history_keeps _ _ _ _ _ Hev Hjd) as (jd' & Hjd' & Hsame & _).
  exists jd'. split; [done|]. by replace (Job_DependsOn jd') with (Job_DependsOn jd) by (symmetry; apply Hsame).
Qed.

Lemma index_sound_same s s' : evolves sc s s' → same_index s s' → index_sound s → index_sound s'.
Proof. intros Hev Hi. apply index_sound_evolves; [done|]. rewrite Hi. eauto. Qed.

(** ** The cascade spares active jobs *)

(** The job, if stored, is not one whose dependencies had to succeed. *)
Definition idle s (id : string) : Prop :=
  ∀ j, jobs_of s !! id = Some j → active j.(Job_State) = false.

(** From [s] to [s'] legally, leaving the active jobs outside [X] as they are. *)
Definition spares (X : gset string) s s' : Prop :=
  evolves sc s s' ∧ index_sound s' ∧
  ∀ id j, id ∉ X → jobs_of s !! id = Some j → active j.(Job_State) = true → jobs_of s' !! id = Some j.

Lemma spares_trans X s1 s2 s3 : spares X s1 s2 → spares X s2 s3 → spares X s1 s3.
Proof. intros (H1 & H2 & H3) (H4 & H5 & H6). split_and!; [by etrans|done|eauto]. Qed.

Lemma spares_weaken X Y s s' : X ⊆ Y → spares X s s' → spares Y s s'.
Proof. intros Hsub (H1 & H2 & H3). split_and!; auto. Qed.

Lemma cascade_step_writes cur reason now s :
  (∀ id, jobs_of (exec (cascade_step cur reason now) s) !! id = jobs_of s !! id ∨
     id = cur ∧ ∃ j, jobs_of (exec (cascade_step cur reason now) s) !! id = Some j ∧
                     j.(Job_State) = JOB_STATE_CANCELED) ∧
  sv_revIndex (exec (cascade_step cur reason now) s) = drop_dependent cur s.(sv_revIndex) ∧
  eval (cascade_step cur reason now) s ≡ₚ elements (default ∅ (s.(sv_revIndex) !! cur)).
Proof.
  unfold cascade_step. mrun. change (exec (getJob cur) s) with s.
  match goal with |- context [exec (match ?x with inl _ => _ | inr _ => _ end) s] =>
    set (m := match x with inl _ => _ | inr _ => _ end) end.
  assert (within same_index m ∧ ∀ id, jobs_of (exec m s) !! id = jobs_of s !! id ∨
     id = cur ∧ ∃ j, jobs_of (exec m s) !! id = Some j ∧ j.(Job_State) = JOB_STATE_CANCELED) as [Hm Hj].
  { subst m. destruct (eval (getJob cur) s) as [j|e] eqn:E; [|by split; [still|left]].
    destruct (getJob_stored _ _ _ E) as [_ Hid].
    destruct (terminal (Job_State j)); [by split; [still|left]|]. split; [still|]. intros id. mrun.
    match goal with |- context [putJob ?x] => set (j' := x) end.
    assert (abs (exec (count inc_JobsCanceled) (exec (on_queue (Queue_Remove cur)) (exec (putJob j') s))) =
      abs (exec (putJob j') s)) as Ha
      by (by rewrite (exec_keeps _ _ (keeps_count _)), (exec_keeps _ _ (keeps_queue _))).
    injection Ha as -> _.
    destruct (putJob_cases s j') as [[_ Ha]|[_ Ha]]; injection Ha as -> _; [|by left].
    destruct (decide (id = cur)) as [->|Hne]; [right|left; by rewrite lookup_insert_ne by (simpl; congruence)].
    split; [done|]. exists j'. split; [|done]. change (Job_Id j') with (Job_Id j).
    by rewrite Hid, lookup_insert_eq. }
  specialize (Hm s). unfold same_index in Hm. revert Hm Hj. generalize (exec m s). intros s1 Hm Hj.
  rewrite <- Hm. split_and!; [exact Hj|done|]. unfold dependentsOf, range_keys. mrun. apply env_order_perm.
Qed.

Lemma cascade_step_spares cur reason now s :
  dag_ok (jobs_of s) → index_sound s → idle s cur →
  let s' := exec (cascade_step cur reason now) s in
  spares ∅ s s' ∧ (∀ w, idle s w → idle s' w) ∧
  (∀ d, d ∈ eval (cascade_step cur reason now) s → idle s' d).
Proof.
  intros Hdag Hix Hidle s'.
  destruct (cascade_step_writes cur reason now s) as (Hj & Hr & Hd). fold s' in Hj, Hr.
  assert (evolves sc s s') as Hev by apply cascade_step_evolves.
  assert (∀ w, idle s w → idle s' w) as Hw.
  { intros w Hw j' Hj'. destruct (Hj w) as [Heq|(_ & j & Hc & Hs)]; [rewrite Heq in Hj'; by apply Hw|].
    rewrite Hc in Hj'. injection Hj' as <-. by rewrite Hs. }
  unfold spares. split_and!; [done| | |done|].
  - eapply index_sound_evolves; [done| |done]. rewrite Hr. apply drop_dependent_sub.
  - intros id j _ Hid Ha. destruct (Hj id) as [->|(-> & _)]; [done|]. by rewrite (Hidle j Hid) in Ha.
  - intros d Hin. apply Hw. rewrite Hd, elem_of_elements in Hin. intros jd Hjd.
    destruct (sv_revIndex s !! cur) as [set|] eqn:E; simpl in Hin; [|set_solver].
    destruct (Hix cur set d E Hin) as (jd' & Hjd' & Hdep). simplify_eq.
    destruct (active (Job_State jd)) eqn:Ha; [|done].
    destruct (Hdag d jd Hjd Ha cur Hdep) as (cj & Hcj & Hs). specialize (Hidle cj Hcj). by rewrite Hs in Hidle.
Qed.

Lemma cascade_spares fuel work visited reason now s :
  dag_ok (jobs_of s) → index_sound s → (∀ w, w ∈ work → idle s w) →
  spares ∅ s (exec (cascade fuel work visited reason now) s).
Proof.
  revert work visited reason s. induction fuel as [|fuel IH]; intros [|cur work] visited reason s
    Hdag Hix Hwork; simpl; try done.
  assert (idle s cur) as Hcur by (apply Hwork; by left).
  destruct (decide (cur ∈ visited)); [apply IH; auto; intros w Hw; apply Hwork; by right|]. mrun.
  destruct (cascade_step_spares cur reason now s Hdag Hix Hcur) as (Hsp & Hidle & Hdeps).
  eapply spares_trans; [exact Hsp|]. destruct Hsp as (Hev & Hix' & _).
  apply IH; [exact (dag_history _ _ _ Hev Hdag)|done|].
  intros w [Hw|Hw]%elem_of_app; [|apply Hidle, Hwork; by right].
  apply Hdeps. by apply elem_of_rev.
Qed.

(** ** Reclaiming an orphaned job *)

(** Only the job [id] may differ. *)
Definition only (id : string) s s' : Prop := ∀ i, i ≠ id → jobs_of s' !! i = jobs_of s !! i.

#[export] Instance only_preorder id : PreOrder (only id).
Proof. split; [by intros s i|]. intros a b c H1 H2 i Hi. by rewrite H2, H1. Qed.

Lemma keeps_only {A} id (m : M (Server St) A) : within keeps m → within (only id) m.
Proof. intros Hk s i _. pose proof (exec_keeps m s Hk) as Ha. by injection Ha as -> _. Qed.

Lemma putJob_only j : within (only j.(Job_Id)) (putJob j).
Proof.
  intros s i Hi. destruct (putJob_cases s j) as [[_ Ha]|[_ Ha]]; injection Ha as -> _; [|done].
  by rewrite lookup_insert_ne.
Qed.

Lemma putDeadLetter_only id j : within (only id) (on_store (PutDeadLetter j)).
Proof.
  intros s i _. unfold jobs_of.
  change (sv_store (exec (on_store (PutDeadLetter j)) s)) with (exec (PutDeadLetter j) (sv_store s)).
  rewrite (PutDeadLetter_writes j (sv_store s)). by destruct (eval _ _).
Qed.

#[local] Hint Resolve keeps_armEnqueue keeps_Until keeps_count keeps_tick keeps_removeFromIndex
  keeps_queue keeps_addDeps putJob_only putDeadLetter_only : pres.

Lemma cron_only j now : within (only j.(Job_Id)) (maybeRescheduleCron j now).
Proof.
  unfold maybeRescheduleCron. cbv zeta. walk; try (apply keeps_only; solve [auto with pres]).
  match goal with |- within _ (putJob ?j') => change (Job_Id j) with (Job_Id j'); apply putJob_only end.
Qed.

Lemma cron_id j now s : (eval (maybeRescheduleCron j now) s).2.(Job_Id) = j.(Job_Id).
Proof.
  unfold maybeRescheduleCron. destruct (String.eqb _ ""); [done|].
  destruct (nextCron _ _); [|done]. mrun. by destruct (eval (putJob _) s).
Qed.

(** A failed attempt touches its own job only, unless it is the last: then the
    job is stored as FAILED and its dependents are canceled. *)
Lemma handleFailure_shape s j msg now :
  let s' := exec (handleFailure j msg now) s in
  (only j.(Job_Id) s s' ∧ same_index s s') ∨
  ∃ s1 reason, s' = exec (cancelCascade j.(Job_Id) reason) s1 ∧ only j.(Job_Id) s s1 ∧
    s1.(sv_revIndex) = drop_dependent j.(Job_Id) s.(sv_revIndex) ∧
    ∃ jf, jobs_of s1 !! j.(Job_Id) = Some jf ∧ jf.(Job_State) = JOB_STATE_FAILED.
Proof.
  unfold handleFailure. cbv zeta.
  match goal with |- context [maybeRescheduleCron ?x] => set (j1 := x) end.
  change (Job_Id j) with (Job_Id j1). clearbody j1.
  destruct (_ <? _)%Z.
  - left. mrun. match goal with |- context [putJob ?x] => set (j2 := x) end.
    assert (within (only (Job_Id j1)) (putJob j2)) as Hput
      by (change (Job_Id j1) with (Job_Id j2); apply putJob_only).
    split; match goal with |- ?R s (exec ?m ?x) => transitivity (exec next_tick s);
      [by first [apply same_index_tick|apply keeps_only, keeps_tick]|] end.
    + etrans; [by apply Hput|]. destruct (eval (putJob j2) _); mrun; [done|].
      etrans; [|apply keeps_only, keeps_count]. apply keeps_only, keeps_armEnqueue.
    + etrans; [apply same_index_putJob|]. destruct (eval (putJob j2) _); mrun; [done|].
      etrans; [apply same_index_arm|]. apply same_index_count.
  - mrun. pose proof (cron_only j1 now s) as Ho. pose proof (same_index_cron j1 now s) as Hi.
    pose proof (cron_id j1 now s) as Hid. revert Ho Hi Hid.
    generalize (exec (maybeRescheduleCron j1 now) s). intros s1 Ho Hi Hid.
    destruct (eval (maybeRescheduleCron j1 now) s) as [[|] j2]; cbn [fst snd] in *; mrun; [by left|].
    match goal with |- context [PutDeadLetter ?x] => set (j3 := x) end.
    assert (Job_Id j3 = Job_Id j1 ∧ Job_State j3 = JOB_STATE_FAILED) as [Hid3 Hst3] by done.
    clearbody j3. rewrite <- Hid3 in Ho |- *.
    assert (only (Job_Id j3) s (exec (on_store (PutDeadLetter j3)) s1)) as Ho2
      by (etrans; [exact Ho|apply putDeadLetter_only]).
    assert (same_index s (exec (on_store (PutDeadLetter j3)) s1)) as Hi2
      by (etrans; [exact Hi|apply same_index_store]).
    destruct (eval (on_store (PutDeadLetter j3)) s1); mrun; [by left|].
    revert Ho2 Hi2. generalize (exec (on_store (PutDeadLetter j3)) s1). intros s2 Ho2 Hi2.
    destruct (putJob_cases s2 j3) as [[He Ha]|[[e He] Ha]]; rewrite He; mrun.
    + right. eexists _, _. split; [reflexivity|].
      assert (abs (exec (removeFromIndex (Job_Id j3)) (exec (count inc_JobsDeadLettered) (exec (putJob j3) s2)))
        = abs (exec (putJob j3) s2)) as Ha2
        by (by rewrite (exec_keeps _ _ (keeps_removeFromIndex _)), (exec_keeps _ _ (keeps_count _))).
      rewrite Ha in Ha2. injection Ha2 as Hj _. split_and!.
      * intros i Hne. rewrite Hj, lookup_insert_ne by done. by apply Ho2.
      * pose proof (same_index_putJob j3 s2) as Hp. unfold same_index in *.
        unfold removeFromIndex. rewrite exec_modify. cbn [sv_revIndex set_sv_revIndex].
        f_equal. change (sv_revIndex (exec (count inc_JobsDeadLettered) (exec (putJob j3) s2)))
          with (sv_revIndex (exec (putJob j3) s2)). congruence.
      * exists j3. by rewrite Hj, lookup_insert_eq.
    + left. split; etrans; eauto; [apply putJob_only|apply same_index_putJob].
Qed.

Lemma handleFailure_spares s j msg now :
  dag_ok (jobs_of s) → index_sound s → stored s j → j.(Job_State) = JOB_STATE_RUNNING →
  spares {[j.(Job_Id)]} s (exec (handleFailure j msg now) s).
Proof.
  intros Hdag Hix Hj Hr. pose proof (handleFailure_evolves sc s j msg now Hj Hr (Htouch _)) as Hev.
  destruct (handleFailure_shape s j msg now) as [[Ho Hi]|(s1 & reason & Heq & Ho & Hi & jf & Hjf & Hf)].
  - split_and!; [done|by eapply index_sound_same|]. intros id j0 Hne Hid _. rewrite Ho; [done|set_solver].
  - assert (dag_ok (jobs_of s1)) as Hdag1.
    { intros id j0 Hid Ha d Hd. destruct (decide (id = Job_Id j)) as [->|Hne]; [by simplify_eq; rewrite Hf in Ha|].
      rewrite Ho in Hid by done. destruct (Hdag id j0 Hid Ha d Hd) as (dj & Hdj & Hs). exists dj.
      rewrite Ho; [done|]. intros ->. unfold stored in Hj. simplify_eq. congruence. }
    assert (index_sound s1) as Hix1.
    { intros x set d Hx Hd. rewrite Hi in Hx. unfold drop_dependent in Hx. rewrite lookup_omap in Hx.
      destruct (sv_revIndex s !! x) as [set0|] eqn:E; simpl in Hx; [|done]. case_decide; [done|].
      injection Hx as <-. destruct (Hix x set0 d E) as (jd & Hjd & Hdep); [set_solver|].
      exists jd. rewrite Ho; [done|set_solver]. }
    rewrite Heq in Hev |- *. unfold cancelCascade in *. mrun. mrun in Hev.
    match goal with |- context [cascade ?f ?w ?v ?r ?n] =>
      destruct (cascade_spares f w v r n (exec Now s1)) as (_ & H2 & H3) end.
    + exact Hdag1.
    + eapply index_sound_same; [apply keeps_evolves, keeps_Now|apply same_index_Now|done].
    + intros w ->%list_elem_of_singleton j0. change (jobs_of (exec Now s1)) with (jobs_of s1). rewrite Hjf. intros [= <-]. by rewrite Hf.
    + split_and!; [done|done|]. intros id j0 Hne Hid Hact. apply H3; [set_solver| |done].
      change (jobs_of (exec Now s1)) with (jobs_of s1). rewrite Ho; [done|set_solver].
Qed.

(** ** The rebuild *)

Lemma quiet_spares {A} X (m : M (Server St) A) s :
  within keeps m → within same_index m → index_sound s → spares X s (exec m s).
Proof.
  intros Hk Hi Hix. assert (evolves sc s (exec m s)) as Hev by apply keeps_evolves, Hk.
  split_and!; [done|by eapply index_sound_same; [|apply Hi|]|].
  intros id j _ Hid _. pose proof (exec_keeps m s Hk) as Ha. by injection Ha as -> _.
Qed.

Lemma add_edges_sound id deps (ix : index) x set d :
  add_edges id deps ix !! x = Some set → d ∈ set →
  (d = id ∧ x ∈ deps) ∨ ∃ set0, ix !! x = Some set0 ∧ d ∈ set0.
Proof.
  unfold add_edges. revert ix. induction deps as [|y deps IH]; intros ix; simpl; [by eauto|].
  intros Hx Hd. destruct (IH _ Hx Hd) as [[-> Hin]|(set0 & Hs & Hd0)].
  - left. split; [done|by right].
  - apply lookup_insert_Some in Hs as [[-> <-]|[_ Hs]]; [|by eauto].
    apply elem_of_union in Hd0 as [->%elem_of_singleton|Hd0]; [left; split; [done|by left]|].
    destruct (ix !! x) as [set1|]; simpl in Hd0; [by eauto|set_solver].
Qed.

(** The listed job [j] is in the store, unchanged if it is RUNNING. *)
Definition current s j : Prop :=
  (∃ j', jobs_of s !! j.(Job_Id) = Some j' ∧ same_identity j j') ∧
  (j.(Job_State) = JOB_STATE_RUNNING → stored s j).

Lemma current_spares X s s' j : j.(Job_Id) ∉ X → spares X s s' → current s j → current s' j.
Proof.
  intros Hx (Hev & _ & Hsp) [(j' & Hj' & Hs) Hr]. split.
  - destruct (history_keeps _ _ _ _ _ Hev Hj') as (j2 & Hj2 & Hs2 & _). exists j2.
    split; [done|by eapply same_identity_trans].
  - intros Hrun. apply Hsp; [done|by apply Hr|by rewrite Hrun].
Qed.

Lemma addDeps_spares s j :
  index_sound s → current s j → spares ∅ s (exec (addDeps j) s).
Proof.
  intros Hix [(j' & Hj' & Hs) _]. split_and!; [apply keeps_evolves, keeps_addDeps| |].
  - unfold addDeps. destruct (Job_DependsOn j) as [|y deps] eqn:Ed; [done|].
    intros x set d Hx Hd. rewrite exec_modify in Hx. cbn [sv_revIndex set_sv_revIndex] in Hx.
    destruct (add_edges_sound _ _ _ _ _ _ Hx Hd) as [[-> Hin]|(set0 & H0 & Hd0)]; [|by apply (Hix x set0)].
    exists j'. split; [done|]. replace (Job_DependsOn j') with (Job_DependsOn j) by (symmetry; apply Hs).
    by rewrite Ed.
  - intros id j0 _ Hid _. pose proof (exec_keeps _ s (keeps_addDeps j)) as Ha. by injection Ha as -> _.
Qed.

Lemma rebuild_one_spares now j s :
  dag_ok (jobs_of s) → index_sound s → current s j →
  spares {[j.(Job_Id)]} s (exec (rebuild_one now j) s).
Proof.
  intros Hdag Hix Hc. unfold rebuild_one. mrun.
  assert (spares ∅ s (exec (whenM (negb (terminal (Job_State j))) (addDeps j)) s) ∧
    abs (exec (whenM (negb (terminal (Job_State j))) (addDeps j)) s) = abs s) as [Hsp Ha].
  { destruct (negb _); mrun; [|done]. split; [by apply addDeps_spares|apply exec_keeps, keeps_addDeps]. }
  eapply spares_trans; [eapply spares_weaken; [|exact Hsp]; set_solver|].
  destruct Hsp as (_ & Hix1 & _). revert Ha Hix1.
  generalize (exec (whenM (negb (terminal (Job_State j))) (addDeps j)) s). intros s1 Ha Hix1.
  destruct (Job_State j) eqn:Hst; try done.
  - destruct (Job_ScheduledAt j) as [t|]; [destruct (now <? t)%Z|]; mrun; apply quiet_spares;
      auto using keeps_armEnqueue, keeps_queue, same_index_arm, same_index_queue.
  - mrun. apply handleFailure_spares; [by injection Ha as -> _|done| |done].
    eapply stored_abs; [exact Ha|by apply Hc].
Qed.

Lemma rebuild_all_evolves now jobs s :
  dag_ok (jobs_of s) → index_sound s → NoDup (Job_Id <$> jobs) → (∀ j, j ∈ jobs → current s j) →
  evolves sc s (exec (rebuild_all now jobs) s).
Proof.
  revert s. induction jobs as [|j jobs IH]; intros s Hdag Hix Hnd Hc; simpl; [done|]. mrun.
  apply NoDup_cons in Hnd as [Hj Hnd].
  assert (spares {[Job_Id j]} s (exec (rebuild_one now j) s)) as Hsp
    by (apply rebuild_one_spares; auto; apply Hc; by left).
  pose proof Hsp as (Hev & Hix' & _). etrans; [exact Hev|].
  apply IH; [exact (dag_history _ _ _ Hev Hdag)|done|done|].
  intros j' Hj'. eapply current_spares; [|exact Hsp|apply Hc; by right].
  rewrite elem_of_singleton. intros Heq. apply Hj. rewrite <- Heq. by apply list_elem_of_fmap_2.
Qed.

Lemma listed_current s jobs :
  ListJobs s.(sv_store) = inl jobs → NoDup (Job_Id <$> jobs) ∧ ∀ j, j ∈ jobs → current s j.
Proof.
  intros Hl. pose proof (ListJobs_lists (sv_store s)) as H. rewrite Hl in H.
  destruct H as [Hp Hs]. split.
  - clear Hp Hl. induction Hs as [|j jobs Hs IH Hj]; [constructor|]. constructor; [|done].
    intros (j' & Heq & Hj')%list_elem_of_fmap. rewrite Forall_forall in Hj.
    specialize (Hj j' Hj'). rewrite ltb_true in Hj. by destruct Hj.
  - intros j Hj. rewrite Hp in Hj. apply list_elem_of_fmap in Hj as ([id j0] & -> & Hj%elem_of_map_to_list).
    simpl. assert (stored s j0) as Hst.
    { unfold stored, jobs_of. by rewrite (jobs_keyed _ _ _ Hj). }
    split; [|done]. exists j0. split; [done|by split_and!].
Qed.

Lemma onBecomeLeader_evolves term s :
  dag_ok (jobs_of s) → evolves sc s (exec (onBecomeLeader term) s).
Proof.
  intros Hdag. unfold onBecomeLeader, rebuildSchedulingState. mrun.
  etrans; [|apply keeps_evolves, keeps_seedReplication].
  etrans; [apply keeps_evolves, keeps_clear|].
  pose proof (exec_keeps _ s keeps_clear) as Ha.
  assert (sv_revIndex (exec clearSchedulingState s) = ∅) as Hix by done.
  revert Ha Hix. generalize (exec clearSchedulingState s). intros s1 Ha Hix.
  injection Ha as Hj _. rewrite <- Hj in Hdag.
  destruct (ListJobs (sv_store s1)) as [jobs|] eqn:El; mrun; [|done].
  destruct (listed_current s1 jobs El) as [Hnd Hc].
  etrans; [apply keeps_evolves, keeps_Now|]. etrans; [apply rebuild_all_evolves|].
  - exact Hdag.
  - intros x set d. change (sv_revIndex (exec Now s1)) with (sv_revIndex s1). by rewrite Hix.
  - exact Hnd.
  - exact Hc.
  - apply within_forM; [apply _|]. intros j _. unfold whenM. destruct (bool_decide _); [apply tryPromote_evolves|by intros ?].
Qed.

End rebuild.
