(* ===== verification/System.v ===== *)
(** * One scheduler node as a whole

    The node as a machine whose steps are the RPCs it serves, its timers, its
    background ticks, its elections, and its restarts, in any order and with any
    arguments; and the properties of every state it can reach. *)

From S2P Require Import Prelude Types Queue Retry Env Cluster Store MemStore Server Cycle Deps Lifecycle.
From S2P Require Import Dispatch Jobs Workers Replication Leadership Handlers Refinement Rebuild.
From stdpp Require Import relations.

(** ** The machine *)

Inductive op :=
| Submit (req : option Job)
| Cancel (id : string)
| Poll (worker : string) (n : Z)
| Report (task : string) (result : TaskResult) (msg : string)
| Register (w : option WorkerInfo)
| Beat (worker : string) (running : list string)
| Timer (id : string)
| Reap
| Ship (rpc : string → Z → list ReplicationEntry → option (bool * Z * Z))
| Vote (term : Z) (candidate : string)
| Observe (term : Z) (leader : string)
| Elect (results : list voteResult)
| Callback (i : nat)
| Restart
| Stop.

Section system.
Context {St : Type} {Gstore : JobStore St} {Genv : Env} {Gcron : Cron}.
Implicit Types (s : Server St) (j : Job).

Definition restart : M (Server St) unit :=
  modify (λ s, new_server s.(sv_cfg) s.(sv_store) s.(sv_tick));;
  _ ← start_server;
  mret tt.

Definition run_op (o : op) : M (Server St) unit :=
  match o with
  | Submit req => _ ← SubmitJob req; mret tt
  | Cancel id => _ ← CancelJob id; mret tt
  | Poll w n => _ ← PollTask w n; mret tt
  | Report t r msg => _ ← ReportTask t r msg; mret tt
  | Register w => _ ← RegisterWorker w; mret tt
  | Beat w ts => _ ← Heartbeat w ts; mret tt
  | Timer id => timer_fired id
  | Reap => reaper_tick
  | Ship rpc => replication_tick rpc
  | Vote t c => _ ← RequestVote t c; mret tt
  | Observe t l => _ ← Replicate t l []; mret tt
  | Elect rs => on_node (startElection rs)
  | Callback i => run_callback i
  | Restart => restart
  | Stop => Shutdown
  end.

(** A submission uses an id that is not taken and a policy that fits the wire
    format.  Any timer may fire at any time: a callback that [time.Timer.Stop]
    came too late for may still run. *)
Definition allowed s (o : op) : Prop :=
  match o with
  | Submit req =>
      (∀ j, req = Some j → wire_job j) ∧
      (∀ id, eval (SubmitJob req) s = inl id → jobs_of s !! id = None)
  | _ => True
  end.

Inductive node_step : Server St → Server St → Prop :=
| node_op s o : allowed s o → node_step s (exec (run_op o) s).

(** A node on an empty store, before it has started. *)
Definition fresh_node s : Prop :=
  ∃ cfg st k, s = new_server cfg st k ∧ (st_view st).(v_jobs) = ∅.

Definition reachable s : Prop := ∃ s0, fresh_node s0 ∧ rtc node_step s0 s.

(** The operations that only a leader performs. *)
Definition leader_op (o : op) : bool :=
  match o with
  | Submit _ | Cancel _ | Poll _ _ | Report _ _ _ | Register _ | Beat _ _ | Reap => true
  | _ => false
  end.

Lemma leader_op_within (R : Server St → Server St → Prop) `{!PreOrder R} o :
  leader_steps R → leader_op o = true → within R (run_op o).
Proof.
  intros H Ho. pose proof (ls_jobs R H) as Hj.
  destruct o; try done; simpl;
    auto using w_SubmitJob, w_CancelJob, w_PollTask, w_ReportTask, w_RegisterWorker, w_Heartbeat, w_reaper_tick.
  all: apply within_bind; [apply _| |intros; apply within_ret, _].
  all: auto using w_SubmitJob, w_CancelJob, w_PollTask, w_ReportTask, w_RegisterWorker, w_Heartbeat.
Qed.

(** Runs of the machine, checked as they go. *)

Definition op_ok s (o : op) : bool :=
  match o with
  | Submit req =>
      match req with
      | Some j => (MaxAttempts j.(Job_RetryPolicy) <=? max_int32)%Z
      | None => true
      end &&
      match eval (SubmitJob req) s with
      | inl id => bool_decide (jobs_of s !! id = None)
      | inr _ => true
      end
  | _ => true
  end.

Fixpoint run_all (ops : list op) s : Server St :=
  match ops with
  | [] => s
  | o :: ops => run_all ops (exec (run_op o) s)
  end.

Fixpoint all_ok (ops : list op) s : bool :=
  match ops with
  | [] => true
  | o :: ops => op_ok s o && all_ok ops (exec (run_op o) s)
  end.

Lemma op_ok_allowed s o : op_ok s o = true → allowed s o.
Proof.
  destruct o as [req|?|? ?|? ? ?|?|? ?|?| |?|? ?|? ?|?|?| |]; simpl; try done.
  intros [H1 H2]%andb_true_iff. split.
  - intros j ->. by apply Z.leb_le.
  - intros id He. rewrite He in H2. by apply bool_decide_eq_true in H2.
Qed.

Lemma run_all_steps ops s : all_ok ops s = true → rtc node_step s (run_all ops s).
Proof.
  revert s. induction ops as [|o ops IH]; intros s; simpl; [done|]. intros [H1 H2]%andb_true_iff.
  eapply rtc_l; [|by apply IH]. constructor. by apply op_ok_allowed.
Qed.

Lemma run_all_reachable ops cfg st k :
  (st_view st).(v_jobs) = ∅ → all_ok ops (new_server cfg st k) = true →
  reachable (run_all ops (new_server cfg st k)).
Proof.
  intros He Hok. exists (new_server cfg st k). split; [by exists cfg, st, k|by apply run_all_steps].
Qed.

(** ** Every step keeps to the lifecycle *)

#[local] Hint Resolve keeps_putWorker keeps_Now keeps_new_id keeps_requireLeader keeps_on_node
  node_keeps_HandleVote node_keeps_ObserveLeader node_keeps_Start node_keeps_begin node_keeps_vote : pres.

Lemma keeps_Register w : within keeps (RegisterWorker w).
Proof. unfold RegisterWorker. walk. Qed.

Lemma keeps_Heartbeat w ts : within keeps (Heartbeat w ts).
Proof. unfold Heartbeat. walk. Qed.

Lemma node_keeps_elect rs : within node_keeps (startElection rs).
Proof.
  unfold startElection. walk. generalize (take (length a.2) rs). intros l. generalize 1%Z.
  induction l as [|r l IH]; intros v; simpl; walk.
Qed.

Lemma keeps_recover : within keeps recover.
Proof. unfold recover. walk; try (apply keeps_modify; intros s'; done). Qed.

Lemma keeps_Observe t l : within keeps (_ ← Replicate t l []; mret tt).
Proof. unfold Replicate, applyEntries. simpl. walk. Qed.

Lemma start_evolves sc s :
  (∀ id, sc.(touch) id) → dag_ok (jobs_of s) → evolves sc s (exec start_server s).
Proof.
  intros Htouch Hdag. unfold start_server. mrun.
  assert (abs (exec recover s) = abs s) as Ha1 by (apply exec_keeps, keeps_recover).
  etrans; [apply keeps_evolves, keeps_recover|]. revert Ha1. generalize (exec recover s). intros s1 Ha1.
  destruct (eval recover s); mrun; [done|].
  assert (abs (exec (on_node Start) s1) = abs s) as Ha2
    by (rewrite (exec_keeps _ _ (keeps_on_node _ node_keeps_Start)); done).
  transitivity (exec (on_node Start) s1); [apply keeps_evolves, keeps_on_node, node_keeps_Start|]. revert Ha2.
  generalize (exec (on_node Start) s1). intros s2 Ha2.
  destruct (eval (on_node Start) s1) as [[t|t]|]; mrun; [|apply keeps_evolves, keeps_clear|done].
  apply onBecomeLeader_evolves; [done|]. by injection Ha2 as -> _.
Qed.

Lemma callback_evolves sc i s :
  (∀ id, sc.(touch) id) → dag_ok (jobs_of s) → evolves sc s (exec (run_callback i) s).
Proof.
  intros Htouch Hdag. unfold run_callback. mrun.
  destruct (Node_spawned (sv_node s) !! i) as [[t|t]|]; mrun; [| |done].
  - etrans; [|apply onBecomeLeader_evolves; [done|exact Hdag]]. by apply keeps_evolves.
  - etrans; [|apply keeps_evolves, keeps_clear]. by apply keeps_evolves.
Qed.

(** The jobs an operation may admit: the request's, under the id it answers. *)
Definition admits s (o : op) j : Prop :=
  match o with
  | Submit (Some req) =>
      eval (SubmitJob (Some req)) s = inl j.(Job_Id) ∧
      j.(Job_DependsOn) = req.(Job_DependsOn) ∧ j.(Job_RetryPolicy) = req.(Job_RetryPolicy)
  | _ => False
  end.

Definition op_scope s (o : op) : scope := mkScope (admits s o) (λ _, True).

Lemma op_evolves s o :
  dag_ok (jobs_of s) → allowed s o → evolves (op_scope s o) s (exec (run_op o) s).
Proof.
  intros Hdag Hok. destruct o; simpl; mrun.
  - apply SubmitJob_evolves; [|by apply Hok]. intros j id j' -> He <- Hd Hp. by split_and!.
  - apply CancelJob_evolves.
  - by apply PollTask_evolves.
  - by apply ReportTask_evolves.
  - apply keeps_evolves, keeps_Register.
  - apply keeps_evolves, keeps_Heartbeat.
  - apply keeps_evolves, keeps_timer_fired.
  - by apply reaper_tick_evolves.
  - apply keeps_evolves, keeps_replication_tick.
  - apply keeps_evolves, keeps_RequestVote.
  - apply keeps_evolves, (keeps_Observe term leader s).
  - apply keeps_evolves, keeps_on_node, node_keeps_elect.
  - by apply callback_evolves.
  - unfold restart. mrun. etrans; [|by apply start_evolves]. by apply keeps_evolves.
  - by apply keeps_evolves.
Qed.

Lemma op_sound s o : sound (abs s) → allowed s o → sound (abs (exec (run_op o) s)).
Proof.
  intros Hs Hok. eapply sound_history; [|apply op_evolves; [apply Hs|done]|done].
  intros j Hj. destruct o as [[req|]|?|? ?|? ? ?|?|? ?|?| |?|? ?|? ?|?|?| |]; try done.
  destruct Hj as (_ & _ & Hp), Hok as [Hw _]. unfold wire_job in *. rewrite Hp. by apply Hw.
Qed.

Lemma reachable_sound s : reachable s → sound (abs s).
Proof.
  intros (s0 & (cfg & st & k & -> & He) & Hr).
  assert (sound (abs (new_server cfg st k))) as H0.
  { unfold abs, jobs_of. simpl. rewrite He. split; simpl; [by intros id j; rewrite lookup_empty|..]; apply map_Forall_empty. }
  remember (new_server cfg st k) as s1. clear Heqs1 He. induction Hr as [s|s s' s'' Hstep _ IH]; [done|].
  apply IH. destruct Hstep as [s o Hok]. by apply op_sound.
Qed.

Lemma reachable_dag s : reachable s → dag_ok (jobs_of s).
Proof. intros Hr. apply (reachable_sound s Hr). Qed.

(** ** The dependency graph stays acyclic *)

Lemma depends_graph_listed m jobs :
  jobs ≡ₚ (map_to_list m).*2 → map_Forall (λ id j, j.(Job_Id) = id) m →
  depends_graph jobs = job_graph m.
Proof.
  apply (foldl_insert_listed Job_Id Job_DependsOn).
Qed.

Definition same_store s s' : Prop := s'.(sv_store) = s.(sv_store).

#[export] Instance same_store_preorder : PreOrder same_store.
Proof. split; [by intros s|]. intros a b c. unfold same_store. congruence. Qed.

Lemma same_store_tick : within same_store next_tick.
Proof. by intros s. Qed.
#[local] Hint Resolve same_store_tick : pres.

Lemma same_store_requireLeader : within same_store requireLeader.
Proof. unfold requireLeader, is_leader, leaderAddr. walk. Qed.
Lemma same_store_valid_cron j : within same_store (valid_cron j).
Proof. unfold valid_cron, Now. walk. Qed.
Lemma same_store_with_id j : within same_store (with_id j).
Proof. unfold with_id, new_id. walk. Qed.

(** A job accepted under [id] passed the cycle check on the stored jobs. *)
Lemma SubmitJob_checked s j id jobs :
  eval (SubmitJob (Some j)) s = inl id → ListJobs s.(sv_store) = inl jobs →
  j.(Job_DependsOn) = [] ∨ creates_cycle jobs id j.(Job_DependsOn) = false.
Proof.
  intros He Hl. unfold SubmitJob in He. mrun in He.
  pose proof (same_store_requireLeader s) as H1. revert H1 He. generalize (exec requireLeader s). intros s1 H1.
  destruct (eval requireLeader s); [done|]. destruct (String.eqb _ ""); [done|]. mrun.
  pose proof (same_store_valid_cron j s1) as H2. revert H2. generalize (exec (valid_cron j) s1). intros s2 H2.
  destruct (eval (valid_cron j) s1); [done|]. mrun.
  pose proof (same_store_with_id j s2) as H3. pose proof (with_id_policy j s2) as [_ Hd]. revert H3 Hd.
  generalize (exec (with_id j) s2), (eval (with_id j) s2). intros s3 j1 H3 Hd.
  unfold rejects_cycle. rewrite Hd. destruct (Job_DependsOn j) as [|d deps]; [by left|].
  unfold wouldCreateCycle. mrun. unfold same_store in *. rewrite H3, H2, H1, Hl.
  destruct (creates_cycle jobs (Job_Id j1) (d :: deps)) eqn:Ec; [done|]. mrun. intros [= <-]. by right.
Qed.

Definition graph_ok s : Prop := acyclic (job_graph (jobs_of s)).

Lemma admits_cases s o :
  (∀ j, admits s o j → False) ∨
  ∃ req id, o = Submit (Some req) ∧ eval (SubmitJob (Some req)) s = inl id.
Proof.
  destruct o as [[req|]| | | | | | | | | | | | | |]; try (left; intros j; exact (λ H, H)).
  destruct (eval (SubmitJob (Some req)) s) as [id|e] eqn:E; [by right; eauto|].
  left. intros j [He _]. congruence.
Qed.

Lemma op_acyclic s o :
  (∃ jobs, ListJobs s.(sv_store) = inl jobs) → dag_ok (jobs_of s) → allowed s o →
  graph_ok s → graph_ok (exec (run_op o) s).
Proof.
  intros [jobs Hl] Hdag Hok Hg. pose proof (op_evolves s o Hdag Hok) as Hev. unfold graph_ok in *.
  destruct (admits_cases s o) as [Hno|(req & id & -> & He)].
  - assert (job_graph (jobs_of (exec (run_op o) s)) = job_graph (jobs_of s)) as ->; [|done].
    by apply (graph_history_none (op_scope s o) (abs s) (abs (exec (run_op o) s))).
  - set (s' := exec (run_op (Submit (Some req))) s) in *.
    assert (job_graph (jobs_of s') = job_graph (jobs_of s) ∨
      job_graph (jobs_of s') = <[id:=Job_DependsOn req]> (job_graph (jobs_of s))) as [->|Heq].
    + eapply (graph_history _ id (Job_DependsOn req) (abs s) (abs s') _ Hev).
      Unshelve. intros j (Hj & Hd & _). split; congruence.
    + done.
    + rewrite Heq.
      destruct (SubmitJob_checked s req id jobs He Hl) as [->|Hc]; [by apply acyclic_leaf|].
      pose proof (ListJobs_lists (sv_store s)) as Hlist. rewrite Hl in Hlist. destruct Hlist as [Hp _].
      assert (depends_graph jobs = job_graph (jobs_of s)) as Hgr
        by (apply depends_graph_listed; [done|exact (jobs_keyed (sv_store s))]).
      rewrite <- Hgr in Hg |- *. by apply creates_cycle_iff.
Qed.

(** ** Properties *)

(** C1. Operations of a node refine the job lifecycle: from a state whose active
    jobs have succeeded dependencies, as every reachable state is, each handler,
    timer, reaper or replication tick, vote, heartbeat of a leader, election,
    takeover and restart, run on its own and whichever of its store accesses
    fail, changes the stored jobs and dead letters only by legal transitions.
    Submissions have an id that is not taken and a policy that fits the wire
    format; shipments that carry entries are not among the operations. *)
Theorem operations_refine_lifecycle s o :
  dag_ok (jobs_of s) → allowed s o →
  history (op_scope s o) (abs s) (abs (exec (run_op o) s)).
Proof. apply op_evolves. Qed.

(** C7. Dependencies are honoured: on a node whose operations do not overlap,
    whose submissions have ids that are not taken, and that is not shipped to, a
    job that is queued, running or succeeded has every dependency stored and
    SUCCEEDED, in every reachable state. *)
Theorem dependencies_honoured s id j :
  reachable s → jobs_of s !! id = Some j →
  j.(Job_State) = JOB_STATE_QUEUED ∨ j.(Job_State) = JOB_STATE_RUNNING ∨
    j.(Job_State) = JOB_STATE_SUCCEEDED →
  ∀ d, d ∈ j.(Job_DependsOn) → ∃ dj, jobs_of s !! d = Some dj ∧ dj.(Job_State) = JOB_STATE_SUCCEEDED.
Proof.
  intros Hr Hj Hst. apply (sound_dag _ (reachable_sound s Hr) id j Hj).
  destruct Hst as [-> | [-> | ->]]; done.
Qed.

(** Attempts are bounded: in every reachable state a job has used at most
    the attempts of its policy, and a queued one has an attempt left, so the
    32-bit counter never overflows. *)
Theorem attempts_bounded s id j :
  reachable s → jobs_of s !! id = Some j →
  (0 <= j.(Job_Attempt) <= MaxAttempts j.(Job_RetryPolicy))%Z ∧
  (MaxAttempts j.(Job_RetryPolicy) <= max_int32)%Z ∧
  (j.(Job_State) = JOB_STATE_QUEUED → j.(Job_Attempt) < MaxAttempts j.(Job_RetryPolicy))%Z ∧
  (j.(Job_State) = JOB_STATE_RUNNING → 1 <= j.(Job_Attempt))%Z.
Proof.
  intros Hr Hj. destruct (reachable_sound s Hr) as [_ Ha Hp _].
  destruct (Ha id j Hj) as ([? ?] & ? & _ & ?). specialize (Hp id j Hj). by split_and!.
Qed.

(** C8. Finished jobs are final and no job changes identity: on a node whose
    operations do not overlap, whose submissions have ids that are not taken,
    and that is not shipped to, a stored job stays stored, whatever runs after a
    reachable state, with its id, name, priority, spec, dependencies, schedule,
    policy and creation time, and once SUCCEEDED, FAILED or CANCELED it is never
    written again. *)
Theorem finished_jobs_are_final s s' id j :
  reachable s → rtc node_step s s' → jobs_of s !! id = Some j →
  ∃ j', jobs_of s' !! id = Some j' ∧ same_identity j j' ∧ (terminal j.(Job_State) = true → j' = j).
Proof.
  intros Hr Hsteps. pose proof (reachable_sound s Hr) as Hs. clear Hr. revert j Hs.
  induction Hsteps as [s|s s1 s' Hstep _ IH]; intros j Hs Hj.
  { exists j. split_and!; [done|by split_and!|done]. }
  destruct Hstep as [s o Hok].
  destruct (history_keeps _ _ _ _ _ (op_evolves s o (sound_dag _ Hs) Hok) Hj) as (j1 & Hj1 & Hs1 & Ht1).
  destruct (IH j1) as (j2 & Hj2 & Hs2 & Ht2); [by apply op_sound|done|].
  exists j2. split_and!; [done|by eapply same_identity_trans|].
  intros Ht. rewrite Ht1 in Ht2 by done. auto.
Qed.

(** C13. The dependencies of the stored jobs never form a cycle, on a store that
    can always list its jobs and a node whose operations do not overlap, whose
    submissions have ids that are not taken, and that is not shipped to. *)
Theorem no_dependency_cycles s :
  (∀ st : St, ∃ jobs, ListJobs st = inl jobs) → reachable s →
  acyclic (job_graph (jobs_of s)).
Proof.
  intros Hlist (s0 & (cfg & st & k & -> & He) & Hr).
  assert (sound (abs (new_server cfg st k)) ∧ graph_ok (new_server cfg st k)) as [H0 H1].
  { split.
    - unfold abs, jobs_of. simpl. rewrite He. split; simpl; [by intros id j; rewrite lookup_empty|..]; apply map_Forall_empty.
    - unfold graph_ok, jobs_of. simpl. rewrite He. unfold job_graph. rewrite fmap_empty. apply acyclic_empty. }
  revert H0 H1. generalize dependent (new_server cfg st k). intros s1 Hr.
  induction Hr as [s|s s' s'' Hstep _ IH]; intros H0 H1; [done|].
  destruct Hstep as [s o Hok]. apply IH; [by apply op_sound|].
  apply op_acyclic; auto. apply H0.
Qed.

End system.

(** ** A concrete node, for the witnesses

    A single-member cluster on an in-memory store: it starts, takes over as
    leader, accepts jobs "a", "b" (after "a") and "c" (after "b"), runs "a" to
    success and leases "b" to worker "w". *)

Definition sample_cron : Cron := {|
  cron_ParseStandard e :=
    if String.eqb e "@every 1s" then inl (λ now, (now + 1000000000)%Z) else inr "bad expression"
|}.

Definition sample_cfg : Config := mkConfig "" "" "" [] 0 0 0 0 0 0 "".

(** Member [id] of a cluster of three. *)
Definition member_cfg (id : string) : Config :=
  mkConfig id "" "" [mkMember "n1" "h1:7070"; mkMember "n2" "h2:7070"; mkMember "n3" "h3:7070"] 0 0 0 0 0 0 "".
Definition three_members : Config := member_cfg "n1".

Definition sample_job_with (policy : option RetryPolicy) (id : string) (deps : list string) : Job :=
  mkJob id "" 5 (Some (mkTaskSpec "run" [] ∅ None [])) deps None policy JOB_STATE_UNSPECIFIED 0 "" ""
    None None None None None.

Definition sample_job : string → list string → Job := sample_job_with None.

Definition sample_worker : WorkerInfo :=
  mkWorkerInfo "w" "" 1 ∅ WORKER_STATE_UNSPECIFIED None 0.

Definition one_shot : RetryPolicy := mkRetryPolicy 1 None None (f64_of_int 0) (f64_of_int 0).

Definition sample_setup : list op :=
  [Restart; Submit (Some (sample_job "a" [])); Submit (Some (sample_job "b" ["a"]));
   Submit (Some (sample_job "c" ["b"])); Register (Some sample_worker); Poll "w" 10].

Definition sample_ops : list op :=
  sample_setup ++ [Report "task-uuuuuu" TASK_RESULT_SUCCEEDED ""; Poll "w" 10].

(** Job "f" has one attempt, and fails it. *)
Definition sample_failure : list op :=
  [Restart; Submit (Some (sample_job_with (Some one_shot) "f" []));
   Register (Some sample_worker); Poll "w" 1; Report "task-uuuu" TASK_RESULT_FAILED "exit status 1"].

Section samples.
#[local] Existing Instance sample_env.
#[local] Existing Instance sample_cron.

Definition sample_boot : Server MemStore := new_server sample_cfg empty_store 0.

(** The state after the operations [ops]. *)
Definition sample_run (ops : list op) : Server MemStore := run_all ops sample_boot.

Definition job_at (id : string) (s : Server MemStore) : Job :=
  default (sample_job "" []) (jobs_of s !! id).

Lemma sample_reachable ops : all_ok ops sample_boot = true → reachable (sample_run ops).
Proof. by apply run_all_reachable. Qed.

Lemma sample_ops_reachable : reachable (sample_run sample_ops).
Proof. apply sample_reachable. vm_compute. reflexivity. Qed.

Lemma sample_failure_reachable : reachable (sample_run sample_failure).
Proof. apply sample_reachable. vm_compute. reflexivity. Qed.

Lemma operations_refine_lifecycle_witness :
  history (op_scope (sample_run sample_ops) Reap) (abs (sample_run sample_ops))
    (abs (exec (run_op Reap) (sample_run sample_ops))).
Proof. exact (operations_refine_lifecycle _ Reap (reachable_dag _ sample_ops_reachable) I). Defined.

Lemma dependencies_honoured_witness :
  ∃ dj, jobs_of (sample_run sample_ops) !! "a" = Some dj ∧ dj.(Job_State) = JOB_STATE_SUCCEEDED.
Proof.
  apply (dependencies_honoured (sample_run sample_ops) "b" (job_at "b" (sample_run sample_ops)) sample_ops_reachable);
    [vm_compute; reflexivity|right; left; vm_compute; reflexivity|].
  apply (bool_decide_unpack _). vm_compute. exact I.
Defined.

Lemma finished_jobs_are_final_witness :
  let s := sample_run sample_failure in let s' := run_all [Cancel "f"; Reap; Restart] s in
  ∃ j', jobs_of s' !! "f" = Some j' ∧ same_identity (job_at "f" s) j' ∧
    (terminal (job_at "f" s).(Job_State) = true → j' = job_at "f" s).
Proof.
  apply (finished_jobs_are_final (sample_run sample_failure) (run_all [Cancel "f"; Reap; Restart] (sample_run sample_failure))
    "f" (job_at "f" (sample_run sample_failure)) sample_failure_reachable);
    [apply run_all_steps; vm_compute; reflexivity|vm_compute; reflexivity].
Defined.

Lemma no_dependency_cycles_witness : acyclic (job_graph (jobs_of (sample_run sample_ops))).
Proof. apply (no_dependency_cycles (sample_run sample_ops)); [intros st; by eexists|exact sample_ops_reachable]. Defined.

End samples.
