(* ===== verification/Leases.v ===== *)
(** * Leases

    In every reachable state a lease belongs to a job that is running exactly
    the leased attempt on the leased worker, or to a job that has finished in
    the meantime; and no running job has two leases. *)

From S2P Require Import Prelude Types Queue Retry Env Cluster Store MemStore Server Cycle Deps Lifecycle.
From S2P Require Import Dispatch Jobs Workers Replication Leadership Handlers Refinement Rebuild System.
From stdpp Require Import relations.

Section leases.
Context {St : Type} {Gstore : JobStore St} {Genv : Env} {Guniq : UniqueIds Genv} {Gcron : Cron}.
Implicit Types (s : Server St) (j : Job) (L : gmap string lease) (m : jobs_map).

(** ** The invariant *)

Definition lease_matches j (l : lease) : Prop :=
  j.(Job_State) = JOB_STATE_RUNNING ∧ j.(Job_Attempt) = l.(lease_attempt) ∧
  j.(Job_AssignedWorkerId) = l.(lease_workerID).

Record lease_jobs L m : Prop := mkLeaseJobs {
  lease_job t l : L !! t = Some l →
    ∃ j, m !! l.(lease_jobID) = Some j ∧ (lease_matches j l ∨ terminal j.(Job_State) = true);
  lease_unique t1 t2 l1 l2 j : L !! t1 = Some l1 → L !! t2 = Some l2 →
    l1.(lease_jobID) = l2.(lease_jobID) → m !! l1.(lease_jobID) = Some j →
    j.(Job_State) = JOB_STATE_RUNNING → t1 = t2
}.

(** Task ids were drawn in the past, so that the next one is new. *)
Definition lease_ids L (tick : nat) : Prop :=
  ∀ t l, L !! t = Some l → ∃ k, k < tick ∧ t = ids_New "task" (env_uuid k).

Definition lease_inv s : Prop :=
  lease_jobs s.(sv_leases) (jobs_of s) ∧ lease_ids s.(sv_leases) s.(sv_tick).

Definition unleased L (id : string) : Prop := ∀ t l, L !! t = Some l → l.(lease_jobID) ≠ id.

(** A handler that works on jobs without a lease. *)
Definition lease_scope L : scope := mkScope (λ _, True) (unleased L).

Lemma lease_jobs_write L md md' :
  write (lease_scope L) md md' → lease_jobs L md.1 → lease_jobs L md'.1.
Proof.
  intros Hw [Hj Hu]. destruct Hw as [m d j Hn _ _ _|m d j j' Hstored Hs Ht Hsc|]; simpl in *; [| |done].
  - assert (∀ t l, L !! t = Some l → l.(lease_jobID) ≠ j.(Job_Id)) as Hne.
    { intros t l Hl Heq. destruct (Hj t l Hl) as (j0 & Hj0 & _). congruence. }
    split.
    + intros t l Hl. rewrite lookup_insert_ne; [by eapply Hj|]. symmetry. by eapply Hne.
    + intros t1 t2 l1 l2 j0 Hl1 Hl2 Heq. rewrite lookup_insert_ne; [by eapply Hu|]. symmetry. by eapply Hne.
  - assert (Job_Id j' = Job_Id j) as Hid by apply Hs. rewrite Hid.
    assert (∀ t l, L !! t = Some l → l.(lease_jobID) = j.(Job_Id) → terminal j'.(Job_State) = true) as Hdone.
    { intros t l Hl Heq. destruct (Hj t l Hl) as (j0 & Hj0 & Hm). rewrite Heq, Hstored in Hj0.
      injection Hj0 as <-. apply transition_from in Ht. destruct Hm as [(Hr & _)|Hm]; [|congruence].
      destruct Hsc as [Hsc|[Hsc|Hsc]]; [by destruct (Hsc t l Hl)|congruence|done]. }
    split.
    + intros t l Hl. destruct (decide (lease_jobID l = Job_Id j)) as [Heq|Hne].
      * exists j'. rewrite Heq, lookup_insert_eq. eauto.
      * rewrite lookup_insert_ne by done. by eapply Hj.
    + intros t1 t2 l1 l2 j0 Hl1 Hl2 Heq. destruct (decide (lease_jobID l1 = Job_Id j)) as [Heq1|Hne].
      * rewrite Heq1, lookup_insert_eq. intros [= <-] Hr. pose proof (Hdone _ _ Hl1 Heq1) as Hd. by rewrite Hr in Hd.
      * rewrite lookup_insert_ne by done. by eapply Hu.
Qed.

Lemma lease_jobs_history L md md' :
  history (lease_scope L) md md' → lease_jobs L md.1 → lease_jobs L md'.1.
Proof. induction 1; eauto using lease_jobs_write. Qed.

Lemma lease_jobs_sub L L' m :
  (∀ t l, L' !! t = Some l → L !! t = Some l) → lease_jobs L m → lease_jobs L' m.
Proof. intros Hsub [Hj Hu]. split; [eauto|]. intros t1 t2 l1 l2 j H1 H2. eapply Hu; eauto. Qed.

Lemma lease_jobs_empty m : lease_jobs ∅ m.
Proof. split; intros *; by rewrite lookup_empty. Qed.

(** ** Operations that leave the leases alone *)

Definition lease_frame s s' : Prop := s'.(sv_leases) = s.(sv_leases) ∧ s.(sv_tick) ≤ s'.(sv_tick).

#[export] Instance lease_frame_preorder : PreOrder lease_frame.
Proof. split; [by intros s|]. intros a b c [H1 H2] [H3 H4]. split; [congruence|lia]. Qed.

Lemma frame_modify (f : Server St → Server St) :
  (∀ s, (f s).(sv_leases) = s.(sv_leases) ∧ (f s).(sv_tick) = s.(sv_tick)) → within lease_frame (modify f).
Proof. intros H s. destruct (H s) as [H1 H2]. split; mrun; [done|by rewrite H2]. Qed.
Lemma frame_queue {A} (op : PriorityQueue → A * PriorityQueue) : within lease_frame (on_queue op).
Proof. intros s. unfold exec, on_queue. by destruct (op (sv_queue s)). Qed.
Lemma frame_store {A} (op : M St A) : within lease_frame (on_store op).
Proof. by intros s. Qed.
Lemma frame_tick : within lease_frame next_tick.
Proof. intros s. split; [done|]. unfold exec, next_tick. simpl. lia. Qed.
#[local] Hint Resolve frame_queue frame_store frame_tick : pres.

Ltac framed := walk; try (apply frame_modify; intros s'; done).

Lemma frame_putJob j : within lease_frame (putJob j).
Proof. unfold putJob, appendRepl, is_leader. framed. Qed.
Lemma frame_putWorker w : within lease_frame (putWorker w).
Proof. unfold putWorker, appendRepl, is_leader. framed. Qed.
Lemma frame_count f : within lease_frame (count f).
Proof. by apply frame_modify. Qed.

Lemma frame_steps : job_steps lease_frame.
Proof.
  split; auto using frame_tick, frame_putJob, frame_store, frame_queue, frame_count; intros f; by apply frame_modify.
Qed.
#[local] Hint Resolve frame_steps frame_putWorker frame_count : pres.

Lemma frame_Now : within lease_frame Now.
Proof. apply (w_Now lease_frame), frame_steps. Qed.
Lemma frame_range ks : within lease_frame (range_keys ks).
Proof. apply (w_range lease_frame), frame_steps. Qed.
Lemma frame_new_id p : within lease_frame (new_id p).
Proof. apply (w_new_id lease_frame), frame_steps. Qed.
Lemma frame_requireLeader : within lease_frame requireLeader.
Proof. apply (w_requireLeader lease_frame). Qed.
Lemma frame_cron j now : within lease_frame (maybeRescheduleCron j now).
Proof. apply (w_cron lease_frame), frame_steps. Qed.
Lemma frame_handleFailure j msg now : within lease_frame (handleFailure j msg now).
Proof. apply (w_handleFailure lease_frame), frame_steps. Qed.
#[local] Hint Resolve frame_Now frame_range frame_new_id frame_requireLeader : pres.

(** The election node's questions only advance the counter. *)
Definition tick_grows (n n' : NodeState St) : Prop := n.(ns_tick) ≤ n'.(ns_tick).

#[export] Instance tick_grows_preorder : PreOrder tick_grows.
Proof. unfold tick_grows. split; [intros n; lia|]. intros a b c. lia. Qed.

Lemma grows_modify f : within tick_grows (modify_node f).
Proof. intros n. by unfold tick_grows. Qed.
Lemma grows_get : within tick_grows get_node.
Proof. intros n. by unfold tick_grows. Qed.
Lemma grows_tick : within tick_grows tick_node.
Proof. intros n. unfold tick_grows, exec. simpl. lia. Qed.
Lemma grows_persist : within tick_grows persistLocked.
Proof. intros n. unfold tick_grows, exec, persistLocked. by destruct (SaveState _ _ _). Qed.
#[local] Hint Resolve grows_modify grows_get grows_tick grows_persist : pres.

Lemma grows_follow t : within tick_grows (becomeFollowerLocked t).
Proof. unfold becomeFollowerLocked, resetElectionTimerLocked. walk. Qed.
#[local] Hint Resolve grows_follow : pres.
Lemma grows_HandleVote t c : within tick_grows (HandleVote t c).
Proof. unfold HandleVote, resetElectionTimerLocked. walk. Qed.
Lemma grows_ObserveLeader t l : within tick_grows (ObserveLeader t l).
Proof. unfold ObserveLeader, resetElectionTimerLocked. walk. Qed.
Lemma grows_MaybeStepDown t : within tick_grows (MaybeStepDown t).
Proof. unfold MaybeStepDown. walk. Qed.
Lemma grows_Start : within tick_grows Start.
Proof. unfold Start, resetElectionTimerLocked. walk. Qed.
Lemma grows_elect rs : within tick_grows (startElection rs).
Proof.
  unfold startElection, startElection_begin, resetElectionTimerLocked. walk.
  generalize (take (length a.2) rs). intros l. generalize 1%Z.
  induction l as [|r l IH]; intros v; simpl; unfold startElection_vote, becomeLeaderLocked; walk.
Qed.

Lemma frame_on_node {A} (op : M (NodeState St) A) : within tick_grows op → within lease_frame (on_node op).
Proof.
  intros H s. specialize (H (mkNodeState (sv_node s) (sv_store s) (sv_tick s))).
  unfold tick_grows, exec, lease_frame, on_node in *. by destruct (op _) as [a n].
Qed.

#[local] Hint Resolve frame_on_node grows_HandleVote grows_ObserveLeader grows_MaybeStepDown
  grows_Start grows_elect : pres.

(** ** Every step keeps the invariant *)

(** A run that leaves the leases alone and works on unleased jobs. *)
Lemma neutral s s' :
  evolves (lease_scope s.(sv_leases)) s s' → lease_frame s s' → lease_inv s → lease_inv s'.
Proof.
  intros Hev [Hl Ht] [Hj Hids]. unfold lease_inv. rewrite Hl. split.
  - exact (lease_jobs_history _ _ _ Hev Hj).
  - intros t l Htl. destruct (Hids t l Htl) as (k & Hk & ->). exists k. split; [lia|done].
Qed.

Lemma quiet_neutral {A} (m : M (Server St) A) s :
  within keeps m → within lease_frame m → lease_inv s → lease_inv (exec m s).
Proof. intros Hk Hf. apply neutral; [apply keeps_evolves, Hk|apply Hf]. Qed.

(** Removing a lease leaves its running job unleased. *)
Lemma removeLease_inv s t l :
  lease_inv s → s.(sv_leases) !! t = Some l →
  lease_inv (exec (removeLease t) s) ∧
  ∀ j, jobs_of s !! l.(lease_jobID) = Some j → j.(Job_State) = JOB_STATE_RUNNING →
    unleased (sv_leases (exec (removeLease t) s)) l.(lease_jobID).
Proof.
  intros [Hj Hids] Hl. unfold removeLease. rewrite exec_modify. unfold lease_inv. simpl.
  change (jobs_of (set_sv_leases (delete t (sv_leases s)) s)) with (jobs_of s).
  assert (∀ t' l', delete t (sv_leases s) !! t' = Some l' → t' ≠ t ∧ sv_leases s !! t' = Some l') as Hsub
    by (intros t' l' [? ?]%lookup_delete_Some; auto).
  split_and!.
  - eapply lease_jobs_sub; [|exact Hj]. intros t' l' H'. by apply Hsub.
  - intros t' l' H'. apply (Hids t' l'). by apply Hsub.
  - intros j Hst Hr t' l' H' Heq. apply Hsub in H' as [Hne H'].
    apply Hne. symmetry. eapply (lease_unique _ _ Hj t t' l l' j); eauto.
Qed.

Lemma getJob_running s id j :
  eval (getJob id) s = inl j → jobs_of s !! id = Some j.
Proof. intros E. destruct (getJob_stored _ _ _ E) as [Hj <-]. exact Hj. Qed.

Lemma requeueLease_inv t reason s : lease_inv s → lease_inv (exec (requeueLease t reason) s).
Proof.
  intros Hinv. unfold requeueLease, getLease. mrun.
  destruct (sv_leases s !! t) as [l|] eqn:El; mrun; [|done].
  destruct (removeLease_inv s t l Hinv El) as [Hinv1 Hfree].
  change (jobs_of s) with (jobs_of (exec (removeLease t) s)) in Hfree.
  revert Hinv1 Hfree. generalize (exec (removeLease t) s). intros s1 Hinv1 Hfree.
  change (exec (getJob (lease_jobID l)) s1) with s1.
  destruct (eval (getJob (lease_jobID l)) s1) as [j|e] eqn:E; [|done].
  destruct (bool_decide_reflect (Job_State j ≠ JOB_STATE_RUNNING)) as [Hr|Hr%dec_stable]; [done|].
  mrun. specialize (Hfree j (getJob_running _ _ _ E) Hr). destruct (getJob_stored _ _ _ E) as [Hj Hid].
  assert (lease_inv (exec Now (exec (count inc_TasksRequeued) s1))) as Hinv2.
  { apply quiet_neutral; [apply keeps_Now|apply frame_Now|].
    apply quiet_neutral; [apply keeps_count|apply frame_count|done]. }
  apply neutral with (exec Now (exec (count inc_TasksRequeued) s1)); [|apply frame_handleFailure|done].
  apply handleFailure_evolves; [exact Hj|done|]. simpl. rewrite Hid. exact Hfree.
Qed.

Lemma handleFailure_error s j msg now e :
  (eval (handleFailure j msg now) s).1 = Some e →
  jobs_of (exec (handleFailure j msg now) s) = jobs_of s.
Proof.
  unfold handleFailure. cbv zeta. match goal with |- context [maybeRescheduleCron ?x] => set (j1 := x) end.
  clearbody j1. destruct (_ <? _)%Z; mrun.
  - match goal with |- context [putJob ?x] => set (j2 := x) end. clearbody j2.
    destruct (putJob_cases (exec next_tick s) j2) as [[He _]|[[e' He] Ha]]; rewrite He; mrun; [done|].
    intros _. by injection Ha.
  - assert ((eval (maybeRescheduleCron j1 now) s).1 = false →
      jobs_of (exec (maybeRescheduleCron j1 now) s) = jobs_of s) as Hcron.
    { unfold maybeRescheduleCron. destruct (String.eqb _ ""); [done|]. destruct (nextCron _ _); [|done]. mrun.
      match goal with |- context [putJob ?x] => set (j2 := x) end. clearbody j2.
      destruct (putJob_cases s j2) as [[He _]|[[e' He] Ha]]; rewrite He; mrun; [done|]. intros _. by injection Ha. }
    revert Hcron. generalize (exec (maybeRescheduleCron j1 now) s). intros s1 Hcron.
    destruct (eval (maybeRescheduleCron j1 now) s) as [[|] j2]; cbn [fst snd] in *; mrun; [done|].
    specialize (Hcron eq_refl). match goal with |- context [PutDeadLetter ?x] => set (j3 := x) end. clearbody j3.
    assert (jobs_of (exec (on_store (PutDeadLetter j3)) s1) = jobs_of s) as Hdead.
    { rewrite <- Hcron. unfold jobs_of.
      change (sv_store (exec (on_store (PutDeadLetter j3)) s1)) with (exec (PutDeadLetter j3) (sv_store s1)).
      rewrite (PutDeadLetter_writes j3 (sv_store s1)). by destruct (eval _ _). }
    revert Hdead. generalize (exec (on_store (PutDeadLetter j3)) s1). intros s2 Hdead.
    destruct (eval (on_store (PutDeadLetter j3)) s1); mrun; [done|].
    destruct (putJob_cases s2 j3) as [[He _]|[[e' He] Ha]]; rewrite He; mrun; [done|].
    intros _. injection Ha as -> _. done.
Qed.

(** After a failure was handled the reported lease goes; when handling failed,
    nothing has changed. *)
Lemma report_failed_inv s t l j msg now :
  lease_inv s → s.(sv_leases) !! t = Some l → jobs_of s !! l.(lease_jobID) = Some j →
  stored s j → j.(Job_Id) = l.(lease_jobID) → j.(Job_State) = JOB_STATE_RUNNING →
  lease_inv (match (eval (handleFailure j msg now) s).1 with
             | Some _ => exec (handleFailure j msg now) s
             | None => exec (removeLease t) (exec (handleFailure j msg now) s)
             end).
Proof.
  intros Hinv Hl Hj Hst Hid Hr. destruct (frame_handleFailure j msg now s) as [Hleases Htick].
  destruct (eval (handleFailure j msg now) s).1 as [e|] eqn:E.
  - destruct Hinv as [H1 H2]. unfold lease_inv. rewrite Hleases, (handleFailure_error _ _ _ _ _ E).
    split; [done|]. intros t' l' H'. destruct (H2 t' l' H') as (k & ? & ->). exists k. split; [lia|done].
  - destruct (removeLease_inv s t l Hinv Hl) as [[H1 H2] Hfree]. specialize (Hfree j Hj Hr).
    assert (evolves (lease_scope (delete t (sv_leases s))) s (exec (handleFailure j msg now) s)) as Hev.
    { apply handleFailure_evolves; auto. simpl. by rewrite Hid. }
    split.
    + change (lease_jobs (delete t (sv_leases (exec (handleFailure j msg now) s)))
        (jobs_of (exec (handleFailure j msg now) s))).
      rewrite Hleases. exact (lease_jobs_history _ _ _ Hev H1).
    + change (lease_ids (delete t (sv_leases (exec (handleFailure j msg now) s)))
        (sv_tick (exec (handleFailure j msg now) s))).
      rewrite Hleases. intros t' l' H'. destruct (H2 t' l' H') as (k & Hk & ->). exists k.
      split; [|done]. change (sv_tick (exec (removeLease t) s)) with (sv_tick s) in Hk. lia.
Qed.

Lemma ReportTask_inv t r msg s : lease_inv s → lease_inv (exec (ReportTask t r msg) s).
Proof.
  intros Hinv. unfold ReportTask. mrun.
  assert (lease_inv (exec requireLeader s)) as H1
    by (apply quiet_neutral; [apply keeps_requireLeader|apply frame_requireLeader|done]).
  revert H1. generalize (exec requireLeader s). intros s1 H1.
  destruct (eval requireLeader s); [done|]. unfold getLease. mrun.
  destruct (sv_leases s1 !! t) as [l|] eqn:El; mrun; [|done].
  destruct (removeLease_inv s1 t l H1 El) as [Hrem _].
  change (exec (getJob (lease_jobID l)) s1) with s1.
  destruct (eval (getJob (lease_jobID l)) s1) as [j|e] eqn:E; mrun; [|done].
  destruct (bool_decide_reflect (Job_State j ≠ JOB_STATE_RUNNING)) as [Hr|Hr%dec_stable]; mrun; [done|].
  clear Hrem. pose proof (getJob_running _ _ _ E) as Hj. destruct (getJob_stored _ _ _ E) as [Hst Hid].
  assert (lease_inv (exec Now s1)) as H2 by (apply quiet_neutral; [apply keeps_Now|apply frame_Now|done]).
  change (sv_leases s1) with (sv_leases (exec Now s1)) in El.
  change (stored s1 j) with (stored (exec Now s1) j) in Hst.
  change (jobs_of s1) with (jobs_of (exec Now s1)) in Hj.
  revert H2 El Hst Hj. generalize (exec Now s1), (eval Now s1). intros s2 now H2 El Hst Hj.
  destruct r; mrun; try done.
  - destruct (removeLease_inv s2 t l H2 El) as [H3 Hfree]. specialize (Hfree j Hj Hr).
    change (stored s2 j) with (stored (exec (removeLease t) s2) j) in Hst.
    revert H3 Hfree Hst. generalize (exec (removeLease t) s2). intros s3 H3 Hfree Hst.
    destruct (maybeRescheduleCron_spec (lease_scope (sv_leases s3)) s3 j j now Hst Hr) as [Hev Hno];
      [by rewrite Hid|by split_and!|done|].
    pose proof (neutral _ _ Hev (frame_cron j now s3) H3) as H4.
    pose proof (frame_cron j now s3) as [Hl4 _]. rewrite <- Hl4 in Hfree.
    revert H4 Hno Hfree. generalize (exec (maybeRescheduleCron j now) s3). intros s4 H4 Hno Hfree.
    destruct (eval (maybeRescheduleCron j now) s3) as [[|] j2]; cbn [fst snd] in *; mrun; [done|].
    destruct (Hno eq_refl) as [Ha [Hid2 Hat2]].
    assert (lease_inv (exec (putJob (succeeded now j2)) s4)) as H5.
    { apply neutral with s4; [|apply frame_putJob|done]. apply (putJob_update _ _ j).
      - by eapply stored_abs.
      - eapply same_identity_trans; [exact Hid2|by split_and!].
      - by apply t_succeed.
      - by right; right. }
    revert H5. generalize (exec (putJob (succeeded now j2)) s4). intros s5 H5.
    destruct (eval (putJob (succeeded now j2)) s4); mrun; [done|].
    eapply neutral; [apply promoteDependents_evolves|apply (w_promoteDependents lease_frame), frame_steps|].
    apply quiet_neutral; [apply keeps_removeFromIndex|by apply frame_modify|].
    apply quiet_neutral; [apply keeps_count|apply frame_count|done].
  - pose proof (report_failed_inv s2 t l j msg now H2 El Hj Hst Hid Hr) as Hf.
    destruct (eval (handleFailure j msg now) s2) as [[e|] j2]; mrun; exact Hf.
Qed.

(** ** Dispatch *)

Lemma queued_unleased L m j :
  lease_jobs L m → m !! j.(Job_Id) = Some j → j.(Job_State) = JOB_STATE_QUEUED → unleased L j.(Job_Id).
Proof.
  intros [Hj _] Hst Hq t l Hl Heq. destruct (Hj t l Hl) as (j0 & Hj0 & Hm). rewrite Heq, Hst in Hj0.
  injection Hj0 as <-. destruct Hm as [(Hr & _)|Hm]; [congruence|by rewrite Hq in Hm].
Qed.

Lemma lease_jobs_dispatch L m j j' t l :
  lease_jobs L m → unleased L j.(Job_Id) → L !! t = None →
  l.(lease_jobID) = j.(Job_Id) → lease_matches j' l →
  lease_jobs (<[t:=l]> L) (<[j.(Job_Id):=j']> m).
Proof.
  intros [Hj Hu] Hfree Ht Hl Hm. split.
  - intros t' l' [[<- <-]|[_ Hl']]%lookup_insert_Some.
    + exists j'. rewrite Hl, lookup_insert_eq. auto.
    + rewrite lookup_insert_ne; [by eapply Hj|]. intros Heq. by apply (Hfree t' l').
  - intros t1 t2 l1 l2 j0 [[<- <-]|[_ H1]]%lookup_insert_Some [[<- <-]|[_ H2]]%lookup_insert_Some Heq; [done|..].
    + exfalso. apply (Hfree t2 l2); [done|congruence].
    + exfalso. apply (Hfree t1 l1); [done|congruence].
    + rewrite lookup_insert_ne; [by eapply Hu|]. intros Heq'. by apply (Hfree t1 l1).
Qed.

(** A fresh task id names no lease. *)
Lemma fresh_task_id s :
  lease_inv s → let s' := exec (new_id "task") s in let t := eval (new_id "task") s in
  lease_inv s' ∧ s'.(sv_leases) !! t = None ∧ ∃ k, k < s'.(sv_tick) ∧ t = ids_New "task" (env_uuid k).
Proof.
  intros Hs s' t. split_and!.
  - apply quiet_neutral; [apply keeps_new_id|apply frame_new_id|done].
  - change (sv_leases s') with (sv_leases s). destruct (sv_leases s !! t) as [l|] eqn:El; [|done].
    exfalso. destruct Hs as [_ Hids]. destruct (Hids t l El) as (k & Hk & Ht).
    change t with (ids_New "task" (env_uuid (sv_tick s))) in Ht.
    apply ids_New_inj, env_uuid_inj in Ht. lia.
  - exists (sv_tick s). split; [|done]. change (sv_tick s') with (S (sv_tick s)). lia.
Qed.

Lemma dispatch_inv s j w now t d :
  lease_inv s → s.(sv_leases) !! t = None → (∃ k, k < s.(sv_tick) ∧ t = ids_New "task" (env_uuid k)) →
  stored s j → j.(Job_State) = JOB_STATE_QUEUED → eval (putJob (dispatched w now j)) s = None →
  let l := mkLease t j.(Job_Id) w (dispatched w now j).(Job_Attempt) d in
  lease_inv (exec (count inc_TasksDispatched) (exec (addLease l) (exec (putJob (dispatched w now j)) s))).
Proof.
  intros [Hjobs Hids] Hnew Hdrawn Hst Hq He l.
  destruct (putJob_cases s (dispatched w now j)) as [[_ Ha]|[[e He'] _]]; [|congruence].
  apply quiet_neutral; [apply keeps_count|apply frame_count|].
  destruct (frame_putJob (dispatched w now j) s) as [Hl Htick].
  injection Ha as Hja _. unfold addLease, lease_inv. rewrite exec_modify.
  change (jobs_of (set_sv_leases ?x ?y)) with (jobs_of y). cbn [sv_leases set_sv_leases sv_tick lease_taskID l].
  rewrite Hl, Hja. split.
  - apply (lease_jobs_dispatch _ _ j (dispatched w now j)); auto; [|by split_and!].
    by eapply queued_unleased.
  - intros t' l' [[<- <-]|[_ H']]%lookup_insert_Some.
    + destruct Hdrawn as (k & Hk & ->). exists k. split; [lia|done].
    + destruct (Hids t' l' H') as (k & Hk & ->). exists k. split; [lia|done].
Qed.

Lemma poll_loop_inv fuel n w now out s : lease_inv s → lease_inv (exec (poll_loop fuel n w now out) s).
Proof.
  revert out s. induction fuel as [|fuel IH]; intros out s Hinv; simpl; destruct (n <=? _)%Z; try done.
  mrun. assert (lease_inv (exec (on_queue Queue_Pop) s)) as H1
    by (apply quiet_neutral; [apply keeps_queue|apply frame_queue|done]).
  revert H1. generalize (exec (on_queue Queue_Pop) s). intros s1 H1.
  destruct (eval (on_queue Queue_Pop) s) as [id|]; mrun; [|done]. change (exec (getJob id) s1) with s1.
  destruct (eval (getJob id) s1) as [j|e] eqn:E; [|by apply IH].
  destruct (getJob_stored _ _ _ E) as [Hst Hid].
  destruct (bool_decide_reflect (Job_State j ≠ JOB_STATE_QUEUED)) as [Hq|Hq%dec_stable]; [by apply IH|].
  mrun. set (s2 := exec (new_id "task") s1). set (t := eval (new_id "task") s1).
  destruct (fresh_task_id s1 H1) as (H2 & Hnew & Hdrawn). fold s2 t in H2, Hnew, Hdrawn.
  change (stored s1 j) with (stored s2 j) in Hst. clearbody s2 t.
  set (d := (now + Config_LeaseTTL (sv_cfg s2))%Z).
  destruct (putJob_cases s2 (dispatched w now j)) as [[He Ha]|[[e He] Ha]]; rewrite He; mrun.
  - apply IH. subst id. by apply dispatch_inv.
  - apply quiet_neutral; [apply keeps_queue|apply frame_queue|].
    apply neutral with s2; [by apply keeps_evolves|apply frame_putJob|done].
Qed.

(** What the worker is told is what the scheduler recorded. *)
Definition granted_to (w : string) s (a : TaskAssignment) : Prop :=
  ∃ l j, s.(sv_leases) !! a.(TaskAssignment_TaskId) = Some l ∧
    l.(lease_jobID) = a.(TaskAssignment_JobId) ∧ l.(lease_workerID) = w ∧
    l.(lease_attempt) = a.(TaskAssignment_Attempt) ∧ Some l.(lease_deadline) = a.(TaskAssignment_LeaseDeadline) ∧
    jobs_of s !! a.(TaskAssignment_JobId) = Some j ∧ lease_matches j l ∧ j.(Job_Spec) = a.(TaskAssignment_Spec).

(** Leases and running jobs of [s] are those of [s']. *)
Definition running_kept s s' : Prop :=
  (∀ t l, s.(sv_leases) !! t = Some l → s'.(sv_leases) !! t = Some l) ∧
  (∀ id j, jobs_of s !! id = Some j → j.(Job_State) = JOB_STATE_RUNNING → jobs_of s' !! id = Some j).

#[export] Instance running_kept_preorder : PreOrder running_kept.
Proof. split; [by split|]. intros x y z [H1 H2] [H3 H4]. split; eauto. Qed.

Lemma quiet_kept {A} (m : M (Server St) A) s :
  within keeps m → within lease_frame m → running_kept s (exec m s).
Proof.
  intros Hk Hf. destruct (Hf s) as [Hl _]. pose proof (exec_keeps m s Hk) as Ha. injection Ha as Hj _.
  split; [by rewrite Hl|by rewrite Hj].
Qed.

Lemma granted_kept w s s' a : running_kept s s' → granted_to w s a → granted_to w s' a.
Proof.
  intros [H1 H2] (l & j & Hl & ? & ? & ? & ? & Hj & Hm & ?). exists l, j. split_and!; auto. apply H2; [done|apply Hm].
Qed.

(** One dispatch, from the drawn task id to the recorded lease. *)
Lemma dispatch_grants s j w now t d :
  lease_inv s → s.(sv_leases) !! t = None → stored s j → j.(Job_State) = JOB_STATE_QUEUED →
  eval (putJob (dispatched w now j)) s = None →
  let l := mkLease t j.(Job_Id) w (dispatched w now j).(Job_Attempt) d in
  let s' := exec (count inc_TasksDispatched) (exec (addLease l) (exec (putJob (dispatched w now j)) s)) in
  running_kept s s' ∧
  granted_to w s' (mkTaskAssignment t j.(Job_Id) (dispatched w now j).(Job_Attempt) j.(Job_Spec) (Some d)).
Proof.
  intros Hinv Hnew Hst Hq He l s'.
  destruct (putJob_cases s (dispatched w now j)) as [[_ Ha]|[[e He'] _]]; [|congruence].
  injection Ha as Hja _. destruct (frame_putJob (dispatched w now j) s) as [Hl _].
  assert (sv_leases s' = <[t:=l]> (sv_leases s)) as Hls by (by rewrite <- Hl).
  assert (jobs_of s' = <[Job_Id j:=dispatched w now j]> (jobs_of s)) as Hjs by exact Hja.
  split; [split|].
  - intros t' l' H'. rewrite Hls, lookup_insert_ne; congruence.
  - intros id j0 Hj0 Hr. rewrite Hjs, lookup_insert_ne; [done|]. intros <-. unfold stored in Hst. congruence.
  - exists l, (dispatched w now j). cbn [TaskAssignment_TaskId TaskAssignment_JobId]. rewrite Hls, Hjs, !lookup_insert_eq. by split_and!.
Qed.

Lemma poll_loop_grants fuel n w now out s :
  lease_inv s →
  ∃ batch, (eval (poll_loop fuel n w now out) s).2 = out ++ batch ∧
    running_kept s (exec (poll_loop fuel n w now out) s) ∧
    ∀ a, a ∈ batch → granted_to w (exec (poll_loop fuel n w now out) s) a.
Proof.
  assert (∀ (out : list TaskAssignment) s, ∃ batch, out = out ++ batch ∧ running_kept s s ∧
    ∀ a, a ∈ batch → granted_to w s a) as Hstop.
  { intros o s0. exists []. rewrite app_nil_r. split_and!; [done|done|by intros a ?%not_elem_of_nil]. }
  revert out s. induction fuel as [|fuel IH]; intros out s Hinv; simpl; destruct (n <=? _)%Z; try apply Hstop.
  mrun. assert (lease_inv (exec (on_queue Queue_Pop) s)) as H1
    by (apply quiet_neutral; [apply keeps_queue|apply frame_queue|done]).
  pose proof (quiet_kept (on_queue Queue_Pop) s (keeps_queue _) (frame_queue _)) as K1.
  revert H1 K1. generalize (exec (on_queue Queue_Pop) s). intros s1 H1 K1.
  assert (∀ s2, running_kept s1 s2 → lease_inv s2 → ∃ batch, (eval (poll_loop fuel n w now out) s2).2 = out ++ batch ∧
    running_kept s (exec (poll_loop fuel n w now out) s2) ∧
    ∀ a, a ∈ batch → granted_to w (exec (poll_loop fuel n w now out) s2) a) as Hskip.
  { intros s2 K2 H2. destruct (IH out s2 H2) as (b & ? & K3 & ?). exists b. split_and!; [done| |done].
    by do 2 (etrans; [eassumption|]). }
  destruct (eval (on_queue Queue_Pop) s) as [id|]; mrun; [|exists []; rewrite app_nil_r; split_and!; [done|done|by intros a ?%not_elem_of_nil]].
  change (exec (getJob id) s1) with s1.
  destruct (eval (getJob id) s1) as [j|e] eqn:E; [|by apply Hskip].
  destruct (getJob_stored _ _ _ E) as [Hst Hid].
  destruct (bool_decide_reflect (Job_State j ≠ JOB_STATE_QUEUED)) as [Hq|Hq%dec_stable]; [by apply Hskip|].
  mrun. set (s2 := exec (new_id "task") s1). set (t := eval (new_id "task") s1).
  destruct (fresh_task_id s1 H1) as (H2 & Hnew & Hdrawn). fold s2 t in H2, Hnew, Hdrawn.
  assert (running_kept s s2) as K2 by exact K1.
  change (stored s1 j) with (stored s2 j) in Hst. clearbody s2 t. clear Hskip H1 K1 E.
  set (d := (now + Config_LeaseTTL (sv_cfg s2))%Z).
  destruct (eval (putJob (dispatched w now j)) s2) as [e|] eqn:He; mrun.
  - exists []. rewrite app_nil_r. split_and!; [done| |by intros a ?%not_elem_of_nil].
    destruct (putJob_cases s2 (dispatched w now j)) as [[He' _]|[_ Ha]]; [congruence|]. injection Ha as Ha _.
    destruct (frame_putJob (dispatched w now j) s2) as [Hl _], K2 as [K2 K2'].
    etrans; [|apply quiet_kept; [apply keeps_queue|apply frame_queue]]. by split; [rewrite Hl|rewrite Ha].
  - subst id. destruct (dispatch_grants s2 j w now t d H2 Hnew Hst Hq He) as [K3 Hg].
    pose proof (dispatch_inv s2 j w now t d H2 Hnew Hdrawn Hst Hq He) as H3.
    destruct (IH (out ++ [mkTaskAssignment t (Job_Id j) (Job_Attempt (dispatched w now j)) (Job_Spec j) (Some d)])
      _ H3) as (b & Hb & K4 & Hgb).
    eexists (_ :: b). split_and!; [rewrite (cons_middle _ out b), app_assoc; exact Hb|by do 2 (etrans; [eassumption|])|].
    intros a [->|Ha]%elem_of_cons; [by eapply granted_kept|by apply Hgb].
Qed.

Lemma PollTask_inv w n s : lease_inv s → lease_inv (exec (PollTask w n) s).
Proof.
  intros Hinv. unfold PollTask. mrun.
  assert (lease_inv (exec requireLeader s)) as H1
    by (apply quiet_neutral; [apply keeps_requireLeader|apply frame_requireLeader|done]).
  revert H1. generalize (exec requireLeader s). intros s1 H1.
  destruct (eval requireLeader s); [done|]. unfold workerKnown. mrun.
  destruct (bool_decide _); simpl; mrun; [|done]. apply poll_loop_inv.
  apply quiet_neutral; [apply keeps_Now|apply frame_Now|done].
Qed.

Lemma PollTask_granted w n s out :
  lease_inv s → eval (PollTask w n) s = inl out →
  running_kept s (exec (PollTask w n) s) ∧ ∀ a, a ∈ out → granted_to w (exec (PollTask w n) s) a.
Proof.
  intros Hinv. unfold PollTask. mrun.
  assert (lease_inv (exec requireLeader s)) as H1
    by (apply quiet_neutral; [apply keeps_requireLeader|apply frame_requireLeader|done]).
  pose proof (quiet_kept requireLeader s keeps_requireLeader frame_requireLeader) as K1.
  revert H1 K1. generalize (exec requireLeader s). intros s1 H1 K1.
  destruct (eval requireLeader s); [done|]. unfold workerKnown. mrun.
  destruct (bool_decide _); simpl; mrun; [|done]. intros [= <-].
  match goal with |- context [poll_loop ?f ?m w ?now []] =>
    destruct (poll_loop_grants f m w now [] (exec Now s1)) as (b & Hb & K2 & Hg) end.
  { apply quiet_neutral; [apply keeps_Now|apply frame_Now|done]. }
  simpl in Hb. rewrite Hb. split; [|done]. etrans; [exact K1|exact K2].
Qed.

Lemma reapOnce_inv : preserves lease_inv reapOnce.
Proof.
  unfold reapOnce, requeueLeasesForWorker, leases_where.
  walk; try (intros s Hs; by apply requeueLease_inv).
  all: intros s Hs; apply quiet_neutral; [..|done].
  all: first [apply keeps_Now|apply keeps_range|apply keeps_putWorker|apply frame_Now|apply frame_putWorker
             |apply frame_range].
Qed.

(** A takeover starts without leases and creates none. *)
Lemma no_leases_inv s : s.(sv_leases) = ∅ → lease_inv s.
Proof. intros H. unfold lease_inv. rewrite H. split; [apply lease_jobs_empty|]. by intros t l; rewrite lookup_empty. Qed.

Lemma frame_seedReplication : within lease_frame seedReplication.
Proof. unfold seedReplication, append_entry. framed. Qed.

Lemma onBecomeLeader_no_leases t s : sv_leases (exec (onBecomeLeader t) s) = ∅.
Proof.
  unfold onBecomeLeader, rebuildSchedulingState. mrun.
  rewrite (proj1 (frame_seedReplication _)).
  assert (sv_leases (exec clearSchedulingState s) = ∅) as H by done. revert H.
  generalize (exec clearSchedulingState s). intros s1 H1.
  destruct (ListJobs (sv_store s1)) as [jobs|]; mrun; [|done]. rewrite <- H1.
  assert (∀ l, within lease_frame (forM_ l (λ j,
    whenM (bool_decide (Job_State j = JOB_STATE_PENDING)) (tryPromote (Job_Id j))))) as Hf.
  { intros l. walk. apply (w_tryPromote lease_frame), frame_steps. }
  rewrite (proj1 (Hf _ _)), (proj1 (w_rebuild_all _ frame_steps _ _ _)). apply frame_Now.
Qed.

Lemma start_no_leases s : s.(sv_leases) = ∅ → sv_leases (exec start_server s) = ∅.
Proof.
  intros H. unfold start_server. mrun.
  assert (within lease_frame recover) as Hrec by (unfold recover; framed).
  assert (sv_leases (exec recover s) = ∅) as H1 by (by rewrite (proj1 (Hrec s))).
  revert H1. generalize (exec recover s). intros s1 H1. destruct (eval recover s); mrun; [done|].
  assert (sv_leases (exec (on_node Start) s1) = ∅) as H2 by (by rewrite (proj1 (frame_on_node _ grows_Start s1))).
  revert H2. generalize (exec (on_node Start) s1). intros s2 H2.
  destruct (eval (on_node Start) s1) as [[t|t]|]; mrun; [apply onBecomeLeader_no_leases|done|done].
Qed.

Lemma op_leases s o : allowed s o → lease_inv s → lease_inv (exec (run_op o) s).
Proof.
  intros Hok Hinv. destruct o; simpl; mrun.
  - eapply neutral; [apply SubmitJob_evolves; [done|by apply Hok]|apply (w_SubmitJob lease_frame), frame_steps|done].
  - eapply neutral; [apply CancelJob_evolves|apply (w_CancelJob lease_frame), frame_steps|done].
  - by apply PollTask_inv.
  - by apply ReportTask_inv.
  - apply quiet_neutral; [apply keeps_Register|unfold RegisterWorker; framed|done].
  - apply quiet_neutral; [apply keeps_Heartbeat|unfold Heartbeat; framed|done].
  - apply quiet_neutral; [apply keeps_timer_fired|apply (w_timer lease_frame), frame_steps|done].
  - unfold reaper_tick, is_leader. mrun. destruct (IsLeader _); [by apply reapOnce_inv|done].
  - apply quiet_neutral; [apply keeps_replication_tick| |done].
    unfold replication_tick, is_leader, broadcastReplicate, range_keys, replicate_to, ackPeer. framed.
    apply frame_modify. intros s'. by destruct (_ <? _)%Z.
  - apply quiet_neutral; [apply keeps_RequestVote|apply frame_on_node, grows_HandleVote|done].
  - apply (quiet_neutral _ s (keeps_Observe term leader)); [|done].
    unfold Replicate, applyEntries. simpl. framed.
  - apply quiet_neutral; [apply keeps_on_node, node_keeps_elect|apply frame_on_node, grows_elect|done].
  - unfold run_callback. mrun. destruct (Node_spawned (sv_node s) !! i) as [[t|t]|]; mrun; [| |done].
    + apply no_leases_inv, onBecomeLeader_no_leases.
    + by apply no_leases_inv.
  - unfold restart. mrun. by apply no_leases_inv, start_no_leases.
  - by apply quiet_neutral; [|framed|].
Qed.

Lemma reachable_leases s : reachable s → lease_inv s.
Proof.
  intros (s0 & (cfg & st & k & -> & _) & Hr).
  assert (lease_inv (new_server cfg st k)) as H0 by (by apply no_leases_inv).
  revert H0. generalize dependent (new_server cfg st k). intros s1 Hr.
  induction Hr as [s|s s' s'' Hstep _ IH]; intros H0; [done|].
  apply IH. destruct Hstep as [s o Hok]. by apply op_leases.
Qed.

(** ** Properties *)

(** C3. Mutual exclusion of attempts: on a node whose operations do not overlap,
    whose submissions have ids that are not taken, and that is not shipped to,
    two leases of a running job are the same lease in every reachable state, so
    at most one worker holds it. *)
Theorem one_lease_per_running_job s t1 t2 l1 l2 j :
  reachable s → s.(sv_leases) !! t1 = Some l1 → s.(sv_leases) !! t2 = Some l2 →
  l1.(lease_jobID) = l2.(lease_jobID) → jobs_of s !! l1.(lease_jobID) = Some j →
  j.(Job_State) = JOB_STATE_RUNNING → t1 = t2.
Proof. intros Hr. apply (lease_unique _ _ (proj1 (reachable_leases s Hr))). Qed.

(** C20. Leases are truthful: on a node whose operations do not overlap, whose
    submissions have ids that are not taken, and that is not shipped to, the job
    of every lease is stored in every reachable state, and is either running
    that very attempt on that very worker, or finished. *)
Theorem leases_truthful s t l :
  reachable s → s.(sv_leases) !! t = Some l →
  ∃ j, jobs_of s !! l.(lease_jobID) = Some j ∧
    ((j.(Job_State) = JOB_STATE_RUNNING ∧ j.(Job_Attempt) = l.(lease_attempt) ∧
      j.(Job_AssignedWorkerId) = l.(lease_workerID)) ∨ terminal j.(Job_State) = true).
Proof. intros Hr. apply (lease_job _ _ (proj1 (reachable_leases s Hr))). Qed.

(** C15. What a successful poll returns is what the scheduler recorded: every
    task handed out has a lease on that worker, for that job, attempt and
    deadline, and the stored job is running that attempt there with the spec the
    worker was given.  Leases and running jobs that were there before are left
    alone. *)
Theorem PollTask_grants s w n out :
  reachable s → eval (PollTask w n) s = inl out →
  running_kept s (exec (PollTask w n) s) ∧ ∀ a, a ∈ out → granted_to w (exec (PollTask w n) s) a.
Proof. intros Hr. apply PollTask_granted. by apply reachable_leases. Qed.

End leases.

(** ** Witnesses *)

Section samples.
#[local] Existing Instance sample_env.
#[local] Existing Instance sample_cron.

Definition sample_task : string := ids_New "task" (letters 11).

Definition sample_lease : lease :=
  default (mkLease "" "" "" 0 0) ((sample_run sample_ops).(sv_leases) !! sample_task).

(** Job "b" runs, and whichever task has a lease of it is [sample_task]. *)
Lemma one_lease_per_running_job_witness :
  (job_at "b" (sample_run sample_ops)).(Job_State) = JOB_STATE_RUNNING ∧
  (sample_run sample_ops).(sv_leases) !! sample_task = Some sample_lease ∧
  ∀ t l, (sample_run sample_ops).(sv_leases) !! t = Some l → l.(lease_jobID) = "b" → t = sample_task.
Proof.
  split; [vm_compute; reflexivity|]. split; [vm_compute; reflexivity|]. intros t l Hl Hj.
  apply (one_lease_per_running_job (sample_run sample_ops) t sample_task l sample_lease
    (job_at "b" (sample_run sample_ops)) sample_ops_reachable Hl); [vm_compute; reflexivity|..]; rewrite ?Hj; vm_compute; reflexivity.
Defined.

Lemma leases_truthful_witness :
  ∃ j, jobs_of (sample_run sample_ops) !! sample_lease.(lease_jobID) = Some j ∧
    ((j.(Job_State) = JOB_STATE_RUNNING ∧ j.(Job_Attempt) = sample_lease.(lease_attempt) ∧
      j.(Job_AssignedWorkerId) = sample_lease.(lease_workerID)) ∨ terminal j.(Job_State) = true).
Proof.
  apply (leases_truthful (sample_run sample_ops) sample_task sample_lease sample_ops_reachable).
  vm_compute. reflexivity.
Defined.

(** Job "d" is ready, and worker "w" polls for it. *)
Definition sample_ready : list op := sample_ops ++ [Submit (Some (sample_job "d" []))].

Lemma sample_ready_reachable : reachable (sample_run sample_ready).
Proof. apply sample_reachable. vm_compute. reflexivity. Qed.

Definition sample_batch : list TaskAssignment :=
  match eval (PollTask "w" 10) (sample_run sample_ready) with inl out => out | inr _ => [] end.

Lemma PollTask_grants_witness :
  TaskAssignment_JobId <$> sample_batch = ["d"] ∧
  running_kept (sample_run sample_ready) (exec (PollTask "w" 10) (sample_run sample_ready)).
Proof.
  split; [vm_compute; reflexivity|].
  apply (PollTask_grants (sample_run sample_ready) "w" 10 sample_batch sample_ready_reachable).
  vm_compute. reflexivity.
Defined.

End samples.
