(* ===== verification/Ready.v ===== *)
(** * The ready queue in the scheduler, and what a poll hands out

    The queue's contract ([Queue.v]) holds in every reachable state of the
    node, so that [PollTask] leases jobs in the documented order. *)

From S2P Require Import Prelude Types Queue Retry Env Cluster Store MemStore Server Cycle Deps Lifecycle.
From S2P Require Import Dispatch Jobs Workers Replication Leadership Handlers Refinement Rebuild System Leases.
From stdpp Require Import relations.

Section ready.
Context {St : Type} {Gstore : JobStore St} {Genv : Env} {Gcron : Cron}.
Implicit Types (s : Server St) (j : Job).

(** ** The queue stays well formed *)

Definition queue_ok s : Prop := queue_wf s.(sv_queue).

Lemma ok_modify (f : Server St → Server St) :
  (∀ s, (f s).(sv_queue) = s.(sv_queue)) → preserves queue_ok (modify f).
Proof. intros H s Hs. unfold queue_ok. rewrite exec_modify. by rewrite H. Qed.
Lemma ok_store {A} (op : M St A) : preserves queue_ok (on_store op).
Proof. by intros s. Qed.
Lemma ok_node {A} (op : M (NodeState St) A) : preserves queue_ok (on_node op).
Proof. intros s Hs. unfold queue_ok, exec, on_node. by destruct (op _). Qed.
Lemma ok_tick : preserves queue_ok next_tick.
Proof. by intros s. Qed.
Lemma ok_queue {A} (op : PriorityQueue → A * PriorityQueue) :
  (∀ q, queue_wf q → queue_wf (op q).2) → preserves queue_ok (on_queue op).
Proof.
  intros H s Hs. specialize (H _ Hs). unfold queue_ok, exec, on_queue. by destruct (op (sv_queue s)).
Qed.
Lemma ok_push id p c : preserves queue_ok (on_queue (Queue_Push id p c)).
Proof. apply ok_queue, push_wf_any. Qed.
Lemma ok_pop : preserves queue_ok (on_queue Queue_Pop).
Proof. apply ok_queue, pop_wf_any. Qed.
Lemma ok_remove id : preserves queue_ok (on_queue (Queue_Remove id)).
Proof. apply ok_queue, remove_wf_any. Qed.
Lemma ok_clear : preserves queue_ok (on_queue (λ q, (tt, Queue_Clear q))).
Proof. apply ok_queue, clear_wf. Qed.
#[local] Hint Resolve ok_store ok_node ok_tick ok_push ok_pop ok_remove ok_clear : pres.

Ltac okay := walk; try (apply ok_modify; intros s'; done).

Lemma ok_putJob j : preserves queue_ok (putJob j).
Proof. unfold putJob, appendRepl, is_leader. okay. Qed.
Lemma ok_putWorker w : preserves queue_ok (putWorker w).
Proof. unfold putWorker, appendRepl, is_leader. okay. Qed.
#[local] Hint Resolve ok_putJob ok_putWorker : pres.

Lemma ok_steps : leader_steps (kept queue_ok).
Proof.
  split; [split|..].
  all: first [exact ok_tick|exact ok_putJob|exact ok_push|exact ok_remove|exact ok_pop|intros ? ?; apply ok_putWorker
             |intros ?; apply ok_store|intros ?; by apply ok_modify].
Qed.

Lemma ok_takeover : takeover_steps (kept queue_ok).
Proof.
  split; [apply ok_steps|apply ok_steps|apply ok_clear|].
  change (preserves queue_ok seedReplication). unfold seedReplication. okay.
Qed.

Lemma ok_new_server cfg (st : St) k : queue_ok (new_server cfg st k).
Proof. exact new_wf. Qed.

Lemma op_queue_ok o : preserves queue_ok (run_op o).
Proof.
  destruct (leader_op o) eqn:Ho; [exact (leader_op_within (kept queue_ok) o ok_steps Ho)|].
  destruct o; try done; simpl; unfold replication_tick, broadcastReplicate, replicate_to, ackPeer, RequestVote,
    Replicate, applyEntries, applyEntry, run_callback, restart, start_server, recover, Shutdown, is_leader; okay.
  - apply (w_timer (kept queue_ok)), ok_steps.
  - apply ok_modify. intros s'. by destruct (_ <? _)%Z.
  - apply (w_onBecomeLeader (kept queue_ok)), ok_takeover.
  - intros s _. apply ok_new_server.
  - apply (w_onBecomeLeader (kept queue_ok)), ok_takeover.
Qed.

Lemma reachable_queue_ok s : reachable s → queue_ok s.
Proof.
  intros (s0 & (cfg & st & k & -> & _) & Hr). pose proof (ok_new_server cfg st k) as H0.
  revert H0. generalize dependent (new_server cfg st k). intros s1 Hr.
  induction Hr as [s|s s' s'' Hstep _ IH]; intros H0; [done|].
  apply IH. destruct Hstep as [s o _]. by apply op_queue_ok.
Qed.

(** ** What a poll hands out *)

Definition same_queue s s' : Prop := s'.(sv_queue) = s.(sv_queue).

#[export] Instance same_queue_preorder : PreOrder same_queue.
Proof. split; [by intros s|]. intros a b c. unfold same_queue. congruence. Qed.

Lemma same_queue_putJob j : within same_queue (putJob j).
Proof.
  unfold putJob, appendRepl, is_leader. walk; try (intros s'; done).
Qed.

(** The jobs of a batch: distinct, queued at the start, in queue order. *)
Definition batch_ok (v : gmap string (Z * Z)) (ids : list string) : Prop :=
  NoDup ids ∧ (∀ id, id ∈ ids → is_Some (v !! id)) ∧ StronglySorted (in_order v) ids.

Lemma batch_ok_nil v : batch_ok v [].
Proof. split_and!; [constructor|by intros id ?%not_elem_of_nil|constructor]. Qed.

(** A job taken from the queue, put before a batch of the rest. *)
Lemma batch_ok_cons v id e ids :
  v !! id = Some e → (∀ id' e', v !! id' = Some e' → before id' e' id e = false) →
  batch_ok (delete id v) ids → batch_ok v (id :: ids).
Proof.
  intros He Hleast (Hnd & Hin & Hs). assert (id ∉ ids) as Hni.
  { intros H%Hin. rewrite lookup_delete_eq in H. by destruct H. }
  split_and!.
  - by constructor.
  - intros x [->|Hx]%elem_of_cons; [by eauto|]. destruct (Hin x Hx) as [y Hy].
    apply lookup_delete_Some in Hy as [_ Hy]. eauto.
  - constructor.
    + eapply StronglySorted_weaken; [|done]. intros x y Hx Hy Hxy e1 e2 He1 He2.
      apply Hxy; rewrite lookup_delete_ne; congruence || done.
    + apply Forall_forall. intros y _ e1 e2 He1 He2. simplify_eq. by eapply Hleast.
Qed.

(** A subset of the queue's entries. *)
Lemma batch_ok_delete v id ids : batch_ok (delete id v) ids → batch_ok v ids.
Proof.
  intros (Hnd & Hin & Hs). split_and!; [done| |].
  - intros x [y Hy]%Hin. apply lookup_delete_Some in Hy as [_ ?]. eauto.
  - eapply StronglySorted_weaken; [|done]. intros x y Hx Hy Hxy e1 e2 He1 He2.
    destruct (Hin x Hx) as [? [Hnx _]%lookup_delete_Some], (Hin y Hy) as [? [Hny _]%lookup_delete_Some].
    apply Hxy; by rewrite lookup_delete_ne.
Qed.

Lemma poll_loop_spec fuel n w now out s :
  queue_ok s → size (queue_view s.(sv_queue)) < fuel →
  ∃ batch, eval (poll_loop fuel n w now out) s = (true, out ++ batch) ∧
    (Z.of_nat (length out) <= n → Z.of_nat (length (out ++ batch)) <= n)%Z ∧
    batch_ok (queue_view s.(sv_queue)) (TaskAssignment_JobId <$> batch).
Proof.
  revert out s. induction fuel as [|fuel IH]; intros out s Hq Hf; [lia|]. simpl.
  destruct (Z.leb_spec n (Z.of_nat (length out))) as [Hn|Hn].
  { exists []. rewrite app_nil_r. split_and!; [done|done|apply batch_ok_nil]. }
  mrun. set (q := sv_queue s) in *.
  assert (eval (on_queue Queue_Pop) s = (Queue_Pop q).1 ∧
    sv_queue (exec (on_queue Queue_Pop) s) = (Queue_Pop q).2) as [He Hq1].
  { unfold eval, exec, on_queue. subst q. by destruct (Queue_Pop (sv_queue s)). }
  rewrite He. revert Hq1. generalize (exec (on_queue Queue_Pop) s). intros s1 Hq1.
  destruct (pop_wf q Hq) as [[Hp _]|(id & e & q' & Hp & Hwf' & Hid & Hview & Hleast)];
    rewrite Hp in *; simpl in Hq1 |- *; mrun.
  { exists []. rewrite app_nil_r. split_and!; [done|done|apply batch_ok_nil]. }
  assert (size (queue_view q') < fuel) as Hf'.
  { pose proof (map_size_ne_0_lookup_2 (queue_view q) id (mk_is_Some _ _ Hid)).
    rewrite Hview, map_size_delete_Some by eauto. lia. }
  change (exec (getJob id) s1) with s1.
  assert (∀ s2 out2, sv_queue s2 = q' → (Z.of_nat (length out2) <= n)%Z →
    ∃ batch, eval (poll_loop fuel n w now out2) s2 = (true, out2 ++ batch) ∧
      (Z.of_nat (length (out2 ++ batch)) <= n)%Z ∧
      batch_ok (delete id (queue_view q)) (TaskAssignment_JobId <$> batch)) as Hnext.
  { intros s2 out2 Hq2 Hl. destruct (IH out2 s2) as (b & ? & ? & Hb); unfold queue_ok; rewrite ?Hq2; [done|done|].
    rewrite Hq2, Hview in Hb. eauto. }
  assert (∀ s2, sv_queue s2 = q' → ∃ batch, eval (poll_loop fuel n w now out) s2 = (true, out ++ batch) ∧
    (Z.of_nat (length out) <= n → Z.of_nat (length (out ++ batch)) <= n)%Z ∧
    batch_ok (queue_view q) (TaskAssignment_JobId <$> batch)) as Hskip.
  { intros s2 Hq2. destruct (Hnext s2 out Hq2) as (b & ? & ? & ?); [lia|]. eauto 6 using batch_ok_delete. }
  destruct (eval (getJob id) s1) as [j|]; [|by apply Hskip].
  destruct (bool_decide _); [by apply Hskip|]. mrun.
  set (s2 := exec (new_id "task") s1). assert (sv_queue s2 = q') as Hq2 by done. clearbody s2.
  pose proof (same_queue_putJob (dispatched w now j) s2) as Hq3. revert Hq3.
  generalize (exec (putJob (dispatched w now j)) s2). intros s3 Hq3.
  destruct (eval (putJob (dispatched w now j)) s2); mrun.
  { exists []. rewrite app_nil_r. split_and!; [done|done|apply batch_ok_nil]. }
  match goal with |- context [poll_loop fuel n w now (out ++ [?a])] => set (asg := a) end.
  match goal with |- context [eval (poll_loop _ _ _ _ _) ?s'] => destruct (Hnext s' (out ++ [asg])) as (b & Hb & Hl & Hok) end.
  - unfold same_queue in Hq3. by rewrite <- Hq2, <- Hq3.
  - rewrite length_app. simpl. lia.
  - exists (asg :: b). rewrite Hb, <- app_assoc. simpl. rewrite <- app_assoc in Hl.
    split_and!; [done|by intros _|]. change (TaskAssignment_JobId asg) with id. by eapply batch_ok_cons.
Qed.

Lemma PollTask_batch_ok s w n out :
  queue_wf s.(sv_queue) → eval (PollTask w n) s = inl out →
  (Z.of_nat (length out) <= 64)%Z ∧ (1 <= n → Z.of_nat (length out) <= n)%Z ∧
  NoDup (TaskAssignment_JobId <$> out) ∧
  (∀ a, a ∈ out → is_Some (queue_view s.(sv_queue) !! a.(TaskAssignment_JobId))) ∧
  StronglySorted (in_order (queue_view s.(sv_queue))) (TaskAssignment_JobId <$> out).
Proof.
  intros Hq. unfold PollTask. mrun.
  assert (sv_queue (exec requireLeader s) = sv_queue s) as Hq1.
  { unfold requireLeader, is_leader. mrun. by destruct (IsLeader (sv_node s)). }
  revert Hq1. generalize (exec requireLeader s). intros s1 Hq1.
  destruct (eval requireLeader s); [done|]. unfold workerKnown. mrun.
  destruct (bool_decide _); simpl; mrun; [|done].
  change (Queue_Len (sv_queue (exec Now s1))) with (Queue_Len (sv_queue s1)).
  destruct (poll_loop_spec (S (Queue_Len (sv_queue s1))) (batch_size n) w (eval Now s1) [] (exec Now s1))
    as (b & Hb & Hl & Hnd & Hin & Hs).
  { unfold queue_ok. change (sv_queue (exec Now s1)) with (sv_queue s1). by rewrite Hq1. }
  { change (sv_queue (exec Now s1)) with (sv_queue s1). rewrite Hq1, view_len by done. lia. }
  change (sv_queue (exec Now s1)) with (sv_queue s1) in *. rewrite Hb. rewrite Hq1 in *. intros [= <-].
  simpl in *. assert (1 <= batch_size n <= 64 ∧ (1 <= n → batch_size n <= n))%Z as [Hb1 Hb2].
  { unfold batch_size, maxBatch. destruct (Z.leb_spec n 0), (Z.ltb_spec 64 n); simpl; lia. }
  split_and!; [lia|lia|done| |done]. intros a Ha. apply Hin. by apply list_elem_of_fmap_2.
Qed.

End ready.

(** ** A poll on a store that does not fail *)

Section durable.
Context {St : Type} {Gstore : JobStore St} {Genv : Env} {Gcron : Cron} `{!DurableStore St}.
Implicit Types (s : Server St) (j : Job).

Lemma putJob_durable s j :
  healthy s.(sv_store) → j.(Job_Id) ≠ "" →
  let s' := exec (putJob j) s in
  eval (putJob j) s = None ∧ healthy s'.(sv_store) ∧ jobs_of s' = <[j.(Job_Id):=j]> (jobs_of s).
Proof.
  intros Hh Hid s'. pose proof (PutJob_succeeds j _ Hh Hid) as He. pose proof (PutJob_healthy j _ Hh) as Hh'.
  destruct (putJob_cases s j) as [[Hn Ha]|[[e Hn] _]].
  - injection Ha as Hj _. split_and!; [done| |done]. subst s'. unfold putJob. mrun.
    change (eval (on_store (PutJob j)) s) with (eval (PutJob j) (sv_store s)). rewrite He. mrun.
    unfold appendRepl, is_leader. mrun. by destruct (negb _).
  - exfalso. revert Hn. unfold putJob. mrun.
    change (eval (on_store (PutJob j)) s) with (eval (PutJob j) (sv_store s)). by rewrite He.
Qed.

Lemma getJob_durable s id :
  healthy s.(sv_store) →
  match jobs_of s !! id with
  | Some j => eval (getJob id) s = inl j
  | None => ∃ e, eval (getJob id) s = inr e
  end.
Proof.
  intros Hh. destruct (jobs_of s !! id) as [j|] eqn:E; [by apply GetJob_finds|].
  destruct (eval (getJob id) s) as [j|e] eqn:Eg; [|by eauto].
  destruct (getJob_stored _ _ _ Eg) as [Hst <-]. unfold stored in Hst. congruence.
Qed.

(** The loop stops short of [n] tasks only when the queue is empty. *)
Lemma poll_loop_drains fuel n w now out s :
  healthy s.(sv_store) → queue_ok s → size (queue_view s.(sv_queue)) < fuel →
  (n <= Z.of_nat (length (eval (poll_loop fuel n w now out) s).2))%Z ∨
  queue_view (exec (poll_loop fuel n w now out) s).(sv_queue) = ∅.
Proof.
  revert out s. induction fuel as [|fuel IH]; intros out s Hh Hq Hf; [lia|]. simpl.
  destruct (Z.leb_spec n (Z.of_nat (length out))) as [Hn|Hn]; [by left|].
  mrun. set (q := sv_queue s) in *.
  assert (eval (on_queue Queue_Pop) s = (Queue_Pop q).1 ∧
    sv_queue (exec (on_queue Queue_Pop) s) = (Queue_Pop q).2 ∧
    healthy (sv_store (exec (on_queue Queue_Pop) s))) as (He & Hq1 & Hh1).
  { unfold eval, exec, on_queue. subst q. by destruct (Queue_Pop (sv_queue s)). }
  rewrite He. revert Hq1 Hh1. generalize (exec (on_queue Queue_Pop) s). intros s1 Hq1 Hh1.
  destruct (pop_wf q Hq) as [[Hp Hv]|(id & e & q' & Hp & Hwf' & Hid & Hview & _)];
    rewrite Hp in *; simpl in Hq1 |- *; mrun.
  { right. by rewrite Hq1. }
  assert (size (queue_view q') < fuel) as Hf'.
  { pose proof (map_size_ne_0_lookup_2 (queue_view q) id (mk_is_Some _ _ Hid)).
    rewrite Hview, map_size_delete_Some by eauto. lia. }
  change (exec (getJob id) s1) with s1.
  assert (∀ s2 out2, sv_queue s2 = q' → healthy (sv_store s2) →
    (n <= Z.of_nat (length (eval (poll_loop fuel n w now out2) s2).2))%Z ∨
    queue_view (exec (poll_loop fuel n w now out2) s2).(sv_queue) = ∅) as Hnext.
  { intros s2 out2 Hq2 Hh2. apply IH; unfold queue_ok; by rewrite ?Hq2. }
  destruct (eval (getJob id) s1) as [j|] eqn:Eg; [|by apply Hnext].
  destruct (bool_decide _); [by apply Hnext|]. mrun.
  destruct (putJob_durable (exec (new_id "task") s1) (dispatched w now j)) as (Hp1 & Hh2 & _); [done| |].
  { destruct (getJob_stored _ _ _ Eg) as [Hst _]. intros Hid0. change (Job_Id j = "") in Hid0.
    unfold stored in Hst. rewrite Hid0 in Hst.
    pose proof (proj1 (no_empty_keys (sv_store s1))) as Hne.
    change (jobs_of s1 !! "" = None) in Hne. congruence. }
  rewrite Hp1. mrun. apply Hnext; [|done].
  exact (eq_trans (same_queue_putJob (dispatched w now j) (exec (new_id "task") s1)) Hq1).
Qed.

Lemma PollTask_drains s w n out :
  healthy s.(sv_store) → queue_wf s.(sv_queue) → eval (PollTask w n) s = inl out →
  (Z.of_nat (length out) < batch_size n)%Z → queue_view (exec (PollTask w n) s).(sv_queue) = ∅.
Proof.
  intros Hh Hq. unfold PollTask. mrun.
  assert (exec requireLeader s = s) as ->.
  { unfold requireLeader, is_leader. mrun. by destruct (IsLeader (sv_node s)). }
  destruct (eval requireLeader s); [done|]. unfold workerKnown. mrun.
  destruct (bool_decide _); simpl; mrun; [|done]. intros [= <-] Hl.
  destruct (poll_loop_drains (S (Queue_Len (sv_queue (exec Now s)))) (batch_size n) w (eval Now s) [] (exec Now s))
    as [Hn|Hn]; [done|done| |exfalso; exact (Zle_not_lt _ _ Hn Hl)|done].
  change (sv_queue (exec Now s)) with (sv_queue s). rewrite view_len by done. lia.
Qed.

(** C16. A poll that succeeds returns at most 64 tasks, and at most as many as a
    positive request asks for; their jobs are distinct, were all in the ready
    queue when the poll began, and come in the queue's order: priority
    descending, then age, then id. On a store that does not fail it returns fewer
    than it may, which for a request of none or fewer is one, only when it has
    emptied the queue. *)
Theorem PollTask_batch s w n out :
  queue_wf s.(sv_queue) → eval (PollTask w n) s = inl out →
  (Z.of_nat (length out) <= 64)%Z ∧ (1 <= n → Z.of_nat (length out) <= n)%Z ∧
  NoDup (TaskAssignment_JobId <$> out) ∧
  (∀ a, a ∈ out → is_Some (queue_view s.(sv_queue) !! a.(TaskAssignment_JobId))) ∧
  StronglySorted (in_order (queue_view s.(sv_queue))) (TaskAssignment_JobId <$> out) ∧
  (healthy s.(sv_store) → (Z.of_nat (length out) < batch_size n)%Z →
     queue_view (exec (PollTask w n) s).(sv_queue) = ∅).
Proof.
  intros Hq Ho. destruct (PollTask_batch_ok s w n out Hq Ho) as (? & ? & ? & ? & ?). split_and!; [done..|].
  intros Hh. by apply PollTask_drains.
Qed.

End durable.

(** ** Witnesses *)

Section samples.
#[local] Existing Instance sample_env.
#[local] Existing Instance sample_cron.

Lemma PollTask_batch_witness :
  TaskAssignment_JobId <$> sample_batch = ["d"] ∧
  queue_view (exec (PollTask "w" 10) (sample_run sample_ready)).(sv_queue) = ∅.
Proof.
  split; [vm_compute; reflexivity|].
  apply (PollTask_batch (sample_run sample_ready) "w" 10 sample_batch);
    [apply (reachable_queue_ok _ sample_ready_reachable)|vm_compute; reflexivity..].
Defined.

End samples.
