(* ===== verification/Agent.v ===== *)
(** * The worker agent (internal/worker)

    The agent finds the leader, registers, heartbeats, polls for tasks and runs
    each in a goroutine that reports its result.  What the network answers to an
    RPC and what a subprocess does come from outside: an [Rpc] answers the [n]-th
    call of a run, an [Os] the [n]-th command.  Here a handler runs without
    interruption, and the goroutines of [poll] are the [ag_tasks] still to run;
    [AgentThreads.v] interleaves them. *)

From S2P Require Import Prelude Types Queue Retry Env Cluster Store Server.
From stdpp Require Import relations.

(** ** Configuration and state *)

Record AgentConfig := mkAgentConfig {
  Agent_Schedulers : list string;
  Agent_Advertise : string;
  Agent_Capacity : Z;
  Agent_Labels : gmap string string;
  Agent_HeartbeatInterval : Z;
  Agent_PollInterval : Z
}.

Definition AgentConfig_withDefaults (c : AgentConfig) : AgentConfig :=
  mkAgentConfig c.(Agent_Schedulers) c.(Agent_Advertise)
    (if (c.(Agent_Capacity) <=? 0)%Z then 4%Z else c.(Agent_Capacity))
    c.(Agent_Labels)
    (or_default c.(Agent_HeartbeatInterval) (5 * Second))
    (or_default c.(Agent_PollInterval) Second).

Definition doneRetention : Z := 10 * 60 * Second.
Definition maxOutputBytes : nat := 8192.

(** [ag_conn] says whether a connection is open; [ag_leaderAddr] is the address
    the last one was dialled with, [None] before the first; [ag_wg] is the counter
    of the wait group; [ag_tasks] are the goroutines that have been started and
    have not begun. *)
Record Agent := mkAgent {
  ag_cfg : AgentConfig;
  ag_conn : bool;
  ag_leaderAddr : option string;
  ag_workerID : string;
  ag_running : gset string;
  ag_done : gmap string Z;
  ag_wg : Z;
  ag_tasks : list TaskAssignment;
  ag_tick : nat
}.

Definition set_ag_conn (x : bool) (a : Agent) : Agent :=
  mkAgent a.(ag_cfg) x a.(ag_leaderAddr) a.(ag_workerID) a.(ag_running) a.(ag_done) a.(ag_wg) a.(ag_tasks) a.(ag_tick).
Definition set_ag_leaderAddr (x : option string) (a : Agent) : Agent :=
  mkAgent a.(ag_cfg) a.(ag_conn) x a.(ag_workerID) a.(ag_running) a.(ag_done) a.(ag_wg) a.(ag_tasks) a.(ag_tick).
Definition set_ag_workerID (x : string) (a : Agent) : Agent :=
  mkAgent a.(ag_cfg) a.(ag_conn) a.(ag_leaderAddr) x a.(ag_running) a.(ag_done) a.(ag_wg) a.(ag_tasks) a.(ag_tick).
Definition set_ag_running (x : gset string) (a : Agent) : Agent :=
  mkAgent a.(ag_cfg) a.(ag_conn) a.(ag_leaderAddr) a.(ag_workerID) x a.(ag_done) a.(ag_wg) a.(ag_tasks) a.(ag_tick).
Definition set_ag_done (x : gmap string Z) (a : Agent) : Agent :=
  mkAgent a.(ag_cfg) a.(ag_conn) a.(ag_leaderAddr) a.(ag_workerID) a.(ag_running) x a.(ag_wg) a.(ag_tasks) a.(ag_tick).
Definition set_ag_wg (x : Z) (a : Agent) : Agent :=
  mkAgent a.(ag_cfg) a.(ag_conn) a.(ag_leaderAddr) a.(ag_workerID) a.(ag_running) a.(ag_done) x a.(ag_tasks) a.(ag_tick).
Definition set_ag_tasks (x : list TaskAssignment) (a : Agent) : Agent :=
  mkAgent a.(ag_cfg) a.(ag_conn) a.(ag_leaderAddr) a.(ag_workerID) a.(ag_running) a.(ag_done) a.(ag_wg) x a.(ag_tick).
Definition set_ag_tick (x : nat) (a : Agent) : Agent :=
  mkAgent a.(ag_cfg) a.(ag_conn) a.(ag_leaderAddr) a.(ag_workerID) a.(ag_running) a.(ag_done) a.(ag_wg) a.(ag_tasks) x.

Definition Agent_New (cfg : AgentConfig) : Agent :=
  mkAgent (AgentConfig_withDefaults cfg) false None "" ∅ ∅ 0 [] 0.

(** ** The outside *)

(** The answer to the [n]-th call, made to the scheduler at an address. *)
Class Rpc := {
  rpc_Dial : nat → string → option string;
  rpc_GetClusterStatus : nat → string → GetClusterStatusResponse + Status;
  rpc_RegisterWorker : nat → string → WorkerInfo → (string * string) + Status;
  rpc_Heartbeat : nat → string → string → list string → (bool * string) + Status;
  rpc_PollTask : nat → string → string → Z → list TaskAssignment + Status;
  rpc_ReportTask : nat → string → string → string → TaskResult → string → string → bool + Status
}.

(** The output and error of the [n]-th command, given its name, arguments,
    environment ([None] to inherit) and timeout; and the process environment. *)
Class Os := {
  os_Run : nat → string → list string → option (list string) → option Z → string * option string;
  os_Environ : list string
}.

Section agent.
Context {Genv : Env} {Grpc : Rpc} {Gos : Os}.

Definition ag_next : M Agent nat := λ a, (a.(ag_tick), set_ag_tick (S a.(ag_tick)) a).

(** ** Running a task (executor.go) *)

Definition truncate (s : string) : string :=
  if Nat.ltb maxOutputBytes (String.length s)
  then (String.substring 0 maxOutputBytes s +:+ "...(truncated)")%string
  else s.

(** The variables of a spec, appended to the process's own in map order. *)
Definition task_env (k : nat) (env : gmap string string) : option (list string) :=
  if decide (env = ∅) then None
  else Some (os_Environ ++ ((λ x, x +:+ "=" +:+ default "" (env !! x)) <$> env_order k (map_to_list env).*1)%string).

Definition execute (spec : option TaskSpec) : M Agent (TaskResult * string * string) :=
  if String.eqb (TaskSpec_GetCommand spec) "" then mret (TASK_RESULT_FAILED, "", "empty command")
  else
    match spec with
    | None => mret (TASK_RESULT_FAILED, "", "empty command")
    | Some spec =>
        let timeout := if (0 <? AsDuration spec.(TaskSpec_Timeout))%Z then spec.(TaskSpec_Timeout) else None in
        k ← ag_next;
        let '(buf, err) := os_Run k spec.(TaskSpec_Command) spec.(TaskSpec_Args) (task_env k spec.(TaskSpec_Env)) timeout in
        let out := truncate buf in
        match err with
        | Some e => mret (TASK_RESULT_FAILED, out, e)
        | None => mret (TASK_RESULT_SUCCEEDED, out, "")
        end
    end.

(** ** Finding the leader *)

(** The address of the member [holder] in a status answer. *)
Definition holder_addr (resp : GetClusterStatusResponse) : option string :=
  let holder := LeaseInfo_GetHolderId resp.(Status_Lease) in
  if String.eqb holder "" then None
  else SchedulerNode_Address <$>
    List.find (λ n, String.eqb n.(SchedulerNode_Id) holder) resp.(Status_Schedulers).

Fixpoint discover (seeds : list string) (lastErr : option GoError) : M Agent (string + GoError) :=
  match seeds with
  | [] =>
      all ← gets (λ a, a.(ag_cfg).(Agent_Schedulers));
      mret (inr (default (TextError ("no leader elected among seeds [" +:+ String.concat " " all +:+ "]")) lastErr))
  | seed :: seeds =>
      k ← ag_next;
      match rpc_Dial k seed with
      | Some e => discover seeds (Some (TextError e))
      | None =>
          k ← ag_next;
          match rpc_GetClusterStatus k seed with
          | inr e => discover seeds (Some (StatusError e))
          | inl resp =>
              match holder_addr resp with
              | Some addr => mret (inl addr)
              | None => discover seeds lastErr
              end
          end
      end
  end.

Definition discoverLeader : M Agent (string + GoError) :=
  seeds ← gets (λ a, a.(ag_cfg).(Agent_Schedulers));
  discover seeds None.

(** The new connection replaces, and closes, the one before. *)
Definition connected (addr : string) (a : Agent) : Agent := a |> set_ag_conn true |> set_ag_leaderAddr (Some addr).

Definition connectLeader : M Agent (option GoError) :=
  r ← discoverLeader;
  match r : string + GoError with
  | inr e => mret (Some e)
  | inl addr =>
      k ← ag_next;
      match rpc_Dial k addr with
      | Some e => mret (Some (TextError e))
      | None => modify (connected addr);; mret None
      end
  end.

Definition closeConn : M Agent unit :=
  conn ← gets ag_conn;
  whenM conn (modify (set_ag_conn false)).

(** The scheduler the current client talks to. *)
Definition client_addr (a : Agent) : string := default "" a.(ag_leaderAddr).

Definition register : M Agent (option Status) :=
  addr ← gets client_addr;
  id ← gets ag_workerID;
  cfg ← gets ag_cfg;
  k ← ag_next;
  match rpc_RegisterWorker k addr (mkWorkerInfo id cfg.(Agent_Advertise) cfg.(Agent_Capacity)
          cfg.(Agent_Labels) WORKER_STATE_UNSPECIFIED None 0) with
  | inr e => mret (Some e)
  | inl (workerID, _) => modify (set_ag_workerID workerID);; mret None
  end.

(** [n] rounds of [bootstrap]'s loop: [true] when it returned nil, [false] when
    all of them failed.  Then it returns an error if its context was canceled,
    and otherwise goes on. *)
Fixpoint bootstrap (n : nat) : M Agent bool :=
  match n with
  | O => mret false
  | S n =>
      e ← connectLeader;
      match e : option GoError with
      | Some _ => bootstrap n
      | None =>
          e ← register;
          match e : option Status with
          | None => mret true
          | Some _ => bootstrap n
          end
      end
  end.

(** The wait between rounds of [bootstrap]: the next one after [b]. *)
Definition next_backoff (b : Z) : Z := if (b <? 5 * Second)%Z then int64 (b * 2) else b.

(** [None] when [bootstrap] is still in its loop after [rounds] rounds. *)
Definition onLeadershipError (rounds : nat) (e : Status) : M Agent (option bool) :=
  match e.(status_code) with
  | FailedPrecondition | Unavailable => ok ← bootstrap rounds; mret (if ok : bool then Some true else None)
  | _ => mret (Some false)
  end.

(** ** The task table *)

Definition freeCapacity (a : Agent) : Z := a.(ag_cfg).(Agent_Capacity) - Z.of_nat (size a.(ag_running)).
Definition inflight (a : Agent) : nat := size a.(ag_running).

(** The keys of [running] in map order. *)
Definition runningTaskIDs : M Agent (list string) :=
  k ← ag_next; gets (λ a, env_order k (elements a.(ag_running))).

Definition tryStart (taskID : string) : M Agent bool :=
  running ← gets ag_running;
  done ← gets ag_done;
  capacity ← gets (λ a, a.(ag_cfg).(Agent_Capacity));
  if decide (taskID ∈ (running : gset string)) then mret false
  else if decide (is_Some ((done : gmap string Z) !! taskID)) then mret false
  else if (capacity <=? Z.of_nat (size running))%Z then mret false
  else modify (set_ag_running ({[taskID]} ∪ running));; mret true.

(** The entries that are not stale at [now]. *)
Definition prune (now : Z) (done : gmap string Z) : gmap string Z :=
  filter (λ p, ¬ (doneRetention < saturate64 (now - p.2))%Z) done.

Definition finish (taskID : string) : M Agent Z :=
  modify (λ a, set_ag_running (a.(ag_running) ∖ {[taskID]}) a);;
  k ← ag_next;
  let now := env_now k in
  modify (λ a, set_ag_done (prune now (<[taskID:=now]> a.(ag_done))) a);;
  mret now.

(** The wait group. *)
Definition wg_Add (n : Z) : M Agent unit := modify (λ a, set_ag_wg (a.(ag_wg) + n) a).
Definition wg_Done : M Agent unit := wg_Add (-1).

(** ** The loops of the agent

    The context of the main loop may be canceled: a [bootstrap] of [heartbeat]
    and [poll] that runs out of rounds stands for one that returns then. *)

Definition heartbeat (rounds : nat) : M Agent unit :=
  addr ← gets client_addr;
  id ← gets ag_workerID;
  ids ← runningTaskIDs;
  k ← ag_next;
  match rpc_Heartbeat k addr id ids with
  | inr e => _ ← onLeadershipError rounds e; mret tt
  | inl (ok, _) => if (ok : bool) then mret tt else (_ ← register; mret tt)
  end.

(** Claim a slot for a task, and launch it if there is one.  [Add] and the [go]
    statement follow the section of [tryStart] in the same goroutine; nothing but
    [drain], which that goroutine runs later, reads the counter. *)
Definition claim (task : TaskAssignment) : M Agent unit :=
  ok ← tryStart task.(TaskAssignment_TaskId);
  whenM ok (wg_Add 1;; modify (λ a, set_ag_tasks (a.(ag_tasks) ++ [task]) a)).

Fixpoint launch (tasks : list TaskAssignment) : M Agent unit :=
  match tasks with
  | [] => mret tt
  | task :: tasks => claim task;; launch tasks
  end.

Definition poll (rounds : nat) : M Agent unit :=
  free ← gets freeCapacity;
  if (free <=? 0)%Z then mret tt
  else
    addr ← gets client_addr;
    id ← gets ag_workerID;
    k ← ag_next;
    match rpc_PollTask k addr id (int32 free) with
    | inr e => _ ← onLeadershipError rounds e; mret tt
    | inl tasks => launch tasks
    end.

(** Up to [n] attempts to report.  [None] when [report] returns; [Some n'] when it
    is in the loop of [bootstrap], whose context is never canceled, with [n']
    attempts left for when that ends. *)
Fixpoint report_loop (n rounds : nat) (taskID : string) (result : TaskResult) (output errMsg : string)
    : M Agent (option nat) :=
  match n with
  | O => mret None
  | S n =>
      addr ← gets client_addr;
      id ← gets ag_workerID;
      k ← ag_next;
      match rpc_ReportTask k addr id taskID result output errMsg with
      | inl _ => mret None
      | inr e =>
          handled ← onLeadershipError rounds e;
          match handled : option bool with
          | None => mret (Some n)
          | Some _ => report_loop n rounds taskID result output errMsg
          end
      end
  end.

Definition report (rounds : nat) := report_loop 5 rounds.

(** How far the goroutine of a task has come: its deferred [finish] is done, at
    the time [now], or it is still reporting. *)
Inductive turn :=
| Finished (now : Z)
| Reporting (attempts : nat) (result : TaskResult) (output errMsg : string).

(** The goroutine of a task, up to its deferred [wg.Done]. *)
Definition run_body (rounds : nat) (task : TaskAssignment) : M Agent turn :=
  r ← execute task.(TaskAssignment_Spec);
  left ← report rounds task.(TaskAssignment_TaskId) r.1.1 r.1.2 r.2;
  match left : option nat with
  | Some n => mret (Reporting n r.1.1 r.1.2 r.2)
  | None => now ← finish task.(TaskAssignment_TaskId); mret (Finished now)
  end.

(** The goroutine of the [i]-th launched task; its id and the time it was done,
    if it comes to its end. *)
Definition run_task (i rounds : nat) : M Agent (option (string * Z)) :=
  tasks ← gets ag_tasks;
  match (tasks : list TaskAssignment) !! i with
  | None => mret None
  | Some task =>
      modify (set_ag_tasks (delete i tasks));;
      e ← run_body rounds task;
      match e : turn with
      | Reporting _ _ _ _ => mret None
      | Finished now => wg_Done;; mret (Some (task.(TaskAssignment_TaskId), now))
      end
  end.

(** ** The agent as a machine

    It bootstraps, heartbeats, polls, and its tasks run, in any order. *)

Inductive agent_op :=
| Bootstrap (rounds : nat)
| AgentBeat (rounds : nat)
| AgentPoll (rounds : nat)
| AgentRun (i rounds : nat).

Definition run_agent (o : agent_op) : M Agent (option (string * Z)) :=
  match o with
  | Bootstrap n => _ ← bootstrap n; mret None
  | AgentBeat n => heartbeat n;; mret None
  | AgentPoll n => poll n;; mret None
  | AgentRun i n => run_task i n
  end.

(** ** The task table *)

(** Claiming a slot. *)
Lemma tryStart_cases id a :
  (eval (tryStart id) a = false ∧ exec (tryStart id) a = a) ∨
  (eval (tryStart id) a = true ∧ exec (tryStart id) a = set_ag_running ({[id]} ∪ a.(ag_running)) a ∧
   id ∉ a.(ag_running) ∧ a.(ag_done) !! id = None ∧
   (Z.of_nat (size a.(ag_running)) < a.(ag_cfg).(Agent_Capacity))%Z).
Proof.
  unfold tryStart. mrun. destruct (decide (id ∈ ag_running a)); [by left|].
  destruct (decide (is_Some (ag_done a !! id))) as [|Hd]; [by left|].
  destruct (Z.leb_spec (Agent_Capacity (ag_cfg a)) (Z.of_nat (size (ag_running a)))); [by left|].
  right. split_and!; [done|done|done|by apply eq_None_not_Some|done].
Qed.

(** Every task of an answer that fits gets a slot. *)
Lemma launch_all tasks a :
  NoDup (TaskAssignment_TaskId <$> tasks) →
  (∀ t, t ∈ tasks → t.(TaskAssignment_TaskId) ∉ a.(ag_running) ∧ a.(ag_done) !! t.(TaskAssignment_TaskId) = None) →
  (Z.of_nat (length tasks) <= freeCapacity a)%Z →
  (exec (launch tasks) a).(ag_tasks) = a.(ag_tasks) ++ tasks.
Proof.
  revert a. induction tasks as [|t tasks IH]; intros a Hnd Hfresh Hcap; simpl; mrun; [by rewrite app_nil_r|].
  unfold claim. mrun.
  apply NoDup_cons in Hnd as [Hnt Hnd]. destruct (Hfresh t) as [Hn Hd]; [by left|].
  unfold freeCapacity in Hcap. simpl in Hcap.
  destruct (tryStart_cases (TaskAssignment_TaskId t) a) as [[He _]|(-> & -> & _)]; simpl; mrun.
  - exfalso. revert He. unfold tryStart. mrun. rewrite decide_False by done.
    rewrite decide_False by (rewrite Hd; by intros [? ?]).
    destruct (Z.leb_spec (Agent_Capacity (ag_cfg a)) (Z.of_nat (size (ag_running a)))); [lia|done].
  - unfold wg_Add. mrun. rewrite IH; simpl; [by rewrite <- app_assoc|done| |].
    + intros t' Ht'. destruct (Hfresh t') as [Hn' Hd']; [by right|]. split; [|done].
      apply not_elem_of_union. split; [|done]. rewrite elem_of_singleton. intros Heq. apply Hnt.
      rewrite <- Heq. by apply list_elem_of_fmap_2.
    + unfold freeCapacity. simpl. rewrite size_union, size_singleton by set_solver. lia.
Qed.

End agent.

(** ** A worker that has been given a task *)

Section samples.
#[local] Existing Instance sample_env.

Definition busy_task : TaskAssignment :=
  mkTaskAssignment "t1" "j1" 1 (Some (mkTaskSpec "run" [] ∅ None [])) None.

Definition busy_rpc : Rpc := {|
  rpc_Dial _ _ := None;
  rpc_GetClusterStatus _ _ :=
    inl (mkGetClusterStatusResponse (Some (mkLeaseInfo "n1" 1 None None))
           [mkSchedulerNode "n1" "h1:7070" SCHEDULER_ROLE_LEADER None] []);
  rpc_RegisterWorker _ _ _ := inl ("w", "h1:7070");
  rpc_Heartbeat _ _ _ _ := inl (true, "");
  rpc_PollTask _ _ _ _ := inl [busy_task];
  rpc_ReportTask _ _ _ _ _ _ _ := inl true
|}.
Definition quiet_os : Os := {| os_Run _ _ _ _ _ := ("", None); os_Environ := [] |}.

#[local] Existing Instance busy_rpc.
#[local] Existing Instance quiet_os.

Definition busy_cfg : AgentConfig := mkAgentConfig ["h1:7070"] "" 2 ∅ 0 0.
Definition busy_agent : Agent := exec (run_agent (AgentPoll 1)) (exec (run_agent (Bootstrap 1)) (Agent_New busy_cfg)).

End samples.
