(* ===== verification/Delivery.v ===== *)
(** * From the scheduler's queue to the worker's task table

    A poll joins the two sides of the protocol: the scheduler leases jobs and
    the worker starts them.  The machine here is a node together with a worker
    that it serves: the node makes the steps of [System.v], the worker those of
    [Agent.v], and a poll of the worker is answered by the node or fails.  What
    the node leases in answer to a poll, the worker starts, because a task id
    that is drawn for it is not in the worker's tables. *)

From stdpp Require Import relations.
From S2P Require Import Prelude Types Queue Retry Env Cluster Store MemStore Server Cycle Deps Lifecycle.
From S2P Require Import Dispatch Jobs Workers Replication Leadership Handlers Refinement Rebuild System Leases Ready Agent.

Section delivery.
Context {St : Type} {Gstore : JobStore St} {Genv : Env} {Guniq : UniqueIds Genv} {Gcron : Cron}.
Implicit Types (s : Server St) (a : Agent).

(** ** The node draws later and later ids *)

Definition later s s' : Prop := s.(sv_tick) ≤ s'.(sv_tick).

#[export] Instance later_preorder : PreOrder later.
Proof. unfold later. split; [intros s; lia|]. intros x y z. lia. Qed.

Lemma later_frame {A} (m : M (Server St) A) : within lease_frame m → within later m.
Proof. intros H s. apply H. Qed.
Lemma later_modify (f : Server St → Server St) : (∀ s, (f s).(sv_tick) = s.(sv_tick)) → within later (modify f).
Proof. intros H s. unfold later. mrun. by rewrite H. Qed.

Lemma later_jobs : job_steps later.
Proof. split; intros *; apply later_frame, frame_steps. Qed.

Lemma later_leader : leader_steps later.
Proof.
  split; [exact later_jobs|apply later_frame, frame_queue|intros w _; apply later_frame, frame_putWorker|].
  intros f. by apply later_modify.
Qed.

Lemma later_takeover : takeover_steps later.
Proof.
  split; [exact later_jobs|intros f; by apply later_modify|apply later_frame, frame_queue|].
  apply later_frame, frame_seedReplication.
Qed.

Lemma later_node {A} (m : M (NodeState St) A) : within tick_grows m → within later (on_node m).
Proof. intros H. by apply later_frame, frame_on_node. Qed.

Lemma later_restart : within later restart.
Proof.
  unfold restart, start_server, recover. walk; try (by apply later_modify).
  - apply later_node, grows_Start.
  - apply (w_onBecomeLeader later), later_takeover.
Qed.

Lemma later_op o : within later (run_op o).
Proof.
  destruct (leader_op o) eqn:Ho; [by apply leader_op_within; [apply _|exact later_leader|]|].
  destruct o; try done; simpl.
  - apply (w_timer later), later_jobs.
  - unfold replication_tick, is_leader, broadcastReplicate, range_keys, replicate_to, ackPeer. walk.
    + apply (js_tick later later_jobs).
    + apply later_node, grows_MaybeStepDown.
    + apply later_modify. intros s'. by destruct (_ <? _)%Z.
  - unfold RequestVote. walk. apply later_node, grows_HandleVote.
  - unfold Replicate, applyEntries. simpl. walk. apply later_node, grows_ObserveLeader.
  - apply later_node, grows_elect.
  - unfold run_callback. walk; try (by apply later_modify). apply (w_onBecomeLeader later), later_takeover.
  - apply later_restart.
  - by apply later_modify.
Qed.

(** A task id that was drawn before the node's present. *)
Definition past s (t : string) : Prop := ∃ k, k < s.(sv_tick) ∧ t = ids_New "task" (env_uuid k).

(** The tasks of a batch are drawn during the poll. *)
Definition drawn_after (k : nat) (t : TaskAssignment) : Prop :=
  ∃ m, k ≤ m ∧ t.(TaskAssignment_TaskId) = ids_New "task" (env_uuid m).

Lemma poll_loop_drawn k fuel n w now out s :
  k ≤ s.(sv_tick) → Forall (drawn_after k) out → Forall (drawn_after k) (eval (poll_loop fuel n w now out) s).2.
Proof.
  revert out s. induction fuel as [|fuel IH]; intros out s Hk Hout; simpl; destruct (n <=? _)%Z; try done.
  mrun. pose proof (later_frame _ (frame_queue Queue_Pop) s) as L1. unfold later in L1. revert L1.
  generalize (exec (on_queue Queue_Pop) s). intros s1 L1.
  destruct (eval (on_queue Queue_Pop) s) as [id|]; mrun; [|done]. change (exec (getJob id) s1) with s1.
  destruct (eval (getJob id) s1) as [j|e]; [|apply IH; [lia|done]].
  destruct (bool_decide _); [apply IH; [lia|done]|]. mrun.
  set (s2 := exec (new_id "task") s1). assert (s2.(sv_tick) = S s1.(sv_tick)) as L2 by done.
  pose proof (later_frame _ (frame_putJob (dispatched w now j)) s2) as L3. unfold later in L3. revert L3.
  generalize (exec (putJob (dispatched w now j)) s2). intros s3 L3.
  destruct (eval (putJob _) s2); mrun; [done|]. apply IH; [|apply Forall_app; split; [done|]].
  - transitivity s3.(sv_tick); [lia|]. done.
  - apply Forall_singleton. exists s1.(sv_tick). split; [lia|done].
Qed.

Lemma PollTask_drawn w n s out : eval (PollTask w n) s = inl out → Forall (drawn_after s.(sv_tick)) out.
Proof.
  unfold PollTask. mrun. pose proof (later_frame _ frame_requireLeader s) as L. unfold later in L. revert L.
  generalize (exec requireLeader s). intros s1 L1. destruct (eval requireLeader s); [done|].
  unfold workerKnown. mrun. destruct (bool_decide _); cbn [negb]; mrun; [|done].
  pose proof (later_frame _ frame_Now s1) as L2. unfold later in L2.
  match goal with |- context [poll_loop ?f ?m w ?now []] =>
    pose proof (poll_loop_drawn (sv_tick s) f m w now [] (exec Now s1)) as H end.
  intros [= <-]. apply H; [lia|done].
Qed.

(** ** The worker learns of tasks by polling *)

(** The ids the worker has in its tables. *)
Definition seen a (t : string) : Prop :=
  t ∈ a.(ag_running) ∨ is_Some (a.(ag_done) !! t) ∨ t ∈ TaskAssignment_TaskId <$> a.(ag_tasks).

Definition learns (ts : list string) a a' : Prop := ∀ t, seen a' t → seen a t ∨ t ∈ ts.

#[export] Instance learns_preorder ts : PreOrder (learns ts).
Proof. split; [intros a t; by left|]. intros x y z H1 H2 t Ht. destruct (H2 t Ht) as [H|H]; [by apply H1|by right]. Qed.

Section worker.
Context {Grpc : Rpc} {Gos : Os} (ts : list string).

Lemma learns_modify (f : Agent → Agent) : (∀ a, learns ts a (f a)) → within (learns ts) (modify f).
Proof. intros H a. apply H. Qed.
Lemma learns_tables (f : Agent → Agent) :
  (∀ a, ag_running (f a) = ag_running a ∧ ag_done (f a) = ag_done a ∧ ag_tasks (f a) = ag_tasks a) →
  within (learns ts) (modify f).
Proof. intros H. apply learns_modify. intros a t. unfold seen. destruct (H a) as (-> & -> & ->). by left. Qed.
Lemma learns_next : within (learns ts) ag_next.
Proof. intros a t Ht. by left. Qed.
#[local] Hint Resolve learns_next : pres.
#[local] Hint Extern 4 (within (learns _) (modify _)) => apply learns_tables; intros ?; done : pres.

Lemma learns_discover seeds e : within (learns ts) (discover seeds e).
Proof. revert e. induction seeds as [|x seeds IH]; intros e; simpl; walk. Qed.
#[local] Hint Resolve learns_discover : pres.
Lemma learns_bootstrap n : within (learns ts) (bootstrap n).
Proof. induction n as [|n IH]; simpl; unfold connectLeader, discoverLeader, register; walk. Qed.
#[local] Hint Resolve learns_bootstrap : pres.
Lemma learns_onLeadershipError n e : within (learns ts) (onLeadershipError n e).
Proof. unfold onLeadershipError. walk. Qed.
#[local] Hint Resolve learns_onLeadershipError : pres.
Lemma learns_heartbeat n : within (learns ts) (heartbeat n).
Proof. unfold heartbeat, runningTaskIDs, register. walk. Qed.
Lemma learns_report m n t r o e : within (learns ts) (report_loop m n t r o e).
Proof. induction m as [|m IH]; simpl; walk. Qed.
Lemma learns_execute spec : within (learns ts) (execute spec).
Proof. unfold execute. walk. Qed.
#[local] Hint Resolve learns_report learns_execute : pres.

Lemma learns_finish id : id ∈ ts → within (learns ts) (finish id).
Proof.
  intros Hid. unfold finish. walk; apply learns_modify; intros a' t [Ht|Ht]; simpl in Ht.
  - left; left; set_solver.
  - left; right; done.
  - left; left; done.
  - destruct Ht as [[x Hx]|Ht]; [|by left; right; right].
    unfold prune in Hx. apply map_lookup_filter_Some in Hx as [Hx _]. destruct (decide (t = id)) as [->|Hne]; [by right|].
    rewrite lookup_insert_ne in Hx by done. left; right; left. by eexists.
Qed.

Lemma learns_run_body n task : TaskAssignment_TaskId task ∈ ts → within (learns ts) (run_body n task).
Proof. intros Ht. unfold run_body, report. walk. by apply learns_finish. Qed.

Lemma learns_claim task : TaskAssignment_TaskId task ∈ ts → within (learns ts) (claim task).
Proof.
  intros Ht a. unfold claim. mrun.
  destruct (tryStart_cases (TaskAssignment_TaskId task) a) as [[-> ->]|(-> & -> & _)]; [done|].
  unfold wg_Add. mrun. intros t [H|[H|H]]; simpl in H.
  - apply elem_of_union in H as [->%elem_of_singleton|H]; [by right|]. by left; left.
  - by left; right; left.
  - rewrite fmap_app, elem_of_app in H. destruct H as [H| ->%list_elem_of_singleton]; [by left; right; right|by right].
Qed.

Lemma learns_launch tasks : (∀ t, t ∈ tasks → TaskAssignment_TaskId t ∈ ts) → within (learns ts) (launch tasks).
Proof.
  induction tasks as [|t tasks IH]; intros H; simpl; [walk|]. apply within_bind; [apply _|apply learns_claim, H; by left|].
  intros _. apply IH. intros t' Ht'. apply H. by right.
Qed.

End worker.

(** The goroutine of a task brings in no id that is not there. *)
Lemma learns_run_task {Grpc : Rpc} {Gos : Os} i n : within (learns []) (run_task i n).
Proof.
  intros a. unfold run_task. mrun. destruct (ag_tasks a !! i) as [task|] eqn:Ei; mrun; [|done].
  set (a0 := set_ag_tasks _ a). assert (learns [] a (exec (run_body n task) a0)) as H.
  { intros t Ht. left. destruct (learns_run_body [TaskAssignment_TaskId task] n task ltac:(by left) a0 t Ht) as [H|H].
    - destruct H as [H|[H|H]]; [by left|by right; left|]. right; right. simpl in H.
      apply list_elem_of_fmap in H as (x & -> & Hx%list_elem_of_delete_inv). by apply list_elem_of_fmap_2.
    - apply list_elem_of_singleton in H as ->. right; right. apply list_elem_of_fmap_2. by eapply list_elem_of_lookup_2. }
  destruct (eval (run_body n task) a0); [|exact H]. unfold wg_Done, wg_Add. mrun. exact H.
Qed.

Lemma learns_agent {Grpc : Rpc} {Gos : Os} o : (∀ n, o ≠ AgentPoll n) → within (learns []) (run_agent o).
Proof.
  intros Ho. destruct o as [n|n|n|i n]; simpl; [..|apply learns_run_task].
  - apply within_bind; [apply _|apply learns_bootstrap|intros; apply within_ret, _].
  - apply within_bind; [apply _|apply learns_heartbeat|intros; apply within_ret, _].
  - by destruct (Ho n).
Qed.

(** ** The node and the worker together *)

(** The worker polls the node, which answers; or the poll fails, whether or not the
    node has answered it.  The calls of the worker's other operations may be
    answered in any way. *)
Inductive joint_step : Server St * Agent → Server St * Agent → Prop :=
| j_node s s' a : node_step s s' → joint_step (s, a) (s', a)
| j_agent (R : Rpc) (O : Os) o s a :
    (∀ n, o ≠ AgentPoll n) → joint_step (s, a) (s, exec (run_agent o) a)
| j_poll (R : Rpc) rounds s a out :
    let n := int32 (freeCapacity a) in
    (0 < freeCapacity a)%Z →
    eval (PollTask a.(ag_workerID) n) s = inl out →
    rpc_PollTask a.(ag_tick) (client_addr a) a.(ag_workerID) n = inl out →
    joint_step (s, a) (exec (PollTask a.(ag_workerID) n) s, exec (poll rounds) a)
| j_poll_fails (R : Rpc) rounds s a e :
    rpc_PollTask a.(ag_tick) (client_addr a) a.(ag_workerID) (int32 (freeCapacity a)) = inr e →
    joint_step (s, a) (s, exec (poll rounds) a).

Definition joint_reachable (c : Server St * Agent) : Prop :=
  ∃ s0 cfg, fresh_node s0 ∧ rtc joint_step (s0, Agent_New cfg) c.

(** The worker's tables hold ids that the node has drawn. *)
Definition joint_ok (c : Server St * Agent) : Prop := reachable c.1 ∧ ∀ t, seen c.2 t → past c.1 t.

Lemma past_later s s' t : later s s' → past s t → past s' t.
Proof. unfold later. intros L (k & Hk & ->). exists k. split; [lia|done]. Qed.

Lemma reachable_step s s' : reachable s → node_step s s' → reachable s'.
Proof. intros (s0 & H0 & Hr) Hs. exists s0. split; [done|]. by eapply rtc_r. Qed.

Lemma polled_past s w n out t :
  reachable s → eval (PollTask w n) s = inl out → t ∈ out → past (exec (PollTask w n) s) t.(TaskAssignment_TaskId).
Proof.
  intros Hr He Ht. pose proof (reachable_leases s Hr) as Hl. destruct (PollTask_granted _ _ _ _ Hl He) as [_ Hg].
  destruct (Hg t Ht) as (l & _ & Hlook & _). destruct (PollTask_inv w n s Hl) as [_ Hids].
  destruct (Hids _ _ Hlook) as (k & Hk & E). by exists k.
Qed.

(** What a poll that was answered, or was not, makes of the tables. *)
Lemma poll_learns {Grpc : Rpc} rounds a out :
  rpc_PollTask a.(ag_tick) (client_addr a) a.(ag_workerID) (int32 (freeCapacity a)) = inl out →
  learns (TaskAssignment_TaskId <$> out) a (exec (poll rounds) a).
Proof.
  intros H. unfold poll. mrun. destruct (_ <=? 0)%Z; [done|]. mrun. change (eval ag_next a) with (ag_tick a). rewrite H.
  transitivity (exec ag_next a); [apply learns_next|]. apply learns_launch. intros t Ht. by apply list_elem_of_fmap_2.
Qed.

Lemma poll_fails_learns {Grpc : Rpc} rounds a e :
  rpc_PollTask a.(ag_tick) (client_addr a) a.(ag_workerID) (int32 (freeCapacity a)) = inr e →
  learns [] a (exec (poll rounds) a).
Proof.
  intros H. unfold poll. mrun. destruct (_ <=? 0)%Z; [done|]. mrun. change (eval ag_next a) with (ag_tick a). rewrite H. mrun.
  transitivity (exec ag_next a); [apply learns_next|apply learns_onLeadershipError].
Qed.

Lemma joint_ok_step c c' : joint_step c c' → joint_ok c → joint_ok c'.
Proof.
  intros [s s' a Hs|R O o s a Ho|R rounds s a out n Hf He Hrpc|R rounds s a e Hrpc] [Hr Hp]; split; simpl in *.
  - by eapply reachable_step.
  - intros t Ht. destruct Hs as [s o Hok]. eapply past_later; [apply later_op|by apply Hp].
  - done.
  - intros t Ht. destruct (learns_agent o Ho a t Ht) as [H|?%not_elem_of_nil]; [by apply Hp|done].
  - apply (reachable_step s); [done|]. exact (node_op s (Poll (ag_workerID a) n) I).
  - intros t Ht. destruct (poll_learns rounds a out Hrpc t Ht) as [H|(x & -> & Hx)%list_elem_of_fmap].
    + eapply past_later; [apply (later_op (Poll (ag_workerID a) n))|by apply Hp].
    + by apply (polled_past _ _ _ out).
  - done.
  - intros t Ht. destruct (poll_fails_learns rounds a e Hrpc t Ht) as [H|?%not_elem_of_nil]; [by apply Hp|done].
Qed.

Lemma joint_reachable_ok c : joint_reachable c → joint_ok c.
Proof.
  intros (s0 & cfg & H0 & Hr).
  assert (joint_ok (s0, Agent_New cfg)) as Hok.
  { split; [by exists s0|]. intros t [H|[[x H]|H]]; [by apply not_elem_of_empty in H|done|].
    by apply not_elem_of_nil in H. }
  clear H0. induction Hr as [c|c c' c'' Hstep _ IH]; [done|]. by apply IH, (joint_ok_step c).
Qed.

(** The tasks of a batch have distinct ids: they are leases of distinct jobs. *)
Lemma granted_distinct w s out :
  (∀ t, t ∈ out → granted_to w s t) → NoDup (TaskAssignment_JobId <$> out) →
  NoDup (TaskAssignment_TaskId <$> out).
Proof.
  intros Hg Hnd. apply NoDup_fmap_2_strong; [|by apply NoDup_fmap_1 in Hnd].
  intros t1 t2 H1 H2 Heq. destruct (Hg t1 H1) as (l1 & _ & Hl1 & Hj1 & _), (Hg t2 H2) as (l2 & _ & Hl2 & Hj2 & _).
  rewrite Heq in Hl1. assert (TaskAssignment_JobId t1 = TaskAssignment_JobId t2) as Hj by congruence.
  apply list_elem_of_lookup in H1 as [i1 H1], H2 as [i2 H2].
  assert (i1 = i2) as ->; [|congruence].
  eapply NoDup_lookup; [exact Hnd|rewrite list_lookup_fmap, H1; simpl; done|].
  rewrite list_lookup_fmap, H2. simpl. by rewrite Hj.
Qed.

(** The tasks of a batch are new to the worker. *)
Lemma polled_unseen s a w n out t :
  joint_ok (s, a) → eval (PollTask w n) s = inl out → t ∈ out → ¬ seen a t.(TaskAssignment_TaskId).
Proof.
  intros [_ Hp] He Ht Hs. destruct (Hp _ Hs) as (k & Hk & Ek).
  pose proof (PollTask_drawn _ _ _ _ He) as Hd. rewrite Forall_forall in Hd. destruct (Hd t Ht) as (m & Hm & Em).
  simpl in Hk. rewrite Em in Ek. apply ids_New_inj, env_uuid_inj in Ek. lia.
Qed.

(** C26. End to end, no leased task is dropped on the way: for a worker that one
    node serves, where neither's operations overlap, submissions have ids that
    are not taken and the node is not shipped to, whenever the worker has room
    and its poll is answered by the node that serves it, the node has recorded a
    lease to that worker for each task of its answer, and the worker launches
    every one of them. *)
Theorem leased_tasks_are_started {Grpc : Rpc} s a rounds out :
  let free := freeCapacity a in
  joint_reachable (s, a) → (0 < free <= max_int32)%Z →
  eval (PollTask a.(ag_workerID) free) s = inl out →
  rpc_PollTask a.(ag_tick) (client_addr a) a.(ag_workerID) free = inl out →
  (exec (poll rounds) a).(ag_tasks) = a.(ag_tasks) ++ out ∧
  ∀ t, t ∈ out → granted_to a.(ag_workerID) (exec (PollTask a.(ag_workerID) free) s) t.
Proof.
  intros free Hj Hfree He Hrpc. apply joint_reachable_ok in Hj as Hok. destruct Hok as [Hr _]. simpl in Hr.
  destruct (PollTask_granted _ _ _ _ (reachable_leases s Hr) He) as [_ Hg].
  destruct (PollTask_batch_ok _ _ _ _ (reachable_queue_ok s Hr) He) as (_ & Hlen & Hnd & _). split; [|done].
  unfold poll. mrun. fold free. destruct (Z.leb_spec free 0); [lia|]. mrun.
  rewrite int32_small by lia. change (eval ag_next a) with (ag_tick a). rewrite Hrpc.
  rewrite launch_all; [done|by eapply granted_distinct| |].
  - intros t Ht. pose proof (polled_unseen _ _ _ _ _ t (joint_reachable_ok _ Hj) He Ht) as Hn. split.
    + intros H'. apply Hn. by left.
    + apply eq_None_not_Some. intros H'. apply Hn. by right; left.
  - change (freeCapacity (exec ag_next a)) with free. lia.
Qed.

End delivery.

(** ** A witness: the worker "w" starts job "d" *)

Section samples.
#[local] Existing Instance sample_env.
#[local] Existing Instance sample_cron.

(** The node answers the polls. *)
Definition sample_rpc : Rpc := {|
  rpc_Dial := busy_rpc.(rpc_Dial);
  rpc_GetClusterStatus := busy_rpc.(rpc_GetClusterStatus);
  rpc_RegisterWorker := busy_rpc.(rpc_RegisterWorker);
  rpc_Heartbeat := busy_rpc.(rpc_Heartbeat);
  rpc_PollTask _ _ w n := eval (PollTask w n) (sample_run sample_ready);
  rpc_ReportTask := busy_rpc.(rpc_ReportTask)
|}.

#[local] Existing Instance sample_rpc.
#[local] Existing Instance quiet_os.

Definition sample_agent : Agent := exec (run_agent (Bootstrap 1)) (Agent_New busy_cfg).

Lemma sample_free : (0 < freeCapacity sample_agent <= max_int32)%Z.
Proof. split; vm_compute; congruence. Qed.

Lemma sample_polled :
  eval (PollTask sample_agent.(ag_workerID) (freeCapacity sample_agent)) (sample_run sample_ready) = inl sample_batch.
Proof. vm_compute. reflexivity. Qed.

Lemma sample_answered :
  rpc_PollTask sample_agent.(ag_tick) (client_addr sample_agent) sample_agent.(ag_workerID)
    (freeCapacity sample_agent) = inl sample_batch.
Proof. vm_compute. reflexivity. Qed.

Lemma sample_joint : joint_reachable (sample_run sample_ready, sample_agent).
Proof.
  destruct sample_ready_reachable as (s0 & H0 & Hr). exists s0, busy_cfg. split; [done|].
  apply rtc_r with (sample_run sample_ready, Agent_New busy_cfg); [|by apply j_agent].
  generalize (sample_run sample_ready) Hr. clear. intros s Hr. induction Hr as [s|s s' s'' Hs _ IH]; [done|].
  eapply rtc_l; [by apply j_node|done].
Qed.

Lemma leased_tasks_are_started_witness :
  (exec (poll 1) sample_agent).(ag_tasks) = sample_agent.(ag_tasks) ++ sample_batch.
Proof.
  exact (proj1 (leased_tasks_are_started (sample_run sample_ready) sample_agent 1 sample_batch
    sample_joint sample_free sample_polled sample_answered)).
Defined.

End samples.
