(* ===== verification/Cascade.v ===== *)
(** * Cancellation of dependents (deps.go, [cancelCascade])

    The work list of [cancelCascade] ends, and on a store that does not fail it
    cancels exactly the unfinished jobs that wait, directly or through others,
    on the job it is given. *)

From S2P Require Import Prelude Types Queue Retry Env Cluster Store MemStore Server Cycle Deps Lifecycle.
From S2P Require Import Dispatch Jobs Workers Replication Leadership Refinement Rebuild System Leases Ready.
From stdpp Require Import relations.

(** ** The size of the index *)

Lemma index_size_insert d set (ix : index) :
  ix !! d = None → index_size (<[d:=set]> ix) = size set + index_size ix.
Proof. intros Hd. unfold index_size. rewrite map_fold_insert_L; [done| |done]. intros. lia. Qed.

Lemma index_size_delete d set (ix : index) :
  ix !! d = Some set → index_size ix = size set + index_size (delete d ix).
Proof.
  intros Hd. rewrite <- (index_size_insert d) by apply lookup_delete_eq. by rewrite insert_delete_id.
Qed.

Lemma index_size_mono (ix' ix : index) :
  (∀ d set', ix' !! d = Some set' → ∃ set, ix !! d = Some set ∧ set' ⊆ set) →
  index_size ix' ≤ index_size ix.
Proof.
  revert ix. induction ix' as [|d set' m Hd IH] using map_ind; intros ix Hsub; [apply Nat.le_0_l|].
  destruct (Hsub d set') as (set & Hset & Hle); [apply lookup_insert_eq|].
  rewrite index_size_insert, (index_size_delete d set ix) by done.
  apply subseteq_size in Hle. enough (index_size m ≤ index_size (delete d ix)) by lia.
  apply IH. intros x set0 Hx. assert (x ≠ d) by congruence. rewrite lookup_delete_ne by done.
  apply Hsub. by rewrite lookup_insert_ne.
Qed.

(** The entries whose dependency has not been visited. *)
Definition unvisited (V : gset string) (ix : index) : index := filter (λ p, p.1 ∉ V) ix.

Lemma unvisited_drop V cur (ix : index) :
  index_size (unvisited V (drop_dependent cur ix)) ≤ index_size (unvisited V ix).
Proof.
  apply index_size_mono. intros d set' [Hd Hv]%map_lookup_filter_Some.
  destruct (drop_dependent_sub _ _ _ _ Hd) as (set & Hset & Hle).
  exists set. split; [|done]. by apply map_lookup_filter_Some.
Qed.

Lemma unvisited_marked V cur (ix : index) :
  cur ∉ V →
  index_size (unvisited ({[cur]} ∪ V) ix) + size (default ∅ (ix !! cur)) ≤ index_size (unvisited V ix).
Proof.
  intros Hc.
  assert (index_size (unvisited ({[cur]} ∪ V) ix) ≤ index_size (delete cur (unvisited V ix))) as Hle.
  { apply index_size_mono. intros d set [Hd Hv]%map_lookup_filter_Some. simpl in Hv. exists set. split; [|done].
    rewrite lookup_delete_ne by set_solver. apply map_lookup_filter_Some. set_solver. }
  destruct (ix !! cur) as [set|] eqn:E.
  - change (default ∅ (Some set)) with set. rewrite (index_size_delete cur set (unvisited V ix)); [lia|]. by apply map_lookup_filter_Some.
  - change (default ∅ None) with (∅ : gset string). rewrite size_empty. assert (index_size (delete cur (unvisited V ix)) ≤ index_size (unvisited V ix)); [|lia].
    apply index_size_mono. intros d set Hd. apply lookup_delete_Some in Hd as [_ Hd]. eauto.
Qed.

Section cascade.
Context {St : Type} {Gstore : JobStore St} {Genv : Env} {Gcron : Cron}.
Implicit Types (s : Server St) (j : Job).

(** ** Termination *)

Lemma cascade_total fuel work V reason now s :
  length work + index_size (unvisited V s.(sv_revIndex)) ≤ fuel →
  eval (cascade fuel work V reason now) s = true.
Proof.
  revert work V reason s. induction fuel as [|fuel IH]; intros [|cur work] V reason s Hf; simpl in *; try done; [lia|].
  destruct (decide (cur ∈ V)) as [_|Hc]; [apply IH; lia|]. mrun.
  destruct (cascade_step_writes cur reason now s) as (_ & Hr & Hd). apply IH. rewrite Hr.
  rewrite length_app, length_rev, Hd.
  change (length (elements (default ∅ (sv_revIndex s !! cur)))) with (size (default ∅ (sv_revIndex s !! cur))).
  pose proof (unvisited_drop ({[cur]} ∪ V) cur (sv_revIndex s)).
  pose proof (unvisited_marked V cur (sv_revIndex s) Hc). lia.
Qed.

Lemma cancelCascade_total id reason s : eval (cancelCascade id reason) s = true.
Proof.
  unfold cancelCascade. mrun. apply cascade_total. simpl. apply le_n_S, index_size_mono.
  intros d set [Hd _]%map_lookup_filter_Some. eauto.
Qed.

(** ** What one round does *)

Context {Gdur : DurableStore St}.

Definition canceled (reason : string) (now : Z) j : Job :=
  j |> set_Job_State JOB_STATE_CANCELED |> set_Job_LastError reason |> set_Job_UpdatedAt (Some now).

(** The stored jobs, and the queued ids, after a round on [cur]. *)
Definition cancel_job (cur reason : string) (now : Z) (m : gmap string Job) : gmap string Job :=
  match m !! cur with
  | Some j => if terminal j.(Job_State) then m else <[cur:=canceled reason now j]> m
  | None => m
  end.

Definition unqueue {A} (cur : string) (m : gmap string Job) (v : gmap string A) : gmap string A :=
  match m !! cur with
  | Some j => if terminal j.(Job_State) then v else delete cur v
  | None => v
  end.

Lemma cascade_step_effect cur reason now s :
  healthy s.(sv_store) → queue_wf s.(sv_queue) →
  let s' := exec (cascade_step cur reason now) s in
  healthy s'.(sv_store) ∧ queue_wf s'.(sv_queue) ∧
  jobs_of s' = cancel_job cur reason now (jobs_of s) ∧
  queue_view s'.(sv_queue) = unqueue cur (jobs_of s) (queue_view s.(sv_queue)).
Proof.
  intros Hh Hq. unfold cascade_step. mrun. change (exec (getJob cur) s) with s.
  unfold cancel_job, unqueue. pose proof (getJob_durable s cur Hh) as Hg.
  destruct (jobs_of s !! cur) as [j|] eqn:Ej; [rewrite Hg|destruct Hg as [e ->]; by mrun].
  destruct (terminal (Job_State j)); [by mrun|]. mrun.
  assert (Job_Id j = cur) as Hid by (by eapply (jobs_keyed (sv_store s))).
  destruct (putJob_durable s (canceled reason now j) Hh) as (_ & Hh1 & Hj1).
  { change (Job_Id j ≠ ""). intros He. rewrite <- Hid, He in Ej.
    pose proof (proj1 (no_empty_keys (sv_store s))) as Hk. unfold jobs_of in Ej. congruence. }
  pose proof (same_queue_putJob (canceled reason now j) s) as Hq1.
  fold (canceled reason now j). revert Hh1 Hj1 Hq1. generalize (exec (putJob (canceled reason now j)) s).
  intros s1 Hh1 Hj1 Hq1. unfold same_queue in Hq1. rewrite <- Hq1 in Hq.
  destruct (remove_view cur _ Hq) as [Hwf Hview]. rewrite Hq1 in Hview.
  assert (sv_queue (exec (on_queue (Queue_Remove cur)) s1) = (Queue_Remove cur (sv_queue s1)).2 ∧
    sv_store (exec (on_queue (Queue_Remove cur)) s1) = sv_store s1) as [Hq2 Hst2].
  { unfold exec, on_queue. by destruct (Queue_Remove cur (sv_queue s1)). }
  revert Hq2 Hst2. generalize (exec (on_queue (Queue_Remove cur)) s1). intros s2 Hq2 Hst2.
  change (healthy (sv_store s2) ∧ queue_wf (sv_queue s2) ∧ jobs_of s2 = <[cur:=canceled reason now j]> (jobs_of s) ∧
    queue_view (sv_queue s2) = delete cur (queue_view (sv_queue s))).
  rewrite Hst2, Hq2, Hq1. unfold jobs_of. rewrite Hst2. rewrite Hq1 in Hwf.
  split_and!; [done|done| |done]. fold (jobs_of s1). rewrite Hj1. by change (Job_Id (canceled _ _ j)) with (Job_Id j); rewrite Hid.
Qed.

(** ** The work list *)

(** [x] waits on [d]. *)
Definition waits (ix : index) (d x : string) : Prop := x ∈ default ∅ (ix !! d).

Lemma waits_drop cur (ix : index) d x : waits (drop_dependent cur ix) d x ↔ waits ix d x ∧ x ≠ cur.
Proof.
  unfold waits, drop_dependent. rewrite lookup_omap.
  destruct (ix !! d) as [set|]; simpl; [case_decide as H; simpl|]; set_solver.
Qed.

(** What becomes of a job that can never run. *)
Definition cut_off j j' : Prop :=
  if terminal j.(Job_State) then j' = j else j'.(Job_State) = JOB_STATE_CANCELED ∧ same_identity j j'.

(** The state of the loop that started from the index [ix0], the jobs [m0] and
    the queue [q0]. *)
Record cascading (ix0 : index) (m0 : gmap string Job) (q0 : gmap string (Z * Z)) (id : string)
    (V : gset string) (work : list string) s : Prop := {
  ca_healthy : healthy s.(sv_store);
  ca_queue : queue_wf s.(sv_queue);
  ca_from x : x ∈ V ∨ x ∈ work → rtc (waits ix0) id x;
  ca_start : id ∈ V ∨ id ∈ work;
  ca_closed d x : d ∈ V → waits ix0 d x → x ∈ V ∨ x ∈ work;
  ca_index d x : d ∉ V → x ∉ V → waits s.(sv_revIndex) d x ↔ waits ix0 d x;
  ca_sub d x : waits s.(sv_revIndex) d x → waits ix0 d x;
  ca_rest x : x ∉ V → jobs_of s !! x = m0 !! x ∧ queue_view s.(sv_queue) !! x = q0 !! x;
  ca_none x : m0 !! x = None → jobs_of s !! x = None;
  ca_done x j : x ∈ V → m0 !! x = Some j →
    (∃ j', jobs_of s !! x = Some j' ∧ cut_off j j') ∧
    (terminal j.(Job_State) = false → queue_view s.(sv_queue) !! x = None)
}.

Lemma cascading_skip ix0 m0 q0 id V cur work s :
  cur ∈ V → cascading ix0 m0 q0 id V (cur :: work) s → cascading ix0 m0 q0 id V work s.
Proof.
  intros Hc [H1 H2 H3 H4 H5 H6 H7 H8 H9 H10]. split; auto.
  - intros x [Hx|Hx]; apply H3; [by left|right; by right].
  - destruct H4 as [?|[->|?]%elem_of_cons]; auto.
  - intros d x Hd Hx. destruct (H5 d x Hd Hx) as [?|[->|?]%elem_of_cons]; auto.
Qed.

Lemma cascading_step ix0 m0 q0 id V cur work reason now s :
  cur ∉ V → cascading ix0 m0 q0 id V (cur :: work) s →
  cascading ix0 m0 q0 id ({[cur]} ∪ V) (rev (eval (cascade_step cur reason now) s) ++ work)
    (exec (cascade_step cur reason now) s).
Proof.
  intros Hc [H1 H2 H3 H4 H5 H6 H7 H8 H9 H10].
  destruct (cascade_step_writes cur reason now s) as (_ & Hix & Hdeps).
  destruct (cascade_step_effect cur reason now s H1 H2) as (E1 & E2 & E3 & E4).
  assert (∀ x, x ∈ rev (eval (cascade_step cur reason now) s) ++ work ↔
    waits (sv_revIndex s) cur x ∨ x ∈ work) as Hwork.
  { intros x. rewrite elem_of_app. unfold waits. by rewrite <- elem_of_elements, <- Hdeps, elem_of_rev. }
  destruct (H8 cur Hc) as [Hj Hv].
  revert E1 E2 E3 E4 Hix Hwork. generalize (exec (cascade_step cur reason now) s),
    (rev (eval (cascade_step cur reason now) s) ++ work). intros s' work' E1 E2 E3 E4 Hix Hwork.
  unfold cancel_job in E3. unfold unqueue in E4. rewrite Hj in E3, E4. split; [done|done|..].
  - intros x [[ ->%elem_of_singleton|Hx]%elem_of_union|[Hx|Hx]%Hwork].
    + apply H3. right. by left.
    + apply H3. by left.
    + eapply rtc_r; [apply (H3 cur); right; by left|by apply H7].
    + apply H3. right. by right.
  - destruct H4 as [?|[<-|?]%elem_of_cons]; [set_solver|set_solver|right; apply Hwork; by right].
  - intros d x Hd Hx. destruct (decide (x ∈ {[cur]} ∪ V)) as [?|Hx']; [by left|right]. apply Hwork.
    apply elem_of_union in Hd as [->%elem_of_singleton|Hd]; [left; apply H6; set_solver|].
    right. destruct (H5 d x Hd Hx) as [?|[->|?]%elem_of_cons]; set_solver.
  - intros d x Hd Hx. rewrite Hix, waits_drop, H6 by set_solver. set_solver.
  - intros d x. rewrite Hix, waits_drop. intros [Hw _]. by apply H7.
  - intros x Hx. assert (x ≠ cur ∧ x ∉ V) as [Hne Hx'] by set_solver. destruct (H8 x Hx') as [<- <-].
    rewrite E3, E4. destruct (m0 !! cur) as [j|]; [|done]. destruct (terminal _); [done|].
    by rewrite lookup_insert_ne, lookup_delete_ne.
  - intros x Hx. rewrite E3. specialize (H9 x Hx). destruct (m0 !! cur) as [j|] eqn:Em; [|done].
    destruct (terminal _); [done|]. rewrite lookup_insert_ne; congruence.
  - intros x j Hx Hm. destruct (decide (x = cur)) as [->|Hne].
    + rewrite Hm in E3, E4. unfold cut_off. destruct (terminal (Job_State j)) eqn:Et.
      * split; [|done]. exists j. rewrite E3, Hj. auto.
      * rewrite E3, E4, lookup_insert_eq, lookup_delete_eq. split; [|done]. eexists. split; [done|]. by split_and!.
    + destruct (H10 x j) as [(j' & Hj' & Hcut) Hq]; [set_solver|done|]. rewrite E3, E4.
      destruct (m0 !! cur) as [jc|]; [|eauto]. destruct (terminal _); [eauto|].
      rewrite lookup_insert_ne, lookup_delete_ne by done. eauto.
Qed.

Lemma cascade_cascading ix0 m0 q0 id fuel work V reason now s :
  cascading ix0 m0 q0 id V work s → eval (cascade fuel work V reason now) s = true →
  ∃ V', cascading ix0 m0 q0 id V' [] (exec (cascade fuel work V reason now) s).
Proof.
  revert work V reason s. induction fuel as [|fuel IH]; intros [|cur work] V reason s Hc; simpl; try by eauto.
  destruct (decide (cur ∈ V)) as [Hin|Hin]; [by apply IH, (cascading_skip _ _ _ _ _ cur)|].
  mrun. by apply IH, cascading_step.
Qed.

(** ** Properties *)

(** C23. [cancelCascade] does what it is for.  Its loop ends, and on a healthy
    store it leaves the jobs outside the transitive dependents of [id] alone;
    among [id] and its dependents, finished jobs keep their result, and every
    other one ends up CANCELED, otherwise with the same identity, and out of the
    ready queue. *)
Theorem cancelCascade_spec id reason s :
  healthy s.(sv_store) → queue_wf s.(sv_queue) →
  let s' := exec (cancelCascade id reason) s in
  eval (cancelCascade id reason) s = true ∧
  ∃ X : gset string, (∀ x, x ∈ X ↔ rtc (waits s.(sv_revIndex)) id x) ∧
    (∀ x, x ∉ X → jobs_of s' !! x = jobs_of s !! x) ∧
    (∀ x j, x ∈ X → jobs_of s !! x = Some j →
       (∃ j', jobs_of s' !! x = Some j' ∧ cut_off j j') ∧
       (terminal j.(Job_State) = false → queue_view s'.(sv_queue) !! x = None)).
Proof.
  intros Hh Hq s'. split; [apply cancelCascade_total|].
  pose proof (cancelCascade_total id reason s) as Ht. subst s'. revert Ht. unfold cancelCascade. mrun. intros Ht.
  apply (cascade_cascading (sv_revIndex s) (jobs_of s) (queue_view (sv_queue s)) id) in Ht
    as (V & [_ _ H3 H4 H5 _ _ H8 _ H10]).
  - exists V. split_and!; [|intros x Hx; by apply H8|done]. intros x. split; [intros Hx; apply H3; by left|].
    intros Hr. assert (id ∈ V) as Hid by (destruct H4 as [?|?%not_elem_of_nil]; done). clear H3 H4 H8 H10.
    induction Hr as [|a b c Hab _ IH]; [done|]. apply IH.
    destruct (H5 a b Hid Hab) as [?|?%not_elem_of_nil]; done.
  - split; try done.
    + intros x [?| ->%list_elem_of_singleton]; [set_solver|done].
    + right. by apply list_elem_of_singleton.
Qed.

End cascade.

(** ** A witness: failing "a" takes "b" and "c" with it *)

Section samples.
#[local] Existing Instance sample_env.
#[local] Existing Instance sample_cron.

Lemma cancelCascade_spec_witness :
  eval (cancelCascade "a" "gone") (sample_run sample_setup) = true ∧
  (λ id, (job_at id (exec (cancelCascade "a" "gone") (sample_run sample_setup))).(Job_State)) <$> ["a"; "b"; "c"] =
    [JOB_STATE_CANCELED; JOB_STATE_CANCELED; JOB_STATE_CANCELED].
Proof.
  split; [|vm_compute; reflexivity].
  apply (cancelCascade_spec "a" "gone" (sample_run sample_setup)).
  - split; vm_compute; reflexivity.
  - apply reachable_queue_ok, sample_reachable. vm_compute. reflexivity.
Defined.

End samples.
