(* ===== verification/ReplLog.v ===== *)
(** * The leader's replication log (replication, cluster.go and server.go)

    A leader that has seeded its log keeps it complete: the log replays to the
    jobs it has stored, whatever operations run. *)

From S2P Require Import Prelude Types Queue Retry Env Cluster Store MemStore Server Cycle Deps Lifecycle.
From S2P Require Import Dispatch Jobs Workers Replication Leadership Handlers Refinement Rebuild System Leases Ready Cascade.
From stdpp Require Import relations.

(** ** Replaying a log *)

(** An entry the leader may log: an upsert under an id. *)
Definition upsert (e : ReplicationEntry) : Prop :=
  match e.(ReplicationEntry_Mutation) with
  | Some (ReplicationEntry_UpsertJob j) => j.(Job_Id) ≠ ""
  | Some (ReplicationEntry_UpsertWorker w) => w.(WorkerInfo_Id) ≠ ""
  | _ => False
  end.

Definition replay_one (m : gmap string Job) (e : ReplicationEntry) : gmap string Job :=
  match e.(ReplicationEntry_Mutation) with
  | Some (ReplicationEntry_UpsertJob j) => <[j.(Job_Id):=j]> m
  | _ => m
  end.

Definition replay (log : list ReplicationEntry) (m : gmap string Job) : gmap string Job := foldl replay_one m log.

(** Entries are numbered 1, 2, ... *)
Definition numbered (log : list ReplicationEntry) : Prop :=
  ∀ i e, log !! i = Some e → e.(ReplicationEntry_Seq) = Z.of_nat (S i).

Lemma replay_mono log m m' : m ⊆ m' → replay log m ⊆ replay log m'.
Proof.
  revert m m'. induction log as [|e log IH]; intros m m' Hm; simpl; [done|]. apply IH.
  unfold replay_one. destruct (ReplicationEntry_Mutation e) as [[]|]; try done. by apply insert_mono.
Qed.

Lemma replay_app l1 l2 m : replay (l1 ++ l2) m = replay l2 (replay l1 m).
Proof. apply foldl_app. Qed.

Lemma numbered_app log e :
  numbered log → e.(ReplicationEntry_Seq) = Z.of_nat (S (length log)) → numbered (log ++ [e]).
Proof.
  intros Hn He i e' [Hi|[Hi Hx]]%lookup_app_Some; [by apply Hn|].
  apply list_lookup_singleton_Some in Hx as [Heq <-]. rewrite He. f_equal. lia.
Qed.

(** Filtering by number cuts the log at the cursor. *)
Lemma numbered_after log (c : nat) :
  numbered log → filter (λ e, Z.of_nat c < e.(ReplicationEntry_Seq))%Z log = drop c log.
Proof.
  intros Hn. rewrite <- (take_drop c log) at 1. rewrite filter_app, filter_none, filter_all; [done|..].
  - intros e [i Hi]%list_elem_of_lookup. rewrite lookup_drop in Hi. rewrite (Hn _ e Hi). lia.
  - intros e [i [Hi Hc]%lookup_take_Some]%list_elem_of_lookup. rewrite (Hn i e Hi). lia.
Qed.

(** The highest number past the cursor, 0 if there is none. *)
Lemma highest_after log c :
  numbered log → c <= length log →
  highest_seq (drop c log) = if decide (c = length log) then 0%Z else Z.of_nat (length log).
Proof.
  induction log as [|e log IH] using rev_ind; intros Hn Hc.
  - rewrite drop_nil. by destruct (decide _).
  - rewrite length_app in *. simpl in *. destruct (decide (c = length log + 1)) as [->|Hne].
    { rewrite drop_ge by (rewrite length_app; simpl; lia). done. }
    rewrite drop_app_le by lia. unfold highest_seq in *. rewrite foldl_app, IH; [|intros i e' Hi|lia].
    + simpl. rewrite (Hn (length log) e) by (by rewrite lookup_app_r, Nat.sub_diag).
      destruct (decide (c = length log));
        match goal with |- context [(?a <? ?b)%Z] => destruct (Z.ltb_spec a b) end; lia.
    + apply Hn. by apply lookup_app_l_Some.
Qed.

Section repl_log.
Context {St : Type} {Gstore : JobStore St} {Genv : Env} {Gcron : Cron}.
Implicit Types (s f : Server St) (j : Job).

(** ** The leader's log *)

(** The log holds upserts, numbered while the counter does not overflow. *)
Definition log_shape (log : list ReplicationEntry) (seq : Z) : Prop :=
  Forall upsert log ∧
  ((Z.of_nat (length log) <= max_int64)%Z → numbered log ∧ seq = Z.of_nat (length log)).

(** ... and replays to the stored jobs. *)
Record log_ok s : Prop := {
  lg_shape : log_shape s.(sv_replLog) s.(sv_replSeq);
  lg_replay : replay s.(sv_replLog) ∅ = jobs_of s
}.

Definition leads s : Prop := IsLeader s.(sv_node) = true.

(** Steps that leave the node, the jobs and the log alone. *)
Definition log_frame s s' : Prop :=
  s'.(sv_node) = s.(sv_node) ∧ jobs_of s' = jobs_of s ∧
  s'.(sv_replLog) = s.(sv_replLog) ∧ s'.(sv_replSeq) = s.(sv_replSeq) ∧ s'.(sv_peerAcked) = s.(sv_peerAcked).

#[export] Instance log_frame_preorder : PreOrder log_frame.
Proof. split; [by intros s|]. intros a b c (?&?&?&?&?) (?&?&?&?&?). split_and!; congruence. Qed.

Lemma log_frame_ok s s' : log_frame s s' → log_ok s → log_ok s'.
Proof. intros (_ & Hj & Hl & Hs & _) [H1 H2]. split; rewrite Hl; [by rewrite Hs|congruence]. Qed.

Lemma jobs_keys s id j : jobs_of s !! id = Some j → id ≠ "".
Proof. intros Hj ->. pose proof (proj1 (no_empty_keys (sv_store s))). unfold jobs_of in Hj. congruence. Qed.

(** Appending an entry under the next number. *)
Lemma append_shape log seq e :
  log_shape log seq → upsert e →
  log_shape (log ++ [set_ReplicationEntry_Seq (int64 (seq + 1)) e]) (int64 (seq + 1)).
Proof.
  intros [Hu Hn] He. split.
  - apply Forall_app. split; [done|]. by apply Forall_singleton.
  - rewrite length_app. simpl. intros Hl. destruct Hn as [Hn ->]; [lia|].
    rewrite int64_small by (unfold min_int64; lia). split; [|lia]. apply numbered_app; [done|]. simpl. lia.
Qed.

Lemma append_replay log seq e m :
  replay (log ++ [set_ReplicationEntry_Seq seq e]) m = replay_one (replay log m) e.
Proof. by rewrite replay_app. Qed.

(** ** Every handler of the leader keeps its log

    The handlers do not touch the election node; if the node [n] leads and the
    log is in order (when [P] holds), it stays so.  Entries are only appended,
    and no cursor moves. *)

Section leading.
Context (n : Node) (Hn : IsLeader n = true) (P : Prop).
Context (log0 : list ReplicationEntry) (acked0 : gmap string Z).

Definition leads_ok s : Prop :=
  (s.(sv_node) = n ∧ s.(sv_peerAcked) = acked0 ∧ log0 `prefix_of` s.(sv_replLog)) ∧ (P → log_ok s).

Lemma leads_frame {A} (m : M (Server St) A) : within log_frame m → preserves leads_ok m.
Proof.
  intros Hm s [(Hl & Ha & Hp) Hok]. pose proof (Hm s) as Hf. split.
  - destruct Hf as (-> & _ & -> & _ & ->). done.
  - intros HP. by eapply log_frame_ok, Hok.
Qed.

Lemma putJob_leads j : preserves leads_ok (putJob j).
Proof.
  intros s [(Hl & Ha & Hp) Hok]. unfold putJob. mrun.
  change (eval (on_store (PutJob j)) s) with (eval (PutJob j) (sv_store s)).
  set (s1 := exec (on_store (PutJob j)) s).
  assert (jobs_of s1 = match eval (PutJob j) (sv_store s) with
                       | None => <[j.(Job_Id):=j]> (jobs_of s) | Some _ => jobs_of s end) as Hj.
  { change (v_jobs (st_view (exec (PutJob j) (sv_store s))) = match eval (PutJob j) (sv_store s) with
      | None => <[j.(Job_Id):=j]> (jobs_of s) | Some _ => jobs_of s end).
    rewrite (PutJob_writes j (sv_store s)). by destruct (eval _ _). }
  destruct (eval (PutJob j) (sv_store s)) as [e|]; mrun.
  - split; [done|]. intros [H1 H2]%Hok. split; [done|]. by rewrite Hj.
  - unfold appendRepl, is_leader. mrun. change (IsLeader (sv_node s1)) with (IsLeader (sv_node s)).
    rewrite Hl, Hn. simpl. mrun. split; [split_and!; [done|done|by apply prefix_app_r]|]. intros [H1 H2]%Hok. split.
    + apply append_shape; [exact H1|]. apply (jobs_keys s1 (Job_Id j) j). by rewrite Hj, lookup_insert_eq.
    + refine (eq_trans (append_replay _ _ _ _) _).
      change (replay_one (replay (sv_replLog s) ∅) (mkReplicationEntry 0 (Some (ReplicationEntry_UpsertJob j))) = jobs_of s1).
      rewrite H2. by rewrite Hj.
Qed.

Lemma putWorker_leads w : preserves leads_ok (putWorker w).
Proof.
  intros s [(Hl & Ha & Hp) Hok]. unfold putWorker. mrun.
  change (eval (on_store (PutWorker w)) s) with (eval (PutWorker w) (sv_store s)).
  set (s1 := exec (on_store (PutWorker w)) s).
  assert (st_view (sv_store s1) = match eval (PutWorker w) (sv_store s) with
    | None => view_put_worker w (st_view (sv_store s)) | Some _ => st_view (sv_store s) end) as Hv
    by apply (PutWorker_writes w (sv_store s)).
  assert (jobs_of s1 = jobs_of s) as Hj by (unfold jobs_of; rewrite Hv; by destruct (eval _ _)).
  destruct (eval (PutWorker w) (sv_store s)) as [e|]; mrun.
  - split; [done|]. intros [H1 H2]%Hok. split; [done|]. by rewrite Hj.
  - unfold appendRepl, is_leader. mrun. change (IsLeader (sv_node s1)) with (IsLeader (sv_node s)).
    rewrite Hl, Hn. simpl. mrun. split; [split_and!; [done|done|by apply prefix_app_r]|]. intros [H1 H2]%Hok. split.
    + apply append_shape; [exact H1|]. change (WorkerInfo_Id w ≠ ""). intros Hw.
      pose proof (proj2 (no_empty_keys (sv_store s1))) as Hk.
      rewrite Hv in Hk. simpl in Hk. rewrite Hw, lookup_insert_eq in Hk. done.
    + refine (eq_trans (append_replay _ _ _ _) _).
      change (replay (sv_replLog s) ∅ = jobs_of s1). congruence.
Qed.

Lemma lo_modify (g : Server St → Server St) : (∀ s, log_frame s (g s)) → preserves leads_ok (modify g).
Proof. intros H. apply leads_frame. intros s. apply H. Qed.
Lemma lo_queue {A} (op : PriorityQueue → A * PriorityQueue) : preserves leads_ok (on_queue op).
Proof. apply leads_frame. intros s. unfold exec, on_queue. by destruct (op (sv_queue s)). Qed.
Lemma lo_tick : preserves leads_ok next_tick.
Proof. apply leads_frame. by intros s. Qed.
Lemma lo_dead j : preserves leads_ok (on_store (PutDeadLetter j)).
Proof.
  apply leads_frame. intros s. split_and!; try done. unfold jobs_of.
  change (sv_store (exec (on_store (PutDeadLetter j)) s)) with (exec (PutDeadLetter j) (sv_store s)).
  rewrite (PutDeadLetter_writes j (sv_store s)). by destruct (eval _ _).
Qed.
Lemma lo_steps : leader_steps (kept leads_ok).
Proof.
  split; [split|..]; intros; first [exact lo_tick|apply putJob_leads|apply putWorker_leads|apply lo_queue
                                    |apply lo_dead|by apply lo_modify].
Qed.

Lemma leader_op_ok o : leader_op o = true → preserves leads_ok (run_op o).
Proof. exact (leader_op_within (kept leads_ok) o lo_steps). Qed.

End leading.

(** A node that does not lead refuses them. *)
Lemma refused o s : leader_op o = true → ¬ leads s → exec (run_op o) s = s.
Proof.
  intros Ho Hn. unfold leads in Hn. apply not_true_is_false in Hn.
  assert (exec requireLeader s = s ∧ ∃ e, eval requireLeader s = Some e) as [Hx [e He]].
  { unfold requireLeader, is_leader. mrun. rewrite Hn. mrun. eauto. }
  destruct o; try done; simpl; mrun;
    unfold SubmitJob, CancelJob, PollTask, ReportTask, RegisterWorker, Heartbeat, reaper_tick, is_leader; mrun;
    rewrite ?He, ?Hx, ?Hn; by mrun.
Qed.

(** ** Seeding *)

(** A listing of jobs or workers is a listing of upserts. *)
Lemma snapshot_upserts (st : St) :
  Forall (λ m, upsert (mkReplicationEntry 0 (Some m))) (snapshot st).
Proof.
  pose proof (ListJobs_lists st) as Hj. pose proof (ListWorkers_lists st) as Hw.
  destruct (no_empty_keys st) as [Ej Ew]. unfold snapshot. apply Forall_app. split.
  - destruct (ListJobs st) as [js|]; [|constructor]. destruct Hj as [Hp _]. apply Forall_fmap, Forall_forall.
    intros j Hin. rewrite Hp in Hin. apply list_elem_of_fmap in Hin as ([k j'] & -> & Hk%elem_of_map_to_list).
    change (Job_Id j' ≠ ""). intros He. rewrite (jobs_keyed st k j' Hk) in He. congruence.
  - destruct (ListWorkers st) as [ws|]; [|constructor]. destruct Hw as [Hp _]. apply Forall_fmap, Forall_forall.
    intros w Hin. rewrite Hp in Hin. apply list_elem_of_fmap in Hin as ([k w'] & -> & Hk%elem_of_map_to_list).
    change (WorkerInfo_Id w' ≠ ""). intros He. rewrite (workers_keyed st k w' Hk) in He. congruence.
Qed.

Lemma snapshot_replays (st : St) jobs :
  ListJobs st = inl jobs →
  foldl (λ m x, replay_one m (mkReplicationEntry 0 (Some x))) ∅ (snapshot st) = (st_view st).(v_jobs).
Proof.
  intros Hl. pose proof (ListJobs_lists st) as Hj. unfold snapshot. rewrite Hl in *. destruct Hj as [Hp _].
  rewrite foldl_app, foldl_fmap. unfold replay_one at 2. simpl.
  change (foldl _ ∅ jobs) with (foldl (λ (m : gmap string Job) x, <[Job_Id x:=id x]> m) ∅ jobs).
  rewrite (foldl_insert_listed Job_Id id jobs _ Hp); [|exact (jobs_keyed st)]. rewrite map_fmap_id.
  destruct (ListWorkers st) as [ws|]; [|done]. rewrite foldl_fmap. generalize (v_jobs (st_view st)).
  induction ws as [|w ws IH]; intros m; simpl; [done|]. apply IH.
Qed.

Lemma seed_entries ms s :
  Forall (λ m, upsert (mkReplicationEntry 0 (Some m))) ms → log_shape s.(sv_replLog) s.(sv_replSeq) →
  let s' := exec (forM_ ms append_entry) s in
  log_shape s'.(sv_replLog) s'.(sv_replSeq) ∧
  replay s'.(sv_replLog) ∅ = foldl (λ m x, replay_one m (mkReplicationEntry 0 (Some x))) (replay s.(sv_replLog) ∅) ms ∧
  s'.(sv_store) = s.(sv_store) ∧ s'.(sv_node) = s.(sv_node) ∧ s'.(sv_peerAcked) = s.(sv_peerAcked).
Proof.
  revert s. induction ms as [|m ms IH]; intros s Hms Hs; [by split_and!|]. apply Forall_cons in Hms as [Hm Hms].
  simpl. rewrite exec_bind.
  destruct (IH (exec (append_entry m) s) Hms (append_shape _ _ _ Hs Hm)) as (B1 & B2 & B3 & B4 & B5).
  split_and!; [done| |by rewrite B3|by rewrite B4|by rewrite B5].
  rewrite B2. f_equal. exact (append_replay _ _ (mkReplicationEntry 0 (Some m)) ∅).
Qed.

(** A seeded log is in order, if the store could list its jobs. *)
Lemma seed_ok s jobs :
  ListJobs s.(sv_store) = inl jobs →
  log_ok (exec seedReplication s) ∧ (exec seedReplication s).(sv_node) = s.(sv_node) ∧
  (exec seedReplication s).(sv_peerAcked) = ∅.
Proof.
  intros Hl. unfold seedReplication. mrun. set (s0 := set_sv_peerAcked _ _).
  destruct (seed_entries (snapshot (sv_store s)) s0 (snapshot_upserts _)) as (B1 & B2 & B3 & B4 & B5); [done|].
  split_and!; [|by rewrite B4|by rewrite B5]. split; [done|].
  rewrite B2. simpl. rewrite (snapshot_replays _ jobs Hl). unfold jobs_of. by rewrite B3.
Qed.

(** ** Leaders that have seeded *)

(** The node leads and no takeover is still to be run. *)
Definition seeded (n : Node) : Prop :=
  n.(Node_role) = Leader ∧ ∀ t, OnLeader t ∉ n.(Node_spawned).

(** Steps of the election node that do not make it a seeded leader. *)
Definition calm (n n' : Node) : Prop := seeded n' → seeded n.

(** What the primitive steps guarantee. *)
Definition calmer (n n' : NodeState St) : Prop :=
  (n'.(ns_node).(Node_role) = Leader → n.(ns_node).(Node_role) = Leader) ∧
  (∀ t, OnLeader t ∈ n.(ns_node).(Node_spawned) → OnLeader t ∈ n'.(ns_node).(Node_spawned)) ∧
  node_keeps n n'.

#[export] Instance calmer_preorder : PreOrder calmer.
Proof.
  split; [by intros n; split_and!|]. intros a b c (?&?&H1) (?&?&H2). split_and!; [auto|auto|by etrans].
Qed.

Lemma calmer_calm n n' : calmer n n' → calm n.(ns_node) n'.(ns_node).
Proof. intros (H1 & H2 & _) [Hr Hp]. split; [auto|]. intros t Ht. by apply (Hp t), H2. Qed.

Lemma calmer_modify (g : Node → Node) :
  (∀ n, (g n).(Node_role) = Leader → n.(Node_role) = Leader) →
  (∀ n, n.(Node_spawned) ⊆ (g n).(Node_spawned)) → within calmer (modify_node g).
Proof. intros H1 H2 n. split_and!; [apply H1|intros t; apply H2|apply node_keeps_modify]. Qed.

Lemma calmer_spawn c : within calmer (modify_node (spawn c)).
Proof. apply calmer_modify; [done|]. intros n x Hx. simpl. set_solver. Qed.

Ltac calm_step := walk; try (apply calmer_modify; [done|by intros n x Hx]); try apply calmer_spawn.

Lemma calmer_persist : within calmer persistLocked.
Proof.
  intros n. pose proof (node_keeps_persist n) as Hk. revert Hk. unfold exec, persistLocked.
  destruct (SaveState _ _ _) as [o st]. by intros Hk; split_and!.
Qed.
Lemma calmer_tick : within calmer tick_node.
Proof. by intros n; split_and!. Qed.
Lemma calmer_get : within calmer get_node.
Proof. apply within_gets, _. Qed.
#[local] Hint Resolve calmer_persist calmer_tick calmer_get : pres.
Lemma calmer_reset : within calmer resetElectionTimerLocked.
Proof. unfold resetElectionTimerLocked. calm_step. Qed.
#[local] Hint Resolve calmer_reset : pres.
Lemma calmer_follow t : within calmer (becomeFollowerLocked t).
Proof. unfold becomeFollowerLocked. calm_step. Qed.
#[local] Hint Resolve calmer_follow : pres.
Lemma calmer_HandleVote t c : within calmer (HandleVote t c).
Proof. unfold HandleVote. calm_step. Qed.
Lemma calmer_ObserveLeader t l : within calmer (ObserveLeader t l).
Proof. unfold ObserveLeader. calm_step. Qed.
Lemma calmer_MaybeStepDown t : within calmer (MaybeStepDown t).
Proof. unfold MaybeStepDown. calm_step. Qed.

(** A node that is campaigning, or has won and not yet taken over. *)
Definition unseeded (n : NodeState St) : Prop :=
  n.(ns_node).(Node_role) = Leader → ∃ t, OnLeader t ∈ n.(ns_node).(Node_spawned).

Lemma calmer_unseeded {A} (m : M (NodeState St) A) : within calmer m → preserves unseeded m.
Proof. intros Hm n Hn Hr. destruct (Hm n) as (H1 & H2 & _). destruct (Hn (H1 Hr)) as [t Ht]. eauto. Qed.

Lemma unseeded_lead t : preserves unseeded (becomeLeaderLocked t).
Proof. intros n _ _. exists t. simpl. set_solver. Qed.
#[local] Hint Resolve unseeded_lead : pres.

Lemma unseeded_vote t v r : preserves unseeded (startElection_vote t v r).
Proof. unfold startElection_vote. walk; apply calmer_unseeded; eauto with pres. Qed.

Lemma unseeded_elect rs n : unseeded (exec (startElection rs) n).
Proof.
  unfold startElection. rewrite exec_bind.
  assert (unseeded (exec startElection_begin n)) as H.
  { unfold startElection_begin. rewrite exec_bind. apply (calmer_unseeded (A := Z * list string)); [|done].
    calm_step. }
  revert H. generalize (eval startElection_begin n), (exec startElection_begin n). intros tp n1.
  generalize 1%Z, (take (length tp.2) rs). intros v l. revert v n1.
  induction l as [|r l IH]; intros v n1 Hn; [done|]. simpl. rewrite exec_bind.
  pose proof (unseeded_vote tp.1 v r n1 Hn). by destruct (eval _ n1); [apply IH|].
Qed.

(** ** The log is in order in every reachable state *)

Definition repl_inv s : Prop := seeded s.(sv_node) → log_ok s.

Lemma calm_refl n : calm n n.
Proof. by intros H. Qed.
#[local] Hint Resolve calm_refl : core.

(** Steps that leave the jobs and the log alone and do not seed. *)
Definition quiet_log s s' : Prop :=
  calm s.(sv_node) s'.(sv_node) ∧ jobs_of s' = jobs_of s ∧
  s'.(sv_replLog) = s.(sv_replLog) ∧ s'.(sv_replSeq) = s.(sv_replSeq).

#[export] Instance quiet_log_preorder : PreOrder quiet_log.
Proof.
  split; [by intros s|]. intros a b c (Hc1&?&?&?) (Hc2&?&?&?).
  split_and!; [|congruence..]. intros Hs. by apply Hc1, Hc2.
Qed.

Lemma quiet_log_inv s s' : quiet_log s s' → repl_inv s → repl_inv s'.
Proof. intros (Hc & Hj & Hl & Hs) Hi [H1 H2]%Hc%Hi. split; rewrite Hl; [by rewrite Hs|congruence]. Qed.

Lemma quiet_modify (g : Server St → Server St) :
  (∀ s, quiet_log s (g s)) → within quiet_log (modify g).
Proof. intros H s. apply H. Qed.
Lemma quiet_node {A} (m : M (NodeState St) A) : within calmer m → within quiet_log (on_node m).
Proof.
  intros Hm s. pose proof (Hm (mkNodeState (sv_node s) (sv_store s) (sv_tick s))) as Hn.
  pose proof (calmer_calm _ _ Hn) as Hc. destruct Hn as (_ & _ & Hk & _). unfold exec, on_node in *.
  destruct (m _) as [a n]. by split_and!.
Qed.
Lemma quiet_queue {A} (q : PriorityQueue → A * PriorityQueue) : within quiet_log (on_queue q).
Proof. intros s. unfold exec, on_queue. by destruct (q (sv_queue s)). Qed.
Lemma quiet_tick : within quiet_log next_tick.
Proof. by intros s. Qed.
#[local] Hint Resolve quiet_queue quiet_tick : pres.

Ltac quiet_steps := walk; try (apply quiet_modify; intros s'; done).

Lemma quiet_timer id : within quiet_log (timer_fired id).
Proof. unfold timer_fired, enqueueJob, is_leader, getJob. quiet_steps. Qed.
Lemma quiet_ship rpc : within quiet_log (replication_tick rpc).
Proof.
  unfold replication_tick, broadcastReplicate, replicate_to, ackPeer, is_leader, range_keys. quiet_steps.
  - apply quiet_node, calmer_MaybeStepDown.
  - apply quiet_modify. intros s'. by destruct (_ <? _)%Z.
Qed.
Lemma quiet_observe t l : within quiet_log (_ ← Replicate t l []; mret tt).
Proof. unfold Replicate, applyEntries. simpl. quiet_steps. apply quiet_node, calmer_ObserveLeader. Qed.
Lemma quiet_clear : within quiet_log clearSchedulingState.
Proof. unfold clearSchedulingState. quiet_steps. Qed.
Lemma quiet_recover : within quiet_log recover.
Proof. unfold recover. quiet_steps. Qed.

(** A takeover seeds. *)
Lemma takeover_inv t s :
  (∀ st : St, ∃ jobs, ListJobs st = inl jobs) → repl_inv (exec (onBecomeLeader t) s).
Proof.
  intros Hl. unfold onBecomeLeader. rewrite exec_bind. generalize (exec rebuildSchedulingState s). intros s1 _.
  destruct (Hl (sv_store s1)) as [jobs Hj]. by destruct (seed_ok s1 jobs Hj).
Qed.

(** [Start] either makes a lone member leader, and takes over at once, or leaves
    the role as it is. *)
Lemma Start_leads (n : NodeState St) :
  (∃ t, eval Start n = Some (OnLeader t)) ∨
  (eval Start n = None ∧ (exec Start n).(ns_node).(Node_role) = n.(ns_node).(Node_role)).
Proof.
  unfold Start. mrun.
  set (n1 := exec _ n).
  assert (n1.(ns_node).(Node_role) = n.(ns_node).(Node_role)) as Hr.
  { subst n1. by destruct (LoadState (ns_store n)) as [[t v]|]. }
  clearbody n1. destruct (majority _ <=? 1)%Z; mrun; [by left; eexists|right]. split; [done|].
  unfold resetElectionTimerLocked. mrun. by destruct (0 <? _)%Z.
Qed.

Lemma start_inv s :
  (∀ st : St, ∃ jobs, ListJobs st = inl jobs) → s.(sv_node).(Node_role) ≠ Leader → repl_inv (exec start_server s).
Proof.
  intros Hl Hf. assert ((exec recover s).(sv_node).(Node_role) = s.(sv_node).(Node_role)) as Hn.
  { assert (PreOrder (λ a b : Server St, b.(sv_node) = a.(sv_node))).
    { split; [by intros ?|]. intros a b c. congruence. }
    assert (within (λ a b, b.(sv_node) = a.(sv_node)) recover) as H1; [|by rewrite (H1 s)].
    unfold recover. walk. by intros s2. }
  unfold start_server. rewrite exec_bind. revert Hn. generalize (exec recover s). intros s1 Hn.
  destruct (eval recover s); [intros [Hr _]; mrun in Hr; congruence|]. mrun.
  pose proof (Start_leads (mkNodeState (sv_node s1) (sv_store s1) (sv_tick s1))) as Hs.
  destruct Hs as [[t Ht]|[Ht Hr]].
  - assert (eval (on_node Start) s1 = Some (OnLeader t)) as ->; [|mrun; by apply takeover_inv].
    revert Ht. unfold eval, on_node. by destruct (Start _).
  - assert (eval (on_node Start) s1 = None) as -> by (revert Ht; unfold eval, on_node; by destruct (Start _)).
    revert Hr. unfold exec at 1, on_node. intros Hr [Hr' _]. mrun in Hr'. revert Hr'. unfold exec.
    destruct (Start _) as [cb n1]. simpl in *. congruence.
Qed.

Lemma callback_inv i s :
  (∀ st : St, ∃ jobs, ListJobs st = inl jobs) → repl_inv s → repl_inv (exec (run_callback i) s).
Proof.
  intros Hl Hi. unfold run_callback. mrun. destruct (_ !! i) as [[t|t]|] eqn:Ei; mrun; [by apply takeover_inv| |done].
  eapply quiet_log_inv; [|exact Hi]. etrans; [|apply quiet_clear]. split_and!; [|done..].
  intros [Hr Hp]. split; [done|]. intros t' Ht. apply (Hp t'). simpl in *.
  apply list_elem_of_lookup in Ht as [k Hk]. rewrite delete_take_drop.
  assert (k ≠ i) by (intros ->; congruence). apply elem_of_app.
  destruct (decide (k < i)); [left|right]; apply list_elem_of_lookup.
  - exists k. rewrite lookup_take_lt by lia. done.
  - exists (k - S i). rewrite lookup_drop. rewrite <- Hk. f_equal. lia.
Qed.

(** Every operation keeps it. *)
Lemma op_repl_inv o s :
  (∀ st : St, ∃ jobs, ListJobs st = inl jobs) → repl_inv s → repl_inv (exec (run_op o) s).
Proof.
  intros Hl Hi. destruct (leader_op o) eqn:Ho.
  { destruct (IsLeader (sv_node s)) eqn:El.
    - destruct (leader_op_ok (sv_node s) El (seeded (sv_node s)) [] (sv_peerAcked s) o Ho s) as [(Hn & _) Hok].
      { split; [|exact Hi]. split_and!; [done|done|apply prefix_nil]. }
      intros Hs. apply Hok. by rewrite <- Hn.
    - rewrite refused; [done|done|]. unfold leads. congruence. }
  destruct o; try done; simpl.
  - eapply quiet_log_inv; [apply quiet_timer|done].
  - eapply quiet_log_inv; [apply quiet_ship|done].
  - mrun. eapply quiet_log_inv; [apply (quiet_node (HandleVote term candidate)), calmer_HandleVote|done].
  - eapply quiet_log_inv; [apply quiet_observe|done].
  - intros [Hr Hp]. exfalso. pose proof (unseeded_elect results (mkNodeState (sv_node s) (sv_store s) (sv_tick s))) as Hu.
    revert Hu Hr Hp. unfold exec, on_node. destruct (startElection _ _) as [[] n]. simpl.
    intros Hu Hr Hp. destruct (Hu Hr) as [t Ht]. by apply (Hp t).
  - by apply callback_inv.
  - unfold restart. mrun. by apply start_inv.
  - eapply quiet_log_inv; [|done]. done.
Qed.

Lemma reachable_repl_inv s :
  (∀ st : St, ∃ jobs, ListJobs st = inl jobs) → reachable s → repl_inv s.
Proof.
  intros Hl (s0 & (cfg & st & k & -> & _) & Hr).
  assert (repl_inv (new_server cfg st k)) as H0 by (by intros [? _]).
  revert H0. induction Hr as [s|a b c [s o _] _ IH]; [done|]. intros H0. by apply IH, op_repl_inv.
Qed.

End repl_log.
