(* ===== verification/Convergence.v ===== *)
(** * Followers converge to the leader (cluster.go, replication)

    A leader and one follower joined by a link that may lose requests and
    replies: whatever the leader does in between, the next shipment that arrives
    brings the follower every job the leader has stored, and nothing is left to
    ship. *)

From S2P Require Import Prelude Types Queue Retry Env Cluster Store MemStore Server Cycle Deps Lifecycle.
From S2P Require Import Dispatch Jobs Workers Replication Leadership Refinement Rebuild System Leases Ready Cascade.
From S2P Require Import ReplLog.
From stdpp Require Import relations.

(** ** Replaying part of a log again *)

Lemma replay_union log m : replay log m = replay log ∅ ∪ m.
Proof.
  induction log as [|e log IH] using rev_ind; [change (m = ∅ ∪ m); by rewrite (left_id_L ∅ (∪))|].
  rewrite !replay_app. simpl. rewrite IH. unfold replay_one.
  destruct (ReplicationEntry_Mutation e) as [[]|]; try done. by rewrite insert_union_l.
Qed.

Lemma replay_again c log : replay (drop c log) (replay log ∅) = replay log ∅.
Proof.
  rewrite <- (take_drop c log) at 2 3. rewrite replay_app, (replay_union _ (replay _ _)).
  by rewrite (replay_union (drop c log) (replay (take c log) ∅)), (assoc_L (∪)), (idemp_L (∪)).
Qed.

Section link.
Context {St : Type} {Gstore : JobStore St} {Gdur : DurableStore St} {Genv : Env} {Gcron : Cron}.
Implicit Types (s f : Server St).

(** ** Model *)

(** The request of one round: what the leader sends to follower [p]. *)
Definition shipment (p : string) s : M (Server St) (bool * Z * Z) :=
  Replicate (Term s.(sv_node)) s.(sv_cfg).(Config_NodeID) (entriesForPeer p s).

(** The leader's part of the round, when follower [p] in state [f] answers. *)
Definition round (p : string) f s : Server St :=
  exec (replicate_to (Term s.(sv_node))
    (λ t es, Some (eval (Replicate t s.(sv_cfg).(Config_NodeID) es) f)) p) s.

Inductive link_step (p : string) : Server St * Server St → Server St * Server St → Prop :=
| leader_works s f o : leader_op o = true → link_step p (s, f) (exec (run_op o) s, f)
| reply_lost s f : link_step p (s, f) (s, exec (shipment p s) f)
| delivered s f : link_step p (s, f) (round p f s, exec (shipment p s) f).

(** ** The follower's side *)

(** The node is in term [t]. *)
Definition in_term (t : Z) (n : NodeState St) : Prop := n.(ns_node).(Node_currentTerm) = t.

Lemma in_term_modify t (g : Node → Node) :
  (∀ n, (g n).(Node_currentTerm) = n.(Node_currentTerm)) → preserves (in_term t) (modify_node g).
Proof. intros Hg n Hn. unfold in_term. simpl. by rewrite Hg. Qed.
Lemma in_term_persist t : preserves (in_term t) persistLocked.
Proof. intros n Hn. unfold exec, persistLocked. by destruct (SaveState _ _ _). Qed.
Lemma in_term_tick t : preserves (in_term t) tick_node.
Proof. by intros n Hn. Qed.
Lemma in_term_get t : preserves (in_term t) get_node.
Proof. by intros n Hn. Qed.
#[local] Hint Resolve in_term_persist in_term_tick in_term_get : pres.

Ltac same_term := walk; try (by apply in_term_modify).

Lemma in_term_reset t : preserves (in_term t) resetElectionTimerLocked.
Proof. unfold resetElectionTimerLocked. same_term. Qed.
#[local] Hint Resolve in_term_reset : pres.

(** Run the rest of a method from a state in the term. *)
Ltac run_rest := match goal with |- in_term ?t (exec ?m ?x) =>
  let H := fresh in assert (preserves (in_term t) m) as H; [same_term|apply H; try done] end.

Lemma becomeFollower_term t n :
  (n.(ns_node).(Node_currentTerm) < t)%Z → in_term t (exec (becomeFollowerLocked t) n).
Proof.
  intros Ht. unfold becomeFollowerLocked. rewrite exec_bind. cbv zeta. rewrite exec_bind.
  change (eval get_node n) with (ns_node n). change (exec get_node n) with n.
  rewrite (proj2 (Z.ltb_lt _ _) Ht). run_rest. by apply in_term_persist.
Qed.

(** A follower that has not moved past the term accepts, and is then in it. *)
Lemma ObserveLeader_accepts t l (n : NodeState St) :
  (n.(ns_node).(Node_currentTerm) <= t)%Z →
  eval (ObserveLeader t l) n = (true, t) ∧ in_term t (exec (ObserveLeader t l) n).
Proof.
  intros Ht.
  assert (in_term t (exec (ObserveLeader t l) n)) as Hin.
  { unfold ObserveLeader. rewrite exec_bind. change (eval get_node n) with (ns_node n). change (exec get_node n) with n.
    rewrite (proj2 (Z.ltb_ge _ _) Ht). destruct (Z.ltb_spec (Node_currentTerm (ns_node n)) t) as [Hlt|Hge].
    - rewrite exec_bind. run_rest. by apply becomeFollower_term.
    - assert (in_term t n) by (unfold in_term; lia). destruct (Node_role (ns_node n)); run_rest. }
  split; [|done]. rewrite <- Hin at 2. unfold ObserveLeader. mrun.
  change (eval get_node n) with (ns_node n). change (exec get_node n) with n.
  rewrite (proj2 (Z.ltb_ge _ _) Ht). destruct (_ <? t)%Z; [by mrun|]. by destruct (Node_role (ns_node n)); mrun.
Qed.

(** A follower on a healthy store applies what it is sent. *)
Lemma applyEntry_effect e f :
  upsert e → healthy f.(sv_store) →
  let f' := exec (applyEntry e) f in
  healthy f'.(sv_store) ∧ jobs_of f' = replay_one (jobs_of f) e ∧ f'.(sv_node) = f.(sv_node).
Proof.
  unfold upsert, applyEntry, replay_one. destruct (ReplicationEntry_Mutation e) as [[j|w|id]|]; try done; intros He Hh.
  - pose proof (PutJob_succeeds j _ Hh He) as Hn. pose proof (PutJob_healthy j _ Hh) as Hh'. mrun. split_and!; [done| |done].
    change (v_jobs (st_view (exec (PutJob j) (sv_store f))) = <[Job_Id j:=j]> (jobs_of f)).
    rewrite (PutJob_writes j), Hn. done.
  - pose proof (PutWorker_succeeds w _ Hh He) as Hn. pose proof (PutWorker_healthy w _ Hh) as Hh'. mrun.
    change (eval (on_store (PutWorker w)) f) with (eval (PutWorker w) (sv_store f)). rewrite Hn. mrun.
    split_and!; [done| |done].
    change (v_jobs (st_view (exec (PutWorker w) (sv_store f))) = jobs_of f).
    rewrite (PutWorker_writes w), Hn. done.
Qed.

Lemma applyEntries_effect es f :
  Forall upsert es → healthy f.(sv_store) →
  let f' := exec (applyEntries es) f in
  healthy f'.(sv_store) ∧ jobs_of f' = replay es (jobs_of f) ∧ f'.(sv_node) = f.(sv_node).
Proof.
  intros Hes Hh. unfold applyEntries. cbv zeta. mrun. revert f Hh.
  induction Hes as [|e es He Hes IH]; intros f Hh; [done|]. simpl forM_. rewrite exec_bind.
  destruct (applyEntry_effect e f He Hh) as (H1 & H2 & H3). destruct (IH _ H1) as (H4 & H5 & H6).
  split_and!; [done|by rewrite H5, H2|congruence].
Qed.

(** Answering an election message keeps a healthy store healthy. *)
Definition healthy_kept (n n' : NodeState St) : Prop := healthy n.(ns_store) → healthy n'.(ns_store).

#[export] Instance healthy_kept_preorder : PreOrder healthy_kept.
Proof. split; [intros n H; exact H|]. intros a b c H1 H2 H. by apply H2, H1. Qed.

Lemma healthy_persist : within healthy_kept persistLocked.
Proof.
  intros n Hh. unfold exec, persistLocked, SaveState, election_store.
  pose proof (SaveElection_healthy (Node_currentTerm (ns_node n)) (Node_votedFor (ns_node n)) _ Hh) as H.
  revert H. unfold exec. by destruct (SaveElection _ _ _).
Qed.
Lemma healthy_modify g : within healthy_kept (modify_node g).
Proof. by intros n Hn. Qed.
Lemma healthy_tick : within healthy_kept tick_node.
Proof. by intros n Hn. Qed.
Lemma healthy_get : within healthy_kept get_node.
Proof. by intros n Hn. Qed.
#[local] Hint Resolve healthy_persist healthy_modify healthy_tick healthy_get : pres.

Lemma ObserveLeader_healthy t l : within healthy_kept (ObserveLeader t l).
Proof. unfold ObserveLeader, becomeFollowerLocked, resetElectionTimerLocked. walk. Qed.

(** What a shipment does to a follower that accepts it. *)
Lemma Replicate_effect t l es f :
  Forall upsert es → healthy f.(sv_store) → (f.(sv_node).(Node_currentTerm) <= t)%Z →
  let f' := exec (Replicate t l es) f in
  eval (Replicate t l es) f = (true, t, highest_seq es) ∧
  healthy f'.(sv_store) ∧ jobs_of f' = replay es (jobs_of f) ∧ f'.(sv_node).(Node_currentTerm) = t.
Proof.
  intros Hes Hh Ht. set (n := mkNodeState (sv_node f) (sv_store f) (sv_tick f)).
  destruct (ObserveLeader_accepts t l n Ht) as [Hev Hin].
  pose proof (ObserveLeader_healthy t l n Hh) as Hh1. pose proof (node_keeps_ObserveLeader t l n) as [Hj _].
  set (f1 := exec (on_node (ObserveLeader t l)) f).
  assert (eval (on_node (ObserveLeader t l)) f = (true, t) ∧ f1.(sv_node) = (exec (ObserveLeader t l) n).(ns_node) ∧
    f1.(sv_store) = (exec (ObserveLeader t l) n).(ns_store)) as (E1 & E2 & E3).
  { subst f1. revert Hev. unfold eval, exec, on_node. fold n. by destruct (ObserveLeader t l n). }
  unfold Replicate. mrun. rewrite E1. simpl. mrun. fold f1.
  destruct (applyEntries_effect es f1 Hes) as (H1 & H2 & H3); [by rewrite E3|].
  split_and!; [done|done| |].
  - rewrite H2. unfold jobs_of. rewrite E3, Hj. done.
  - rewrite H3, E2. exact Hin.
Qed.

(** ** The link's invariant *)

Definition cursor (p : string) s : Z := default 0%Z (s.(sv_peerAcked) !! p).

(** While the leader's counter does not overflow: what the leader has stored is
    at the follower or still to be shipped. *)
Record linked (p : string) s f : Prop := {
  lk_seeded : seeded s.(sv_node);
  lk_log : log_ok s;
  lk_healthy : healthy f.(sv_store);
  lk_term : (f.(sv_node).(Node_currentTerm) <= Term s.(sv_node))%Z;
  lk_cursor : (Z.of_nat (length s.(sv_replLog)) <= max_int64)%Z →
    ∃ c : nat, cursor p s = Z.of_nat c ∧ c <= length s.(sv_replLog) ∧
      jobs_of s ⊆ replay (drop c s.(sv_replLog)) (jobs_of f)
}.

(** What is shipped is the log past the cursor. *)
Lemma entriesForPeer_drop p s (c : nat) :
  numbered s.(sv_replLog) → cursor p s = Z.of_nat c → entriesForPeer p s = drop c s.(sv_replLog).
Proof. intros Hn Hc. unfold entriesForPeer. fold (cursor p s). rewrite Hc. by apply numbered_after. Qed.

Lemma linked_works p s f o : leader_op o = true → linked p s f → linked p (exec (run_op o) s) f.
Proof.
  intros Ho [Hs Hlog Hh Ht Hc]. assert (IsLeader (sv_node s) = true) as Hl by (by apply bool_decide_eq_true, Hs).
  destruct (leader_op_ok (sv_node s) Hl True (sv_replLog s) (sv_peerAcked s) o Ho s) as [(Hn & Ha & [ext Hx]) Hok].
  { by split. }
  specialize (Hok I). split; [by rewrite Hn|done|done|by rewrite Hn|].
  rewrite Hx, length_app. intros Hlen. destruct Hc as (c & Hc & Hle & Hsub); [lia|].
  exists c. split_and!; [unfold cursor; by rewrite Ha|lia|].
  rewrite drop_app_le, replay_app by done. rewrite <- (lg_replay _ Hok), Hx, replay_app, (lg_replay _ Hlog).
  by apply replay_mono.
Qed.

(** A shipment that arrives. *)
Lemma shipment_effect p s f (c : nat) :
  linked p s f → numbered s.(sv_replLog) → cursor p s = Z.of_nat c → c <= length s.(sv_replLog) →
  let f' := exec (shipment p s) f in
  eval (shipment p s) f = (true, Term s.(sv_node),
    if decide (c = length s.(sv_replLog)) then 0%Z else Z.of_nat (length s.(sv_replLog))) ∧
  healthy f'.(sv_store) ∧ jobs_of f' = replay (drop c s.(sv_replLog)) (jobs_of f) ∧
  f'.(sv_node).(Node_currentTerm) = Term s.(sv_node).
Proof.
  intros [_ Hlog Hh Ht _] Hn Hc Hle. unfold shipment. rewrite (entriesForPeer_drop p s c Hn Hc).
  rewrite <- (highest_after _ _ Hn Hle). apply Replicate_effect; [|done|done].
  apply Forall_drop, (lg_shape _ Hlog).
Qed.

Lemma round_effect p s f (c : nat) :
  linked p s f → numbered s.(sv_replLog) → cursor p s = Z.of_nat c → c <= length s.(sv_replLog) →
  round p f s = if decide (c = length s.(sv_replLog)) then s
    else set_sv_peerAcked (<[p:=Z.of_nat (length s.(sv_replLog))]> s.(sv_peerAcked)) s.
Proof.
  intros Hlk Hn Hc Hle. destruct (shipment_effect p s f c Hlk Hn Hc Hle) as (He & _).
  unfold round, replicate_to. mrun. fold (shipment p s). rewrite He. simpl. unfold ackPeer.
  destruct (decide (c = _)); [done|]. destruct (Z.leb_spec (Z.of_nat (length (sv_replLog s))) 0); [lia|].
  mrun. fold (cursor p s). rewrite Hc. by destruct (Z.ltb_spec (Z.of_nat c) (Z.of_nat (length (sv_replLog s)))); [|lia].
Qed.

(** Before the counter overflows, a round brings the follower up to date. *)
Lemma delivered_linked p s f :
  linked p s f → (Z.of_nat (length s.(sv_replLog)) <= max_int64)%Z →
  let f' := exec (shipment p s) f in
  linked p (round p f s) f' ∧ jobs_of (round p f s) = jobs_of s ∧ jobs_of s ⊆ jobs_of f' ∧
  entriesForPeer p (round p f s) = [] ∧ linked p s f'.
Proof.
  intros Hlk Hlen f'. destruct (lg_shape _ (lk_log _ _ _ Hlk)) as [_ Hn]. destruct (Hn Hlen) as [Hn' _].
  destruct (lk_cursor _ _ _ Hlk Hlen) as (c & Hc & Hle & Hsub).
  destruct (shipment_effect p s f c Hlk Hn' Hc Hle) as (_ & Hh & Hj & Ht). fold f' in Hh, Hj, Ht.
  rewrite (round_effect p s f c Hlk Hn' Hc Hle). destruct Hlk as [Hs Hlog _ _ _].
  assert (jobs_of s ⊆ jobs_of f') as Hsub' by (by rewrite Hj).
  assert (linked p s f') as Hkeep.
  { split; [done|done|done|lia|]. intros _. exists c. split_and!; [done|done|].
    rewrite <- (lg_replay _ Hlog), <- (replay_again c). apply replay_mono. by rewrite (lg_replay _ Hlog). }
  destruct (decide (c = length (sv_replLog s))) as [->|Hne].
  - split_and!; [done|done|done| |done]. rewrite (entriesForPeer_drop p s _ Hn' Hc). apply drop_all.
  - set (s' := set_sv_peerAcked _ s).
    assert (cursor p s' = Z.of_nat (length (sv_replLog s'))) as Hc'.
    { unfold cursor. simpl. by rewrite lookup_insert_eq. }
    split_and!; [|done|done| |done].
    + split; [done|by split; apply Hlog|done|simpl; lia|]. intros _. exists (length (sv_replLog s')).
      split_and!; [done|done|]. by rewrite drop_all.
    + rewrite (entriesForPeer_drop p s' _ Hn' Hc'). apply drop_all.
Qed.

(** The log only grows. *)
Lemma link_grows p x y :
  rtc (link_step p) x y → length x.1.(sv_replLog) <= length y.1.(sv_replLog).
Proof.
  induction 1 as [x|x y z Hstep _ IH]; [done|]. transitivity (length (sv_replLog y.1)); [|done]. clear IH.
  destruct Hstep as [s f o Ho|s f|s f]; simpl; [|done|].
  - destruct (IsLeader (sv_node s)) eqn:El.
    + destruct (leader_op_ok (sv_node s) El False (sv_replLog s) (sv_peerAcked s) o Ho s) as [(_ & _ & Hp) _].
      { by split. }
      by apply prefix_length.
    + rewrite refused; [done|done|]. unfold leads. congruence.
  - unfold round, replicate_to. mrun. destruct (eval _ f) as [[[] pt] a]; simpl.
    + unfold ackPeer. destruct (a <=? 0)%Z; [done|]. mrun. by destruct (_ <? a)%Z.
    + pose proof (quiet_node _ (calmer_MaybeStepDown pt) s) as (_ & _ & -> & _). done.
Qed.

Lemma linked_steps p x y :
  rtc (link_step p) x y → (Z.of_nat (length y.1.(sv_replLog)) <= max_int64)%Z →
  linked p x.1 x.2 → linked p y.1 y.2.
Proof.
  intros Hr Hlen. induction Hr as [x|x y z Hstep Hr IH]; [done|]. intros Hlk. apply IH; [done|].
  pose proof (link_grows p y z Hr) as Hg.
  pose proof (link_grows p x y (rtc_once x y Hstep)) as Hg'.
  destruct Hstep as [s f o Ho|s f|s f]; simpl in *; [by apply linked_works|..];
    destruct (delivered_linked p s f Hlk) as (H1 & _ & _ & _ & H2); lia || done.
Qed.

Lemma new_link p s f :
  repl_inv s → seeded s.(sv_node) → s.(sv_peerAcked) !! p = None → healthy f.(sv_store) →
  (f.(sv_node).(Node_currentTerm) <= Term s.(sv_node))%Z → linked p s f.
Proof.
  intros Hi Hs Hp Hh Ht. pose proof (Hi Hs) as Hlog. split; [done..|]. intros _. exists 0.
  unfold cursor. rewrite Hp. split_and!; [done|lia|]. rewrite drop_0, <- (lg_replay _ Hlog).
  apply replay_mono, map_empty_subseteq.
Qed.

(** ** Properties *)

(** C4. Replication converges: take a leader that has taken over, reached on a
    store that can always list its jobs by operations that do not overlap, with
    submissions under ids that are not taken and without shipments to it, and a
    follower it has not yet shipped to, on a store that does not fail and in no
    later term. After any operations of the leader and any shipments to that
    follower, which arrive in the order they are sent but whose replies may be
    lost, and while the log fits an int64, the next shipment that is delivered
    leaves the follower with every job of the leader, in the leader's version,
    and leaves nothing to ship. *)
Theorem replication_converges p s f s' f' :
  (∀ st : St, ∃ jobs, ListJobs st = inl jobs) → reachable s → seeded s.(sv_node) →
  s.(sv_peerAcked) !! p = None → healthy f.(sv_store) →
  (f.(sv_node).(Node_currentTerm) <= Term s.(sv_node))%Z →
  rtc (link_step p) (s, f) (s', f') → (Z.of_nat (length s'.(sv_replLog)) <= max_int64)%Z →
  jobs_of (round p f' s') = jobs_of s' ∧
  jobs_of s' ⊆ jobs_of (exec (shipment p s') f') ∧
  entriesForPeer p (round p f' s') = [].
Proof.
  intros Hl Hr Hs Hp Hh Ht Hsteps Hlen.
  pose proof (linked_steps p _ _ Hsteps Hlen (new_link p s f (reachable_repl_inv s Hl Hr) Hs Hp Hh Ht)) as Hlk.
  destruct (delivered_linked p s' f' Hlk Hlen) as (_ & H1 & H2 & H3 & _). done.
Qed.

(** C33. The log of a leader that has taken over is complete in every state that
    operations which do not overlap can reach, with submissions under ids that
    are not taken, without shipments to this node, and on a store that can
    always list its jobs: replaying its upserts from nothing gives exactly the
    jobs it has stored, and its entries carry the numbers 1, 2, ..., as long as
    an int64 counts them. *)
Theorem leader_log_complete s :
  (∀ st : St, ∃ jobs, ListJobs st = inl jobs) → reachable s → seeded s.(sv_node) →
  replay s.(sv_replLog) ∅ = jobs_of s ∧
  ((Z.of_nat (length s.(sv_replLog)) <= max_int64)%Z → numbered s.(sv_replLog)).
Proof.
  intros Hl Hr Hs. destruct (reachable_repl_inv s Hl Hr Hs) as [[_ Hn] Hlog]. split; [done|]. apply Hn.
Qed.

End link.

(** ** A leader and a follower, for the witnesses

    Member "n1" of three wins an election and takes over; "n2" has an empty
    store.  The leader accepts job "a", ships it, loses the reply, and accepts
    job "b". *)

Section samples.
#[local] Existing Instance sample_env.
#[local] Existing Instance sample_cron.

Definition led_ops : list op := [Restart; Elect [mkVoteResult true 1 true]; Callback 0].
Definition sample_leader : Server MemStore := run_all led_ops (new_server three_members empty_store 0).
Definition sample_follower : Server MemStore := new_server (member_cfg "n2") empty_store 0.

Definition sample_leader1 : Server MemStore := exec (run_op (Submit (Some (sample_job "a" [])))) sample_leader.
Definition sample_follower1 : Server MemStore := exec (shipment "n2" sample_leader1) sample_follower.
Definition sample_leader2 : Server MemStore := exec (run_op (Submit (Some (sample_job "b" ["a"])))) sample_leader1.

Lemma sample_leader_reachable : reachable sample_leader.
Proof. apply run_all_reachable; [done|]. vm_compute. reflexivity. Qed.

Lemma sample_leader_seeded : seeded sample_leader.(sv_node).
Proof.
  assert (sample_leader.(sv_node).(Node_spawned) = []) as H by (vm_compute; reflexivity).
  split; [vm_compute; reflexivity|]. intros t. rewrite H. apply not_elem_of_nil.
Qed.

Lemma sample_link : rtc (link_step "n2") (sample_leader, sample_follower) (sample_leader2, sample_follower1).
Proof.
  unfold sample_leader2, sample_follower1, sample_leader1. generalize sample_leader, sample_follower. intros s f.
  eapply rtc_l; [apply (leader_works "n2" s f (Submit (Some (sample_job "a" [])))); reflexivity|].
  eapply rtc_l; [apply reply_lost|]. apply rtc_once.
  apply (leader_works "n2" _ _ (Submit (Some (sample_job "b" ["a"])))). reflexivity.
Qed.

Lemma sample_acked : sample_leader.(sv_peerAcked) !! "n2" = None.
Proof. vm_compute. reflexivity. Qed.

Lemma sample_terms :
  (sample_follower.(sv_node).(Node_currentTerm) <= Term sample_leader.(sv_node))%Z.
Proof. apply Z.leb_le. vm_compute. reflexivity. Qed.

Lemma sample_log_short : (Z.of_nat (length sample_leader2.(sv_replLog)) <= max_int64)%Z.
Proof. apply Z.leb_le. vm_compute. reflexivity. Qed.

Lemma sample_lists (st : MemStore) : ∃ jobs, ListJobs st = inl jobs.
Proof. by eexists. Qed.

Lemma replication_converges_witness :
  jobs_of (round "n2" sample_follower1 sample_leader2) = jobs_of sample_leader2 ∧
  jobs_of sample_leader2 ⊆ jobs_of (exec (shipment "n2" sample_leader2) sample_follower1) ∧
  entriesForPeer "n2" (round "n2" sample_follower1 sample_leader2) = [].
Proof.
  exact (replication_converges "n2" sample_leader sample_follower sample_leader2 sample_follower1
    sample_lists sample_leader_reachable sample_leader_seeded sample_acked empty_store_healthy sample_terms
    sample_link sample_log_short).
Defined.

Lemma leader_log_complete_witness :
  replay sample_leader.(sv_replLog) ∅ = jobs_of sample_leader ∧
  ((Z.of_nat (length sample_leader.(sv_replLog)) <= max_int64)%Z → numbered sample_leader.(sv_replLog)).
Proof. exact (leader_log_complete sample_leader sample_lists sample_leader_reachable sample_leader_seeded). Defined.

End samples.
