(* ===== verification/Tracking.v ===== *)
(** * No job is lost

    On a store that does not fail, and with the election's callbacks run in the
    order they were started, a leader that has taken over accounts for every
    stored job: a queued one is in the ready queue or behind an armed timer, a
    running one is leased, and a pending one is indexed under each of its
    dependencies. *)

From S2P Require Import Prelude Types Queue Retry Env Cluster Store MemStore Server Cycle Deps Lifecycle.
From S2P Require Import Dispatch Jobs Workers Replication Leadership Handlers Refinement Rebuild System Leases Ready Cascade.
From S2P Require Import ReplLog Convergence.
From stdpp Require Import relations.

Lemma add_edges_waits id deps (ix : index) d x :
  waits (add_edges id deps ix) d x ↔ waits ix d x ∨ (x = id ∧ d ∈ deps).
Proof.
  unfold add_edges. revert ix. induction deps as [|y deps IH]; intros ix; simpl.
  - rewrite elem_of_nil. tauto.
  - rewrite IH, elem_of_cons. unfold waits. destruct (decide (d = y)) as [->|Hne].
    + rewrite lookup_insert_eq. simpl. rewrite elem_of_union, elem_of_singleton. tauto.
    + rewrite lookup_insert_ne by done. tauto.
Qed.

(** After a push the id is queued, and so is what was queued before. *)
Lemma push_queued id p c q x :
  queue_wf q → x = id ∨ is_Some (queue_view q !! x) → is_Some (queue_view (Queue_Push id p c q).2 !! x).
Proof.
  intros Hwf Hx. destruct (queue_view q !! id) as [e|] eqn:Hv.
  - assert ((Queue_Push id p c q).2 = q) as ->.
    { unfold Queue_Push. rewrite view_lookup in Hv. by destruct (q_byID q !! id). }
    destruct Hx as [-> |Hx]; [by eexists|done].
  - destruct (push_wf id p c q Hwf Hv) as (q' & Hp & _ & Hv'). rewrite Hp. simpl. rewrite Hv'.
    apply lookup_insert_is_Some'. destruct Hx; auto.
Qed.

Section tracking.
Context {St : Type} {Gstore : JobStore St} {Gdur : DurableStore St} {Genv : Env} {Gcron : Cron}.
Implicit Types (s : Server St) (j : Job) (X : gset string).

(** ** What accounts for a job *)

Definition tracked s (id : string) j : Prop :=
  match j.(Job_State) with
  | JOB_STATE_QUEUED => is_Some (queue_view s.(sv_queue) !! id) ∨ is_Some (s.(sv_retryTimers) !! id)
  | JOB_STATE_RUNNING => ∃ t l, s.(sv_leases) !! t = Some l ∧ l.(lease_jobID) = id
  | JOB_STATE_PENDING => ∀ d, d ∈ j.(Job_DependsOn) → waits s.(sv_revIndex) d id
  | _ => True
  end.

(** A leader at work that accounts for every job outside [X]. *)
Record sched X s : Prop := mkSched {
  sc_leader : IsLeader s.(sv_node) = true;
  sc_open : s.(sv_closed) = false;
  sc_healthy : healthy s.(sv_store);
  sc_queue : queue_wf s.(sv_queue);
  sc_tracked id j : id ∉ X → jobs_of s !! id = Some j → tracked s id j
}.

Lemma sched_mono X Y s : X ⊆ Y → sched X s → sched Y s.
Proof. intros Hs [H1 H2 H3 H4 H5]. split; auto. Qed.

(** Two states that agree on everything but the store. *)
Definition same_sched s s' : Prop :=
  s'.(sv_node) = s.(sv_node) ∧ s'.(sv_closed) = s.(sv_closed) ∧ s'.(sv_queue) = s.(sv_queue) ∧
  s'.(sv_retryTimers) = s.(sv_retryTimers) ∧ s'.(sv_leases) = s.(sv_leases) ∧ s'.(sv_revIndex) = s.(sv_revIndex).

#[export] Instance same_sched_preorder : PreOrder same_sched.
Proof. split; [by intros s|]. intros a b c (?&?&?&?&?&?) (?&?&?&?&?&?). split_and!; congruence. Qed.

Lemma same_sched_tracked s s' id j : same_sched s s' → tracked s id j → tracked s' id j.
Proof. intros (_ & _ & Hq & Ht & Hl & Hi). unfold tracked. by rewrite Hq, Ht, Hl, Hi. Qed.

(** ... and on the store. *)
Definition sched_frame s s' : Prop := same_sched s s' ∧ s'.(sv_store) = s.(sv_store).

#[export] Instance sched_frame_preorder : PreOrder sched_frame.
Proof. split; [by intros s|]. intros a b c [H1 ?] [H2 ?]. split; [by etrans|congruence]. Qed.

Lemma frame_sched X s s' : sched_frame s s' → sched X s → sched X s'.
Proof.
  intros [Hs Hst] [H1 H2 H3 H4 H5]. pose proof Hs as (Hn & Hc & Hq & _).
  split; [by rewrite Hn|by rewrite Hc|by rewrite Hst|by rewrite Hq|].
  intros id j Hid. unfold jobs_of. rewrite Hst. intros Hj. eapply same_sched_tracked; [done|by apply H5].
Qed.

Lemma still_sched {A} X (m : M (Server St) A) : within sched_frame m → preserves (sched X) m.
Proof. intros Hm s. apply frame_sched, Hm. Qed.

Lemma sf_modify (g : Server St → Server St) : (∀ s, sched_frame s (g s)) → within sched_frame (modify g).
Proof. intros H s. apply H. Qed.
Lemma sf_tick : within sched_frame next_tick.
Proof. by intros s. Qed.
Lemma sf_count c : within sched_frame (count c).
Proof. by apply sf_modify. Qed.
#[local] Hint Resolve sf_tick sf_count : pres.
Lemma sf_Now : within sched_frame Now.
Proof. unfold Now. walk. Qed.
Lemma sf_Until t : within sched_frame (Until t).
Proof. unfold Until, Now. walk. Qed.
Lemma sf_new_id p : within sched_frame (new_id p).
Proof. unfold new_id. walk. Qed.
Lemma sf_range ks : within sched_frame (range_keys ks).
Proof. unfold range_keys. walk. Qed.
Lemma sf_requireLeader : within sched_frame requireLeader.
Proof. unfold requireLeader, is_leader, leaderAddr. walk. Qed.
Lemma sf_fire_time j now : within sched_frame (fire_time j now).
Proof. unfold fire_time. walk; apply sf_Until. Qed.
#[local] Hint Resolve sf_Now sf_Until sf_new_id sf_range sf_requireLeader sf_fire_time : pres.

(** ** The steps of the handlers *)

Lemma same_sched_putJob j : within same_sched (putJob j).
Proof.
  unfold putJob, appendRepl, is_leader. walk; by intros s'.
Qed.

(** Storing a job leaves only that job to account for. *)
Lemma putJob_sched X s j :
  sched X s → j.(Job_Id) ≠ "" →
  let s' := exec (putJob j) s in
  eval (putJob j) s = None ∧ sched ({[j.(Job_Id)]} ∪ X) s' ∧ stored s' j ∧
  (tracked s j.(Job_Id) j → sched (X ∖ {[j.(Job_Id)]}) s').
Proof.
  intros [H1 H2 H3 H4 H5] Hid s'. destruct (putJob_durable s j H3 Hid) as (He & Hh & Hj). fold s' in Hh, Hj.
  pose proof (same_sched_putJob j s) as Hs. fold s' in Hs. pose proof Hs as (Hn & Hc & Hq & _).
  assert (∀ id j', id ≠ Job_Id j → id ∉ X → jobs_of s' !! id = Some j' → tracked s' id j') as Hrest.
  { intros id j' Hne Hx. rewrite Hj, lookup_insert_ne by done. intros Hst.
    eapply same_sched_tracked; [done|by apply H5]. }
  split_and!; [done| | |].
  - split; [by rewrite Hn|by rewrite Hc|done|by rewrite Hq|]. intros id j' Hx. apply Hrest; set_solver.
  - unfold stored. by rewrite Hj, lookup_insert_eq.
  - intros Ht. split; [by rewrite Hn|by rewrite Hc|done|by rewrite Hq|]. intros id j' Hx Hst.
    destruct (decide (id = Job_Id j)) as [->|Hne]; [|apply Hrest; set_solver].
    rewrite Hj, lookup_insert_eq in Hst. injection Hst as <-. by eapply same_sched_tracked.
Qed.

(** A step on anything but the store. *)
Lemma sched_update X Y s s' :
  sched X s → IsLeader s'.(sv_node) = true → s'.(sv_closed) = false → s'.(sv_store) = s.(sv_store) →
  queue_wf s'.(sv_queue) →
  (∀ id j, id ∉ Y → jobs_of s !! id = Some j → (id ∉ X → tracked s id j) → tracked s' id j) →
  sched Y s'.
Proof.
  intros [H1 H2 H3 H4 H5] Hl Hc Hst Hq Ht. split; [done|done|by rewrite Hst|done|].
  intros id j Hid. unfold jobs_of. rewrite Hst. intros Hj. apply Ht; auto.
Qed.

Lemma on_queue_run {A} (op : PriorityQueue → A * PriorityQueue) s :
  exec (on_queue op) s = set_sv_queue (op s.(sv_queue)).2 s ∧ eval (on_queue op) s = (op s.(sv_queue)).1.
Proof. unfold exec, eval, on_queue. by destruct (op (sv_queue s)). Qed.

Lemma push_sched X s id p c :
  sched X s → (∀ j, jobs_of s !! id = Some j →
    j.(Job_State) = JOB_STATE_QUEUED ∨ terminal j.(Job_State) = true ∨ id ∉ X) →
  sched (X ∖ {[id]}) (exec (on_queue (Queue_Push id p c)) s).
Proof.
  intros Hs Hid. rewrite (proj1 (on_queue_run _ s)). pose proof (sc_queue _ _ Hs) as Hwf.
  eapply sched_update; [exact Hs|apply Hs|apply Hs|done|by apply push_wf_any|].
  intros x j Hx Hj Ht. unfold tracked in *. simpl.
  destruct (decide (x = id)) as [->|Hne].
  - destruct (Hid j Hj) as [->|[Hn|Hn]]; [left; by apply push_queued; [|left]|by destruct (Job_State j)|].
    specialize (Ht Hn). destruct (Job_State j); try done. left. by apply push_queued; [|left].
  - assert (x ∉ X) as Hx' by set_solver. specialize (Ht Hx'). destruct (Job_State j); try done.
    destruct Ht as [Ht|Ht]; [left; by apply push_queued; [|right]|by right].
Qed.

(** Dropping an id from the queue leaves its job to account for. *)
Lemma unqueue_sched X s id q :
  sched X s → queue_wf q → queue_view q = delete id (queue_view s.(sv_queue)) →
  sched ({[id]} ∪ X) (set_sv_queue q s).
Proof.
  intros Hs Hwf Hv. eapply sched_update; [exact Hs|apply Hs|apply Hs|done|done|].
  intros x j Hx Hj Ht. assert (x ∉ X) as Hx' by set_solver. specialize (Ht Hx'). revert Ht. unfold tracked. simpl.
  destruct (Job_State j); try done. rewrite Hv, lookup_delete_ne by set_solver. done.
Qed.

(** Forgetting about [id] where its job, if stored, is accounted for anyway. *)
Lemma sched_settle X s id :
  sched ({[id]} ∪ X) s → (∀ j, jobs_of s !! id = Some j → tracked s id j) → sched X s.
Proof.
  intros [H1 H2 H3 H4 H5] Hid. split; auto. intros x j Hx Hj.
  destruct (decide (x = id)) as [->|Hne]; [by apply Hid|]. apply H5; set_solver.
Qed.

Lemma removeLease_sched X s t l :
  sched X s → s.(sv_leases) !! t = Some l → sched ({[l.(lease_jobID)]} ∪ X) (exec (removeLease t) s).
Proof.
  intros Hs Hl. unfold removeLease. rewrite exec_modify.
  eapply sched_update; [exact Hs|apply Hs|apply Hs|done|apply Hs|].
  intros x j Hx Hj Ht. assert (x ∉ X) as Hx' by set_solver. specialize (Ht Hx'). revert Ht. unfold tracked. simpl.
  destruct (Job_State j); try done. intros (t' & l' & Hl' & Heq). exists t', l'. split; [|done].
  rewrite lookup_delete_ne; [done|]. intros ->. assert (l' = l) as -> by congruence. set_solver.
Qed.

Lemma removeFromIndex_sched X s id : sched X s → sched ({[id]} ∪ X) (exec (removeFromIndex id) s).
Proof.
  intros Hs. unfold removeFromIndex. rewrite exec_modify.
  eapply sched_update; [exact Hs|apply Hs|apply Hs|done|apply Hs|].
  intros x j Hx Hj Ht. assert (x ∉ X) as Hx' by set_solver. specialize (Ht Hx'). revert Ht. unfold tracked. simpl.
  destruct (Job_State j); try done. intros Hw d Hd. apply waits_drop. split; [by apply Hw|set_solver].
Qed.

Lemma addDeps_run s j :
  exec (addDeps j) s = set_sv_revIndex (add_edges j.(Job_Id) j.(Job_DependsOn) s.(sv_revIndex)) s.
Proof. unfold addDeps. destruct (Job_DependsOn j); [by destruct s|done]. Qed.

(** Indexing a pending job accounts for it. *)
Lemma addDeps_sched X s j :
  sched X s → sched X (exec (addDeps j) s) ∧
  (stored s j → j.(Job_State) = JOB_STATE_PENDING → sched (X ∖ {[j.(Job_Id)]}) (exec (addDeps j) s)).
Proof.
  intros Hs. rewrite addDeps_run.
  assert (∀ x j', tracked s x j' → tracked (set_sv_revIndex (add_edges j.(Job_Id) j.(Job_DependsOn) s.(sv_revIndex)) s) x j') as Hmono.
  { intros x j'. unfold tracked. simpl. destruct (Job_State j'); try done.
    intros Hw d Hd. apply add_edges_waits. auto. }
  split; [|intros Hj Hp]; (eapply sched_update; [exact Hs|apply Hs|apply Hs|done|apply Hs|]); intros x j' Hx Hj' Ht.
  - by apply Hmono, Ht.
  - destruct (decide (x = Job_Id j)) as [->|Hne]; [|apply Hmono, Ht; set_solver].
    assert (j' = j) as -> by (unfold stored in Hj; congruence). unfold tracked. rewrite Hp. simpl.
    intros d Hd. apply add_edges_waits. auto.
Qed.

(** Arming a stored QUEUED job accounts for it. *)
Lemma armEnqueue_sched X s j d :
  sched X s → stored s j → j.(Job_State) = JOB_STATE_QUEUED →
  sched (X ∖ {[j.(Job_Id)]}) (exec (armEnqueue j.(Job_Id) d) s).
Proof.
  intros Hs Hj Hq. unfold stored in Hj. unfold armEnqueue. destruct (d <=? 0)%Z.
  - pose proof Hs as [H1 H2 H3 _ _]. unfold enqueueJob, is_leader. mrun. rewrite H2, H1. simpl. mrun.
    change (exec (getJob (Job_Id j)) s) with s.
    pose proof (getJob_durable s (Job_Id j) H3) as Hg. rewrite Hj in Hg. rewrite Hg.
    rewrite bool_decide_eq_false_2 by (intros H; by apply H). mrun.
    apply push_sched; [done|]. intros j' Hj'. left. congruence.
  - rewrite exec_modify. eapply sched_update; [exact Hs|apply Hs|apply Hs|done|apply Hs|].
    intros x j' Hx Hj' Ht. unfold tracked in *. simpl. destruct (decide (x = Job_Id j)) as [->|Hne].
    + assert (j' = j) as -> by congruence. rewrite Hq, lookup_insert_eq. right. by eexists.
    + assert (x ∉ X) as Hx' by set_solver. specialize (Ht Hx').
      destruct (Job_State j'); try done. by rewrite lookup_insert_ne.
Qed.

(** Arming any job harms none. *)
Lemma armEnqueue_keeps X id d : preserves (sched X) (armEnqueue id d).
Proof.
  intros s Hs. unfold armEnqueue. destruct (d <=? 0)%Z.
  - unfold enqueueJob, is_leader. mrun. destruct (_ || _); [done|]. mrun. change (exec (getJob id) s) with s.
    destruct (eval (getJob id) s) as [j|e] eqn:Eg; [|done]. destruct (getJob_stored _ _ _ Eg) as [Hst Hid].
    destruct (bool_decide_reflect (Job_State j ≠ JOB_STATE_QUEUED)) as [_|Hq%dec_stable]; [done|]. mrun.
    eapply sched_mono; [|apply push_sched; [exact Hs|]]; [set_solver|].
    intros j' Hj'. left. unfold stored in Hst. congruence.
  - rewrite exec_modify. eapply sched_update; [exact Hs|apply Hs|apply Hs|done|apply Hs|].
    intros x j' Hx Hj' Ht. specialize (Ht Hx). revert Ht. unfold tracked. simpl. destruct (Job_State j'); try done.
    intros [?|?]; [by left|right]. apply lookup_insert_is_Some'. by right.
Qed.

(** Storing a job as QUEUED and arming it. *)
Lemma put_arm_sched X s j d :
  sched X s → j.(Job_Id) ≠ "" → j.(Job_State) = JOB_STATE_QUEUED →
  eval (putJob j) s = None ∧
  let s' := exec (armEnqueue j.(Job_Id) d) (exec (putJob j) s) in
  sched (X ∖ {[j.(Job_Id)]}) s' ∧ stored s' j.
Proof.
  intros Hs Hid Hq. destruct (putJob_sched X s j Hs Hid) as (He & H1 & Hj & _). split; [done|].
  split; [eapply sched_mono; [|by apply armEnqueue_sched]; set_solver|].
  eapply stored_abs; [|exact Hj]. apply exec_keeps, keeps_armEnqueue.
Qed.

(** ** Composite steps *)

Lemma stored_key s j : stored s j → j.(Job_Id) ≠ "".
Proof. intros Hj He. unfold stored in Hj. rewrite He in Hj. by eapply jobs_keys in Hj. Qed.

Lemma terminal_tracked s id j : terminal j.(Job_State) = true → tracked s id j.
Proof. unfold tracked. by destruct (Job_State j). Qed.

(** Storing a finished job, and dropping it from the queue. *)
Lemma put_done_sched X s j :
  sched X s → j.(Job_Id) ≠ "" → terminal j.(Job_State) = true →
  eval (putJob j) s = None ∧ sched (X ∖ {[j.(Job_Id)]}) (exec (putJob j) s) ∧ stored (exec (putJob j) s) j.
Proof.
  intros Hs Hid Ht. destruct (putJob_sched X s j Hs Hid) as (He & _ & Hj & H1).
  split_and!; [done| |done]. by apply H1, terminal_tracked.
Qed.

Lemma remove_done_sched X s j :
  sched X s → stored s j → terminal j.(Job_State) = true →
  sched X (exec (on_queue (Queue_Remove j.(Job_Id))) s).
Proof.
  intros Hs Hj Ht. rewrite (proj1 (on_queue_run _ s)).
  destruct (remove_view (Job_Id j) _ (sc_queue _ _ Hs)) as [Hwf Hv].
  apply (sched_settle _ _ (Job_Id j)); [by apply unqueue_sched|].
  intros j' Hj'. change (jobs_of s !! Job_Id j = Some j') in Hj'. apply terminal_tracked. unfold stored in Hj. congruence.
Qed.

Lemma cascade_step_sched X cur reason now : preserves (sched X) (cascade_step cur reason now).
Proof.
  intros s Hs. pose proof Hs as [_ _ H3 _ _]. unfold cascade_step. mrun. change (exec (getJob cur) s) with s.
  match goal with |- context [exec (match ?x with inl _ => _ | inr _ => _ end) s] =>
    set (m := match x with inl _ => _ | inr _ => _ end) end.
  assert (sched X (exec m s) ∧ ∀ j, jobs_of (exec m s) !! cur = Some j → terminal j.(Job_State) = true) as [H1 Hd].
  { subst m. pose proof (getJob_durable s cur H3) as Hg.
    destruct (jobs_of s !! cur) as [j|] eqn:Ej; [|destruct Hg as [e ->]; split; [done|]; intros j; mrun; congruence].
    rewrite Hg. destruct (getJob_stored _ _ _ Hg) as [Hst Hid].
    destruct (terminal (Job_State j)) eqn:Et; [split; [done|]; intros j'; mrun; rewrite Ej; by intros [= <-]|]. mrun.
    fold (canceled reason now j). destruct (put_done_sched X s (canceled reason now j) Hs (stored_key _ _ Hst) eq_refl)
      as (_ & H4 & H5). revert H4 H5. generalize (exec (putJob (canceled reason now j)) s). intros s1 H4 H5.
    change (Job_Id (canceled reason now j)) with (Job_Id j) in H4. rewrite Hid in H4.
    pose proof (remove_done_sched _ _ _ H4 H5 eq_refl) as H6.
    change (Job_Id (canceled reason now j)) with (Job_Id j) in H6. rewrite Hid in H6.
    split; [eapply sched_mono; [|apply still_sched; [apply sf_count|exact H6]]; set_solver|].
    intros j'. change (jobs_of (exec (count ?c) ?x)) with (jobs_of x). rewrite (proj1 (on_queue_run _ s1)).
    change (jobs_of s1 !! cur = Some j' → terminal (Job_State j') = true).
    unfold stored in H5. change (Job_Id (canceled reason now j)) with (Job_Id j) in H5.
    rewrite Hid in H5. rewrite H5. by intros [= <-]. }
  revert H1 Hd. generalize (exec m s). intros s1 H1 Hd.
  apply (sched_settle _ _ cur).
  - apply removeFromIndex_sched. apply still_sched; [|done]. unfold dependentsOf. walk.
  - intros j Hj. by apply terminal_tracked, Hd.
Qed.

Lemma cascade_sched X fuel work V reason now : preserves (sched X) (cascade fuel work V reason now).
Proof.
  revert work V reason. induction fuel as [|fuel IH]; intros [|cur work] V reason; simpl; walk.
  apply cascade_step_sched.
Qed.

Lemma cancelCascade_sched X id reason : preserves (sched X) (cancelCascade id reason).
Proof. unfold cancelCascade. walk; [apply still_sched, sf_Now|apply cascade_sched]. Qed.

Lemma fire_time_id j now s : (eval (fire_time j now) s).1.(Job_Id) = j.(Job_Id).
Proof.
  unfold fire_time. destruct (Job_Schedule j); [|done]. destruct (negb _).
  - by destruct (nextCron _ _).
  - destruct (Schedule_GetRunAt _); [|done]. by destruct (_ <? _)%Z.
Qed.

Lemma makeReady_sched X s j now :
  sched X s → j.(Job_Id) ≠ "" →
  let s' := exec (makeReady j now) s in
  sched (X ∖ {[j.(Job_Id)]}) s' ∧ ∃ j', jobs_of s' !! j.(Job_Id) = Some j' ∧ j'.(Job_State) = JOB_STATE_QUEUED.
Proof.
  intros Hs Hid. unfold makeReady. mrun. pose proof (fire_time_id j now s) as Hf.
  pose proof (still_sched X _ (sf_fire_time j now) s Hs) as H1. revert H1 Hf.
  generalize (exec (fire_time j now) s), (eval (fire_time j now) s). intros s1 [j1 d] H1 Hf. cbn [fst snd] in *.
  set (j2 := j1 |> set_Job_State JOB_STATE_QUEUED |> set_Job_UpdatedAt (Some now)).
  assert (Job_Id j2 = Job_Id j) as Hid2 by done.
  destruct (put_arm_sched X s1 j2 d H1) as (He & H2 & H3); [by rewrite Hid2|done|]. rewrite He. mrun.
  rewrite Hid2 in *. split; [done|]. exists j2. unfold stored in H3. by rewrite Hid2 in H3.
Qed.

Lemma tryPromote_sched X id : preserves (sched X) (tryPromote id).
Proof.
  intros s Hs. unfold tryPromote. mrun. change (exec (getJob id) s) with s.
  destruct (eval (getJob id) s) as [j|e] eqn:Eg; [|done]. destruct (getJob_stored _ _ _ Eg) as [Hst Hid].
  destruct (bool_decide _); [done|]. unfold depsSatisfied. mrun. destruct (negb _).
  { mrun. by apply cancelCascade_sched. }
  destruct (deps_ready _ _).1; mrun; [|done].
  pose proof (still_sched X _ sf_Now s Hs) as H1. revert H1. generalize (exec Now s), (eval Now s). intros s1 now H1.
  subst id. destruct (makeReady_sched X s1 j now H1 (stored_key _ _ Hst)) as [H2 (j' & Hj' & Hq)].
  revert H2 Hj'. generalize (exec (makeReady j now) s1). intros s2 H2 Hj'.
  apply (sched_settle _ _ (Job_Id j)); [eapply sched_mono; [|by apply removeFromIndex_sched]; set_solver|].
  intros j2 Hj2. change (jobs_of s2 !! Job_Id j = Some j2) in Hj2. assert (j2 = j') as -> by congruence.
  assert (tracked s2 (Job_Id j) j') as Ht by (eapply sc_tracked; [exact H2|set_solver|done]).
  revert Ht. unfold tracked. by rewrite Hq.
Qed.

(** A cron job that is rescheduled is accounted for; otherwise nothing changes. *)
Lemma cron_sched X s j now :
  sched X s → j.(Job_Id) ≠ "" →
  let s' := exec (maybeRescheduleCron j now) s in
  let r := eval (maybeRescheduleCron j now) s in
  if r.1 then sched (X ∖ {[j.(Job_Id)]}) s' ∧
    ∃ j', jobs_of s' !! j.(Job_Id) = Some j' ∧ j'.(Job_State) = JOB_STATE_QUEUED
  else s' = s ∧ r.2 = j.
Proof.
  intros Hs Hid. unfold maybeRescheduleCron. cbv zeta. destruct (String.eqb _ ""); [done|].
  destruct (nextCron _ _) as [next|]; [|done].
  match goal with |- context [putJob ?x] => set (j1 := x) end. assert (Job_Id j1 = Job_Id j) as Hid1 by done.
  assert (Job_State j1 = JOB_STATE_QUEUED) as Hq by done. clearbody j1.
  destruct (putJob_sched X s j1 Hs) as (He & H1 & Hj & _); [by rewrite Hid1|]. mrun. rewrite He. mrun. cbn [fst].
  change (stored (exec (putJob j1) s) j1) with (stored (exec (Until next) (exec (putJob j1) s)) j1) in Hj.
  apply (still_sched _ _ (sf_Until next)) in H1. revert H1 Hj.
  generalize (exec (Until next) (exec (putJob j1) s)), (eval (Until next) (exec (putJob j1) s)). intros s1 d H1 Hj.
  rewrite <- Hid1. split.
  - eapply sched_mono; [|by apply armEnqueue_sched]. set_solver.
  - exists j1. split; [|done]. eapply stored_abs; [|exact Hj]. apply exec_keeps, keeps_armEnqueue.
Qed.

Lemma dead_sched X s j :
  sched X s → j.(Job_Id) ≠ "" →
  eval (on_store (PutDeadLetter j)) s = None ∧ sched X (exec (on_store (PutDeadLetter j)) s).
Proof.
  intros [H1 H2 H3 H4 H5] Hid. pose proof (PutDeadLetter_succeeds j _ H3 Hid) as He. pose proof (PutDeadLetter_healthy j _ H3) as Hh. split; [exact He|].
  split; [done|done|exact Hh|done|]. intros id j' Hx Hj'. apply (H5 id j' Hx). revert Hj'. unfold jobs_of.
  change (sv_store (exec (on_store (PutDeadLetter j)) s)) with (exec (PutDeadLetter j) (sv_store s)).
  rewrite (PutDeadLetter_writes j (sv_store s)). by destruct (eval _ _).
Qed.

(** A failed attempt is accounted for, and its job is no longer RUNNING. *)
Lemma handleFailure_sched X s j msg now :
  sched X s → j.(Job_Id) ≠ "" →
  let s' := exec (handleFailure j msg now) s in
  (eval (handleFailure j msg now) s).1 = None ∧ sched (X ∖ {[j.(Job_Id)]}) s' ∧
  ∃ j', jobs_of s' !! j.(Job_Id) = Some j' ∧ j'.(Job_State) ≠ JOB_STATE_RUNNING.
Proof.
  intros Hs Hid. unfold handleFailure. cbv zeta.
  match goal with |- context [maybeRescheduleCron ?x] => set (j1 := x) end.
  assert (Job_Id j1 = Job_Id j) as Hid1 by done. clearbody j1. rewrite <- Hid1 in *. clear Hid1 j.
  destruct (_ <? _)%Z.
  - mrun. match goal with |- context [putJob ?x] => set (j2 := x) end.
    assert (Job_Id j2 = Job_Id j1) as Hid2 by done. assert (Job_State j2 = JOB_STATE_QUEUED) as Hq by done.
    pose proof (still_sched X _ sf_tick s Hs) as H0. revert H0. clearbody j2.
    match goal with |- context [armEnqueue _ ?x] => generalize x end. intros d.
    generalize (exec next_tick s). intros s0 H0. rewrite <- Hid2 in *.
    destruct (put_arm_sched X s0 j2 d H0 Hid Hq) as (He & H1 & H2). rewrite He. mrun.
    split_and!; [done|by apply still_sched; [apply sf_count|]|]. exists j2. split; [exact H2|by rewrite Hq].
  - mrun. pose proof (cron_sched X s j1 now Hs Hid) as Hc. revert Hc.
    generalize (exec (maybeRescheduleCron j1 now) s), (eval (maybeRescheduleCron j1 now) s). intros s1 [[|] j2]; cbn [fst snd]; mrun.
    { intros [H1 (j' & Hj' & Hq)]. split_and!; [done|done|]. exists j'. split; [done|by rewrite Hq]. }
    intros [-> ->]. set (j3 := j1 |> set_Job_State JOB_STATE_FAILED |> set_Job_FinishedAt (Some now)).
    assert (Job_Id j3 = Job_Id j1) as Hid3 by done. assert (Job_State j3 = JOB_STATE_FAILED) as Hf by done.
    clearbody j3. rewrite <- Hid3 in *. destruct (dead_sched X s j3 Hs Hid) as [He H1]. rewrite He. mrun.
    revert H1. generalize (exec (on_store (PutDeadLetter j3)) s). intros s1 H1.
    destruct (put_done_sched X s1 j3 H1 Hid) as (He2 & H2 & H3); [by rewrite Hf|]. rewrite He2. mrun.
    revert H2 H3. generalize (exec (putJob j3) s1). intros s2 H2 H3.
    assert (sched (X ∖ {[Job_Id j3]}) (exec (removeFromIndex (Job_Id j3)) (exec (count inc_JobsDeadLettered) s2))) as H4.
    { apply (sched_settle _ _ (Job_Id j3)); [by apply removeFromIndex_sched, still_sched; [apply sf_count|]|].
      intros j' Hj'. change (jobs_of s2 !! Job_Id j3 = Some j') in Hj'. apply terminal_tracked.
      unfold stored in H3. assert (j' = j3) as -> by congruence. by rewrite Hf. }
    change (stored s2 j3) with (stored (exec (removeFromIndex (Job_Id j3)) (exec (count inc_JobsDeadLettered) s2)) j3) in H3.
    revert H3 H4. generalize (exec (removeFromIndex (Job_Id j3)) (exec (count inc_JobsDeadLettered) s2)). intros s3 H3 H4.
    split_and!; [done|by apply cancelCascade_sched|].
    destruct (history_keeps (mkScope (λ _, False) (λ _, True)) (abs s3) (abs (exec (cancelCascade (Job_Id j3) (upstream_failed (Job_Id j3))) s3))
      (Job_Id j3) j3) as (j' & Hj' & _ & Hdone); [apply cancelCascade_evolves|exact H3|].
    exists j'. split; [exact Hj'|]. rewrite Hdone; by rewrite Hf.
Qed.

(** Removing the lease of a job that is not RUNNING. *)
Lemma removeLease_done X s t l :
  sched X s → s.(sv_leases) !! t = Some l →
  (∀ j, jobs_of s !! l.(lease_jobID) = Some j → j.(Job_State) ≠ JOB_STATE_RUNNING) →
  sched X (exec (removeLease t) s).
Proof.
  intros Hs Hl Hr. unfold removeLease. rewrite exec_modify.
  eapply sched_update; [exact Hs|apply Hs|apply Hs|done|apply Hs|].
  intros x j Hx Hj Ht. specialize (Ht Hx). revert Ht. unfold tracked. simpl.
  destruct (Job_State j) eqn:Est; try done. intros (t' & l' & Hl' & Heq). exists t', l'. split; [|done].
  rewrite lookup_delete_ne; [done|]. intros ->. assert (l' = l) as -> by congruence. subst x. by apply (Hr j).
Qed.

Lemma requeueLease_sched X t reason : preserves (sched X) (requeueLease t reason).
Proof.
  intros s Hs. unfold requeueLease, getLease. mrun. destruct (sv_leases s !! t) as [l|] eqn:El; mrun; [|done].
  change (exec (getJob (lease_jobID l)) (exec (removeLease t) s)) with (exec (removeLease t) s).
  change (eval (getJob (lease_jobID l)) (exec (removeLease t) s)) with (eval (getJob (lease_jobID l)) s).
  pose proof (getJob_durable s (lease_jobID l) (sc_healthy _ _ Hs)) as Hg.
  destruct (jobs_of s !! lease_jobID l) as [j|] eqn:Ej; [|destruct Hg as [e ->]; mrun; eapply removeLease_done; eauto; congruence].
  rewrite Hg. destruct (getJob_stored _ _ _ Hg) as [Hst Hid].
  destruct (bool_decide_reflect (Job_State j ≠ JOB_STATE_RUNNING)) as [Hr|_]; mrun.
  { eapply removeLease_done; eauto. intros j' Hj'. by simplify_eq. }
  pose proof (removeLease_sched X s t l Hs El) as H1. apply (still_sched _ _ (sf_count inc_TasksRequeued)) in H1.
  apply (still_sched _ _ sf_Now) in H1. revert H1. generalize (exec Now (exec (count inc_TasksRequeued) (exec (removeLease t) s))).
  intros s1 H1. destruct (handleFailure_sched _ s1 j reason (eval Now (exec (count inc_TasksRequeued) (exec (removeLease t) s)))
    H1 (stored_key _ _ Hst)) as (_ & H2 & _). eapply sched_mono; [|exact H2]. rewrite Hid. set_solver.
Qed.

Lemma promoteDependents_sched X id : preserves (sched X) (promoteDependents id).
Proof. unfold promoteDependents, dependentsOf. walk; [apply still_sched, sf_range|apply tryPromote_sched]. Qed.

(** A finished job is counted and leaves the index. *)
Lemma settle_done_sched X s j c :
  sched X s → X ⊆ {[j.(Job_Id)]} → stored s j → terminal j.(Job_State) = true →
  sched ∅ (exec (removeFromIndex j.(Job_Id)) (exec (count c) s)).
Proof.
  intros Hs HX Hj Ht. apply (sched_settle _ _ (Job_Id j)).
  - eapply sched_mono; [|apply removeFromIndex_sched, still_sched; [apply sf_count|exact Hs]]. set_solver.
  - intros j' Hj'. change (jobs_of s !! Job_Id j = Some j') in Hj'. apply terminal_tracked.
    unfold stored in Hj. by simplify_eq.
Qed.

Lemma ReportTask_sched t r msg : preserves (sched ∅) (ReportTask t r msg).
Proof.
  intros s Hs. unfold ReportTask. mrun. apply (still_sched _ _ sf_requireLeader) in Hs. revert Hs.
  generalize (exec requireLeader s). intros s1 Hs. destruct (eval requireLeader s); [done|]. unfold getLease. mrun.
  destruct (sv_leases s1 !! t) as [l|] eqn:El; mrun; [|done]. change (exec (getJob (lease_jobID l)) s1) with s1.
  pose proof (getJob_durable s1 (lease_jobID l) (sc_healthy _ _ Hs)) as Hg.
  destruct (jobs_of s1 !! lease_jobID l) as [j|] eqn:Ej; [|destruct Hg as [e ->]; mrun; eapply removeLease_done; eauto; congruence].
  rewrite Hg. destruct (getJob_stored _ _ _ Hg) as [Hst Hid]. pose proof (stored_key _ _ Hst) as Hne.
  destruct (bool_decide_reflect (Job_State j ≠ JOB_STATE_RUNNING)) as [Hr|_]; mrun.
  { eapply removeLease_done; eauto. intros j' Hj'. by simplify_eq. }
  apply (still_sched _ _ sf_Now) in Hs. change (sv_leases s1) with (sv_leases (exec Now s1)) in El. revert Hs El.
  generalize (exec Now s1), (eval Now s1). intros s2 now Hs El. destruct r; mrun; try done.
  - pose proof (removeLease_sched ∅ s2 t l Hs El) as H1. rewrite <- Hid in H1. revert H1.
    generalize (exec (removeLease t) s2). intros s3 H1. pose proof (cron_sched _ s3 j now H1 Hne) as Hc. revert Hc.
    generalize (exec (maybeRescheduleCron j now) s3), (eval (maybeRescheduleCron j now) s3).
    intros s4 [[|] j2]; cbn [fst snd]; mrun; [intros [H2 _]; eapply sched_mono; [|exact H2]; set_solver|].
    intros [-> ->]. destruct (put_done_sched _ s3 (succeeded now j) H1 Hne eq_refl) as (He & H2 & H3). rewrite He. mrun.
    apply promoteDependents_sched. eapply settle_done_sched; [exact H2|set_solver|done..].
  - destruct (handleFailure_sched ∅ s2 j msg now Hs Hne) as (He & H1 & j' & Hj' & Hr').
    pose proof (frame_handleFailure j msg now s2) as [Hl _]. rewrite <- Hl in El.
    destruct (eval (handleFailure j msg now) s2) as [[e|] j2]; [done|]. cbn [fst] in *. mrun.
    eapply removeLease_done; [eapply sched_mono; [|exact H1]; set_solver|done|].
    intros j3. rewrite <- Hid, Hj'. by intros [= <-].
Qed.

(** ** The remaining handlers *)

Lemma with_id_key j s : (eval (with_id j) s).(Job_Id) ≠ "".
Proof. unfold with_id. destruct (String.eqb_spec (Job_Id j) "") as [_|Hne]; [|done]. by mrun. Qed.

Lemma placeNewJob_sched s j now : sched ∅ s → j.(Job_Id) ≠ "" → sched ∅ (exec (placeNewJob j now) s).
Proof.
  intros Hs Hid. unfold placeNewJob, depsSatisfied. mrun. destruct (negb _); [|destruct (negb _)]; mrun.
  - match goal with |- context [putJob ?x] => destruct (put_done_sched ∅ s x Hs Hid eq_refl) as (_ & H1 & _) end.
    apply still_sched; [apply sf_count|]. eapply sched_mono; [|exact H1]. set_solver.
  - match goal with |- context [putJob ?x] => set (j1 := x) end.
    destruct (putJob_sched ∅ s j1 Hs Hid) as (_ & H1 & Hj & _).
    eapply sched_mono; [|by apply (addDeps_sched _ _ j1 H1)]. set_solver.
  - destruct (makeReady_sched ∅ s j now Hs Hid) as [H1 _]. eapply sched_mono; [|exact H1]. set_solver.
Qed.

Lemma sf_valid_cron j : within sched_frame (valid_cron j).
Proof. unfold valid_cron. walk. Qed.
Lemma sf_with_id j : within sched_frame (with_id j).
Proof. unfold with_id. walk. Qed.

Lemma SubmitJob_sched req : preserves (sched ∅) (SubmitJob req).
Proof.
  intros s Hs. unfold SubmitJob. mrun. apply (still_sched _ _ sf_requireLeader) in Hs. revert Hs.
  generalize (exec requireLeader s). intros s1 Hs. destruct (eval requireLeader s); [done|].
  destruct req as [j|]; [|done]. destruct (String.eqb _ ""); [done|]. mrun.
  assert (sched ∅ (exec (valid_cron j) s1)) as H1 by (by apply still_sched; [apply sf_valid_cron|]).
  revert H1. generalize (exec (valid_cron j) s1). intros s2 H1. destruct (eval (valid_cron j) s1); [done|]. mrun.
  pose proof (with_id_key j s2) as Hid.
  assert (sched ∅ (exec (with_id j) s2)) as H2 by (by apply still_sched; [apply sf_with_id|]).
  revert H2 Hid. generalize (exec (with_id j) s2), (eval (with_id j) s2). intros s3 j1 H2 Hid.
  assert (exec (rejects_cycle j1) s3 = s3) as -> by (unfold rejects_cycle; by destruct (Job_DependsOn j1)).
  destruct (eval _ s3); [done|]. mrun. apply still_sched; [apply sf_count|].
  apply placeNewJob_sched; [|done]. by apply still_sched; [apply sf_Now|].
Qed.

Lemma CancelJob_sched id : preserves (sched ∅) (CancelJob id).
Proof.
  intros s Hs. unfold CancelJob. mrun. apply (still_sched _ _ sf_requireLeader) in Hs. revert Hs.
  generalize (exec requireLeader s). intros s1 Hs. destruct (eval requireLeader s); [done|]. mrun.
  assert (exec (loadJob id) s1 = s1) as -> .
  { unfold loadJob. destruct (String.eqb id ""); [done|]. mrun. change (exec (getJob id) s1) with s1.
    by destruct (eval (getJob id) s1) as [|[]]. }
  destruct (eval (loadJob id) s1) as [j|e] eqn:El; [|done].
  assert (stored s1 j) as Hst.
  { revert El. unfold loadJob. destruct (String.eqb id ""); [done|]. mrun.
    destruct (eval (getJob id) s1) as [j'|[]] eqn:Eg; try done. intros [= <-]. by destruct (getJob_stored _ _ _ Eg). }
  pose proof (stored_key _ _ Hst) as Hid.
  assert (∀ s2 now, sched ∅ s2 → sched ∅ (exec (
    let job := j |> set_Job_State JOB_STATE_CANCELED |> set_Job_UpdatedAt (Some now) in
    err ← putJob job;
    match err : option string with
    | Some e => mret (inr (mkStatus Internal ("persist cancel: " +:+ e)%string))
    | None =>
        _ ← on_queue (Queue_Remove job.(Job_Id));
        count inc_JobsCanceled;;
        _ ← cancelCascade job.(Job_Id) ("upstream dependency " +:+ job.(Job_Id) +:+ " was canceled")%string;
        mret (inl job)
    end : M (Server St) (Job + Status)) s2)) as Hgo.
  { intros s2 now H2. cbv zeta. match goal with |- context [putJob ?x] => set (j1 := x) end.
    destruct (put_done_sched ∅ s2 j1 H2 Hid eq_refl) as (He & H3 & H4). mrun. rewrite He. mrun.
    apply cancelCascade_sched, still_sched; [apply sf_count|]. apply remove_done_sched; [|done|done].
    eapply sched_mono; [|exact H3]. set_solver. }
  destruct (Job_State j); try done; rewrite exec_bind; by apply Hgo, still_sched; [apply sf_Now|].
Qed.

(** Dropping an id whose job does not wait in the queue. *)
Lemma unqueue_idle X s id q :
  sched X s → queue_wf q → queue_view q = delete id (queue_view s.(sv_queue)) →
  (∀ j, jobs_of s !! id = Some j → j.(Job_State) ≠ JOB_STATE_QUEUED) → sched X (set_sv_queue q s).
Proof.
  intros Hs Hwf Hv Hid. eapply sched_update; [exact Hs|apply Hs|apply Hs|done|done|].
  intros x j Hx Hj Ht. specialize (Ht Hx). revert Ht. unfold tracked. simpl. destruct (Job_State j) eqn:Est; try done.
  rewrite Hv, lookup_delete_ne; [done|]. intros ->. by apply (Hid j).
Qed.

Lemma addLease_sched X s l j :
  sched X s → s.(sv_leases) !! l.(lease_taskID) = None → jobs_of s !! l.(lease_jobID) = Some j →
  j.(Job_State) = JOB_STATE_RUNNING → sched (X ∖ {[l.(lease_jobID)]}) (exec (addLease l) s).
Proof.
  intros Hs Hn Hj Hr. unfold addLease. rewrite exec_modify.
  eapply sched_update; [exact Hs|apply Hs|apply Hs|done|apply Hs|].
  intros x j' Hx Hj' Ht. destruct (decide (x = lease_jobID l)) as [->|Hne].
  - assert (j' = j) as -> by congruence. unfold tracked. rewrite Hr. simpl.
    exists (lease_taskID l), l. by rewrite lookup_insert_eq.
  - assert (x ∉ X) as Hx' by set_solver. specialize (Ht Hx'). revert Ht. unfold tracked. simpl.
    destruct (Job_State j'); try done. intros (t & l' & Hl & Heq). exists t, l'. split; [|done].
    rewrite lookup_insert_ne; [done|]. congruence.
Qed.

Context {Guniq : UniqueIds Genv}.

Lemma poll_loop_sched fuel n w now out s :
  lease_inv s → sched ∅ s → sched ∅ (exec (poll_loop fuel n w now out) s).
Proof.
  revert out s. induction fuel as [|fuel IH]; intros out s Hinv Hs; simpl; destruct (n <=? _)%Z; try done.
  mrun. assert (lease_inv (exec (on_queue Queue_Pop) s)) as H1
    by (apply quiet_neutral; [apply keeps_queue|apply frame_queue|done]).
  revert H1. destruct (on_queue_run Queue_Pop s) as [-> ->]. pose proof (sc_queue _ _ Hs) as Hwf.
  destruct (pop_wf _ Hwf) as [[Hp _]|(id & e & q' & Hp & Hwf' & _ & Hview & _)]; rewrite Hp; cbn [fst snd]; intros H1.
  { mrun. by destruct s. }
  mrun. pose proof (unqueue_sched ∅ s id q' Hs Hwf' Hview) as H2. pose proof (unqueue_idle ∅ s id q' Hs Hwf' Hview) as Hidle.
  change (jobs_of s) with (jobs_of (set_sv_queue q' s)) in Hidle. revert H1 H2 Hidle. generalize (set_sv_queue q' s).
  intros s1 H1 H2 Hidle. change (exec (getJob id) s1) with s1.
  pose proof (getJob_durable s1 id (sc_healthy _ _ H2)) as Hg.
  destruct (jobs_of s1 !! id) as [j|] eqn:Ej; [|destruct Hg as [e' ->]; by apply IH, Hidle].
  rewrite Hg. destruct (getJob_stored _ _ _ Hg) as [Hst Hid].
  destruct (bool_decide_reflect (Job_State j ≠ JOB_STATE_QUEUED)) as [Hq|Hq%dec_stable].
  { apply IH; [done|]. apply Hidle. by intros j' [= <-]. }
  mrun. destruct (fresh_task_id s1 H1) as (H3 & Hnew & Hdrawn). apply (still_sched _ _ (sf_new_id "task")) in H2.
  change (stored s1 j) with (stored (exec (new_id "task") s1) j) in Hst.
  revert H2 H3 Hnew Hdrawn Hst. generalize (exec (new_id "task") s1), (eval (new_id "task") s1).
  intros s2 t H2 H3 Hnew Hdrawn Hst. clear Hidle Hg Ej H1.
  destruct (putJob_sched _ s2 (dispatched w now j) H2 (stored_key _ _ Hst)) as (He & H4 & Hj4 & _).
  set (d := (now + Config_LeaseTTL (sv_cfg s2))%Z). pose proof (dispatch_inv s2 j w now t d H3 Hnew Hdrawn Hst Hq He) as H5.
  rewrite He. mrun. subst id. apply IH; [exact H5|]. apply still_sched; [apply sf_count|].
  eapply sched_mono; [|eapply (addLease_sched _ _ (mkLease t (Job_Id j) w (Job_Attempt (dispatched w now j)) d));
    [exact H4| |exact Hj4|done]].
  - simpl. change (Job_Id (dispatched w now j)) with (Job_Id j). set_solver.
  - simpl. destruct (frame_putJob (dispatched w now j) s2) as [-> _]. exact Hnew.
Qed.

Lemma PollTask_sched w n s : lease_inv s → sched ∅ s → sched ∅ (exec (PollTask w n) s).
Proof.
  intros Hinv Hs. unfold PollTask. mrun.
  assert (lease_inv (exec requireLeader s)) as H1
    by (apply quiet_neutral; [apply keeps_requireLeader|apply frame_requireLeader|done]).
  apply (still_sched _ _ sf_requireLeader) in Hs. revert H1 Hs. generalize (exec requireLeader s). intros s1 H1 Hs.
  destruct (eval requireLeader s); [done|]. mrun. destruct (negb _); mrun; [done|]. apply poll_loop_sched.
  - by apply quiet_neutral; [apply keeps_Now|apply frame_Now|].
  - by apply still_sched; [apply sf_Now|].
Qed.

Lemma putWorker_sched X w : preserves (sched X) (putWorker w).
Proof.
  intros s [H1 H2 H3 H4 H5]. set (s' := exec (putWorker w) s).
  assert (same_sched s s') as Hs.
  { subst s'. assert (within same_sched (putWorker w)) as Hw; [|apply Hw].
    unfold putWorker, appendRepl, is_leader. walk; by intros ?. }
  assert (jobs_of s' = jobs_of s) as Hj.
  { pose proof (exec_keeps _ s (keeps_putWorker w)) as Ha. by injection Ha. }
  assert (sv_store s' = exec (PutWorker w) (sv_store s)) as Hst.
  { subst s'. unfold putWorker. mrun. change (eval (on_store (PutWorker w)) s) with (eval (PutWorker w) (sv_store s)).
    destruct (eval (PutWorker w) (sv_store s)); [done|]. mrun. unfold appendRepl, is_leader. mrun.
    by destruct (negb _). }
  pose proof Hs as (Hn & Hc & Hq & _).
  split; [by rewrite Hn|by rewrite Hc|rewrite Hst; by apply PutWorker_healthy|by rewrite Hq|].
  intros id j Hx. rewrite Hj. intros Hst'. eapply same_sched_tracked; [done|by apply H5].
Qed.
#[local] Hint Resolve putWorker_sched : pres.

Lemma sf_leases_where P : within sched_frame (leases_where P).
Proof. unfold leases_where. walk. Qed.

Lemma reapOnce_sched X : preserves (sched X) reapOnce.
Proof.
  unfold reapOnce, requeueLeasesForWorker. walk; try apply requeueLease_sched; apply still_sched;
    auto using sf_Now, sf_range, sf_leases_where.
Qed.

Lemma timer_fired_sched id : preserves (sched ∅) (timer_fired id).
Proof.
  intros s Hs. unfold timer_fired. mrun. set (s1 := set_sv_retryTimers _ s).
  assert (sched {[id]} s1 ∧ ((∀ j, jobs_of s1 !! id = Some j → j.(Job_State) ≠ JOB_STATE_QUEUED) → sched ∅ s1)) as [H1 Hidle].
  { split; [|intros Hq]; (eapply sched_update; [exact Hs|apply Hs|apply Hs|done|apply Hs|]); intros x j Hx Hj Ht;
      specialize (Ht ltac:(set_solver)); revert Ht; unfold tracked; simpl; destruct (Job_State j) eqn:Est; try done;
      (rewrite lookup_delete_ne; [done|]); [set_solver|]. intros <-. by apply (Hq j). }
  clearbody s1. pose proof H1 as [Hl Ho Hh _ _]. unfold enqueueJob, is_leader. mrun. rewrite Ho, Hl. simpl. mrun.
  change (exec (getJob id) s1) with s1. pose proof (getJob_durable s1 id Hh) as Hg.
  destruct (jobs_of s1 !! id) as [j|] eqn:Ej; [|destruct Hg as [e ->]; by apply Hidle].
  rewrite Hg. destruct (getJob_stored _ _ _ Hg) as [Hst Hid].
  destruct (bool_decide_reflect (Job_State j ≠ JOB_STATE_QUEUED)) as [Hq|Hq%dec_stable].
  { apply Hidle. by intros j' [= <-]. }
  mrun. rewrite Hid. eapply sched_mono; [|apply push_sched; [exact H1|]]; [set_solver|].
  intros j' Hj'. left. congruence.
Qed.

(** ** Taking over *)

(** Jobs other than [id] stay as they are or end. *)
Definition finishes (id : string) s s' : Prop := ∀ x, x ≠ id →
  jobs_of s' !! x = jobs_of s !! x ∨ ∃ j, jobs_of s' !! x = Some j ∧ terminal j.(Job_State) = true.

#[export] Instance finishes_preorder id : PreOrder (finishes id).
Proof.
  split; [by intros s x _; left|]. intros a b c H1 H2 x Hx.
  destruct (H2 x Hx) as [->|?]; [by apply H1|by right].
Qed.

Lemma cascade_finishes id fuel work V reason now : within (finishes id) (cascade fuel work V reason now).
Proof.
  revert work V reason. induction fuel as [|fuel IH]; intros [|cur work] V reason; simpl; walk.
  intros s x _. destruct (cascade_step_writes cur reason now s) as (Hw & _).
  destruct (Hw x) as [?|(_ & j & Hj & Hc)]; [by left|]. right. exists j. by rewrite Hc.
Qed.

Lemma only_finishes id s s' : only id s s' → finishes id s s'.
Proof. intros Ho x Hx. left. by apply Ho. Qed.

Lemma handleFailure_finishes j msg now : within (finishes j.(Job_Id)) (handleFailure j msg now).
Proof.
  intros s. destruct (handleFailure_shape s j msg now) as [[Ho _]|(s1 & reason & -> & Ho & _)]; [by apply only_finishes|].
  etrans; [by apply only_finishes|]. unfold cancelCascade. mrun.
  apply (cascade_finishes (Job_Id j) _ _ _ _ _ (exec Now s1)).
Qed.

(** The listed job is still stored as listed, unless it has ended. *)
Definition unless_done s j : Prop :=
  stored s j ∨ ∃ j', jobs_of s !! j.(Job_Id) = Some j' ∧ terminal j'.(Job_State) = true.

Lemma finishes_unless_done id s s' j : finishes id s s' → j.(Job_Id) ≠ id → unless_done s j → unless_done s' j.
Proof.
  intros Hf Hne [Hj|(j' & Hj & Ht)]; destruct (Hf _ Hne) as [He|Hd]; try by right.
  - left. unfold stored in *. by rewrite He.
  - right. exists j'. by rewrite He.
Qed.

Lemma rebuild_one_sched X now j s :
  sched X s → unless_done s j → j.(Job_Id) ≠ "" →
  sched (X ∖ {[j.(Job_Id)]}) (exec (rebuild_one now j) s) ∧ finishes j.(Job_Id) s (exec (rebuild_one now j) s).
Proof.
  intros Hs Hj Hid. unfold rebuild_one. mrun. set (s1 := exec (whenM _ (addDeps j)) s).
  assert (sched X s1 ∧ (stored s j → j.(Job_State) = JOB_STATE_PENDING → sched (X ∖ {[Job_Id j]}) s1) ∧ abs s1 = abs s) as (H1 & Hp & Ha).
  { subst s1. destruct (addDeps_sched X s j Hs) as [Hd1 Hd2].
    destruct (terminal (Job_State j)) eqn:Et; simpl; mrun.
    - split_and!; [done| |done]. intros _ Hp. by rewrite Hp in Et.
    - split_and!; [done|done|]. apply exec_keeps, keeps_addDeps. }
  clearbody s1.
  assert (unless_done s1 j) as Hj1 by (unfold unless_done, stored in *; by injection Ha as -> _).
  assert (∀ x, jobs_of s1 !! x = jobs_of s !! x) as Hjobs by (intros x; by injection Ha as -> _).
  assert (finishes (Job_Id j) s s1) as Hfin by (intros x _; by left).
  assert (∀ s2, sched X s2 → (∀ j', jobs_of s2 !! Job_Id j = Some j' → tracked s2 (Job_Id j) j') → sched (X ∖ {[Job_Id j]}) s2) as Hsettle.
  { intros s2 H2 Ht. apply (sched_settle _ _ (Job_Id j)); [eapply sched_mono; [|exact H2]|done]. 
    intros x Hx. destruct (decide (x = Job_Id j)); set_solver. }
  assert ((∃ j', jobs_of s1 !! Job_Id j = Some j' ∧ terminal (Job_State j') = true) → ∀ s2, sched X s2 → abs s2 = abs s1 →
    sched (X ∖ {[Job_Id j]}) s2) as Hdone.
  { intros (j2 & Hj2 & Ht) s2 H2 Ha2. apply Hsettle; [done|]. injection Ha2 as Hj' _. intros j3. rewrite Hj', Hj2.
    intros [= <-]. by apply terminal_tracked. }
  assert (stored s1 j → tracked s1 (Job_Id j) j → sched (X ∖ {[Job_Id j]}) s1) as Hsame.
  { intros Hst Ht. apply Hsettle; [done|]. intros j' Hj'. unfold stored in Hst. by simplify_eq. }
  destruct (Job_State j) eqn:Est; mrun.
  3: { assert (∀ d, sched (X ∖ {[Job_Id j]}) (exec (armEnqueue (Job_Id j) d) s1)) as Harm.
    { intros d. destruct Hj1 as [Hst|Ht]; [by apply armEnqueue_sched|].
      apply Hdone; [done|by apply armEnqueue_keeps|apply exec_keeps, keeps_armEnqueue]. }
    assert (∀ p c, sched (X ∖ {[Job_Id j]}) (exec (on_queue (Queue_Push (Job_Id j) p c)) s1)) as Hpush.
    { intros p c. apply push_sched; [done|]. intros j' Hj'. unfold unless_done, stored in Hj1.
      destruct Hj1 as [Hst|(j2 & Hj2 & Ht)]; [left; congruence|right; left; congruence]. }
    destruct (Job_ScheduledAt j) as [at_|]; [destruct (now <? at_)%Z|]; mrun; (split; [done|]);
      (etrans; [exact Hfin|]); apply only_finishes, keeps_only; auto using keeps_armEnqueue, keeps_queue. }
  3: { destruct (handleFailure_sched X s1 j "reclaimed orphaned task after leadership change" now H1 Hid) as (_ & H2 & _).
    split; [done|]. etrans; [exact Hfin|apply handleFailure_finishes]. }
  all: split; [|done]; destruct Hj1 as [Hst|Ht]; [|by apply Hdone].
  2: { apply Hp; [|done]. unfold stored. by rewrite <- Hjobs. }
  all: apply Hsame; [done|]; unfold tracked; by rewrite Est.
Qed.

Lemma rebuild_all_sched now jobs s :
  sched (list_to_set (Job_Id <$> jobs)) s → NoDup (Job_Id <$> jobs) →
  (∀ j, j ∈ jobs → unless_done s j ∧ j.(Job_Id) ≠ "") → sched ∅ (exec (rebuild_all now jobs) s).
Proof.
  revert s. induction jobs as [|j jobs IH]; intros s Hs Hnd Hj; simpl; [done|]. mrun.
  apply NoDup_cons in Hnd as [Hn Hnd]. destruct (Hj j) as [Hj1 Hid]; [by left|].
  destruct (rebuild_one_sched _ now j s Hs Hj1 Hid) as [H1 Hf]. apply IH; [|done|].
  - eapply sched_mono; [|exact H1]. simpl. set_solver.
  - intros k Hk. destruct (Hj k) as [Hk1 ?]; [by right|]. split; [|done]. eapply finishes_unless_done; [exact Hf| |done].
    intros He. apply Hn. rewrite <- He. by apply list_elem_of_fmap_2.
Qed.

(** The rebuild accounts for every job before it looks at the waiting ones. *)
Lemma rebuild_sched s :
  IsLeader s.(sv_node) = true → s.(sv_closed) = false → healthy s.(sv_store) → queue_wf s.(sv_queue) →
  ∃ jobs now s1, jobs ≡ₚ (map_to_list (jobs_of s)).*2 ∧ jobs_of s1 = jobs_of s ∧
    sched ∅ (exec (rebuild_all now jobs) s1) ∧
    exec rebuildSchedulingState s =
      exec (forM_ (eval (rebuild_all now jobs) s1) (λ j,
        whenM (bool_decide (j.(Job_State) = JOB_STATE_PENDING)) (tryPromote j.(Job_Id)))) (exec (rebuild_all now jobs) s1).
Proof.
  intros Hl Hc Hh Hq. unfold rebuildSchedulingState. mrun. set (s1 := exec clearSchedulingState s).
  destruct (ListJobs_succeeds _ Hh) as [jobs El]. change (sv_store s1) with (sv_store s). rewrite El. mrun.
  destruct (listed_current s jobs El) as [Hnd _]. pose proof (ListJobs_lists (sv_store s)) as Hlist. rewrite El in Hlist.
  destruct Hlist as [Hp _]. exists jobs, (eval Now s1), (exec Now s1). split_and!; [exact Hp|done| |done].
  assert (∀ j, j ∈ jobs → stored s j) as Hst.
  { intros j Hj. rewrite Hp in Hj. apply list_elem_of_fmap in Hj as ([id j0] & -> & Hj%elem_of_map_to_list).
    simpl. unfold stored, jobs_of. by rewrite (jobs_keyed _ _ _ Hj). }
  assert (sched (list_to_set (Job_Id <$> jobs)) s1) as H1.
  { split; [done|done|done|by apply clear_wf|]. intros id j Hx Hj. exfalso. apply Hx, elem_of_list_to_set.
    assert (j ∈ jobs) as Hin.
    { rewrite Hp. apply list_elem_of_fmap. exists (id, j). split; [done|]. by apply elem_of_map_to_list. }
    apply list_elem_of_fmap. exists j. split; [|done]. symmetry. exact (jobs_keyed _ _ _ Hj). }
  apply rebuild_all_sched; [by apply still_sched; [apply sf_Now|]|done|]. intros j Hj. split; [|by apply (stored_key s), Hst].
  left. exact (Hst j Hj).
Qed.

(** A takeover accounts for every job. *)
Lemma onBecomeLeader_sched t s :
  IsLeader s.(sv_node) = true → s.(sv_closed) = false → healthy s.(sv_store) → queue_wf s.(sv_queue) →
  sched ∅ (exec (onBecomeLeader t) s).
Proof.
  intros Hl Hc Hh Hq. unfold onBecomeLeader. rewrite exec_bind. apply still_sched.
  { unfold seedReplication, append_entry. walk; apply sf_modify; by intros s'. }
  destruct (rebuild_sched s Hl Hc Hh Hq) as (jobs & now & s1 & _ & _ & H2 & ->).
  apply preserves_forM; [|done]. intros j. unfold whenM. destruct (bool_decide _); [apply tryPromote_sched|apply preserves_ret].
Qed.

(** ** The machine *)

(** Callbacks run in the order they were started. *)
Definition callbacks_in_order (o : op) : Prop :=
  match o with Callback i => i = 0 | _ => True end.

Inductive ordered_step : Server St → Server St → Prop :=
| ordered_op s o : allowed s o → callbacks_in_order o → ordered_step s (exec (run_op o) s).

Definition ordered_reachable s : Prop :=
  ∃ s0, fresh_node s0 ∧ healthy s0.(sv_store) ∧ rtc ordered_step s0 s.

Lemma ordered_steps s s' : rtc ordered_step s s' → rtc node_step s s'.
Proof. induction 1 as [|a b c [s o Ho _] _ IH]; [done|]. eapply rtc_l; [by constructor|done]. Qed.

(** The leader has taken over and is not shutting down. *)
Definition at_work s : Prop :=
  s.(sv_node).(Node_role) = Leader ∧ s.(sv_node).(Node_spawned) = [] ∧ s.(sv_closed) = false.

(** A leader's last callback is the takeover. *)
Definition callbacks_ok (n : Node) : Prop :=
  n.(Node_role) = Leader → n.(Node_spawned) = [] ∨ ∃ t, last n.(Node_spawned) = Some (OnLeader t).

(** *** The store stays healthy *)

Definition hl s : Prop := healthy s.(sv_store).

Lemma hl_modify (g : Server St → Server St) : (∀ s, (g s).(sv_store) = s.(sv_store)) → preserves hl (modify g).
Proof. intros H s Hs. unfold hl. rewrite exec_modify. by rewrite H. Qed.
Lemma hl_put j : preserves hl (on_store (PutJob j)).
Proof. intros s. apply PutJob_healthy. Qed.
Lemma hl_worker w : preserves hl (on_store (PutWorker w)).
Proof. intros s. apply PutWorker_healthy. Qed.
Lemma hl_dead j : preserves hl (on_store (PutDeadLetter j)).
Proof. intros s. apply PutDeadLetter_healthy. Qed.
Lemma hl_queue {A} (op : PriorityQueue → A * PriorityQueue) : preserves hl (on_queue op).
Proof. intros s Hs. unfold hl. by rewrite (proj1 (on_queue_run op s)). Qed.
Lemma hl_tick : preserves hl next_tick.
Proof. by intros s. Qed.
Lemma hl_node {A} (m : M (NodeState St) A) : within healthy_kept m → preserves hl (on_node m).
Proof.
  intros Hm s Hs. pose proof (Hm (mkNodeState (sv_node s) (sv_store s) (sv_tick s)) Hs) as H.
  unfold hl, exec, on_node in *. by destruct (m _).
Qed.
#[local] Hint Resolve hl_put hl_worker hl_dead hl_queue hl_tick : pres.

Ltac fit := walk; try (apply hl_modify; intros s'; done).

Lemma hl_putJob j : preserves hl (putJob j).
Proof. unfold putJob, appendRepl, is_leader. fit. Qed.
Lemma hl_putWorker w : preserves hl (putWorker w).
Proof. unfold putWorker, appendRepl, is_leader. fit. Qed.

Lemma hl_steps : leader_steps (kept hl).
Proof.
  split; [split|..]; intros; first [exact hl_tick|apply hl_putJob|apply hl_putWorker|apply hl_queue|apply hl_dead
                                    |by apply hl_modify].
Qed.

Lemma hl_takeover : takeover_steps (kept hl).
Proof.
  split; [apply hl_steps|apply hl_steps|apply hl_queue|].
  change (preserves hl seedReplication). unfold seedReplication, append_entry. fit.
Qed.

#[local] Hint Resolve healthy_persist healthy_modify healthy_tick healthy_get : pres.

Lemma healthy_elect rs : within healthy_kept (startElection rs).
Proof.
  unfold startElection, startElection_begin, resetElectionTimerLocked. walk.
  generalize (take (length a.2) rs). intros l. generalize 1%Z.
  induction l as [|r l IH]; intros v; simpl;
    unfold startElection_vote, becomeLeaderLocked, becomeFollowerLocked, resetElectionTimerLocked; walk.
Qed.

Lemma op_healthy o : preserves hl (run_op o).
Proof.
  destruct (leader_op o) eqn:Ho; [exact (leader_op_within (kept hl) o hl_steps Ho)|].
  destruct o; try done; simpl; unfold replication_tick, broadcastReplicate, replicate_to, ackPeer, RequestVote,
    Replicate, applyEntries, run_callback, restart, start_server, recover, Shutdown, is_leader, range_keys; simpl; fit;
    try (apply hl_node; unfold HandleVote, MaybeStepDown, Start, becomeFollowerLocked, resetElectionTimerLocked; walk).
  - apply (w_timer (kept hl)), hl_steps.
  - apply hl_modify. intros s'. by destruct (_ <? _)%Z.
  - apply ObserveLeader_healthy.
  - apply healthy_elect.
  - apply (w_onBecomeLeader (kept hl)), hl_takeover.
  - apply (w_onBecomeLeader (kept hl)), hl_takeover.
Qed.

(** *** Handlers do not touch the role *)

Definition same_role s s' : Prop := s'.(sv_node) = s.(sv_node) ∧ s'.(sv_closed) = s.(sv_closed).

#[export] Instance same_role_preorder : PreOrder same_role.
Proof. split; [by intros s|]. intros a b c [??] [??]. split; congruence. Qed.

Lemma sr_modify (g : Server St → Server St) : (∀ s, same_role s (g s)) → within same_role (modify g).
Proof. intros H s. apply H. Qed.
Lemma sr_store {A} (op : M St A) : within same_role (on_store op).
Proof. by intros s. Qed.
Lemma sr_queue {A} (op : PriorityQueue → A * PriorityQueue) : within same_role (on_queue op).
Proof. intros s. unfold exec, on_queue. by destruct (op (sv_queue s)). Qed.
Lemma sr_tick : within same_role next_tick.
Proof. by intros s. Qed.
#[local] Hint Resolve sr_store sr_queue sr_tick : pres.

Ltac role_steps := walk; try (apply sr_modify; intros s'; done).

Lemma sr_putJob j : within same_role (putJob j).
Proof. unfold putJob, appendRepl, is_leader. role_steps. Qed.
Lemma sr_putWorker w : within same_role (putWorker w).
Proof. unfold putWorker, appendRepl, is_leader. role_steps. Qed.
Lemma sr_recover : within same_role recover.
Proof. unfold recover. role_steps. Qed.

Lemma sr_steps : leader_steps same_role.
Proof.
  split; [split|..]; intros; first [exact sr_tick|apply sr_putJob|apply sr_putWorker|apply sr_queue|apply sr_store
                                    |by apply sr_modify].
Qed.

Lemma sr_takeover : takeover_steps same_role.
Proof. split; [apply sr_steps|apply sr_steps|apply sr_queue|]. unfold seedReplication, append_entry. role_steps. Qed.

(** *** Steps of the election node that do not make it leader *)

Definition steadier (n n' : NodeState St) : Prop :=
  (n'.(ns_node).(Node_role) = Leader →
   n.(ns_node).(Node_role) = Leader ∧ n'.(ns_node).(Node_spawned) = n.(ns_node).(Node_spawned)) ∧
  node_keeps n n' ∧ healthy_kept n n'.

#[export] Instance steadier_preorder : PreOrder steadier.
Proof.
  split; [by intros n; split_and!|]. intros a b c (Ha & Hb & Hc) (Ha' & Hb' & Hc'). split_and!; [|by etrans..].
  intros [H1 H2]%Ha'. destruct (Ha H1). split; congruence.
Qed.

Lemma steadier_modify (g : Node → Node) :
  (∀ n, (g n).(Node_role) = Leader → n.(Node_role) = Leader) → (∀ n, (g n).(Node_spawned) = n.(Node_spawned)) →
  within steadier (modify_node g).
Proof. intros H1 H2 n. split_and!; [intros H; split; [by apply H1|apply H2]|apply node_keeps_modify|apply healthy_modify]. Qed.
Lemma steadier_persist : within steadier persistLocked.
Proof.
  intros n. split_and!; [|apply node_keeps_persist|apply healthy_persist].
  unfold exec, persistLocked. by destruct (SaveState _ _ _).
Qed.
Lemma steadier_tick : within steadier tick_node.
Proof. intros n. split_and!; [done|apply node_keeps_tick|apply healthy_tick]. Qed.
Lemma steadier_get : within steadier get_node.
Proof. apply within_gets, _. Qed.
#[local] Hint Resolve steadier_persist steadier_tick steadier_get : pres.

Ltac steady_steps := walk; try (apply steadier_modify; done).

Lemma steadier_reset : within steadier resetElectionTimerLocked.
Proof. unfold resetElectionTimerLocked. steady_steps. Qed.
#[local] Hint Resolve steadier_reset : pres.

(** A node that steps down ends as a follower. *)
Lemma follow_role t (n : NodeState St) : (exec (becomeFollowerLocked t) n).(ns_node).(Node_role) ≠ Leader.
Proof.
  assert (preserves (λ n : NodeState St, n.(ns_node).(Node_role) ≠ Leader) resetElectionTimerLocked) as Hreset.
  { intros n1 Hn Hr. by destruct (steadier_reset n1) as [[? _] _]. }
  unfold becomeFollowerLocked. mrun. unfold whenM. destruct (bool_decide _); mrun; apply Hreset; by mrun.
Qed.
Lemma steadier_follow t : within steadier (becomeFollowerLocked t).
Proof.
  intros n. split_and!; [by intros ?%follow_role|apply node_keeps_follow|].
  assert (within healthy_kept (becomeFollowerLocked t)) as H; [|apply H].
  unfold becomeFollowerLocked, resetElectionTimerLocked. walk.
Qed.
#[local] Hint Resolve steadier_follow : pres.
Lemma steadier_HandleVote t c : within steadier (HandleVote t c).
Proof. unfold HandleVote. steady_steps. Qed.
Lemma steadier_ObserveLeader t l : within steadier (ObserveLeader t l).
Proof. unfold ObserveLeader. steady_steps. Qed.
Lemma steadier_MaybeStepDown t : within steadier (MaybeStepDown t).
Proof. unfold MaybeStepDown. steady_steps. Qed.

Definition steady s s' : Prop :=
  (s'.(sv_node).(Node_role) = Leader →
   s.(sv_node).(Node_role) = Leader ∧ s'.(sv_node).(Node_spawned) = s.(sv_node).(Node_spawned)) ∧
  s'.(sv_closed) = s.(sv_closed) ∧ s'.(sv_queue) = s.(sv_queue) ∧ s'.(sv_retryTimers) = s.(sv_retryTimers) ∧
  s'.(sv_leases) = s.(sv_leases) ∧ s'.(sv_revIndex) = s.(sv_revIndex) ∧ jobs_of s' = jobs_of s.

#[export] Instance steady_preorder : PreOrder steady.
Proof.
  split; [by intros s|]. intros a b c (Ha&?&?&?&?&?&?) (Hb&?&?&?&?&?&?). split_and!; [|congruence..].
  intros [Hc1 Hc2]%Hb. destruct (Ha Hc1). split; congruence.
Qed.

Lemma steady_modify (g : Server St → Server St) : (∀ s, steady s (g s)) → within steady (modify g).
Proof. intros H s. apply H. Qed.
Lemma steady_tick : within steady next_tick.
Proof. by intros s. Qed.
Lemma steady_node {A} (m : M (NodeState St) A) : within steadier m → within steady (on_node m).
Proof.
  intros Hm s. destruct (Hm (mkNodeState (sv_node s) (sv_store s) (sv_tick s))) as (Hr & [Hk _] & _).
  unfold exec, on_node in *. destruct (m _) as [a n]. by split_and!.
Qed.
#[local] Hint Resolve steady_tick : pres.

Lemma steady_ship rpc : within steady (replication_tick rpc).
Proof.
  unfold replication_tick, broadcastReplicate, replicate_to, ackPeer, is_leader, range_keys.
  walk; try (apply steady_modify; intros s'; done).
  - apply steady_node, steadier_MaybeStepDown.
  - apply steady_modify. intros s'. by destruct (_ <? _)%Z.
Qed.
Lemma steady_observe t l : within steady (_ ← Replicate t l []; mret tt).
Proof.
  unfold Replicate, applyEntries. simpl. walk; try (apply steady_modify; intros s'; done).
  apply steady_node, steadier_ObserveLeader.
Qed.

(** *** A won election leaves the takeover to be run last *)

Definition won (n : NodeState St) : Prop :=
  n.(ns_node).(Node_role) = Leader → ∃ t, last n.(ns_node).(Node_spawned) = Some (OnLeader t).

Lemma steadier_won {A} (m : M (NodeState St) A) : within steadier m → preserves won m.
Proof. intros Hm n Hn Hr. destruct (Hm n) as (H1 & _). destruct (H1 Hr) as [H2 ->]. auto. Qed.

Lemma won_lead t : preserves won (becomeLeaderLocked t).
Proof. intros n _ _. exists t. simpl. by rewrite last_snoc. Qed.
#[local] Hint Resolve won_lead : pres.

Lemma won_vote t v r : preserves won (startElection_vote t v r).
Proof. unfold startElection_vote. walk; apply steadier_won; eauto with pres. Qed.

Lemma won_elect rs n : won (exec (startElection rs) n).
Proof.
  unfold startElection. rewrite exec_bind.
  assert (won (exec startElection_begin n)) as H.
  { unfold startElection_begin. rewrite exec_bind. apply (steadier_won (A := Z * list string)); [|done]. steady_steps. }
  revert H. generalize (eval startElection_begin n), (exec startElection_begin n). intros tp n1.
  generalize 1%Z, (take (length tp.2) rs). intros v l. revert v n1.
  induction l as [|r l IH]; intros v n1 Hn; [done|]. simpl. rewrite exec_bind.
  pose proof (won_vote tp.1 v r n1 Hn). by destruct (eval _ n1); [apply IH|].
Qed.

(** *** What a leader at work maintains *)

(** A property a takeover establishes, and that neither the handlers nor the
    steps of a node that stays leader break. *)
Class Maintained (W : Server St → Prop) : Prop := {
  mt_leader o s : leader_op o = true → lease_inv s → W s → W (exec (run_op o) s);
  mt_timer id : preserves W (timer_fired id);
  mt_steady s s' : steady s s' → at_work s' → healthy s'.(sv_store) → W s → W s';
  mt_takeover t s : IsLeader s.(sv_node) = true → s.(sv_closed) = false → healthy s.(sv_store) → queue_wf s.(sv_queue) →
    W (exec (onBecomeLeader t) s)
}.

Lemma leader_op_sched o s :
  leader_op o = true → lease_inv s → sched ∅ s → sched ∅ (exec (run_op o) s).
Proof.
  intros Ho Hi Hs. destruct o; try done; simpl; mrun.
  - by apply SubmitJob_sched.
  - by apply CancelJob_sched.
  - by apply PollTask_sched.
  - by apply ReportTask_sched.
  - revert s Hi Hs. intros s _. revert s. change (preserves (sched ∅) (RegisterWorker w)).
    unfold RegisterWorker. walk; apply still_sched; eauto with pres.
  - revert s Hi Hs. intros s _. revert s. change (preserves (sched ∅) (Heartbeat worker running)).
    unfold Heartbeat. walk; apply still_sched; eauto with pres.
  - revert s Hi Hs. intros s _. revert s. change (preserves (sched ∅) reaper_tick).
    unfold reaper_tick, is_leader. walk. apply reapOnce_sched.
Qed.

#[export] Instance sched_maintained : Maintained (sched ∅).
Proof.
  split; [exact leader_op_sched|exact timer_fired_sched| |exact onBecomeLeader_sched].
  intros s s' (_ & Hc & Hq & Ht & Hl & Hi & Hj) (Hr & _ & _) Hh [S1 S2 S3 S4 S5]. split; [|congruence|done|by rewrite Hq|].
  - unfold IsLeader. by apply bool_decide_eq_true.
  - rewrite Hj. unfold tracked. rewrite Hq, Ht, Hl, Hi. exact S5.
Qed.

Section maintained.
Context (W : Server St → Prop) {HW : Maintained W}.

Record track_inv s : Prop := {
  tr_healthy : healthy s.(sv_store);
  tr_callbacks : callbacks_ok s.(sv_node);
  tr_work : at_work s → W s
}.

Lemma role_track s s' : same_role s s' → healthy s'.(sv_store) → (W s → W s') → track_inv s → track_inv s'.
Proof.
  intros [Hn Hc] Hh Hs [_ H2 H3]. assert (at_work s' → at_work s) as Hw by (unfold at_work; by rewrite Hn, Hc).
  split; [done|by rewrite Hn|]. eauto.
Qed.

Lemma steady_track s s' : steady s s' → healthy s'.(sv_store) → track_inv s → track_inv s'.
Proof.
  intros Hs Hh [_ H2 H3]. pose proof Hs as (Hr & Hc & _). split; [done|..].
  - intros [H ->]%Hr. by apply H2.
  - intros Hw. eapply mt_steady; [done..|]. apply H3. destruct Hw as (Hl' & Hs' & Hc').
    destruct (Hr Hl') as [H4 H5]. split_and!; congruence.
Qed.

Lemma takeover_track t s :
  hl s → queue_ok s → callbacks_ok s.(sv_node) → track_inv (exec (onBecomeLeader t) s).
Proof.
  intros Hh Hq Hc. destruct (w_onBecomeLeader same_role sr_takeover t s) as [Hn Ho]. split.
  - exact (w_onBecomeLeader (kept hl) hl_takeover t s Hh).
  - by rewrite Hn.
  - unfold at_work. rewrite Hn, Ho. intros (Hr & _ & Hf). apply mt_takeover; [|done..].
    by apply bool_decide_eq_true.
Qed.

Lemma idle_track s : hl s → s.(sv_node).(Node_role) ≠ Leader → track_inv s.
Proof. intros Hh Hr. split; [done|by intros ?|by intros (? & _)]. Qed.

Lemma Start_spawned (n : NodeState St) : (exec Start n).(ns_node).(Node_spawned) = n.(ns_node).(Node_spawned).
Proof.
  set (R := λ a b : NodeState St, b.(ns_node).(Node_spawned) = a.(ns_node).(Node_spawned)).
  assert (PreOrder R) as HR by (split; [by intros ?|intros a b c; unfold R; congruence]).
  assert (within R persistLocked) as Hp.
  { intros n1. unfold R, exec, persistLocked. by destruct (SaveState _ _ _). }
  assert (within R Start) as H; [|apply H]. unfold Start, resetElectionTimerLocked. walk; by intros n1.
Qed.

Lemma start_track s :
  hl s → queue_ok s → s.(sv_node).(Node_role) ≠ Leader → s.(sv_node).(Node_spawned) = [] →
  track_inv (exec start_server s).
Proof.
  intros Hh Hq Hr Hsp. destruct (sr_recover s) as [Hn _].
  assert (hl (exec recover s) ∧ queue_ok (exec recover s)) as [Hh1 Hq1].
  { assert (preserves hl recover) as H1 by (unfold recover; fit).
    assert (preserves queue_ok recover) as H2 by (unfold recover; walk; by apply ok_modify). split; [by apply H1|by apply H2]. }
  unfold start_server. rewrite exec_bind. revert Hn Hh1 Hq1. generalize (exec recover s). intros s1 Hn Hh1 Hq1.
  destruct (eval recover s); mrun; [apply idle_track; [done|by rewrite Hn]|].
  set (n1 := mkNodeState (sv_node s1) (sv_store s1) (sv_tick s1)).
  assert (within healthy_kept Start) as Hk by (unfold Start, resetElectionTimerLocked; walk).
  pose proof (hl_node Start Hk s1 Hh1) as Hh2. pose proof (ok_node Start s1 Hq1) as Hq2.
  assert ((exec (on_node Start) s1).(sv_node) = (exec Start n1).(ns_node) ∧
    eval (on_node Start) s1 = eval Start n1) as [Hn2 ->].
  { unfold exec, eval, on_node. fold n1. by destruct (Start n1). }
  assert ((sv_node (exec (on_node Start) s1)).(Node_spawned) = []) as Hs2 by (rewrite Hn2, Start_spawned; simpl; congruence).
  revert Hh2 Hq2 Hn2 Hs2. generalize (exec (on_node Start) s1). intros s2 Hh2 Hq2 Hn2 Hs2.
  destruct (Start_leads n1) as [[t ->]|[-> Hr2]]; mrun.
  - apply takeover_track; [done|done|]. intros _. by left.
  - apply idle_track; [done|]. rewrite Hn2, Hr2. simpl. by rewrite Hn.
Qed.

Lemma callback_track s : track_inv s → queue_ok s → track_inv (exec (run_callback 0) s).
Proof.
  intros Ht Hq. pose proof Ht as [Hh Hc _]. unfold run_callback. mrun.
  destruct (sv_node s).(Node_spawned) as [|cb cbs] eqn:Es; mrun; [done|]. simpl.
  mrun. match goal with |- context [set_sv_node ?n s] => set (s1 := set_sv_node n s) end.
  assert (callbacks_ok s1.(sv_node)) as Hc1.
  { intros Hr. specialize (Hc Hr). rewrite Es in Hc. destruct Hc as [?|[t Hc]]; [done|]. simpl.
    destruct cbs as [|cb' cbs]; [by left|right; eauto]. }
  destruct cb as [t|t]; mrun; [by apply takeover_track|].
  destruct (w_onStepDown same_role sr_takeover t s1) as [Hn Ho]. split.
  - exact (w_onStepDown (kept hl) hl_takeover t s1 Hh).
  - by rewrite Hn.
  - unfold at_work. rewrite Hn. intros (Hr & Hsp & _). exfalso. simpl in Hsp. subst cbs.
    destruct (Hc Hr) as [H1|[t' H1]]; by rewrite Es in H1.
Qed.

Lemma op_track o s :
  callbacks_in_order o → lease_inv s → queue_ok s → track_inv s → track_inv (exec (run_op o) s).
Proof.
  intros Ho Hi Hq Ht. pose proof (op_healthy o s (tr_healthy s Ht)) as Hh. destruct (leader_op o) eqn:El.
  { eapply role_track; [apply (leader_op_within same_role o sr_steps El)|done|by apply mt_leader|done]. }
  destruct o; try done; simpl in *.
  - eapply role_track; [apply (w_timer same_role), sr_steps|done|apply mt_timer|done].
  - eapply steady_track; [apply steady_ship|done|done].
  - mrun. mrun in Hh. eapply steady_track; [apply (steady_node (HandleVote term candidate)), steadier_HandleVote|done|done].
  - eapply steady_track; [apply steady_observe|done|done].
  - pose proof (won_elect results (mkNodeState (sv_node s) (sv_store s) (sv_tick s))) as Hw.
    assert ((exec (on_node (startElection results)) s).(sv_node) =
      (exec (startElection results) (mkNodeState (sv_node s) (sv_store s) (sv_tick s))).(ns_node)) as Hn.
    { unfold exec, on_node. by destruct (startElection _ _). }
    split; [done|intros Hr; right|intros (Hr & Hsp & _); exfalso]; rewrite Hn in *; destruct (Hw Hr) as [t Hl]; [eauto|].
    by rewrite Hsp in Hl.
  - subst i. by apply callback_track.
  - unfold restart. mrun. apply start_track; [apply Ht|apply ok_new_server|done|done].
  - split; [done|apply Ht|by intros (_ & _ & ?)].
Qed.

Lemma ordered_track s : ordered_reachable s → reachable s ∧ track_inv s.
Proof.
  intros (s0 & Hf & Hh & Hr). refine (rtc_ind_r (λ s, reachable s ∧ track_inv s) s0 _ _ s Hr).
  - split; [by exists s0|]. destruct Hf as (cfg & st & k & -> & _). by apply idle_track.
  - intros s1 s2 _ [s3 o Ha Ho] [(s4 & Hf4 & Hr4) Ht]. assert (reachable s3) as H3 by (by exists s4). split.
    + exists s4. split; [done|]. eapply rtc_r; [done|by constructor].
    + apply op_track; [done|by apply reachable_leases|by apply reachable_queue_ok|done].
Qed.

Lemma ordered_work s : ordered_reachable s → at_work s → W s.
Proof. intros Hr. apply (ordered_track s Hr). Qed.

End maintained.

Lemma run_all_ordered ops s :
  all_ok ops s = true → Forall callbacks_in_order ops → rtc ordered_step s (run_all ops s).
Proof.
  revert s. induction ops as [|o ops IH]; intros s; simpl; [done|].
  intros [H1 H2]%andb_true_iff [Ho Hos]%Forall_cons.
  eapply rtc_l; [|by apply IH]. constructor; [by apply op_ok_allowed|done].
Qed.

(** C5. On a store that does not fail, with operations that do not overlap,
    submissions under ids that are not taken, no shipments to this node, and the
    election's callbacks run in the order they were started, a leader that has
    taken over loses no job: in every state such a node can reach, a queued job
    is in the ready queue or has an armed timer, a running job has a lease, and
    a pending job is indexed under every job it waits for. ([Races.v] has a run
    with overlapping operations that drops a queued job.) *)
Theorem no_job_is_lost s id j :
  ordered_reachable s → at_work s → jobs_of s !! id = Some j → tracked s id j.
Proof. intros Hr Hw Hj. by apply (ordered_work (sched ∅) s Hr Hw). Qed.

End tracking.

(** ** Samples *)

Section samples.
#[local] Existing Instance sample_env.
#[local] Existing Instance sample_cron.

Lemma sample_ready_ordered : ordered_reachable (sample_run sample_ready).
Proof.
  exists sample_boot. split_and!; [by exists sample_cfg, empty_store, 0|exact empty_store_healthy|].
  apply run_all_ordered; [vm_compute; reflexivity|by repeat constructor].
Qed.

(** Job "b" runs, "c" waits for it, and "d" is ready. *)
Lemma no_job_is_lost_witness :
  let s := sample_run sample_ready in
  (∃ t l, s.(sv_leases) !! t = Some l ∧ l.(lease_jobID) = "b") ∧ waits s.(sv_revIndex) "b" "c" ∧
  (is_Some (queue_view s.(sv_queue) !! "d") ∨ is_Some (s.(sv_retryTimers) !! "d")).
Proof.
  assert (at_work (sample_run sample_ready)) as Hw by (split_and!; vm_compute; reflexivity).
  pose proof (λ id j, no_job_is_lost (sample_run sample_ready) id j sample_ready_ordered Hw) as H.
  assert (∀ id, id ∈ ["b"; "c"; "d"] → jobs_of (sample_run sample_ready) !! id = Some (job_at id (sample_run sample_ready))) as Hj.
  { apply Forall_forall. rewrite !Forall_cons, Forall_nil. split_and!; [vm_compute; reflexivity..|exact I]. }
  assert ((λ id, (job_at id (sample_run sample_ready)).(Job_State)) <$> ["b"; "c"; "d"] =
    [JOB_STATE_RUNNING; JOB_STATE_PENDING; JOB_STATE_QUEUED]) as Hst by (vm_compute; reflexivity).
  assert ((job_at "c" (sample_run sample_ready)).(Job_DependsOn) = ["b"]) as Hd by (vm_compute; reflexivity).
  revert H Hj Hst Hd. generalize (sample_run sample_ready). intros s H Hj [= Sb Sc Sd] Hd.
  pose proof (λ id Hin, H id _ (Hj id Hin)) as Ht. clear H Hj. unfold tracked in Ht. split_and!.
  - specialize (Ht "b" ltac:(set_solver)). by rewrite Sb in Ht.
  - specialize (Ht "c" ltac:(set_solver)). rewrite Sc, Hd in Ht. apply Ht. set_solver.
  - specialize (Ht "d" ltac:(set_solver)). by rewrite Sd in Ht.
Defined.

End samples.
