(* ===== verification/Progress.v ===== *)
(** * Jobs are promoted

    Under the conditions of [Tracking.v] a leader at work keeps no job waiting
    whose dependencies have all succeeded. *)

From stdpp Require Import relations.
From S2P Require Import Prelude Types Queue Retry Env Cluster Store MemStore Server Cycle Deps Lifecycle.
From S2P Require Import Dispatch Jobs Workers Replication Leadership Handlers Refinement Rebuild System Leases Ready Cascade.
From S2P Require Import ReplLog Convergence Tracking.

Lemma not_deps_done m deps :
  ¬ deps_done m deps → ∃ d, d ∈ deps ∧ ∀ dj, m !! d = Some dj → dj.(Job_State) ≠ JOB_STATE_SUCCEEDED.
Proof.
  intros Hn. assert (¬ Forall (λ d, ∃ dj, m !! d = Some dj ∧ dj.(Job_State) = JOB_STATE_SUCCEEDED) deps) as Hf
    by (by rewrite Forall_forall).
  apply not_Forall_Exists, Exists_exists in Hf as (d & Hd & Hs); [|intros d; destruct (m !! d) as [dj|] eqn:E].
  - exists d. split; [done|]. eauto.
  - destruct (decide (dj.(Job_State) = JOB_STATE_SUCCEEDED)); [left|right]; naive_solver.
  - right. naive_solver.
Qed.

Section progress.
Context {St : Type} {Gstore : JobStore St} {Gdur : DurableStore St} {Genv : Env} {Gcron : Cron}.
Implicit Types (s : Server St) (j : Job) (X Y : gset string).

(** ** Steps that neither complete a job nor make one wait *)

Definition modest_jobs (m m' : jobs_map) : Prop := ∀ id j, m' !! id = Some j →
  (j.(Job_State) = JOB_STATE_PENDING → m !! id = Some j) ∧
  (j.(Job_State) = JOB_STATE_SUCCEEDED → ∃ j0, m !! id = Some j0 ∧ j0.(Job_State) = JOB_STATE_SUCCEEDED).

Definition modest s s' : Prop := modest_jobs (jobs_of s) (jobs_of s').

#[export] Instance modest_preorder : PreOrder modest.
Proof.
  split; [intros s id j Hj; eauto|]. intros a b c H1 H2 id j Hj. destruct (H2 id j Hj) as [Hp Hs]. split.
  - intros Hst. by apply (H1 id j (Hp Hst)).
  - intros (j0 & Hj0 & Hst)%Hs. by apply (H1 id j0 Hj0).
Qed.

Lemma modest_keeps {A} (m : M (Server St) A) : within keeps m → within modest m.
Proof.
  intros Hm s id j. pose proof (exec_keeps m s Hm) as Ha. injection Ha as -> _. eauto.
Qed.

Lemma modest_putJob j :
  j.(Job_State) ≠ JOB_STATE_PENDING → j.(Job_State) ≠ JOB_STATE_SUCCEEDED → within modest (putJob j).
Proof.
  intros Hp Hs s id j' Hj'. destruct (putJob_cases s j) as [[_ Ha]|[_ Ha]]; injection Ha as Hj _; rewrite Hj in Hj'; [|eauto].
  apply lookup_insert_Some in Hj' as [[<- <-]|[_ Hj']]; [done|eauto].
Qed.

Lemma modest_dead j : within modest (on_store (PutDeadLetter j)).
Proof.
  intros s id j'. unfold jobs_of.
  change (sv_store (exec (on_store (PutDeadLetter j)) s)) with (exec (PutDeadLetter j) (sv_store s)).
  rewrite (PutDeadLetter_writes j (sv_store s)). destruct (eval _ _); eauto.
Qed.

#[local] Hint Resolve modest_dead : pres.
#[local] Hint Extern 2 (within modest (putJob _)) => apply modest_putJob; discriminate : pres.
#[local] Hint Extern 3 (within modest _) => apply modest_keeps; first
  [apply keeps_Now|apply keeps_new_id|apply keeps_range|apply keeps_Until|apply keeps_count|apply keeps_requireLeader
  |apply keeps_getJob|apply keeps_armEnqueue|apply keeps_addLease|apply keeps_removeLease|apply keeps_removeFromIndex
  |apply keeps_addDeps|apply keeps_dependentsOf|apply keeps_clear|apply keeps_leases_where|apply keeps_putWorker
  |apply keeps_fire_time|apply keeps_queue|apply keeps_tick] : pres.

Lemma modest_makeReady j now : within modest (makeReady j now).
Proof. unfold makeReady. walk. Qed.
Lemma modest_cascade fuel work V reason now : within modest (cascade fuel work V reason now).
Proof. revert work V reason. induction fuel as [|fuel IH]; intros [|cur work] V reason; simpl; unfold cascade_step; walk. Qed.
#[local] Hint Resolve modest_makeReady modest_cascade : pres.
Lemma modest_cancelCascade id reason : within modest (cancelCascade id reason).
Proof. unfold cancelCascade. walk. Qed.
#[local] Hint Resolve modest_cancelCascade : pres.
Lemma modest_tryPromote id : within modest (tryPromote id).
Proof. unfold tryPromote, depsSatisfied. walk. Qed.
Lemma modest_cron j now : within modest (maybeRescheduleCron j now).
Proof. unfold maybeRescheduleCron. walk. Qed.
#[local] Hint Resolve modest_tryPromote modest_cron : pres.
Lemma modest_handleFailure j msg now : within modest (handleFailure j msg now).
Proof. unfold handleFailure. walk. Qed.
#[local] Hint Resolve modest_handleFailure : pres.
Lemma modest_requeueLease t reason : within modest (requeueLease t reason).
Proof. unfold requeueLease, getLease. walk. Qed.
#[local] Hint Resolve modest_requeueLease : pres.
Lemma modest_poll_loop fuel n w now out : within modest (poll_loop fuel n w now out).
Proof. revert out. induction fuel as [|fuel IH]; intros out; simpl; walk. Qed.
#[local] Hint Resolve modest_poll_loop : pres.
Lemma modest_PollTask w n : within modest (PollTask w n).
Proof. unfold PollTask, workerKnown. walk. Qed.
Lemma modest_CancelJob id : within modest (CancelJob id).
Proof. unfold CancelJob, loadJob. walk. Qed.
Lemma modest_reaper : within modest reaper_tick.
Proof. unfold reaper_tick, reapOnce, requeueLeasesForWorker, is_leader. walk. Qed.
Lemma modest_rebuild_one now j : within modest (rebuild_one now j).
Proof. unfold rebuild_one. walk. Qed.
Lemma modest_rebuild_all now jobs : within modest (rebuild_all now jobs).
Proof. induction jobs as [|j jobs IH]; simpl; walk. apply modest_rebuild_one. Qed.

(** ** Waiting jobs wait for something *)

(** Every waiting job outside [Y] has a dependency that has not succeeded. *)
Definition waiting Y s : Prop := ∀ id j, id ∉ Y → jobs_of s !! id = Some j →
  j.(Job_State) = JOB_STATE_PENDING → ¬ deps_done (jobs_of s) j.(Job_DependsOn).

Lemma waiting_mono Y Y' s : Y ⊆ Y' → waiting Y s → waiting Y' s.
Proof. intros Hs H id j Hid. apply H. set_solver. Qed.

Lemma modest_done m m' deps : modest_jobs m m' → deps_done m' deps → deps_done m deps.
Proof. intros Hm Hd d Hin. destruct (Hd d Hin) as (dj & Hdj & Hs). by apply (Hm d dj Hdj). Qed.

Lemma modest_waiting Y s s' : modest s s' → waiting Y s → waiting Y s'.
Proof.
  intros Hm H id j Hid Hj Hp Hd. destruct (Hm id j Hj) as [Hpend _]. specialize (Hpend Hp).
  eapply H; [done|exact Hpend|done|by eapply modest_done].
Qed.

Lemma still_waiting {A} Y (m : M (Server St) A) : within modest m → preserves (waiting Y) m.
Proof. intros Hm s. apply modest_waiting, Hm. Qed.

Lemma waiting_same s s' Y : jobs_of s' = jobs_of s → waiting Y s → waiting Y s'.
Proof. unfold waiting. by intros ->. Qed.

(** On a store that does not fail, dependencies that have succeeded are found. *)
Lemma done_ready (st : St) deps : healthy st → deps_done (st_view st).(v_jobs) deps → deps_ready st deps = (true, "").
Proof.
  intros Hh Hd. induction deps as [|d deps IH]; simpl; [done|].
  destruct (Hd d) as (dj & Hdj & Hs); [by left|]. rewrite (GetJob_finds d st dj Hh Hdj), Hs.
  apply IH. intros x Hx. apply Hd. by right.
Qed.

(** A job that is looked at no longer waits in vain. *)
Lemma tryPromote_waiting Y x s : sched ∅ s → waiting ({[x]} ∪ Y) s → waiting Y (exec (tryPromote x) s).
Proof.
  intros Hs Hw. assert (waiting ({[x]} ∪ Y) (exec (tryPromote x) s)) as Hw' by (by apply (still_waiting _ _ (modest_tryPromote x))).
  intros id j Hid Hj Hp Hd. destruct (decide (id = x)) as [->|Hne]; [|by eapply (Hw' id j); [set_solver|..]].
  destruct (modest_tryPromote x s x j Hj) as [Hpend _]. specialize (Hpend Hp).
  apply (modest_done (jobs_of s)) in Hd; [|apply modest_tryPromote].
  revert Hj. unfold tryPromote. mrun. change (exec (getJob x) s) with s.
  pose proof (getJob_durable s x (sc_healthy _ _ Hs)) as Hg. rewrite Hpend in Hg. rewrite Hg.
  destruct (getJob_stored _ _ _ Hg) as [_ Hx].
  rewrite bool_decide_eq_false_2 by (intros H; by apply H). unfold depsSatisfied. mrun.
  rewrite (done_ready (sv_store s) (Job_DependsOn j)) by (done || apply Hs). simpl. mrun.
  destruct (makeReady_sched ∅ (exec Now s) j (eval Now s)) as [_ (j' & Hj' & Hq)];
    [by apply still_sched; [apply sf_Now|]|rewrite Hx; by eapply jobs_keys|].
  rewrite Hx in Hj'. change (jobs_of (exec (removeFromIndex x) ?s1)) with (jobs_of s1). intros Hj. congruence.
Qed.

Lemma promote_all_waiting Y xs s :
  sched ∅ s → waiting (list_to_set xs ∪ Y) s → waiting Y (exec (forM_ xs tryPromote) s).
Proof.
  revert s. induction xs as [|x xs IH]; intros s Hs Hw; simpl; [by eapply waiting_mono; [|exact Hw]; set_solver|]. mrun.
  apply IH; [by apply tryPromote_sched|]. apply tryPromote_waiting; [done|].
  eapply waiting_mono; [|exact Hw]. simpl. set_solver.
Qed.

Lemma promoteDependents_waiting Y id s :
  sched ∅ s → waiting (default ∅ (s.(sv_revIndex) !! id) ∪ Y) s → waiting Y (exec (promoteDependents id) s).
Proof.
  intros Hs Hw. unfold promoteDependents, dependentsOf. mrun. apply promote_all_waiting.
  - apply still_sched; [apply sf_range|done].
  - assert (∀ ks x, x ∈ ks → x ∈ eval (range_keys ks) s) as Hin.
    { intros ks x Hx. unfold range_keys. mrun. by rewrite env_order_perm. }
    eapply waiting_mono; [|exact Hw]. intros x [Hx|Hx]%elem_of_union; apply elem_of_union; [left|by right].
    apply elem_of_list_to_set, Hin. by apply elem_of_elements.
Qed.

(** A job that succeeds concerns the jobs indexed under it. *)
Lemma succeed_waiting s j now :
  sched {[j.(Job_Id)]} s → j.(Job_Id) ≠ "" → waiting ∅ s →
  waiting (default ∅ (s.(sv_revIndex) !! j.(Job_Id))) (exec (putJob (succeeded now j)) s).
Proof.
  intros Hs Hid Hw x jx Hx. destruct (putJob_durable s (succeeded now j) (sc_healthy _ _ Hs) Hid) as (_ & _ & ->).
  change (Job_Id (succeeded now j)) with (Job_Id j). intros [[<- <-]|[Hne Hj]]%lookup_insert_Some Hp Hd; [done|].
  pose proof (sc_tracked _ _ Hs x jx ltac:(set_solver) Hj) as Ht. unfold tracked in Ht. rewrite Hp in Ht.
  apply (Hw x jx ltac:(set_solver) Hj Hp). intros d Hin. destruct (Hd d Hin) as (dj & Hdj & Hst).
  apply lookup_insert_Some in Hdj as [[<- _]|[_ Hdj]]; [|eauto]. exfalso. by apply Hx, Ht.
Qed.

Lemma ReportTask_waiting t r msg s : sched ∅ s → waiting ∅ s → waiting ∅ (exec (ReportTask t r msg) s).
Proof.
  intros Hs Hw. unfold ReportTask. mrun. apply (still_sched _ _ sf_requireLeader) in Hs.
  apply (still_waiting _ _ (modest_keeps _ keeps_requireLeader)) in Hw. revert Hs Hw.
  generalize (exec requireLeader s). intros s1 Hs Hw. destruct (eval requireLeader s); [done|]. unfold getLease. mrun.
  destruct (sv_leases s1 !! t) as [l|] eqn:El; mrun; [|done]. change (exec (getJob (lease_jobID l)) s1) with s1.
  pose proof (modest_keeps _ (keeps_removeLease t)) as Hrm.
  destruct (eval (getJob (lease_jobID l)) s1) as [j|] eqn:Eg; mrun; [|by apply (still_waiting _ _ Hrm)].
  destruct (getJob_stored _ _ _ Eg) as [Hst Hid]. pose proof (stored_key _ _ Hst) as Hne.
  destruct (bool_decide _); mrun; [by apply (still_waiting _ _ Hrm)|].
  apply (still_sched _ _ sf_Now) in Hs. apply (still_waiting _ _ (modest_keeps _ keeps_Now)) in Hw.
  change (sv_leases s1) with (sv_leases (exec Now s1)) in El. revert Hs El Hw.
  generalize (exec Now s1), (eval Now s1). intros s2 now Hs El Hw. destruct r; mrun; try done.
  - pose proof (removeLease_sched ∅ s2 t l Hs El) as H1. rewrite <- Hid, union_empty_r_L in H1.
    apply (still_waiting _ _ Hrm) in Hw. revert H1 Hw. generalize (exec (removeLease t) s2). intros s3 H1 Hw.
    pose proof (cron_sched _ s3 j now H1 Hne) as Hc. pose proof (still_waiting _ _ (modest_cron j now) s3 Hw) as Hw2.
    revert Hc Hw2. generalize (exec (maybeRescheduleCron j now) s3), (eval (maybeRescheduleCron j now) s3).
    intros s4 [[|] j2]; cbn [fst snd]; mrun; [done|]. intros [-> ->] _.
    destruct (put_done_sched _ s3 (succeeded now j) H1 Hne eq_refl) as (He & H2 & H3). rewrite He. mrun.
    apply promoteDependents_waiting; [eapply settle_done_sched; [exact H2|set_solver|done..]|].
    change (Job_Id (succeeded now j)) with (Job_Id j).
    intros x jx Hx Hjx Hp. eapply (succeed_waiting s3 j now); [done..| |exact Hjx|done].
    intros Hin. apply Hx, elem_of_union. left. apply (waits_drop (Job_Id j) (sv_revIndex (exec (putJob (succeeded now j)) s3)) (Job_Id j) x).
    rewrite (same_index_putJob (succeeded now j) s3). split; [done|]. intros ->. change (jobs_of (exec (putJob (succeeded now j)) s3) !! Job_Id j = Some jx) in Hjx.
    unfold stored in H3. change (Job_Id (succeeded now j)) with (Job_Id j) in H3. rewrite H3 in Hjx. by injection Hjx as <-.
  - apply (still_waiting _ _ (modest_handleFailure j msg now)) in Hw.
    destruct (eval (handleFailure j msg now) s2) as [[e|] j2]; mrun; [done|by apply (still_waiting _ _ Hrm)].
Qed.

(** A new job waits only when a dependency has not succeeded. *)
Lemma placeNewJob_waiting j now s :
  healthy s.(sv_store) → j.(Job_Id) ≠ "" → waiting ∅ s → waiting ∅ (exec (placeNewJob j now) s).
Proof.
  intros Hh Hid Hw. unfold placeNewJob, depsSatisfied. mrun. destruct (negb _); [|destruct (deps_ready _ _).1 eqn:Er]; mrun.
  - apply (still_waiting _ _ (modest_keeps _ (keeps_count inc_JobsCanceled))).
    revert s Hh Hw. intros s _. apply still_waiting, modest_putJob; done.
  - by apply (still_waiting _ _ (modest_makeReady j now)).
  - match goal with |- context [putJob ?x] => set (j1 := x) end.
    apply (still_waiting _ _ (modest_keeps _ (keeps_addDeps j1)) (exec (putJob j1) s)).
    destruct (putJob_durable s j1 Hh Hid) as (_ & _ & Hj). intros x jx _. rewrite Hj.
    assert (∀ deps, deps_done (<[Job_Id j1:=j1]> (jobs_of s)) deps → deps_done (jobs_of s) deps) as Hback.
    { intros deps Hd d Hin. destruct (Hd d Hin) as (dj & [[_ <-]|[_ Hdj]]%lookup_insert_Some & Hst); [done|eauto]. }
    intros [[_ <-]|[_ Hx]]%lookup_insert_Some Hp Hd%Hback; [|by apply (Hw x jx)].
    apply (done_ready (sv_store s)) in Hd; [|done]. change (Job_DependsOn j1) with (Job_DependsOn j) in Hd. by rewrite Hd in Er.
Qed.

Lemma SubmitJob_waiting req s : sched ∅ s → waiting ∅ s → waiting ∅ (exec (SubmitJob req) s).
Proof.
  intros Hs Hw. unfold SubmitJob. mrun. apply (still_sched _ _ sf_requireLeader) in Hs.
  apply (still_waiting _ _ (modest_keeps _ keeps_requireLeader)) in Hw. revert Hs Hw.
  generalize (exec requireLeader s). intros s1 Hs Hw. destruct (eval requireLeader s); [done|].
  destruct req as [j|]; [|done]. destruct (String.eqb _ ""); [done|]. mrun.
  apply (still_waiting _ _ (modest_keeps _ (keeps_valid_cron j))) in Hw.
  apply (still_sched _ _ (sf_valid_cron j)) in Hs. revert Hs Hw. generalize (exec (valid_cron j) s1). intros s2 Hs Hw. destruct (eval (valid_cron j) s1); [done|]. mrun.
  apply (still_waiting _ _ (modest_keeps _ (keeps_with_id j))) in Hw. pose proof (with_id_key j s2) as Hid.
  apply (still_sched _ _ (sf_with_id j)) in Hs. revert Hs Hw Hid. generalize (exec (with_id j) s2), (eval (with_id j) s2). intros s3 j1 Hs Hw Hid.
  assert (exec (rejects_cycle j1) s3 = s3) as -> by (unfold rejects_cycle; by destruct (Job_DependsOn j1)).
  destruct (eval _ s3); [done|]. mrun. apply (still_waiting _ _ (modest_keeps _ (keeps_count inc_JobsSubmitted))).
  apply placeNewJob_waiting; [apply Hs|done|done].
Qed.

(** ** Taking over *)

Context {Guniq : UniqueIds Genv}.

(** The rebuild lists the waiting jobs as they are stored. *)
Lemma rebuild_all_lists now jobs s j :
  j ∈ jobs → j.(Job_State) = JOB_STATE_PENDING → j ∈ eval (rebuild_all now jobs) s.
Proof.
  intros Hj Hp. revert s. induction jobs as [|j0 jobs IH]; intros s; [by apply not_elem_of_nil in Hj|]. simpl. mrun.
  apply elem_of_cons in Hj as [<-|Hj]; apply elem_of_cons; [left|right; by apply IH].
  unfold rebuild_one. mrun. by rewrite Hp.
Qed.

Lemma onBecomeLeader_waiting t s :
  IsLeader s.(sv_node) = true → s.(sv_closed) = false → healthy s.(sv_store) → queue_wf s.(sv_queue) →
  waiting ∅ (exec (onBecomeLeader t) s).
Proof.
  intros Hl Hc Hh Hq. unfold onBecomeLeader. rewrite exec_bind.
  apply (still_waiting _ _ (modest_keeps _ keeps_seedReplication)).
  destruct (rebuild_sched s Hl Hc Hh Hq) as (jobs & now & s1 & Hp & Hj1 & Hs & ->).
  assert (waiting (list_to_set (Job_Id <$> filter (λ j, Job_State j = JOB_STATE_PENDING) (eval (rebuild_all now jobs) s1)))
    (exec (rebuild_all now jobs) s1)) as Hw.
  { intros id j Hid Hj Hst. exfalso. apply Hid, elem_of_list_to_set, list_elem_of_fmap. exists j.
    split; [symmetry; by eapply jobs_keyed|]. apply list_elem_of_filter. split; [done|].
    apply rebuild_all_lists; [|done]. destruct (modest_rebuild_all now jobs s1 id j Hj) as [Hpend _].
    specialize (Hpend Hst). rewrite Hj1 in Hpend. rewrite Hp. apply list_elem_of_fmap. exists (id, j).
    split; [done|by apply elem_of_map_to_list]. }
  revert Hs Hw. generalize (exec (rebuild_all now jobs) s1), (eval (rebuild_all now jobs) s1). clear. intros s l. revert s.
  induction l as [|j l IH]; intros s Hs Hw; simpl; [by eapply waiting_mono; [|exact Hw]|]. mrun.
  unfold whenM. destruct (decide (Job_State j = JOB_STATE_PENDING)) as [Hp|Hp].
  - rewrite bool_decide_eq_true_2 by done. rewrite filter_cons_True in Hw by done.
    apply IH; [by apply tryPromote_sched|]. by apply tryPromote_waiting.
  - rewrite bool_decide_eq_false_2 by done. rewrite filter_cons_False in Hw by done. mrun. by apply IH.
Qed.

(** ** The machine *)

Lemma leader_op_waiting o s :
  leader_op o = true → sched ∅ s → waiting ∅ s → waiting ∅ (exec (run_op o) s).
Proof.
  intros Ho Hs Hw. destruct o; try done; simpl; mrun.
  - by apply SubmitJob_waiting.
  - by apply (still_waiting _ _ (modest_CancelJob id)).
  - by apply (still_waiting _ _ (modest_PollTask worker n)).
  - by apply ReportTask_waiting.
  - by apply (still_waiting _ _ (modest_keeps _ (keeps_Register w))).
  - by apply (still_waiting _ _ (modest_keeps _ (keeps_Heartbeat worker running))).
  - by apply (still_waiting _ _ modest_reaper).
Qed.

#[export] Instance waiting_maintained : Maintained (λ s, sched ∅ s ∧ waiting ∅ s).
Proof.
  split.
  - intros o s Ho Hi [Hs Hw]. split; [by apply mt_leader|by apply leader_op_waiting].
  - intros id s [Hs Hw]. split; [by apply mt_timer|]. by apply (still_waiting _ _ (modest_keeps _ (keeps_timer_fired id))).
  - intros s s' Hst Ha Hh [Hs Hw]. split; [by eapply mt_steady|]. eapply waiting_same; [apply Hst|done].
  - intros t s Hl Hc Hh Hq. split; [by apply mt_takeover|by apply onBecomeLeader_waiting].
Qed.

(** C9. Promotion is complete: on a store that does not fail, with operations
    that do not overlap and the election's callbacks run in the order they were
    started, a leader that has taken over leaves no job waiting in vain; in
    every state such a node can reach, a PENDING job has a dependency that is
    not stored or has not succeeded. *)
Theorem no_job_waits_in_vain s id j :
  ordered_reachable s → at_work s → jobs_of s !! id = Some j → j.(Job_State) = JOB_STATE_PENDING →
  ∃ d, d ∈ j.(Job_DependsOn) ∧ ∀ dj, jobs_of s !! d = Some dj → dj.(Job_State) ≠ JOB_STATE_SUCCEEDED.
Proof.
  intros Hr Hw Hj Hp. destruct (ordered_work _ s Hr Hw) as [_ H]. specialize (H id j (not_elem_of_empty id) Hj Hp).
  apply not_deps_done in H. exact H.
Qed.

End progress.

(** ** Samples *)

Section samples.
#[local] Existing Instance sample_env.
#[local] Existing Instance sample_cron.

Lemma sample_ready_work : at_work (sample_run sample_ready).
Proof. split_and!; vm_compute; reflexivity. Qed.

(** "c" waits for "b", which runs. *)
Lemma no_job_waits_in_vain_witness :
  ∃ d, d ∈ ["b"] ∧ ∀ dj, jobs_of (sample_run sample_ready) !! d = Some dj → dj.(Job_State) ≠ JOB_STATE_SUCCEEDED.
Proof.
  assert (jobs_of (sample_run sample_ready) !! "c" = Some (job_at "c" (sample_run sample_ready))) as Hj by (vm_compute; reflexivity).
  assert ((job_at "c" (sample_run sample_ready)).(Job_State) = JOB_STATE_PENDING) as Hp by (vm_compute; reflexivity).
  assert ((job_at "c" (sample_run sample_ready)).(Job_DependsOn) = ["b"]) as Hd by (vm_compute; reflexivity).
  pose proof (no_job_waits_in_vain (sample_run sample_ready) "c" _ sample_ready_ordered sample_ready_work Hj Hp) as H.
  rewrite Hd in H. exact H.
Defined.

End samples.
