(* ===== verification/Liveness.v ===== *)
(** * Jobs run to their end

    With a worker that asks for tasks, and tasks that are reported as succeeded
    or failed as they please, every stored job reaches its end, except those
    that depend on a job that is missing or did not succeed. *)

From stdpp Require Import relations.
From S2P Require Import Prelude Types Queue Retry Env Cluster Store MemStore Server Cycle Deps Lifecycle.
From S2P Require Import Dispatch Jobs Workers Replication Leadership Handlers Refinement Rebuild System Leases Ready Cascade.
From S2P Require Import ReplLog Convergence Tracking Progress.

(** ** Lifecycles without new jobs *)

(** No job is admitted; any stored one may be worked on. *)
Definition calm : scope := mkScope (λ _, False) (λ _, True).

Lemma history_back md md' id j' :
  history calm md md' → md'.1 !! id = Some j' →
  ∃ j, md.1 !! id = Some j ∧ same_identity j j' ∧ (terminal j.(Job_State) = true → j' = j).
Proof.
  intros Hh Hj'. assert (job_graph md'.1 = job_graph md.1) as Hg by (by apply (graph_history_none calm)).
  apply (f_equal (lookup id)) in Hg. unfold job_graph in Hg. rewrite !lookup_fmap, Hj' in Hg.
  destruct (md.1 !! id) as [j|] eqn:Hj; [|done]. destruct (history_keeps _ _ _ _ _ Hh Hj) as (j2 & Hj2 & Hs & Ht).
  exists j. simplify_eq. auto.
Qed.

(** Stored jobs are in a state of the lifecycle. *)
Definition named (st : JobState) : bool :=
  match st with JOB_STATE_UNSPECIFIED | JOB_STATE_UNRECOGNIZED _ => false | _ => true end.

Definition all_named (m : jobs_map) : Prop := map_Forall (λ _ j, named j.(Job_State) = true) m.

Lemma named_history sc md md' : history sc md md' → all_named md.1 → all_named md'.1.
Proof.
  induction 1 as [md|md md1 md' Hw _ IH]; [done|]. intros Hn. apply IH. clear IH md'.
  destruct Hw as [m d j _ _ _ Ha|m d j j' _ _ Ht _|m d j _]; [..|done]; apply map_Forall_insert_2; try done.
  - by destruct Ha as [H|H|H _]; rewrite H.
  - by destruct Ht as [? H|? H|? H|? H|? H|? H|? H]; rewrite H.
Qed.

(** *** The work that is left

    The writes a job can still undergo, by its state and the attempts its policy
    leaves it: each attempt is a dispatch and a verdict. *)

Definition left_attempts (j : Job) : nat := Z.to_nat (MaxAttempts j.(Job_RetryPolicy) - j.(Job_Attempt)).

Definition weight (j : Job) : nat :=
  match j.(Job_State) with
  | JOB_STATE_PENDING => 2 * left_attempts j + 1
  | JOB_STATE_QUEUED => 2 * left_attempts j
  | JOB_STATE_RUNNING => 2 * left_attempts j + 1
  | _ => 0
  end.

Definition work (m : jobs_map) : nat := map_fold (λ _ j n, weight j + n) 0 m.

Lemma work_lookup m id j : m !! id = Some j → work m = weight j + work (delete id m).
Proof. intros Hj. apply (map_fold_delete_L (λ _ j n, weight j + n)); [|done]. intros. lia. Qed.

Lemma work_update m id j j' : m !! id = Some j → weight j' < weight j → work (<[id:=j']> m) < work m.
Proof.
  intros Hj Hlt. rewrite (work_lookup m id j Hj), (work_lookup _ id j') by apply lookup_insert_eq.
  rewrite delete_insert_eq. lia.
Qed.

(** Every transition of a job without a recurring schedule uses up work. *)
Lemma transition_works m d j j' :
  attempts_ok j → wire_job j → named j.(Job_State) = true → ¬ is_cron j → same_identity j j' → transition m d j j' →
  weight j' < weight j.
Proof.
  intros (H1 & H2 & H3 & H4) Hw Hn Hc Hs Ht. assert (Job_RetryPolicy j' = Job_RetryPolicy j) as Hp by apply Hs.
  pose proof (MaxAttempts_pos (Job_RetryPolicy j)). unfold weight, left_attempts, wire_job in *. rewrite Hp.
  destruct Ht as [Hs0 Hs1 Ha _|Hs0 Hs1 Ha|Hs0 Hs1 Ha|Hs0 Hs1 Ha|Hs0 Hs1 Hlt Ha|Hs0 Hs1 Hcr Ha|Hs0 Hs1 Hge Ha _];
    rewrite Hs1; try rewrite Hs0 in *; try done; try specialize (H2 eq_refl); try specialize (H4 eq_refl); try lia.
  - destruct (Job_State j); try done; try specialize (H2 eq_refl); lia.
  - rewrite int32_small in Ha by (unfold max_int32 in *; lia). lia.
Qed.

(** What happens to such jobs uses up work, or is nothing. *)
Lemma work_history md md' :
  history calm md md' → sound md → all_named md.1 → map_Forall (λ _ j, ¬ is_cron j) md.1 →
  md'.1 = md.1 ∨ work md'.1 < work md.1.
Proof.
  induction 1 as [md|md md1 md' Hw _ IH]; [by left|]. intros Hs Hn Hc.
  assert (history calm md md1) as Hh by (by apply rtc_once). pose proof (sound_write calm ltac:(done) _ _ Hw Hs) as Hs1.
  pose proof (named_history _ _ _ Hh Hn) as Hn1.
  assert (map_Forall (λ _ j, ¬ is_cron j) md1.1) as Hc1.
  { intros id j' Hj'. destruct (history_back _ _ _ _ Hh Hj') as (j & Hj & Hid & _). specialize (Hc id j Hj). unfold is_cron in *.
    by replace (Job_Schedule j') with (Job_Schedule j) by (symmetry; apply Hid). }
  specialize (IH Hs1 Hn1 Hc1). assert (md1.1 = md.1 ∨ work md1.1 < work md.1) as H1.
  { destruct Hw as [m d j _ []|m d j j' Hj Hid Ht _|m d j _]; [right|by left]. simpl in *.
    assert (Job_Id j' = Job_Id j) as -> by apply Hid. eapply work_update; [done|].
    destruct Hs as [_ Ha Hp _]. eapply transition_works; [by eapply Ha|by eapply Hp|by eapply Hn|by eapply Hc|done|done]. }
  destruct IH as [-> |IH], H1 as [H1|H1]; [by left|by right|right; by rewrite H1 in IH|right; lia].
Qed.

(** Nothing is queued or running, and what waits waits for something. *)
Definition stalled (m : jobs_map) : Prop := ∀ id j, m !! id = Some j →
  j.(Job_State) ≠ JOB_STATE_QUEUED ∧ j.(Job_State) ≠ JOB_STATE_RUNNING ∧
  (j.(Job_State) = JOB_STATE_PENDING → ¬ deps_done m j.(Job_DependsOn)).

(** Only outside work changes that. *)
Lemma stalled_history md md' : history calm md md' → stalled md.1 → stalled md'.1.
Proof.
  induction 1 as [md|md md1 md' Hw _ IH]; [done|]. intros Hn. apply IH. clear IH md'.
  destruct Hw as [m d j _ []|m d j j' Hj Hs Ht _|m d j _]; [|done]. simpl in *.
  destruct (Hn _ _ Hj) as (Hq & Hr & Hp). assert (j'.(Job_State) = JOB_STATE_CANCELED) as Hc.
  { destruct Ht as [Hf _ _ Hd|? Hc _|Hf|Hf|Hf|Hf|Hf]; try done. by apply Hp in Hd. }
  intros id k [[_ <-]|[_ Hk]]%lookup_insert_Some; [by rewrite Hc|]. destruct (Hn id k Hk) as (? & ? & Hw).
  split_and!; [done..|]. intros Hst Hd. apply (Hw Hst). intros x Hx. destruct (Hd x Hx) as (dj & Hdj & Hsd).
  apply lookup_insert_Some in Hdj as [[_ <-]|[_ Hdj]]; [congruence|eauto].
Qed.

(** A job that can never run: it depends, directly or through others, on a job
    that is not stored or did not succeed. *)
Inductive doomed (m : jobs_map) : string → Prop :=
| doomed_missing id j d : m !! id = Some j → d ∈ j.(Job_DependsOn) → m !! d = None → doomed m id
| doomed_failed id j d dj :
    m !! id = Some j → d ∈ j.(Job_DependsOn) → m !! d = Some dj →
    dj.(Job_State) = JOB_STATE_FAILED ∨ dj.(Job_State) = JOB_STATE_CANCELED → doomed m id
| doomed_through id j d : m !! id = Some j → d ∈ j.(Job_DependsOn) → doomed m d → doomed m id.

Lemma acyclic_safe g id : acyclic g → safe g id.
Proof.
  intros Hg. pose proof (dfs_from_scratch g id) as H.
  destruct (dfs (S (size g)) g id (∅, ∅)) as [[[|] vs]|]; [|done|done]. destruct H as [d Hd]. by apply Hg in Hd.
Qed.

(** In a stalled set of jobs without cycles, all others have come to an end. *)
Lemma stalled_doomed m id j :
  acyclic (job_graph m) → all_named m → stalled m → m !! id = Some j →
  terminal j.(Job_State) = true ∨ doomed m id.
Proof.
  intros Hg Hnm Hst. pose proof (acyclic_safe _ id Hg) as Hsafe. revert j.
  induction Hsafe as [id _ IH]. intros j Hj. destruct (Hst id j Hj) as (Hq & Hr & Hp).
  pose proof (Hnm id j Hj : named (Job_State j) = true) as Hn. destruct (Job_State j) eqn:Es; try done; [|by left..]. right.
  destruct (not_deps_done _ _ (Hp eq_refl)) as (d & Hd & Hnot). destruct (m !! d) as [dj|] eqn:Ed; [|by eapply doomed_missing].
  specialize (Hnot dj eq_refl). destruct (IH d) with (j := dj) as [Ht|Hdoom]; [|done| |by eapply doomed_through].
  - unfold flip, edge, job_graph. by rewrite lookup_fmap, Hj.
  - eapply doomed_failed; [done..|]. destruct (Job_State dj); try done; auto.
Qed.

Section liveness.
Context {St : Type} {Gstore : JobStore St} {Gdur : DurableStore St} {Genv : Env} {Guniq : UniqueIds Genv} {Gcron : Cron}.
Implicit Types (s : Server St) (j : Job).

(** The stored jobs keep to the lifecycle and have no cycles. *)
Lemma ordered_jobs s : ordered_reachable s → all_named (jobs_of s) ∧ acyclic (job_graph (jobs_of s)).
Proof.
  intros (s0 & Hf & Hh & Hr).
  refine (proj2 (rtc_ind_r (λ s, ordered_reachable s ∧ all_named (jobs_of s) ∧ acyclic (job_graph (jobs_of s))) s0 _ _ s Hr)).
  - split; [by exists s0|]. destruct Hf as (cfg & st & k & -> & He). unfold jobs_of. simpl. rewrite He.
    split; [apply map_Forall_empty|]. unfold job_graph. rewrite fmap_empty. apply acyclic_empty.
  - intros s1 s2 _ [s3 o Ha Ho] (Hor & Hn & Hg). destruct (ordered_track (sched ∅) s3 Hor) as [Hr3 Ht].
    pose proof (reachable_dag s3 Hr3) as Hdag. split_and!.
    + destruct Hor as (s4 & Hf4 & Hh4 & Hr4). exists s4. split_and!; [done..|]. eapply rtc_r; [done|by constructor].
    + exact (named_history _ _ _ (op_evolves s3 o Hdag Ha) Hn).
    + apply op_acyclic; [|done..]. apply ListJobs_succeeds, Ht.
Qed.

(** ** Serving the jobs *)

(** How the tasks end: a task fails with a message, or succeeds. *)
Definition verdicts : Type := string → option string.

(** A round: every armed timer fires, worker [w] asks for as many tasks as it
    can get, and every leased task is reported. *)
Definition verdict (v : verdicts) (t : string) : op :=
  match v t with
  | None => Report t TASK_RESULT_SUCCEEDED ""
  | Some msg => Report t TASK_RESULT_FAILED msg
  end.
Definition fire_all s : Server St := run_all (Timer <$> (map_to_list s.(sv_retryTimers)).*1) s.
Definition report_all (v : verdicts) s : Server St := run_all (verdict v <$> (map_to_list s.(sv_leases)).*1) s.
Definition serve (v : verdicts) (w : string) s : Server St := report_all v (exec (run_op (Poll w maxBatch)) (fire_all s)).

Definition serving_op (o : op) : bool :=
  match o with Timer _ | Poll _ _ | Report _ _ _ => true | _ => false end.

(** The leader knows the worker, and no job is on a recurring schedule. *)
Record serving (w : string) s : Prop := {
  sg_reachable : ordered_reachable s;
  sg_work : at_work s;
  sg_worker : is_Some (s.(sv_workers) !! w);
  sg_cron id j : jobs_of s !! id = Some j → ¬ is_cron j
}.

(** Workers are not forgotten. *)
Definition knows s s' : Prop := ∀ w, is_Some (s.(sv_workers) !! w) → is_Some (s'.(sv_workers) !! w).

#[export] Instance knows_preorder : PreOrder knows.
Proof. split; [by intros s w|]. intros a b c H1 H2 w Hw. auto. Qed.

Lemma knows_modify (g : Server St → Server St) : (∀ s, (g s).(sv_workers) = s.(sv_workers)) → within knows (modify g).
Proof. intros H s w. rewrite exec_modify. by rewrite H. Qed.
Lemma knows_steps : leader_steps knows.
Proof.
  assert (∀ e, within knows (appendRepl e)) as Ha
    by (intros e; unfold appendRepl, is_leader; walk; by apply knows_modify).
  assert (∀ A (m : M St A), within knows (on_store m)) as Hst by (by intros A m s w).
  assert (∀ A (op : PriorityQueue → A * PriorityQueue), within knows (on_queue op)) as Hq
    by (intros A op s w; by rewrite (proj1 (on_queue_run op s))).
  split; [split|..]; intros; auto; try (by apply knows_modify).
  - unfold putJob. walk.
  - unfold putWorker. walk; auto. intros s w'. rewrite exec_modify. simpl. intros Hw. apply lookup_insert_is_Some'. auto.
Qed.

Lemma serving_step w s o :
  serving w s → serving_op o = true →
  serving w (exec (run_op o) s) ∧ history calm (abs s) (abs (exec (run_op o) s)).
Proof.
  intros [Hr Hw Hk Hc] Ho. set (s' := exec (run_op o) s).
  assert (same_role s s' ∧ knows s s' ∧ history calm (abs s) (abs s') ∧ allowed s o ∧ callbacks_in_order o) as ([Hn Hcl] & Hkn & Hh & Ha & Hcb).
  { destruct (ordered_track (sched ∅) s Hr) as [Hre _]. pose proof (op_evolves s o (reachable_dag s Hre)) as Hev.
    destruct o; try done; (split_and!; [..|exact (Hev I)|done|done]);
      first [by apply (leader_op_within _ _ sr_steps)|by apply (leader_op_within _ _ knows_steps)
            |apply (w_timer same_role), sr_steps|apply (w_timer knows), knows_steps]. }
  split; [|done]. split.
  - destruct Hr as (s0 & Hf & Hhe & Hr). exists s0. split_and!; [done..|]. eapply rtc_r; [done|by constructor].
  - unfold at_work. by rewrite Hn, Hcl.
  - by apply Hkn.
  - intros id j' Hj'. destruct (history_back _ _ _ _ Hh Hj') as (j & Hj & Hs & _).
    specialize (Hc id j Hj). unfold is_cron in *. by replace (Job_Schedule j') with (Job_Schedule j) by (symmetry; apply Hs).
Qed.

Lemma serving_run w ops s :
  serving w s → Forall (λ o, serving_op o = true) ops →
  serving w (run_all ops s) ∧ history calm (abs s) (abs (run_all ops s)).
Proof.
  revert s. induction ops as [|o ops IH]; intros s Hs Ho; simpl; [done|]. apply Forall_cons in Ho as [Ho Hos].
  destruct (serving_step w s o Hs Ho) as [H1 H2]. destruct (IH _ H1 Hos) as [H3 H4]. split; [done|by etrans].
Qed.

Lemma serving_sched w s : serving w s → sched ∅ s ∧ waiting ∅ s ∧ all_named (jobs_of s) ∧ acyclic (job_graph (jobs_of s)).
Proof.
  intros [Hr Hw _ _]. destruct (ordered_work _ s Hr Hw) as [? ?]. destruct (ordered_jobs s Hr). by split_and!.
Qed.

(** *** Timers *)

Lemma fire_timers id s : (exec (run_op (Timer id)) s).(sv_retryTimers) = delete id s.(sv_retryTimers).
Proof.
  simpl. unfold timer_fired, enqueueJob, is_leader. mrun. destruct (_ || _); [done|]. mrun.
  match goal with |- context [eval (getJob id) ?s1] => destruct (eval (getJob id) s1) as [j|] end; [|done].
  destruct (bool_decide _); [done|]. mrun. rewrite (proj1 (on_queue_run _ _)). done.
Qed.

Lemma fire_list ids s :
  let s' := run_all (Timer <$> ids) s in
  abs s' = abs s ∧ ∀ id, is_Some (s'.(sv_retryTimers) !! id) → id ∉ ids ∧ is_Some (s.(sv_retryTimers) !! id).
Proof.
  revert s. induction ids as [|x ids IH]; intros s; cbv zeta.
  { split; [done|]. intros id Hid. split; [apply not_elem_of_nil|done]. }
  change (run_all (Timer <$> x :: ids) s) with (run_all (Timer <$> ids) (exec (timer_fired x) s)).
  destruct (IH (exec (timer_fired x) s)) as [Ha Ht]. split; [by rewrite Ha, (exec_keeps _ _ (keeps_timer_fired x))|].
  intros id [Hn Hid]%Ht. change (exec (timer_fired x) s) with (exec (run_op (Timer x)) s) in Hid.
  rewrite fire_timers, lookup_delete_is_Some in Hid. set_solver.
Qed.

Lemma fire_all_timers s : abs (fire_all s) = abs s ∧ (fire_all s).(sv_retryTimers) = ∅.
Proof.
  destruct (fire_list (map_to_list s.(sv_retryTimers)).*1 s) as [Ha Ht]. split; [exact Ha|].
  apply map_empty. intros id. destruct (sv_retryTimers (fire_all s) !! id) as [d|] eqn:E; [|done]. exfalso.
  destruct (Ht id) as [Hn [d' Hd]]; [by eexists|]. apply Hn, list_elem_of_fmap. exists (id, d').
  split; [done|by apply elem_of_map_to_list].
Qed.

(** *** Polling *)

Definition same_timers s s' : Prop := s'.(sv_retryTimers) = s.(sv_retryTimers).

#[export] Instance same_timers_preorder : PreOrder same_timers.
Proof. split; [by intros s|]. intros a b c. unfold same_timers. congruence. Qed.

Lemma same_timers_modify (g : Server St → Server St) : (∀ s, same_timers s (g s)) → within same_timers (modify g).
Proof. intros H s. apply H. Qed.
Lemma same_timers_queue {A} (op : PriorityQueue → A * PriorityQueue) : within same_timers (on_queue op).
Proof. intros s. by rewrite (proj1 (on_queue_run op s)). Qed.
#[local] Hint Resolve same_timers_queue : pres.
#[local] Hint Extern 2 (within same_timers (modify _)) => apply same_timers_modify; intros ?; reflexivity : pres.
#[local] Hint Extern 3 (within same_timers _) => intros ?; reflexivity : pres.

Lemma poll_timers w n : within same_timers (PollTask w n).
Proof.
  assert (∀ fuel m now out, within same_timers (poll_loop fuel m w now out)) as Hloop.
  { intros fuel m now. induction fuel as [|fuel IH]; intros out; simpl; unfold putJob, appendRepl, is_leader, getJob,
      new_id, addLease, count; walk. }
  unfold PollTask, requireLeader, is_leader, leaderAddr, workerKnown, Now. walk.
Qed.

Lemma poll_answers w n s : IsLeader s.(sv_node) = true → is_Some (s.(sv_workers) !! w) → ∃ out, eval (PollTask w n) s = inl out.
Proof.
  intros Hl Hw. unfold PollTask, requireLeader, is_leader, workerKnown. mrun. rewrite Hl. mrun.
  rewrite bool_decide_eq_true_2 by done. simpl. mrun. eauto.
Qed.

(** After a poll by a known worker, either a job runs or none is queued. *)
Lemma poll_progress w s :
  serving w s → s.(sv_retryTimers) = ∅ →
  let s' := exec (run_op (Poll w maxBatch)) s in
  map_Forall (λ _ j, j.(Job_State) ≠ JOB_STATE_RUNNING) (jobs_of s') →
  map_Forall (λ _ j, j.(Job_State) ≠ JOB_STATE_QUEUED) (jobs_of s').
Proof.
  intros Hs Ht s' Hnr id j Hj Hq. destruct (serving_sched _ _ Hs) as [Hsc _].
  destruct (ordered_track (sched ∅) s (sg_reachable _ _ Hs)) as [Hr _].
  destruct (poll_answers w maxBatch s (sc_leader _ _ Hsc) (sg_worker _ _ Hs)) as [out Ho].
  assert (s' = exec (PollTask w maxBatch) s) as Hs' by done.
  assert (out = []) as ->.
  { destruct out as [|a out]; [done|]. exfalso.
    destruct (PollTask_granted w maxBatch s _ (reachable_leases s Hr) Ho) as [_ Hg].
    destruct (Hg a) as (l & j2 & _ & _ & _ & _ & _ & Hj2 & [Hrun _] & _); [by left|]. rewrite <- Hs' in Hj2.
    by apply (Hnr _ _ Hj2). }
  pose proof (PollTask_drains s w maxBatch [] (sc_healthy _ _ Hsc) (sc_queue _ _ Hsc) Ho) as Hd.
  destruct (serving_step w s (Poll w maxBatch) Hs eq_refl) as [Hs2 _]. destruct (serving_sched _ _ Hs2) as [Hsc2 _].
  pose proof (sc_tracked _ _ Hsc2 id j (not_elem_of_empty id) Hj) as Htr. unfold tracked in Htr. rewrite Hq in Htr.
  fold s' in Htr. rewrite Hs' in Htr. rewrite Hd, (poll_timers w maxBatch s : _ = _), Ht in Htr by done.
  rewrite !lookup_empty in Htr. by destruct Htr as [[? ?]|[? ?]].
Qed.

(** *** Reporting *)

(** A report for a task whose job does not run only drops the lease. *)
Lemma report_idle v t s :
  sched ∅ s →
  (∀ l j, s.(sv_leases) !! t = Some l → jobs_of s !! l.(lease_jobID) = Some j → j.(Job_State) ≠ JOB_STATE_RUNNING) →
  let s' := exec (run_op (verdict v t)) s in
  jobs_of s' = jobs_of s ∧ s'.(sv_leases) = delete t s.(sv_leases).
Proof.
  intros Hs Hidle.
  assert (∀ r msg, let s' := exec (ReportTask t r msg) s in jobs_of s' = jobs_of s ∧ s'.(sv_leases) = delete t s.(sv_leases)) as H;
    [|unfold verdict; destruct (v t); simpl; mrun; apply H].
  intros r msg. unfold ReportTask, requireLeader, is_leader, getLease. mrun.
  rewrite (sc_leader _ _ Hs). mrun. destruct (sv_leases s !! t) as [l|] eqn:El; mrun; [|by rewrite delete_id].
  change (exec (getJob (lease_jobID l)) s) with s. specialize (Hidle l).
  destruct (eval (getJob (lease_jobID l)) s) as [j|] eqn:Eg; mrun; [|done].
  destruct (getJob_stored _ _ _ Eg) as [Hst Hid]. unfold stored in Hst. rewrite Hid in Hst.
  rewrite bool_decide_eq_true_2 by (by apply Hidle). by mrun.
Qed.

(** A report for a task whose job runs ends the attempt. *)
Lemma report_ends v t l j s :
  sched ∅ s → s.(sv_leases) !! t = Some l → jobs_of s !! l.(lease_jobID) = Some j →
  j.(Job_State) = JOB_STATE_RUNNING → ¬ is_cron j →
  ∃ j', jobs_of (exec (run_op (verdict v t)) s) !! l.(lease_jobID) = Some j' ∧ j'.(Job_State) ≠ JOB_STATE_RUNNING.
Proof.
  intros Hs Hl Hj Hr Hc. pose proof (getJob_durable s (lease_jobID l) (sc_healthy _ _ Hs)) as Hg. rewrite Hj in Hg.
  destruct (getJob_stored _ _ _ Hg) as [Hst Hid]. unfold verdict.
  destruct (v t) as [msg|]; simpl; mrun; unfold ReportTask, requireLeader, is_leader, getLease; mrun;
    rewrite (sc_leader _ _ Hs); mrun; rewrite Hl; mrun; change (exec (getJob (lease_jobID l)) s) with s; rewrite Hg;
    (rewrite bool_decide_eq_false_2 by (intros H; by apply H)); mrun; set (now := eval Now s).
  - destruct (handleFailure_sched ∅ (exec Now s) j msg now) as (He & _ & j' & Hj' & Hr');
      [by apply still_sched; [apply sf_Now|]|by eapply stored_key|].
    revert He. destruct (eval (handleFailure j msg now) (exec Now s)) as [[e|] j2]; [done|]. intros _. mrun.
    exists j'. by rewrite <- Hid.
  - set (s1 := exec (removeLease t) (exec Now s)).
    assert (maybeRescheduleCron j now = mret (false, j)) as ->.
    { unfold maybeRescheduleCron. cbv zeta. destruct (String.eqb_spec (Schedule_GetCronExpr (Job_Schedule j)) ""); done. }
    mrun. cbn [fst snd]. destruct (putJob_durable s1 (succeeded now j) (sc_healthy _ _ Hs) (stored_key _ _ Hst)) as (He & _ & Hj1).
    mrun. rewrite He. mrun. match goal with |- context [exec (promoteDependents ?x) ?s2] =>
      destruct (history_keeps calm _ _ (lease_jobID l) (succeeded now j) (promoteDependents_evolves calm x s2)) as (j' & Hj' & _ & Hd) end.
    + simpl. change (jobs_of (exec (putJob (succeeded now j)) s1) !! lease_jobID l = Some (succeeded now j)).
      rewrite Hj1. change (Job_Id (succeeded now j)) with (Job_Id j). by rewrite Hid, lookup_insert_eq.
    + exists j'. split; [exact Hj'|]. by rewrite Hd.
Qed.

(** Work is used up by a run that changes a job. *)
Lemma serving_works w s s' :
  serving w s → history calm (abs s) (abs s') → jobs_of s' = jobs_of s ∨ work (jobs_of s') < work (jobs_of s).
Proof.
  intros Hs Hh. destruct (ordered_track (sched ∅) s (sg_reachable _ _ Hs)) as [Hr _].
  destruct (serving_sched _ _ Hs) as (_ & _ & Hn & _).
  apply (work_history _ _ Hh); [by apply reachable_sound|exact Hn|exact (sg_cron _ _ Hs)].
Qed.

Lemma serving_verdicts v ts : Forall (λ o, serving_op o = true) (verdict v <$> ts).
Proof. apply Forall_fmap, Forall_true. intros t. unfold compose, verdict. by destruct (v t). Qed.

Lemma runs_or_idle t s :
  (∃ l j, s.(sv_leases) !! t = Some l ∧ jobs_of s !! l.(lease_jobID) = Some j ∧ j.(Job_State) = JOB_STATE_RUNNING) ∨
  (∀ l j, s.(sv_leases) !! t = Some l → jobs_of s !! l.(lease_jobID) = Some j → j.(Job_State) ≠ JOB_STATE_RUNNING).
Proof.
  destruct (sv_leases s !! t) as [l|]; [|by right]. destruct (jobs_of s !! lease_jobID l) as [j|] eqn:Ej; [|right; congruence].
  destruct (decide (j.(Job_State) = JOB_STATE_RUNNING)); [left; eauto|right; congruence].
Qed.

Lemma reports_progress v w ts s t l j :
  serving w s → t ∈ ts → s.(sv_leases) !! t = Some l → jobs_of s !! l.(lease_jobID) = Some j →
  j.(Job_State) = JOB_STATE_RUNNING →
  work (jobs_of (run_all (verdict v <$> ts) s)) < work (jobs_of s).
Proof.
  intros Hs Hin Hl Hj Hr. revert s Hs Hl Hj. induction ts as [|x ts IH]; intros s Hs Hl Hj; [by apply not_elem_of_nil in Hin|].
  change (run_all (verdict v <$> x :: ts) s) with (run_all (verdict v <$> ts) (exec (run_op (verdict v x)) s)).
  assert (serving_op (verdict v x) = true) as Hop by (unfold verdict; by destruct (v x)).
  destruct (serving_step w s _ Hs Hop) as [H1 Hh1]. destruct (serving_sched _ _ Hs) as (Hsc & _).
  destruct (serving_run w _ _ H1 (serving_verdicts v ts)) as [_ Hh2].
  assert (∀ l' j', s.(sv_leases) !! x = Some l' → jobs_of s !! l'.(lease_jobID) = Some j' → j'.(Job_State) = JOB_STATE_RUNNING →
    work (jobs_of (run_all (verdict v <$> ts) (exec (run_op (verdict v x)) s))) < work (jobs_of s)) as Hends.
  { intros l' j' Hl' Hj' Hr'. destruct (report_ends v x l' j' s Hsc Hl' Hj' Hr' (sg_cron _ _ Hs _ _ Hj')) as (j2 & Hj2 & Ht2).
    destruct (serving_works w _ _ Hs Hh1) as [He|Hlt]; [rewrite He in Hj2; congruence|].
    destruct (serving_works w _ _ H1 Hh2) as [->|]; lia. }
  destruct (decide (t = x)) as [->|Hne]; [by eapply Hends|].
  destruct (runs_or_idle x s) as [(l' & j' & ? & ? & ?)|Hidle]; [by eapply Hends|].
  destruct (report_idle v x s Hsc Hidle) as [Hj1 Hl1].
  rewrite <- Hj1. apply IH; [set_solver|done|by rewrite Hl1, lookup_delete_ne|by rewrite Hj1].
Qed.

(** *** Rounds *)

Lemma serving_timers ids : Forall (λ o, serving_op o = true) (Timer <$> ids).
Proof. by apply Forall_fmap, Forall_true. Qed.

Lemma serve_serving v w s : serving w s → serving w (serve v w s) ∧ history calm (abs s) (abs (serve v w s)).
Proof.
  intros Hs. destruct (serving_run w _ s Hs (serving_timers (map_to_list s.(sv_retryTimers)).*1)) as [H1 Hh1].
  fold (fire_all s) in H1, Hh1. destruct (serving_step w _ (Poll w maxBatch) H1 eq_refl) as [H2 Hh2].
  unfold serve, report_all. set (s2 := exec (run_op (Poll w maxBatch)) (fire_all s)) in *.
  destruct (serving_run w _ _ H2 (serving_verdicts v (map_to_list s2.(sv_leases)).*1)) as [H3 Hh3].
  split; [done|]. by etrans; [|etrans].
Qed.

(** While a job is queued or running, a round uses up work. *)
Lemma serve_progress v w s id j :
  serving w s → jobs_of s !! id = Some j → j.(Job_State) = JOB_STATE_QUEUED ∨ j.(Job_State) = JOB_STATE_RUNNING →
  work (jobs_of (serve v w s)) < work (jobs_of s).
Proof.
  intros Hs Hj Hst. destruct (fire_all_timers s) as [Ha Ht].
  destruct (serving_run w _ s Hs (serving_timers (map_to_list s.(sv_retryTimers)).*1)) as [H1 _].
  fold (fire_all s) in H1. pose proof (poll_progress w _ H1 Ht) as Hpoll. injection Ha as Hjobs _. unfold serve.
  destruct (serving_step w _ (Poll w maxBatch) H1 eq_refl) as [H2 Hh2].
  assert (modest (fire_all s) (exec (run_op (Poll w maxBatch)) (fire_all s))) as Hm by apply modest_PollTask.
  rewrite <- Hjobs in Hj |- *. clear Ht Hs Hjobs. revert H1 H2 Hpoll Hh2 Hm Hj.
  generalize (fire_all s). clear s. intros s1. generalize (exec (run_op (Poll w maxBatch)) s1). intros s2 H1 H2 Hpoll Hh2 Hm Hj.
  cbv zeta in Hpoll. destruct (serving_run w _ _ H2 (serving_verdicts v (map_to_list s2.(sv_leases)).*1)) as [_ Hh3].
  fold (report_all v s2) in Hh3. pose proof (serving_works w _ _ H1 Hh2) as Hw2. pose proof (serving_works w _ _ H2 Hh3) as Hw3.
  destruct (decide (map_Forall (λ _ j, j.(Job_State) ≠ JOB_STATE_RUNNING) (jobs_of s2))) as [Hno|Hyes].
  - specialize (Hpoll Hno). destruct Hw2 as [He|Hlt]; [|destruct Hw3 as [->|]; lia]. exfalso. rewrite <- He in Hj.
    destruct Hst as [Hq|Hr]; [by apply (Hpoll id j Hj)|by apply (Hno id j Hj)].
  - apply map_not_Forall in Hyes as (id2 & j2 & Hj2 & Hr2%dec_stable); [|apply _].
    destruct (serving_sched _ _ H2) as (Hsc & _). pose proof (sc_tracked _ _ Hsc id2 j2 (not_elem_of_empty id2) Hj2) as Htr.
    unfold tracked in Htr. rewrite Hr2 in Htr. destruct Htr as (t & l & Hl & <-).
    assert (work (jobs_of (report_all v s2)) < work (jobs_of s2)) as Hlt.
    { eapply (reports_progress v w _ s2 t l j2); [done| |done..]. apply list_elem_of_fmap. exists (t, l).
      split; [done|by apply elem_of_map_to_list]. }
    destruct Hw2 as [<-|]; lia.
Qed.

(** [n] rounds, the [i]-th from the end with the verdicts [v i]. *)
Fixpoint rounds (n : nat) (v : nat → verdicts) (w : string) s : Server St :=
  match n with
  | O => s
  | S n => rounds n v w (serve (v n) w s)
  end.

Lemma rounds_serving n v w s : serving w s → serving w (rounds n v w s) ∧ history calm (abs s) (abs (rounds n v w s)).
Proof.
  revert s. induction n as [|n IH]; intros s Hs; simpl; [done|].
  destruct (serve_serving (v n) w _ Hs) as [H1 Hh1]. destruct (IH _ H1). split; [done|by etrans].
Qed.

(** As many rounds as there is work leave no job queued or running. *)
Lemma rounds_stall n v w s :
  serving w s → work (jobs_of s) ≤ n → stalled (jobs_of (rounds n v w s)).
Proof.
  revert s. induction n as [|n IH]; intros s Hs Hn; destruct (serving_sched _ _ Hs) as (_ & Hw & _).
  - intros id j Hj. simpl in Hj. pose proof (work_lookup _ _ _ Hj) as Hwj.
    destruct (ordered_track (sched ∅) s (sg_reachable _ _ Hs)) as [Hr _].
    destruct (sound_attempts _ (reachable_sound s Hr) id j Hj) as (_ & Hq & _).
    assert (weight j = 0) as H0 by lia. unfold weight, left_attempts in H0.
    split_and!; [intros H; rewrite H in H0; specialize (Hq H); lia|intros H; rewrite H in H0; lia|].
    intros H. rewrite H in H0. lia.
  - destruct (serve_serving (v n) w s Hs) as [Hs1 Hh1]. simpl.
    destruct (decide (map_Forall (λ _ j, ¬ (j.(Job_State) = JOB_STATE_QUEUED ∨ j.(Job_State) = JOB_STATE_RUNNING)) (jobs_of s)))
      as [Hno|Hyes].
    + destruct (rounds_serving n v w _ Hs1) as [_ Hh2].
      apply (stalled_history (abs s) (abs (rounds n v w (serve (v n) w s)))); [by etrans|].
      intros id j Hj. pose proof (Hno id j Hj). simpl in *. split_and!; [tauto..|]. apply (Hw id j (not_elem_of_empty id) Hj).
    + apply map_not_Forall in Hyes as (id & j & Hj & Hst%dec_stable); [|apply _].
      pose proof (serve_progress (v n) w s id j Hs Hj Hst). apply IH; [done|lia].
Qed.

(** C6. Liveness: on a store that does not fail, with operations that do not
    overlap, submissions under ids that are not taken, no shipments to this
    node, and the election's callbacks run in the order they were started, let a
    leader have taken over, know the worker [w], and have no job on a recurring
    schedule among all the jobs it stores. In a round the armed timers fire, [w]
    polls, and each leased task is reported as succeeded or failed, whichever it
    likes. After at most as many rounds as the stored jobs have dispatches and
    verdicts left, every job has come to its end, except those that depend,
    directly or through others, on a job that is not stored or has failed or
    been canceled. *)
Theorem jobs_run_to_their_end v w s id j :
  ordered_reachable s → at_work s → is_Some (s.(sv_workers) !! w) →
  (∀ id j, jobs_of s !! id = Some j → ¬ is_cron j) →
  let s' := rounds (work (jobs_of s)) v w s in
  jobs_of s' !! id = Some j → terminal j.(Job_State) = true ∨ doomed (jobs_of s') id.
Proof.
  intros Hr Hw Hk Hc s' Hj. assert (serving w s) as Hs by (by split).
  destruct (rounds_serving (work (jobs_of s)) v w s Hs) as [Hs' _].
  destruct (serving_sched _ _ Hs') as (_ & _ & Hn & Hg). eapply stalled_doomed; [exact Hg|exact Hn| |exact Hj].
  by apply rounds_stall.
Qed.

(** ** Workloads that succeed *)

(** No job has failed or been canceled. *)
Definition unfailed s : Prop := ∀ id j, jobs_of s !! id = Some j →
  j.(Job_State) ≠ JOB_STATE_FAILED ∧ j.(Job_State) ≠ JOB_STATE_CANCELED.

Lemma unfailed_keeps {A} (m : M (Server St) A) : within keeps m → preserves unfailed m.
Proof. intros Hm s. unfold unfailed. pose proof (exec_keeps m s Hm) as Ha. by injection Ha as -> _. Qed.

Lemma unfailed_putJob j :
  j.(Job_State) ≠ JOB_STATE_FAILED → j.(Job_State) ≠ JOB_STATE_CANCELED → preserves unfailed (putJob j).
Proof.
  intros Hf Hc s Hs id j'. destruct (putJob_cases s j) as [[_ Ha]|[_ Ha]]; injection Ha as -> _; [|apply Hs].
  intros [[_ <-]|[_ Hj]]%lookup_insert_Some; [done|by apply (Hs id)].
Qed.

#[local] Hint Extern 2 (preserves unfailed (putJob _)) => apply unfailed_putJob; discriminate : pres.
#[local] Hint Extern 3 (preserves unfailed _) => apply unfailed_keeps; first
  [apply keeps_Now|apply keeps_new_id|apply keeps_range|apply keeps_Until|apply keeps_count|apply keeps_requireLeader
  |apply keeps_getJob|apply keeps_armEnqueue|apply keeps_addLease|apply keeps_removeLease|apply keeps_removeFromIndex
  |apply keeps_dependentsOf|apply keeps_fire_time|apply keeps_queue|apply keeps_tick|apply keeps_timer_fired] : pres.

Lemma unfailed_ready s deps : unfailed s → (deps_ready s.(sv_store) deps).2 = "".
Proof.
  intros Hs. induction deps as [|d deps IH]; simpl; [done|]. pose proof (GetJob_reads d (sv_store s)) as Hr.
  destruct (GetJob d (sv_store s)) as [dj|]; [|done]. destruct (Hs d dj Hr) as [Hf Hc].
  by destruct (Job_State dj).
Qed.

Lemma unfailed_tryPromote id : preserves unfailed (tryPromote id).
Proof.
  intros s Hs. unfold tryPromote. mrun. change (exec (getJob id) s) with s.
  destruct (eval (getJob id) s) as [j|]; [|done]. destruct (bool_decide _); [done|]. unfold depsSatisfied. mrun.
  rewrite unfailed_ready by done. simpl. destruct (deps_ready _ _).1; [|done]. revert s Hs.
  change (preserves unfailed (now ← Now; makeReady j now;; removeFromIndex id)). unfold makeReady. walk.
Qed.
#[local] Hint Resolve unfailed_tryPromote : pres.

Lemma unfailed_poll_loop fuel n w now out : preserves unfailed (poll_loop fuel n w now out).
Proof. revert out. induction fuel as [|fuel IH]; intros out; simpl; walk. Qed.
#[local] Hint Resolve unfailed_poll_loop : pres.

Lemma unfailed_op o : match o with Timer _ | Poll _ _ | Report _ TASK_RESULT_SUCCEEDED _ => True | _ => False end →
  preserves unfailed (run_op o).
Proof.
  destruct o as [| |w n|t [] msg| | |id| | | | | | | |]; try done; intros _; simpl.
  - unfold PollTask, workerKnown. walk.
  - unfold ReportTask, getLease, maybeRescheduleCron, promoteDependents. walk.
  - walk.
Qed.

Lemma unfailed_run ops s :
  Forall (λ o, match o with Timer _ | Poll _ _ | Report _ TASK_RESULT_SUCCEEDED _ => True | _ => False end) ops →
  unfailed s → unfailed (run_all ops s).
Proof.
  revert s. induction ops as [|o ops IH]; intros s Ho Hs; simpl; [done|]. apply Forall_cons in Ho as [Ho Hos].
  apply IH; [done|]. by apply unfailed_op.
Qed.

(** Every task succeeds. *)
Definition all_succeed : verdicts := λ _, None.

Lemma unfailed_serve w s : unfailed s → unfailed (serve all_succeed w s).
Proof.
  intros Hs. unfold serve, report_all. apply unfailed_run; [by apply Forall_fmap, Forall_true|].
  apply unfailed_op; [done|]. by apply unfailed_run; [apply Forall_fmap, Forall_true|].
Qed.

Lemma unfailed_rounds n w s : unfailed s → unfailed (rounds n (λ _, all_succeed) w s).
Proof. revert s. induction n as [|n IH]; intros s Hs; simpl; [done|]. by apply IH, unfailed_serve. Qed.

(** C24. Workloads succeed: under the conditions of the liveness theorem, if
    every dependency of a stored job is stored, no job has failed or been
    canceled, and every task is reported as succeeded, then after as many rounds
    every stored job has succeeded. *)
Theorem workload_succeeds w s id j :
  ordered_reachable s → at_work s → is_Some (s.(sv_workers) !! w) →
  (∀ id j, jobs_of s !! id = Some j → ¬ is_cron j ∧
    j.(Job_State) ≠ JOB_STATE_FAILED ∧ j.(Job_State) ≠ JOB_STATE_CANCELED ∧
    ∀ d, d ∈ j.(Job_DependsOn) → is_Some (jobs_of s !! d)) →
  jobs_of s !! id = Some j →
  ∃ j', jobs_of (rounds (work (jobs_of s)) (λ _, all_succeed) w s) !! id = Some j' ∧
    same_identity j j' ∧ j'.(Job_State) = JOB_STATE_SUCCEEDED.
Proof.
  intros Hr Hw Hk Hall Hj. assert (serving w s) as Hs by (split; [done..|]; intros; by eapply Hall).
  set (s' := rounds (work (jobs_of s)) (λ _, all_succeed) w s).
  destruct (rounds_serving (work (jobs_of s)) (λ _, all_succeed) w s Hs) as [Hs' Hh].
  destruct (serving_sched _ _ Hs') as (_ & _ & Hn & Hg). fold s' in Hs', Hh, Hn, Hg.
  assert (unfailed s') as Hu by (apply unfailed_rounds; intros x jx Hx; split; by eapply (Hall x)).
  assert (∀ x, ¬ doomed (jobs_of s') x) as Hno.
  { induction 1 as [x jx d Hx Hd Hm|x jx d dj Hx Hd Hdj Hst|]; [| |done].
    - destruct (history_back _ _ _ _ Hh Hx) as (j0 & Hj0 & Hsame & _). destruct (Hall x j0 Hj0) as (_ & _ & _ & Hdep).
      destruct (Hdep d) as [dj Hdj]; [by replace (Job_DependsOn j0) with (Job_DependsOn jx) by apply Hsame|].
      destruct (history_keeps _ _ _ _ _ Hh Hdj) as (dj' & Hdj' & _). simpl in Hdj'. congruence.
    - destruct (Hu d dj Hdj). by destruct Hst. }
  destruct (history_keeps _ _ _ id j Hh Hj) as (j' & Hj' & Hsame & _). exists j'. split_and!; [done..|].
  destruct (stalled_doomed _ id j' Hg Hn) as [Ht|Hd]; [by apply rounds_stall|done| |by apply Hno in Hd].
  destruct (Hu id j' Hj'). by destruct (Job_State j').
Qed.

End liveness.

(** ** Samples *)

Section samples.
#[local] Existing Instance sample_env.
#[local] Existing Instance sample_cron.

(** No schedule, no failure, and every dependency stored. *)
Definition plain_jobs (m : jobs_map) : bool :=
  bool_decide (map_Forall (λ _ j, Schedule_GetCronExpr j.(Job_Schedule) = "" ∧
    j.(Job_State) ≠ JOB_STATE_FAILED ∧ j.(Job_State) ≠ JOB_STATE_CANCELED ∧
    Forall (λ d, is_Some (m !! d)) j.(Job_DependsOn)) m).

Lemma plain_jobs_spec m : plain_jobs m = true → ∀ id j, m !! id = Some j → ¬ is_cron j ∧
  j.(Job_State) ≠ JOB_STATE_FAILED ∧ j.(Job_State) ≠ JOB_STATE_CANCELED ∧
  ∀ d, d ∈ j.(Job_DependsOn) → is_Some (m !! d).
Proof.
  intros Hp%bool_decide_eq_true id j Hj. destruct (Hp id j Hj) as (Hc & ? & ? & Hd). split_and!; [|done..|by apply Forall_forall].
  intros Hcr. by apply Hcr.
Qed.

(** The open jobs of the sample succeed. *)
Lemma workload_succeeds_witness :
  work (jobs_of (sample_run sample_ready)) = 18 ∧
  ∃ j', jobs_of (rounds 18 (λ _, all_succeed) "w" (sample_run sample_ready)) !! "c" = Some j' ∧
    same_identity (job_at "c" (sample_run sample_ready)) j' ∧ j'.(Job_State) = JOB_STATE_SUCCEEDED.
Proof.
  assert (work (jobs_of (sample_run sample_ready)) = 18) as HW by (vm_compute; reflexivity).
  split; [exact HW|].
  assert (is_Some ((sample_run sample_ready).(sv_workers) !! "w")) as Hw by (eexists; vm_compute; reflexivity).
  assert (plain_jobs (jobs_of (sample_run sample_ready)) = true) as Hp by (vm_compute; reflexivity).
  assert (jobs_of (sample_run sample_ready) !! "c" = Some (job_at "c" (sample_run sample_ready))) as Hj by (vm_compute; reflexivity).
  pose proof (workload_succeeds "w" (sample_run sample_ready) "c" _ sample_ready_ordered sample_ready_work Hw (plain_jobs_spec _ Hp) Hj) as H.
  rewrite HW in H. exact H.
Defined.

(** With a job "e" that waits for a job nobody has submitted. *)
Definition sample_stuck : list op := sample_ready ++ [Submit (Some (sample_job "e" ["nowhere"]))].

Lemma sample_stuck_ordered : ordered_reachable (sample_run sample_stuck).
Proof.
  exists sample_boot. split_and!; [by exists sample_cfg, empty_store, 0|exact empty_store_healthy|].
  apply run_all_ordered; [vm_compute; reflexivity|by repeat constructor].
Qed.

(** Every other round its tasks fail. *)
Definition sample_verdicts (i : nat) : verdicts := λ _, if Nat.even i then Some "exit 1" else None.

Lemma jobs_run_to_their_end_witness :
  let s := rounds 25 sample_verdicts "w" (sample_run sample_stuck) in
  (job_at "e" s).(Job_State) = JOB_STATE_PENDING ∧ doomed (jobs_of s) "e".
Proof.
  assert (work (jobs_of (sample_run sample_stuck)) = 25) as HV by (vm_compute; reflexivity).
  assert (at_work (sample_run sample_stuck)) as Ha by (split_and!; vm_compute; reflexivity).
  assert (is_Some ((sample_run sample_stuck).(sv_workers) !! "w")) as Hw by (eexists; vm_compute; reflexivity).
  assert (bool_decide (map_Forall (λ _ j, Schedule_GetCronExpr j.(Job_Schedule) = "") (jobs_of (sample_run sample_stuck))) = true)
    as Hp by (vm_compute; reflexivity).
  assert (jobs_of (rounds 25 sample_verdicts "w" (sample_run sample_stuck)) !! "e" = Some (job_at "e" (rounds 25 sample_verdicts "w" (sample_run sample_stuck))))
    as Hj by (vm_compute; reflexivity).
  assert ((job_at "e" (rounds 25 sample_verdicts "w" (sample_run sample_stuck))).(Job_State) = JOB_STATE_PENDING) as Hst by (vm_compute; reflexivity).
  apply bool_decide_eq_true in Hp.
  pose proof (jobs_run_to_their_end sample_verdicts "w" (sample_run sample_stuck) "e" (job_at "e" (rounds 25 sample_verdicts "w" (sample_run sample_stuck)))
    sample_stuck_ordered Ha Hw (λ id j Hj Hc, Hc (Hp id j Hj))) as H.
  rewrite HV in H. specialize (H Hj). rewrite Hst in H. split; [exact Hst|].
  destruct H as [H|H]; [discriminate H|exact H].
Defined.

End samples.
