(* ===== verification/Durable.v ===== *)
(** * The BoltDB store on a device that does not fail

    [Tracking.v], [Progress.v], [Liveness.v] and others are about a
    [DurableStore].  Here the store of [internal/store/store.go] is one, for a
    database whose transactions go through, and a node on a new file starts the
    runs that those theorems are about. *)

From stdpp Require Import relations countable.
From S2P Require Import Prelude Types Env Cluster Store Server Deps Lifecycle Leadership Refinement System Tracking Progress.

(** A database and a codec that accept every access: transactions start and
    commit, and keys and values stay within the limits on their sizes (32 KiB
    and 2 GiB in BoltDB) and their strings are valid UTF-8, so that nothing but
    the empty key is refused. *)
Class ReliableBolt (DB : Type) `{!Bolt DB} `{!Codec} := {
  update_goes_through f db : eval f (contents db) = None → eval (Bolt_Update f) db = None;
  view_opens db : Bolt_View_error db = None;
  bucket_is_created b : CreateBucket_error b = None;
  put_accepts k v : k ≠ "" → Bucket_Put_error k v = None;
  job_marshals j : ∃ b, marshal_job j = inl b;
  worker_marshals w : ∃ b, marshal_worker w = inl b
}.

Section durable.
Context {DB : Type} {Gbolt : Bolt DB} {Gcodec : Codec} {Grel : ReliableBolt DB} {Genv : Env}.
Implicit Types (db : DB) (st : Opened DB).

Lemma put_goes_through kind b k v db :
  is_Some (contents db !! b) → k ≠ "" → eval (put_in kind b k (inl v)) db = None.
Proof.
  intros [m Hm] Hk. apply update_goes_through. unfold eval, tx_Put. by rewrite Hm, put_accepts.
Qed.

Lemma has_bucket {A} (un : string → A + string) idOf b t : has_entries un idOf b t → is_Some (t !! b).
Proof. intros (m & Hm & _). by exists m. Qed.

Lemma save_goes_through t v db : is_Some (contents db !! bucketMeta) → eval (SaveElectionState t v) db = None.
Proof.
  intros [m Hm]. apply update_goes_through. mrun. unfold eval, exec, tx_Put. rewrite Hm, !put_accepts by done. simpl.
  by rewrite lookup_insert_eq.
Qed.

(** Reads of a well-formed store succeed. *)
Lemma get_finds {A} (un : string → A + string) idOf b id x db :
  has_entries un idOf b (contents db) → decoded un (contents db !!! b) !! id = Some x → get_in b un id db = inl x.
Proof.
  intros (m & Hb & Hm). unfold get_in, View. rewrite view_opens, Hb, (lookup_total_correct _ _ _ Hb).
  rewrite (proj1 (entries_lookup un idOf m id Hm)). destruct (m !! id) as [v|]; [|done]. by destruct (un v); intros [= ->].
Qed.

Lemma list_succeeds {A} (un : string → A + string) idOf b db :
  has_entries un idOf b (contents db) → ∃ xs, list_in b un db = inl xs.
Proof.
  intros (m & Hb & Hm). unfold list_in, View. rewrite view_opens, Hb.
  destruct (decode_all_ok un idOf (Bucket_ForEach m)) as (xs & -> & _); [|by exists xs].
  intros k v Hkv. rewrite foreach_entries in Hkv. by apply Hm, elem_of_map_to_list.
Qed.

#[export] Instance bolt_durable : DurableStore (Opened DB).
Proof.
  refine {| healthy _ := True |}; try done.
  - intros j [db Hwf] _ Hid. simpl. unfold eval, on_opened, Store_PutJob. simpl. destruct (job_marshals j) as [b ->].
    by apply put_goes_through; [eapply has_bucket, wf_jobs|].
  - intros id [db Hwf] j _. apply (get_finds _ Job_Id), wf_jobs, Hwf.
  - intros [db Hwf] _. eapply (list_succeeds _ Job_Id), wf_jobs, Hwf.
  - intros [db Hwf] _. eapply (list_succeeds _ WorkerInfo_Id), wf_workers, Hwf.
  - intros w [db Hwf] _ Hid. simpl. unfold eval, on_opened, Store_PutWorker. simpl. destruct (worker_marshals w) as [b ->].
    by apply put_goes_through; [eapply has_bucket, wf_workers|].
  - intros j [db Hwf] _ Hid. simpl. unfold eval, on_opened, Store_PutDeadLetter. simpl. destruct (job_marshals j) as [b ->].
    by apply put_goes_through; [eapply has_bucket, wf_dead|].
  - intros t v [db Hwf] _. by apply save_goes_through, wf_meta.
Defined.

Lemma create_all_succeeds bs t : eval (create_all bs) t = None.
Proof.
  revert t. induction bs as [|b bs IH]; intros t; simpl; mrun; [done|].
  assert (eval (tx_CreateBucketIfNotExists b) t = None) as -> by (unfold eval, tx_CreateBucketIfNotExists; by rewrite bucket_is_created).
  apply IH.
Qed.

(** [Open] succeeds, and on a new file every run of a node on what it opens is
    one of those that the theorems on [ordered_reachable] are about. *)
Lemma new_file_opens {Gcron : Cron} path cfg k db :
  contents db = ∅ →
  ∃ st : Opened DB, Open path (inl db) = inl (`st) ∧
    ∀ s, rtc ordered_step (new_server cfg st k) s → ordered_reachable s.
Proof.
  intros Hdb. assert (∃ db', Open path (inl db) = inl db') as [db' Ho].
  { unfold Open. pose proof (update_goes_through _ db (create_all_succeeds required_buckets (contents db))) as Hu.
    unfold eval in Hu. fold required_buckets. destruct (Bolt_Update _ db) as [o db'] eqn:E. simpl in Hu. subst o. by exists db'. }
  destruct (Open_wf path db db' (or_introl Hdb) Ho) as [Hwf Hv]. rewrite decide_True in Hv by done.
  exists (exist _ db' Hwf). split; [done|]. intros s Hs. exists (new_server cfg (exist _ db' Hwf) k).
  split_and!; [|done|done]. exists cfg, (exist _ db' Hwf), k. split; [done|].
  change (v_jobs (store_view (contents db')) = ∅). by rewrite Hv.
Qed.

(** From the file to the queue: on a new file, whatever runs, a leader that has
    taken over accounts for every job that the database lists, and none of them
    waits for jobs that have all succeeded. *)
Theorem listed_jobs_are_scheduled {Guniq : UniqueIds Genv} {Gcron : Cron} path cfg k db :
  contents db = ∅ →
  ∃ st : Opened DB, Open path (inl db) = inl (`st) ∧
    ∀ s, rtc ordered_step (new_server cfg st k) s → at_work s →
    ∃ jobs, Store_ListJobs (`s.(sv_store)) = inl jobs ∧
      ∀ j, j ∈ jobs → tracked s j.(Job_Id) j ∧ (j.(Job_State) = JOB_STATE_PENDING → ¬ deps_done (jobs_of s) j.(Job_DependsOn)).
Proof.
  intros Hdb. destruct (new_file_opens path cfg k db Hdb) as (st & Ho & Hr). exists st. split; [done|]. intros s Hs%Hr Hw.
  destruct (list_succeeds _ _ _ _ (wf_jobs _ (proj2_sig s.(sv_store)))) as [jobs Hjobs]. exists jobs. split; [exact Hjobs|]. intros j Hj.
  destruct (ordered_work (λ s, sched ∅ s ∧ waiting ∅ s) s Hs Hw) as [Hsc Hwait]. pose proof (ListJobs_lists s.(sv_store)) as Hl.
  change (ListJobs s.(sv_store)) with (list_in bucketJobs unmarshal_job (`s.(sv_store))) in Hl. rewrite Hjobs in Hl.
  destruct Hl as [Hp _]. rewrite Hp in Hj. apply list_elem_of_fmap in Hj as ([id x] & -> & Hj%elem_of_map_to_list).
  simpl. rewrite (jobs_keyed _ _ _ Hj). split; [by apply Hsc|]. by apply (Hwait id).
Qed.

End durable.

(** ** A codec for every message

    It writes the number that [Countable] gives a message, in binary. *)

#[local] Instance JobState_countable : Countable JobState.
Proof.
  refine (inj_countable' (λ s, match s with
    | JOB_STATE_UNSPECIFIED => inl 0 | JOB_STATE_PENDING => inl 1 | JOB_STATE_QUEUED => inl 2 | JOB_STATE_RUNNING => inl 3
    | JOB_STATE_SUCCEEDED => inl 4 | JOB_STATE_FAILED => inl 5 | JOB_STATE_CANCELED => inl 6 | JOB_STATE_UNRECOGNIZED n => inr n end)
    (λ x, match x with
    | inl 0 => JOB_STATE_UNSPECIFIED | inl 1 => JOB_STATE_PENDING | inl 2 => JOB_STATE_QUEUED | inl 3 => JOB_STATE_RUNNING
    | inl 4 => JOB_STATE_SUCCEEDED | inl 5 => JOB_STATE_FAILED | inl _ => JOB_STATE_CANCELED | inr n => JOB_STATE_UNRECOGNIZED n end) _).
  abstract (by intros []).
Defined.

#[local] Instance WorkerState_countable : Countable WorkerState.
Proof.
  refine (inj_countable' (λ s, match s with
    | WORKER_STATE_UNSPECIFIED => inl 0 | WORKER_STATE_ALIVE => inl 1 | WORKER_STATE_SUSPECT => inl 2
    | WORKER_STATE_DEAD => inl 3 | WORKER_STATE_UNRECOGNIZED n => inr n end)
    (λ x, match x with
    | inl 0 => WORKER_STATE_UNSPECIFIED | inl 1 => WORKER_STATE_ALIVE | inl 2 => WORKER_STATE_SUSPECT
    | inl _ => WORKER_STATE_DEAD | inr n => WORKER_STATE_UNRECOGNIZED n end) _).
  abstract (by intros []).
Defined.

#[local] Instance spec_float_countable : Countable SpecFloat.spec_float.
Proof.
  refine (inj_countable' (λ f, match f with
    | SpecFloat.S754_zero s => inl (inl s) | SpecFloat.S754_infinity s => inl (inr (Some s))
    | SpecFloat.S754_nan => inl (inr None) | SpecFloat.S754_finite s m e => inr (s, m, e) end)
    (λ x, match x with
    | inl (inl s) => SpecFloat.S754_zero s | inl (inr (Some s)) => SpecFloat.S754_infinity s
    | inl (inr None) => SpecFloat.S754_nan | inr (s, m, e) => SpecFloat.S754_finite s m e end) _).
  abstract (by intros []).
Defined.

#[local] Instance byte_countable : Countable Byte.byte.
Proof. refine (inj_countable Byte.to_N Byte.of_N _). abstract (intros b; apply Byte.of_to_N). Defined.

#[local] Instance isSchedule_Kind_countable : Countable isSchedule_Kind.
Proof.
  refine (inj_countable' (λ k, match k with Schedule_RunAt t => inl t | Schedule_CronExpr e => inr e end)
    (λ x, match x with inl t => Schedule_RunAt t | inr e => Schedule_CronExpr e end) _).
  abstract (by intros []).
Defined.

#[local] Instance Schedule_countable : Countable Schedule.
Proof.
  refine (inj_countable' (λ s, (s.(Schedule_Kind), s.(Schedule_Timezone))) (λ x, mkSchedule x.1 x.2) _).
  abstract (by intros []).
Defined.

#[local] Instance RetryPolicy_countable : Countable RetryPolicy.
Proof.
  refine (inj_countable' (λ p, (p.(RetryPolicy_MaxAttempts), p.(RetryPolicy_InitialBackoff), p.(RetryPolicy_MaxBackoff),
      p.(RetryPolicy_BackoffMultiplier), p.(RetryPolicy_Jitter)))
    (λ '(a, b, c, d, e), mkRetryPolicy a b c d e) _).
  abstract (by intros []).
Defined.

#[local] Instance TaskSpec_countable : Countable TaskSpec.
Proof.
  refine (inj_countable' (λ t, (t.(TaskSpec_Command), t.(TaskSpec_Args), t.(TaskSpec_Env), t.(TaskSpec_Timeout), t.(TaskSpec_Payload)))
    (λ '(a, b, c, d, e), mkTaskSpec a b c d e) _).
  abstract (by intros []).
Defined.

#[local] Instance Job_countable : Countable Job.
Proof.
  refine (inj_countable' (λ j, (j.(Job_Id), j.(Job_Name), j.(Job_Priority), j.(Job_Spec), j.(Job_DependsOn), j.(Job_Schedule),
      j.(Job_RetryPolicy), j.(Job_State), (j.(Job_Attempt), j.(Job_AssignedWorkerId), j.(Job_LastError), j.(Job_CreatedAt),
      j.(Job_UpdatedAt), j.(Job_ScheduledAt), j.(Job_StartedAt), j.(Job_FinishedAt))))
    (λ '(a, b, c, d, e, f, g, h, (i, k, l, m, n, o, p, q)), mkJob a b c d e f g h i k l m n o p q) _).
  abstract (by intros []).
Defined.

#[local] Instance WorkerInfo_countable : Countable WorkerInfo.
Proof.
  refine (inj_countable' (λ w, (w.(WorkerInfo_Id), w.(WorkerInfo_Address), w.(WorkerInfo_Capacity), w.(WorkerInfo_Labels),
      w.(WorkerInfo_State), w.(WorkerInfo_LastHeartbeat), w.(WorkerInfo_RunningTasks)))
    (λ '(a, b, c, d, e, f, g), mkWorkerInfo a b c d e f g) _).
  abstract (by intros []).
Defined.

Fixpoint digits (p : positive) : string :=
  match p with
  | xH => ""
  | xO p => String Ascii.zero (digits p)
  | xI p => String Ascii.one (digits p)
  end.

Fixpoint of_digits (s : string) : positive :=
  match s with
  | "" => xH
  | String c s => if Ascii.eqb c Ascii.one then xI (of_digits s) else xO (of_digits s)
  end.

Lemma of_digits_digits p : of_digits (digits p) = p.
Proof. induction p as [p IH|p IH|]; simpl; by rewrite ?IH. Qed.

Definition number {A} `{Countable A} (x : A) : string + string := inl (digits (encode x)).
Definition numbered {A} `{Countable A} (b : string) : A + string :=
  match decode (of_digits b) with Some x => inl x | None => inr "corrupt" end.

Lemma numbered_number {A} `{Countable A} (x : A) b : number x = inl b → numbered b = inl x.
Proof. intros [= <-]. unfold numbered. by rewrite of_digits_digits, decode_encode. Qed.

Definition number_codec : Codec := {|
  marshal_job := number; unmarshal_job := numbered; marshal_worker := number; unmarshal_worker := numbered;
  job_roundtrip := numbered_number; worker_roundtrip := numbered_number
|}.

Section samples.
#[local] Existing Instance mem_bolt.
#[local] Existing Instance number_codec.
#[local] Existing Instance sample_env.
#[local] Existing Instance sample_cron.

#[local] Instance mem_bolt_reliable : ReliableBolt buckets.
Proof.
  split; [|done|done| |by eexists|by eexists].
  - intros f t. unfold eval. simpl. by destruct (f t) as [[]].
  - intros k v Hk. simpl. by destruct (String.eqb_spec k "").
Qed.

(** A node is started on a new file. *)
Lemma new_file_sample :
  ∃ st : Opened buckets, Open "store.db" (inl (∅ : buckets)) = inl (`st) ∧
    ordered_reachable (exec (run_op Restart) (new_server sample_cfg st 0)).
Proof.
  destruct (new_file_opens (Gbolt := mem_bolt) (Gcodec := number_codec) "store.db" sample_cfg 0 ∅ eq_refl) as (st & Ho & Hs).
  exists st. split; [exact Ho|]. apply Hs. by eapply rtc_once, ordered_op.
Qed.

End samples.
