(* ===== verification/Metrics.v ===== *)
(** * Metrics (internal/metrics)

    The counters are part of [Server] and are counted by the handlers.  Here is
    the live collector, which samples the node's state when it is scraped, and
    the theorem that its worker gauge accounts for every registered worker. *)

From S2P Require Import Prelude Types Queue Retry Env Cluster Store MemStore Server Cycle Deps Lifecycle.
From S2P Require Import Dispatch Jobs Workers Replication Leadership Handlers Refinement Rebuild System Leases Ready.
From stdpp Require Import relations.

(** ** Model *)

(** One value of a gauge. *)
Record Sample := mkSample {
  sample_name : string;
  sample_labels : list (string * string);
  sample_value : f64
}.

Definition gauge (name : string) (v : f64) : Sample := mkSample name [] v.

Section collect.
Context {St : Type} {Gstore : JobStore St} {Genv : Env} {Gcron : Cron}.
Implicit Types (s : Server St).

Definition boolToFloat (b : bool) : f64 := if b then f64_of_int 1 else f64_of_int 0.

Definition worker_samples (counts : list (string * nat)) (states : list string) : list Sample :=
  (λ st, mkSample "distsched_workers" [("state", st)]
     (f64_of_int (Z.of_nat (default 0 (list_to_map (M := gmap string nat) counts !! st))))) <$> states.

(** [liveCollector.Collect] over the sources [New] gives it. *)
Definition Collect : M (Server St) (list Sample) :=
  s ← gets (λ s, s);
  states ← range_keys (workersByState s).*1;
  mret ([gauge "distsched_queue_depth" (f64_of_int (Z.of_nat (QueueDepth s)));
         gauge "distsched_inflight_tasks" (f64_of_int (Z.of_nat (InFlight s)));
         gauge "distsched_dead_letter_size" (f64_of_int (DeadLetterCount s));
         gauge "distsched_is_leader" (boolToFloat (IsLeader s.(sv_node)));
         gauge "distsched_election_term" (f64_of_int (Term s.(sv_node)))] ++
        worker_samples (workersByState s) states).

(** [liveCollector.Describe]: the names it announces to the registry. *)
Definition Describe : list string :=
  ["distsched_queue_depth"; "distsched_inflight_tasks"; "distsched_dead_letter_size"; "distsched_is_leader";
   "distsched_election_term"; "distsched_workers"].

(** The counters [New] registers, under their names. *)
Definition counters (m : Metrics) : list (string * Z) :=
  [("distsched_jobs_submitted_total", m.(JobsSubmitted)); ("distsched_jobs_succeeded_total", m.(JobsSucceeded));
   ("distsched_jobs_dead_lettered_total", m.(JobsDeadLettered)); ("distsched_jobs_canceled_total", m.(JobsCanceled));
   ("distsched_tasks_dispatched_total", m.(TasksDispatched)); ("distsched_tasks_retried_total", m.(TasksRetried));
   ("distsched_tasks_requeued_total", m.(TasksRequeued))].

(** The endpoint of [startMetricsHTTP]: the answer of its [http.ServeMux] to a
    path.  A scrape is the counters and the samples of the collector; their text
    is [promhttp]'s. *)
Inductive http_answer :=
| Scrape (cs : list (string * Z)) (gs : list Sample)
| Plain (code : Z) (body : string).

Definition metrics_mux (path : string) : M (Server St) http_answer :=
  if String.eqb path "/metrics" then
    cs ← gets (λ s, counters s.(sv_metrics));
    gs ← Collect;
    mret (Scrape cs gs)
  else if String.eqb path "/healthz" then mret (Plain 200 ("ok" +:+ String (Ascii.ascii_of_nat 10) ""))
  else mret (Plain 404 ("404 page not found" +:+ String (Ascii.ascii_of_nat 10) "")).

(** ** The registry's rules

    Registration panics on a name taken twice, and a scrape fails on a sample
    that was not announced. *)
Lemma names_distinct m : NoDup ((counters m).*1 ++ Describe).
Proof. apply (bool_decide_unpack _). vm_compute. exact I. Qed.

Lemma collected_are_described s x : x ∈ eval Collect s → x.(sample_name) ∈ Describe.
Proof.
  unfold Collect, range_keys. mrun. intros [Hx|(st & -> & _)%list_elem_of_fmap]%elem_of_app; [|set_solver].
  repeat (apply elem_of_cons in Hx as [-> |Hx]; [set_solver|]). by apply elem_of_nil in Hx.
Qed.

(** ** The states of workers *)

Definition stored_workers s : gmap string WorkerInfo := (st_view s.(sv_store)).(v_workers).

(** Every worker, in memory or stored, has one of the three states. *)
Definition workers_ok s : Prop :=
  map_Forall (λ _ w, known w = true) s.(sv_workers) ∧ map_Forall (λ _ w, known w = true) (stored_workers s).

Definition same_workers s s' : Prop := s'.(sv_workers) = s.(sv_workers) ∧ stored_workers s' = stored_workers s.

#[export] Instance same_workers_preorder : PreOrder same_workers.
Proof. split; [by intros s|]. intros a b c [??] [??]. split; congruence. Qed.

Lemma same_workers_ok {A} (m : M (Server St) A) : within same_workers m → preserves workers_ok m.
Proof. intros Hm s [H1 H2]. destruct (Hm s) as [E1 E2]. unfold workers_ok. by rewrite E1, E2. Qed.

Lemma sw_modify (g : Server St → Server St) : (∀ s, same_workers s (g s)) → within same_workers (modify g).
Proof. intros H s. apply H. Qed.
Lemma sw_queue {A} (op : PriorityQueue → A * PriorityQueue) : within same_workers (on_queue op).
Proof. intros s. unfold exec, on_queue. by destruct (op (sv_queue s)). Qed.
Lemma sw_tick : within same_workers next_tick.
Proof. by intros s. Qed.
Lemma sw_write {g} (op : M St (option string)) :
  writes st_view op g → (∀ v, (g v).(v_workers) = v.(v_workers)) → within same_workers (on_store op).
Proof.
  intros Hw Hg s. split; [done|]. unfold stored_workers. specialize (Hw (sv_store s)).
  change (sv_store (exec (on_store op) s)) with (exec op (sv_store s)). rewrite Hw. by destruct (eval op (sv_store s)).
Qed.
Lemma sw_put j : within same_workers (on_store (PutJob j)).
Proof. by apply (sw_write _ (PutJob_writes j)). Qed.
Lemma sw_dead j : within same_workers (on_store (PutDeadLetter j)).
Proof. by apply (sw_write _ (PutDeadLetter_writes j)). Qed.
#[local] Hint Resolve sw_queue sw_tick sw_put sw_dead : pres.

Ltac idle_workers := walk; try (apply sw_modify; intros s'; done).

Lemma sw_putJob j : within same_workers (putJob j).
Proof. unfold putJob, appendRepl, is_leader. idle_workers. Qed.

Lemma ok_modify_workers (g : Server St → Server St) : (∀ s, same_workers s (g s)) → preserves workers_ok (modify g).
Proof. intros H. by apply same_workers_ok, sw_modify. Qed.

Lemma putWorker_known w : known w = true → preserves workers_ok (putWorker w).
Proof.
  intros Hw s [H1 H2]. unfold putWorker. mrun. pose proof (PutWorker_writes w (sv_store s)) as Hs.
  change (eval (on_store (PutWorker w)) s) with (eval (PutWorker w) (sv_store s)).
  assert (stored_workers (exec (on_store (PutWorker w)) s) = match eval (PutWorker w) (sv_store s) with
    | None => <[w.(WorkerInfo_Id):=w]> (stored_workers s) | Some _ => stored_workers s end) as Hv.
  { unfold stored_workers. change (sv_store (exec (on_store (PutWorker w)) s)) with (exec (PutWorker w) (sv_store s)).
    rewrite Hs. by destruct (eval (PutWorker w) (sv_store s)). }
  destruct (eval (PutWorker w) (sv_store s)) as [e|]; mrun.
  - split; [done|]. by rewrite Hv.
  - set (s1 := exec (on_store (PutWorker w)) s) in *.
    assert (∀ e, within same_workers (appendRepl e)) as Ha by (intros e; unfold appendRepl, is_leader; idle_workers).
    match goal with |- context [appendRepl ?e] => destruct (Ha e s1) as [E1 E2]; set (s2 := exec (appendRepl e) s1) in * end.
    split; [change (map_Forall (λ _ w, known w = true) (<[w.(WorkerInfo_Id):=w]> s2.(sv_workers)))
           |change (map_Forall (λ _ w, known w = true) (stored_workers s2))].
    + rewrite E1. by apply map_Forall_insert_2.
    + rewrite E2, Hv. by apply map_Forall_insert_2.
Qed.

Lemma workers_steps : leader_steps (kept workers_ok).
Proof.
  split; [split|..]; intros;
    first [apply (same_workers_ok _ sw_tick)|apply (same_workers_ok _ (sw_putJob _))|apply (same_workers_ok _ (sw_queue _))
          |apply (same_workers_ok _ (sw_dead _))|by apply putWorker_known|by apply ok_modify_workers].
Qed.

Lemma workers_takeover : takeover_steps (kept workers_ok).
Proof.
  split; [apply workers_steps|apply workers_steps|apply (same_workers_ok _ (sw_queue _))|].
  apply (same_workers_ok (A := unit)). unfold seedReplication, append_entry. idle_workers.
Qed.

Lemma sw_node {A} (m : M (NodeState St) A) : within node_keeps m → within same_workers (on_node m).
Proof.
  intros Hm s. destruct (Hm (mkNodeState (sv_node s) (sv_store s) (sv_tick s))) as (_ & _ & Hk).
  unfold exec, on_node in *. by destruct (m _) as [a n].
Qed.

Lemma recover_workers : preserves workers_ok recover.
Proof.
  intros s [H1 H2]. unfold recover. mrun. pose proof (ListWorkers_lists (sv_store s)) as Hl.
  destruct (ListWorkers (sv_store s)) as [ws|]; [|by mrun]. mrun. destruct Hl as [Hp _].
  assert (Forall (λ w, known w = true) ws) as Hws.
  { apply Forall_forall. intros w Hw. rewrite Hp in Hw. apply list_elem_of_fmap in Hw as ([id w0] & -> & Hw%elem_of_map_to_list).
    by apply (H2 id). }
  clear Hp. revert s H1 H2. induction ws as [|w ws IH]; intros s H1 H2; [done|]. simpl. mrun.
  apply Forall_cons in Hws as [Hw Hws]. apply IH; [done| |done]. by apply map_Forall_insert_2.
Qed.

(** ** The worker gauge *)

Definition in_state (st : WorkerState) (ws : gmap string WorkerInfo) : gmap string WorkerInfo :=
  filter (λ p : string * WorkerInfo, p.2.(WorkerInfo_State) = st) ws.

Lemma in_state_insert st id w ws :
  ws !! id = None →
  size (in_state st (<[id:=w]> ws)) = (if decide (w.(WorkerInfo_State) = st) then 1 else 0) + size (in_state st ws).
Proof.
  intros Hn. unfold in_state. rewrite map_filter_insert. simpl. destruct (decide _).
  - rewrite map_size_insert_None; [done|]. apply map_lookup_filter_None. by left.
  - rewrite delete_id by done. done.
Qed.

Lemma count_known (ws : gmap string WorkerInfo) :
  map_Forall (λ _ w, known w = true) ws →
  size (in_state WORKER_STATE_ALIVE ws) + size (in_state WORKER_STATE_SUSPECT ws) +
    size (in_state WORKER_STATE_DEAD ws) = size ws.
Proof.
  induction ws as [|id w ws Hn IH] using map_ind; intros Hk; [done|].
  apply map_Forall_insert in Hk as [Hw Hk]; [|done]. specialize (IH Hk). rewrite map_size_insert_None, !in_state_insert by done.
  unfold known in Hw. destruct (WorkerInfo_State w) eqn:Es; try done; repeat (destruct (decide _); try done); lia.
Qed.

Definition worker_sample (label : string) (n : nat) : Sample :=
  mkSample "distsched_workers" [("state", label)] (f64_of_int (Z.of_nat n)).

(** The scrape of a node whose workers have known states: the number of workers
    in each state, once each and in some order. *)
Definition gauge_adds_up s : Prop :=
  let n st := size (in_state st s.(sv_workers)) in
  filter (λ x, x.(sample_name) = "distsched_workers") (eval Collect s) ≡ₚ
    [worker_sample "alive" (n WORKER_STATE_ALIVE); worker_sample "suspect" (n WORKER_STATE_SUSPECT);
     worker_sample "dead" (n WORKER_STATE_DEAD)] ∧
  n WORKER_STATE_ALIVE + n WORKER_STATE_SUSPECT + n WORKER_STATE_DEAD = size s.(sv_workers).

Lemma workers_gauge s : workers_ok s → gauge_adds_up s.
Proof.
  intros [Hok _]. split; [|exact (count_known _ Hok)].
  unfold Collect, range_keys. mrun. rewrite filter_app, filter_none, app_nil_l, filter_all.
  - unfold worker_samples. rewrite env_order_perm. done.
  - intros x (st' & -> & _)%list_elem_of_fmap. done.
  - intros x Hx. by repeat (apply elem_of_cons in Hx as [-> |Hx]); [..|by apply elem_of_nil in Hx].
Qed.

End collect.
