(* ===== verification/GoStrings.v ===== *)
(** * Strings and numbers of Go's standard library

    What the commands use of [strings], [strconv] and [time]: strings are
    sequences of bytes, and the Unicode white space that [strings.TrimSpace]
    removes is given by its UTF-8 encodings. *)

From S2P Require Import Prelude Types Retry.
From Stdlib Require Import Ascii.

(** ** strings *)

Definition byte (n : nat) : Ascii.ascii := Ascii.ascii_of_nat n.

Fixpoint bytes (l : list nat) : string :=
  match l with [] => "" | n :: l => String (byte n) (bytes l) end.

(** Remove a prefix. *)
Fixpoint strip (p s : string) : option string :=
  match p, s with
  | EmptyString, _ => Some s
  | String c p, String d s => if Ascii.eqb c d then strip p s else None
  | String _ _, EmptyString => None
  end.

Definition TrimPrefix (s p : string) : string := default s (strip p s).

(** [strings.Split] and [strings.Cut] at a one-byte separator. *)
Fixpoint Split (s : string) (sep : Ascii.ascii) : list string :=
  match s with
  | EmptyString => [""]
  | String c s =>
      if Ascii.eqb c sep then "" :: Split s sep
      else match Split s sep with
           | [] => [String c ""]
           | p :: ps => String c p :: ps
           end
  end.

Fixpoint Cut (s : string) (sep : Ascii.ascii) : option (string * string) :=
  match s with
  | EmptyString => None
  | String c s =>
      if Ascii.eqb c sep then Some ("", s)
      else match Cut s sep with
           | Some (before, after) => Some (String c before, after)
           | None => None
           end
  end.

(** The white space of [unicode.IsSpace]: tab to carriage return, space, U+0085,
    U+00A0, U+1680, U+2000 to U+200A, U+2028, U+2029, U+202F, U+205F, U+3000. *)
Definition spaces : list string :=
  bytes <$> (((λ n, [n]) <$> [9; 10; 11; 12; 13; 32]) ++ [[194; 133]; [194; 160]; [225; 154; 128]] ++
    ((λ n, [226; 128; n]) <$> seq 128 11) ++
    [[226; 128; 168]; [226; 128; 169]; [226; 128; 175]; [226; 129; 159]; [227; 128; 128]])%list.

(** Remove the first of the prefixes [ps] that fits. *)
Fixpoint strip_any (ps : list string) (s : string) : option string :=
  match ps with
  | [] => None
  | p :: ps => match strip p s with Some s' => Some s' | None => strip_any ps s end
  end.

(** Remove such prefixes as long as there are some; none is empty, so that the
    length of the string bounds the rounds. *)
Fixpoint trim_loop (n : nat) (ps : list string) (s : string) : string :=
  match n with
  | O => s
  | S n => match strip_any ps s with Some s' => trim_loop n ps s' | None => s end
  end.

Definition trim (ps : list string) (s : string) : string := trim_loop (String.length s) ps s.

Definition TrimSpace (s : string) : string :=
  String.rev (trim (String.rev <$> spaces) (String.rev (trim spaces s))).

(** [c | 0x20] on a letter. *)
Definition lower (c : Ascii.ascii) : Ascii.ascii := byte (Nat.lor (Ascii.nat_of_ascii c) 32).

Definition is_upper (c : Ascii.ascii) : bool :=
  let n := Ascii.nat_of_ascii c in (65 <=? n) && (n <=? 90).

(** [strings.ToLower], as far as the program looks at it: it compares the result
    with ASCII words.  Two letters outside ASCII have a lower case inside,
    U+0130 and U+212A; the others are left as they are. *)
Fixpoint ToLower (s : string) : string :=
  match s with
  | EmptyString => ""
  | String c rest =>
      if is_upper c then String (lower c) (ToLower rest)
      else
        match rest with
        | String d rest' =>
            if Ascii.eqb c (byte 196) && Ascii.eqb d (byte 176) then String (byte 105) (ToLower rest')
            else
              match rest' with
              | String e rest'' =>
                  if Ascii.eqb c (byte 226) && Ascii.eqb d (byte 132) && Ascii.eqb e (byte 170)
                  then String (byte 107) (ToLower rest'')
                  else String c (ToLower rest)
              | EmptyString => String c (ToLower rest)
              end
        | EmptyString => String c (ToLower rest)
        end
  end.

(** The loop that turns a flag like "a, b,,c" into a list. *)
Definition split_trimmed (s : string) : list string :=
  filter (λ x, x ≠ "") (TrimSpace <$> Split s (byte 44)).

(** ** strconv *)

Inductive NumError := ErrSyntax | ErrRange.

Definition max_uint64 : Z := 18446744073709551615.

Definition digit (c : Ascii.ascii) : option Z :=
  let n := Ascii.nat_of_ascii c in
  let l := Ascii.nat_of_ascii (lower c) in
  if (48 <=? n) && (n <=? 57) then Some (Z.of_nat n - 48)%Z
  else if (97 <=? l) && (l <=? 122) then Some (Z.of_nat l - 97 + 10)%Z
  else None.

Definition decimal (c : Ascii.ascii) : bool :=
  let n := Ascii.nat_of_ascii c in (48 <=? n) && (n <=? 57).

(** The digits of [ParseUint]; [inl (n, u)] with [u] if an underscore was seen. *)
Fixpoint uint_loop (base : Z) (s : string) (n : Z) (under : bool) : (Z * bool) + NumError :=
  match s with
  | EmptyString => inl (n, under)
  | String c s =>
      if Ascii.eqb c "_"%char then uint_loop base s n true
      else
        match digit c with
        | None => inr ErrSyntax
        | Some d =>
            if (base <=? d)%Z then inr ErrSyntax
            else if (max_uint64 <? n * base + d)%Z then inr ErrRange
            else uint_loop base s (n * base + d) under
        end
  end.

(** [underscoreOK]: [saw] is the class of the last character. *)
Inductive saw := SawStart | SawDigit | SawUnder | SawOther.

Fixpoint under_loop (hex : bool) (s : string) (w : saw) : bool :=
  match s with
  | EmptyString => match w with SawUnder => false | _ => true end
  | String c s =>
      if decimal c || (hex && match digit c with Some d => (d <? 16)%Z | None => false end)
      then under_loop hex s SawDigit
      else if Ascii.eqb c "_"%char then
        match w with SawDigit => under_loop hex s SawUnder | _ => false end
      else match w with SawUnder => false | _ => under_loop hex s SawOther end
  end.

Definition base_letter (c : Ascii.ascii) : option Z :=
  if Ascii.eqb (lower c) "b"%char then Some 2%Z
  else if Ascii.eqb (lower c) "o"%char then Some 8%Z
  else if Ascii.eqb (lower c) "x"%char then Some 16%Z
  else None.

Definition unsigned (s : string) : string :=
  match s with
  | String c s' => if Ascii.eqb c "+"%char || Ascii.eqb c "-"%char then s' else s
  | EmptyString => s
  end.

Definition underscoreOK (s : string) : bool :=
  match unsigned s with
  | String "0"%char (String b s') as s0 =>
      match base_letter b with
      | Some base => under_loop (base =? 16)%Z s' SawDigit
      | None => under_loop false s0 SawStart
      end
  | s0 => under_loop false s0 SawStart
  end.

(** The base of a literal and its digits. *)
Definition literal_base (s : string) : Z * string :=
  match s with
  | String "0"%char s' =>
      match s' with
      | String b (String _ _ as rest) =>
          match base_letter b with Some base => (base, rest) | None => (8%Z, s') end
      | _ => (8%Z, s')
      end
  | _ => (10%Z, s)
  end.

(** [strconv.ParseUint(s, 0, 64)] *)
Definition ParseUint (s : string) : Z + NumError :=
  if String.eqb s "" then inr ErrSyntax
  else
    let '(base, digits) := literal_base s in
    match uint_loop base digits 0 false with
    | inr e => inr e
    | inl (n, under) => if under && negb (underscoreOK s) then inr ErrSyntax else inl n
    end.

(** [strconv.ParseInt(s, 0, 64)] *)
Definition ParseInt (s : string) : Z + NumError :=
  let neg := match s with String "-"%char _ => true | _ => false end in
  match ParseUint (unsigned s) with
  | inr e => inr e
  | inl n =>
      if negb neg && (max_int64 <? n)%Z then inr ErrRange
      else if neg && (max_int64 + 1 <? n)%Z then inr ErrRange
      else inl (if neg then - n else n)%Z
  end.

(** [strconv.ParseBool] *)
Definition ParseBool (s : string) : option bool :=
  if bool_decide (s ∈ ["1"; "t"; "T"; "true"; "TRUE"; "True"]) then Some true
  else if bool_decide (s ∈ ["0"; "f"; "F"; "false"; "FALSE"; "False"]) then Some false
  else None.

(** ** time.ParseDuration *)

Definition two63 : Z := 9223372036854775808.

(** Leading digits: their value and the rest, [None] on overflow. *)
Fixpoint leadingInt (s : string) (x : Z) : option (Z * string) :=
  match s with
  | String c s' =>
      if decimal c then
        if (two63 / 10 <? x)%Z then None
        else
          let x := (x * 10 + (Z.of_nat (Ascii.nat_of_ascii c) - 48))%Z in
          if (two63 <? x)%Z then None else leadingInt s' x
      else Some (x, s)
  | EmptyString => Some (x, s)
  end.

(** The digits of a fraction: their value, the power of ten below them and the
    rest; digits past the range are dropped. *)
Fixpoint leadingFraction (s : string) (x : Z) (scale : f64) (over : bool) : Z * f64 * string :=
  match s with
  | String c s' =>
      if decimal c then
        if over || (max_int64 / 10 <? x)%Z then leadingFraction s' x scale true
        else
          let y := (x * 10 + (Z.of_nat (Ascii.nat_of_ascii c) - 48))%Z in
          if (two63 <? y)%Z then leadingFraction s' x scale true
          else leadingFraction s' y (fmul scale (f64_of_int 10)) over
      else (x, scale, s)
  | EmptyString => (x, scale, s)
  end.

(** A unit extends to the next digit or dot. *)
Fixpoint leadingUnit (s : string) : string * string :=
  match s with
  | String c s' =>
      if decimal c || Ascii.eqb c "."%char then ("", s)
      else let '(u, rest) := leadingUnit s' in (String c u, rest)
  | EmptyString => ("", "")
  end.

Definition unitMap (u : string) : option Z :=
  let ns := 1%Z in let us := 1000%Z in let ms := 1000000%Z in let s := 1000000000%Z in
  if String.eqb u "ns" then Some ns
  else if String.eqb u "us" || String.eqb u (bytes [194; 181; 115]) || String.eqb u (bytes [206; 188; 115]) then Some us
  else if String.eqb u "ms" then Some ms
  else if String.eqb u "s" then Some s
  else if String.eqb u "m" then Some (60 * s)%Z
  else if String.eqb u "h" then Some (3600 * s)%Z
  else None.

(** [uint64(float64(f) * (float64(unit) / scale))]: the product is below the
    unit, so that the conversion is in range. *)
Definition fraction (f unit : Z) (scale : f64) : Z :=
  match fmul (f64_of_int f) (SFdiv 53 1024 (f64_of_int unit) scale) with
  | S754_finite false m e => trunc_finite m e
  | _ => 0%Z
  end.

(** One number and its unit: the nanoseconds and the rest. *)
Definition duration_item (s : string) : option (Z * string) :=
  match leadingInt s 0 with
  | None => None
  | Some (v, s1) =>
      let pre := negb (Nat.eqb (String.length s1) (String.length s)) in
      let '(f, scale, s2, post) :=
        match s1 with
        | String "."%char s1' =>
            let '(f, scale, s2) := leadingFraction s1' 0 (f64_of_int 1) false in
            (f, scale, s2, negb (Nat.eqb (String.length s2) (String.length s1')))
        | _ => (0%Z, f64_of_int 1, s1, false)
        end in
      if negb pre && negb post then None
      else
        let '(u, s3) := leadingUnit s2 in
        match unitMap u with
        | None => None
        | Some unit =>
            if (two63 / unit <? v)%Z then None
            else
              let v := (v * unit + (if 0 <? f then fraction f unit scale else 0))%Z in
              if (two63 <? v)%Z then None else Some (v, s3)
        end
  end.

(** Every item consumes its unit, so that the length bounds the rounds. *)
Fixpoint duration_loop (n : nat) (s : string) (d : Z) : option Z :=
  match s with
  | EmptyString => Some d
  | _ =>
      match n with
      | O => None
      | S n =>
          match duration_item s with
          | None => None
          | Some (v, s') => if (two63 <? d + v)%Z then None else duration_loop n s' (d + v)%Z
          end
      end
  end.

Definition ParseDuration (s : string) : option Z :=
  let neg := match s with String "-"%char _ => true | _ => false end in
  let s := unsigned s in
  if String.eqb s "0" then Some 0%Z
  else if String.eqb s "" then None
  else
    match duration_loop (String.length s) s 0 with
    | None => None
    | Some d => if neg then Some (- d)%Z else if (max_int64 <? d)%Z then None else Some d
    end.

(** ** Facts *)

Lemma append_nil_r (s : string) : (s +:+ "" = s)%string.
Proof. induction s as [|c s IH]; [done|]. change (String c (s +:+ "") = String c s)%string. by rewrite IH. Qed.

Lemma append_assoc (a b c : string) : (a +:+ (b +:+ c) = (a +:+ b) +:+ c)%string.
Proof. induction a as [|x a IH]; [done|]. change (String x (a +:+ (b +:+ c)) = String x ((a +:+ b) +:+ c))%string. by rewrite IH. Qed.

Lemma strip_spec p s s' : strip p s = Some s' ↔ s = (p +:+ s')%string.
Proof.
  revert s. induction p as [|c p IH]; intros s; simpl; [naive_solver|].
  destruct s as [|d s]; [done|]. destruct (Ascii.eqb_spec c d) as [-> |Hne].
  - rewrite IH. change (s = p +:+ s' ↔ String d s = String d (p +:+ s'))%string. naive_solver.
  - split; [done|]. intros [= ? _]. congruence.
Qed.

Lemma strip_any_spec ps s :
  match strip_any ps s with
  | Some s' => ∃ p, p ∈ ps ∧ s = (p +:+ s')%string
  | None => ∀ p s', p ∈ ps → s ≠ (p +:+ s')%string
  end.
Proof.
  induction ps as [|p ps IH]; simpl; [by intros ? ? ?%elem_of_nil|].
  destruct (strip p s) as [s'|] eqn:Hs.
  - apply strip_spec in Hs. exists p. split; [left|done].
  - destruct (strip_any ps s) as [s'|].
    + destruct IH as (q & Hq & ->). exists q. split; [by right|done].
    + intros q s' [-> |Hq]%elem_of_cons Heq; [|by apply (IH q s')]. apply strip_spec in Heq. congruence.
Qed.

Section trim.
Context (ps : list string) (Hps : "" ∉ ps).

(** Nothing of [ps] starts [s]. *)
Definition bare (s : string) : Prop := ∀ p s', p ∈ ps → s ≠ (p +:+ s')%string.

Lemma length_append (a b : string) : String.length (a +:+ b)%string = String.length a + String.length b.
Proof. induction a as [|c a IH]; [done|]. simpl. f_equal. exact IH. Qed.

(** The loop removes prefixes until none is left. *)
Lemma trim_loop_spec n s :
  String.length s <= n →
  bare (trim_loop n ps s) ∧ ∃ es, Forall (.∈ ps) es ∧ s = (String.concat "" es +:+ trim_loop n ps s)%string.
Proof.
  revert s. induction n as [|n IH]; intros s Hn; simpl.
  - destruct s; [|simpl in Hn; lia]. split; [|by exists []].
    intros p s' Hp Heq. destruct p; [by apply Hps|done].
  - pose proof (strip_any_spec ps s) as H. destruct (strip_any ps s) as [s'|]; [|by split; [|exists []]].
    destruct H as (p & Hp & ->). rewrite length_append in Hn.
    destruct (IH s') as [H1 (es & Hes & Heq)]; [destruct p; [done|simpl in Hn; lia]|]. split; [done|].
    exists (p :: es). split; [by constructor|]. rewrite Heq at 1. clear. destruct es as [|e es].
    + simpl. done.
    + change (p +:+ String.concat "" (e :: es) +:+ trim_loop n ps s' =
        (p +:+ "" +:+ String.concat "" (e :: es)) +:+ trim_loop n ps s')%string.
      by rewrite !append_assoc, append_nil_r.
Qed.

Lemma trim_bare s : bare (trim ps s).
Proof. by apply trim_loop_spec. Qed.

Lemma bare_trim s : bare s → trim ps s = s.
Proof.
  intros Hs. unfold trim. destruct (String.length s); [done|]. simpl.
  pose proof (strip_any_spec ps s) as H. destruct (strip_any ps s) as [s'|]; [|done].
  destruct H as (p & Hp & ->). by destruct (Hs p s').
Qed.

(** A string that is trimmed away starts with one of the prefixes. *)
Lemma trim_parts s : ∃ es, Forall (.∈ ps) es ∧ s = (String.concat "" es +:+ trim ps s)%string.
Proof. by apply trim_loop_spec. Qed.

Lemma bare_take a b : bare (a +:+ b)%string → bare a.
Proof. intros H p s' Hp ->. apply (H p (s' +:+ b)%string Hp). by rewrite append_assoc. Qed.

End trim.

Lemma rev_app_append (a b : string) : String.rev_app a b = (String.rev a +:+ b)%string.
Proof.
  unfold String.rev. revert b. induction a as [|c a IH]; intros b; [done|]. simpl.
  rewrite (IH (String c b)), (IH (String c "")), <- append_assoc. done.
Qed.

Lemma rev_append (a b : string) : String.rev (a +:+ b)%string = (String.rev b +:+ String.rev a)%string.
Proof.
  induction a as [|c a IH]; [by rewrite append_nil_r|].
  change (String.rev_app (a +:+ b) (String c "") = String.rev b +:+ String.rev_app a (String c ""))%string.
  by rewrite !rev_app_append, IH, append_assoc.
Qed.

Lemma rev_around (a b : string) c :
  String.rev (a +:+ String c b)%string = (String.rev b +:+ String c (String.rev a))%string.
Proof.
  change (a +:+ String c b)%string with (a +:+ (String c "" +:+ b))%string.
  rewrite !rev_append, <- append_assoc. done.
Qed.

Lemma rev_rev (s : string) : String.rev (String.rev s) = s.
Proof.
  induction s as [|c s IH]; [done|]. change (String.rev (String.rev_app s (String c "")) = String c s).
  by rewrite rev_app_append, rev_append, IH.
Qed.

Lemma concat_snoc es e : String.concat "" (es ++ [e]) = (String.concat "" es +:+ e)%string.
Proof.
  induction es as [|x es IH]; [done|].
  assert (∀ l, String.concat "" (x :: l) = (x +:+ String.concat "" l)%string) as Hc.
  { intros [|y l]; [by rewrite append_nil_r|done]. }
  change ((x :: es) ++ [e])%list with (x :: (es ++ [e]))%list. by rewrite !Hc, IH, append_assoc.
Qed.

(** *** White space *)

Definition left_bare (s : string) : Prop := bare spaces s.
Definition right_bare (s : string) : Prop := bare (String.rev <$> spaces) (String.rev s).

Lemma spaces_ok : "" ∉ spaces ∧ "" ∉ (String.rev <$> spaces).
Proof. split; apply (bool_decide_unpack _); vm_compute; exact I. Qed.

Lemma TrimSpace_clean s : left_bare s → right_bare s → TrimSpace s = s.
Proof. intros Hl Hr. unfold TrimSpace. rewrite (bare_trim _ s Hl), (bare_trim _ _ Hr). apply rev_rev. Qed.

Lemma TrimSpace_bare s : left_bare (TrimSpace s) ∧ right_bare (TrimSpace s).
Proof.
  unfold TrimSpace. destruct spaces_ok as [H1 H2]. split.
  - destruct (trim_parts _ H2 (String.rev (trim spaces s))) as (es & _ & Heq).
    apply (f_equal String.rev) in Heq. rewrite rev_append, rev_rev in Heq.
    apply (bare_take _ _ (String.rev (String.concat "" es))). rewrite <- Heq. by apply trim_bare.
  - unfold right_bare. rewrite rev_rev. by apply trim_bare.
Qed.

Lemma TrimSpace_fixed s : TrimSpace s = s → left_bare s ∧ right_bare s.
Proof. intros <-. apply TrimSpace_bare. Qed.

(** A string that does not start, or does not end, with white space is not
    trimmed away. *)
Lemma TrimSpace_left s : s ≠ "" → left_bare s → TrimSpace s ≠ "".
Proof.
  intros Hs Hl Ht. unfold TrimSpace in Ht. rewrite (bare_trim _ _ Hl) in Ht.
  destruct (trim_parts _ (proj2 spaces_ok) (String.rev s)) as (es & Hes & Heq).
  apply (f_equal String.rev) in Ht. rewrite rev_rev in Ht. rewrite Ht, append_nil_r in Heq.
  apply (f_equal String.rev) in Heq. rewrite rev_rev in Heq. destruct es as [|e es _] using rev_ind; [done|].
  rewrite concat_snoc, rev_append in Heq. apply Forall_app in Hes as [_ He]. rewrite Forall_singleton in He.
  apply list_elem_of_fmap in He as (p & -> & Hp). rewrite rev_rev in Heq. by apply (Hl p _ Hp) in Heq.
Qed.

Lemma TrimSpace_right s : s ≠ "" → right_bare s → TrimSpace s ≠ "".
Proof.
  intros Hs Hr Ht. destruct (trim_parts _ (proj1 spaces_ok) s) as (es & Hes & Heq).
  assert (right_bare (trim spaces s)) as Hb.
  { unfold right_bare in *. rewrite Heq, rev_append in Hr. by apply bare_take in Hr. }
  unfold TrimSpace in Ht. rewrite (bare_trim _ _ Hb), rev_rev in Ht. rewrite Ht, append_nil_r in Heq.
  destruct es as [|e es _] using rev_ind; [done|]. rewrite concat_snoc in Heq.
  apply Forall_app in Hes as [_ He]. rewrite Forall_singleton in He. apply (Hr (String.rev e) (String.rev (String.concat "" es))).
  - by apply list_elem_of_fmap_2.
  - by rewrite Heq, rev_append.
Qed.

(** *** Splitting *)

Fixpoint lacks (c : Ascii.ascii) (s : string) : bool :=
  match s with EmptyString => true | String d s => negb (Ascii.eqb d c) && lacks c s end.

Lemma lacks_append c a b : lacks c (a +:+ b)%string = lacks c a && lacks c b.
Proof. induction a as [|d a IH]; [done|]. simpl. rewrite <- andb_assoc. f_equal. exact IH. Qed.

Lemma Cut_spec s c a b :
  Cut s c = Some (a, b) ↔ s = (a +:+ String c b)%string ∧ lacks c a = true.
Proof.
  revert a. induction s as [|d s IH]; intros a; simpl.
  - split; [done|]. intros [H _]. by destruct a.
  - destruct (Ascii.eqb_spec d c) as [-> |Hne].
    + split; [by intros [= <- <-]|]. intros [H Hl]. destruct a as [|e a]; [by injection H as <-|].
      injection H as <- _. simpl in Hl. by rewrite Ascii.eqb_refl in Hl.
    + split.
      * destruct (Cut s c) as [[x y]|]; [|done]. intros [= <- <-]. destruct (proj1 (IH x) eq_refl) as [-> Hl].
        split; [done|]. simpl. rewrite Hl. by destruct (Ascii.eqb_spec d c).
      * intros [H Hl]. destruct a as [|e a]; [by injection H as ->|]. injection H as -> H.
        simpl in Hl. apply andb_true_iff in Hl as [_ Hl]. by rewrite (proj2 (IH a) (conj H Hl)).
Qed.

Lemma Split_nonempty s c : Split s c ≠ [].
Proof. destruct s as [|d s]; simpl; [done|]. destruct (Ascii.eqb d c); [done|]. by destruct (Split s c). Qed.

Lemma Split_lacks s c : lacks c s = true → Split s c = [s].
Proof.
  induction s as [|d s IH]; simpl; [done|]. destruct (Ascii.eqb_spec d c); [done|]. simpl. intros H. by rewrite IH.
Qed.

Lemma Split_cons a c b : lacks c a = true → Split (a +:+ String c b)%string c = a :: Split b c.
Proof.
  induction a as [|d a IH]; simpl; [by rewrite Ascii.eqb_refl|].
  destruct (Ascii.eqb_spec d c); [done|]. simpl. intros H. specialize (IH H).
  change (match Split (a +:+ String c b) c with [] => [String d ""] | p :: ps => String d p :: ps end = String d a :: Split b c)%string.
  by rewrite IH.
Qed.

Definition sep1 (c : Ascii.ascii) : string := String c "".

Lemma Split_concat l c :
  l ≠ [] → Forall (λ s, lacks c s = true) l → Split (String.concat (sep1 c) l) c = l.
Proof.
  induction l as [|a l IH]; intros Hne Hl; [done|]. apply Forall_cons in Hl as [Ha Hl]. destruct l as [|b l].
  - simpl. by apply Split_lacks.
  - change (String.concat (sep1 c) (a :: b :: l)) with (a +:+ String c (String.concat (sep1 c) (b :: l)))%string.
    rewrite Split_cons by done. f_equal. by apply IH.
Qed.

(** Encodings of white space hold neither a comma nor an equals sign. *)
Lemma spaces_lack c : c = byte 44 ∨ c = byte 61 → ∀ p, p ∈ spaces → lacks c p = true.
Proof.
  assert (Forall (λ p, lacks (byte 44) p && lacks (byte 61) p = true) spaces) as H.
  { apply (bool_decide_unpack _). vm_compute. exact I. }
  rewrite Forall_forall in H. intros [-> | ->] p Hp; by apply H, andb_true_iff in Hp as [??].
Qed.

(** A prefix that lacks [c] ends before the first [c]. *)
Lemma prefix_before c p a b s' :
  lacks c p = true → (a +:+ String c b = p +:+ s')%string → ∃ a', a = (p +:+ a')%string.
Proof.
  revert a. induction p as [|d p IH]; intros a Hp Heq; [by exists a|]. simpl in Hp. apply andb_true_iff in Hp as [Hd Hp].
  destruct a as [|e a]; [injection Heq as <- _; by rewrite Ascii.eqb_refl in Hd|].
  injection Heq as -> Heq. destruct (IH a Hp Heq) as [a' ->]. by exists a'.
Qed.

Lemma left_bare_before c a b : c = byte 44 ∨ c = byte 61 → left_bare a → left_bare (a +:+ String c b)%string.
Proof.
  intros Hc Ha p s' Hp Heq. destruct (prefix_before c p a b s') as [a' Ha']; [by eapply spaces_lack|done|].
  exact (Ha p a' Hp Ha').
Qed.

Lemma lacks_rev c s : lacks c (String.rev s) = lacks c s.
Proof.
  induction s as [|d s IH]; [done|]. change (lacks c (String.rev_app s (String d "")) = lacks c (String d s)).
  rewrite rev_app_append, lacks_append, IH. simpl. destruct (negb _), (lacks c s); done.
Qed.

Lemma right_bare_after c a b : c = byte 44 ∨ c = byte 61 → right_bare b → right_bare (a +:+ String c b)%string.
Proof.
  intros Hc Hb p s' Hp Heq. apply list_elem_of_fmap in Hp as (q & -> & Hq).
  rewrite rev_around in Heq. destruct (prefix_before c (String.rev q) (String.rev b) (String.rev a) s') as [b' Hb']; [|done|].
  - rewrite lacks_rev. by eapply spaces_lack.
  - apply (Hb (String.rev q) b'); [|done]. by apply list_elem_of_fmap_2.
Qed.
