(* ===== verification/Ctl.v ===== *)
(** * The client library (internal/ctl)

    [Client] finds the leader among a seed list and calls it.  The network is
    the interface [Net]; [cluster_net] is the network of a cluster of scheduler
    nodes, each addressed by its address and served by the handlers of the
    scheduler. *)

From S2P Require Import Prelude Types Queue Retry Env Cluster Store MemStore Server Cycle Deps Lifecycle.
From S2P Require Import Dispatch Jobs Workers Replication Leadership Handlers Refinement Rebuild System Leases Ready Cascade.
From S2P Require Import ReplLog Convergence Tracking.

(** ** The network *)

(** gRPC calls to the scheduler at an address, and the client's clock.  A call
    that times out or cannot be delivered answers with a status. *)
Class Net (σ : Type) := {
  net_Dial : string → M σ (option string);
  net_GetClusterStatus : string → M σ (GetClusterStatusResponse + Status);
  net_SubmitJob : string → Job → M σ (string + Status);
  net_GetJob : string → string → M σ (Job + Status);
  net_ListJobs : string → JobState → M σ (list Job + Status);
  net_CancelJob : string → string → M σ (Job + Status);
  net_Now : M σ Z
}.

(** ** The client *)

(** [SubmitParams] *)
Record SubmitParams := mkSubmitParams {
  Params_ID : string;
  Params_Name : string;
  Params_Command : string;
  Params_Args : list string;
  Params_Priority : Z;
  Params_DependsOn : list string;
  Params_Cron : string;
  Params_After : Z;
  Params_MaxAttempts : Z
}.

Section client.
Context {σ : Type} {Gnet : Net σ}.

(** [Client.Status]; [all] is the whole seed list. *)
Fixpoint status_loop (all seeds : list string) (lastErr : option GoError) : M σ (GetClusterStatusResponse + GoError) :=
  match seeds with
  | [] => mret (inr (default (TextError ("no scheduler reachable among [" +:+ String.concat " " all +:+ "]")) lastErr))
  | seed :: seeds =>
      e ← net_Dial seed;
      match e : option string with
      | Some e => status_loop all seeds (Some (TextError e))
      | None =>
          r ← net_GetClusterStatus seed;
          match r : GetClusterStatusResponse + Status with
          | inr e => status_loop all seeds (Some (StatusError e))
          | inl resp => mret (inl resp)
          end
      end
  end.

Definition Client_Status (seeds : list string) : M σ (GetClusterStatusResponse + GoError) :=
  status_loop seeds seeds None.

(** The node the answer names as holder of the lease. *)
Definition holder_node (status : GetClusterStatusResponse) : option SchedulerNode :=
  List.find (λ n, String.eqb n.(SchedulerNode_Id) (LeaseInfo_GetHolderId status.(Status_Lease)))
    status.(Status_Schedulers).

(** [Client.leaderConn]; a connection is the address it was dialled with. *)
Definition leaderConn (seeds : list string) : M σ (string + GoError) :=
  r ← Client_Status seeds;
  match r : GetClusterStatusResponse + GoError with
  | inr e => mret (inr e)
  | inl status =>
      match holder_node status with
      | None => mret (inr (TextError "no leader currently elected"))
      | Some n =>
          e ← net_Dial n.(SchedulerNode_Address);
          mret (match e : option string with
                | Some e => inr (TextError e)
                | None => inl n.(SchedulerNode_Address)
                end)
      end
  end.

(** A call to the leader. *)
Definition on_leader {A} (seeds : list string) (call : string → M σ (A + Status)) : M σ (A + GoError) :=
  c ← leaderConn seeds;
  match c : string + GoError with
  | inr e => mret (inr e)
  | inl addr =>
      r ← call addr;
      mret (match r : A + Status with inl a => inl a | inr e => inr (StatusError e) end)
  end.

(** The job [Submit] sends. *)
Definition submit_job (p : SubmitParams) (sched : option Schedule) : Job :=
  mkJob p.(Params_ID) p.(Params_Name) p.(Params_Priority)
    (Some (mkTaskSpec p.(Params_Command) p.(Params_Args) ∅ None [])) p.(Params_DependsOn) sched
    (if (0 <? p.(Params_MaxAttempts))%Z
     then Some (mkRetryPolicy p.(Params_MaxAttempts) None None (S754_zero false) (S754_zero false)) else None)
    JOB_STATE_UNSPECIFIED 0 "" "" None None None None None.

(** Its schedule: a cron expression goes before a delay. *)
Definition submit_schedule (p : SubmitParams) : M σ (option Schedule) :=
  if negb (String.eqb p.(Params_Cron) "")
  then mret (Some (mkSchedule (Some (Schedule_CronExpr p.(Params_Cron))) ""))
  else if (0 <? p.(Params_After))%Z
  then now ← net_Now; mret (Some (mkSchedule (Some (Schedule_RunAt (now + p.(Params_After)))) ""))
  else mret None.

Definition Client_Submit (seeds : list string) (p : SubmitParams) : M σ (string + GoError) :=
  on_leader seeds (λ addr, sched ← submit_schedule p; net_SubmitJob addr (submit_job p sched)).

Definition Client_Get (seeds : list string) (id : string) : M σ (Job + GoError) :=
  on_leader seeds (λ addr, net_GetJob addr id).

Definition Client_List (seeds : list string) (state : JobState) : M σ (list Job + GoError) :=
  on_leader seeds (λ addr, net_ListJobs addr state).

Definition Client_Cancel (seeds : list string) (id : string) : M σ (Job + GoError) :=
  on_leader seeds (λ addr, net_CancelJob addr id).

End client.

(** ** A cluster as the network *)

Section cluster.
Context {St : Type} {Gstore : JobStore St} {Genv : Env} {Gcron : Cron}.
Implicit Types (s : Server St).

Record Nodes := mkNodes {
  cl_nodes : gmap string (Server St);
  cl_tick : nat
}.

(** Nothing answers at an address without a node. *)
Definition call {A} (addr : string) (h : M (Server St) (A + Status)) : M Nodes (A + Status) := λ c,
  match c.(cl_nodes) !! addr with
  | None => (inr (mkStatus Unavailable "connection refused"), c)
  | Some s => let '(r, s') := h s in (r, mkNodes (<[addr:=s']> c.(cl_nodes)) c.(cl_tick))
  end.

#[export] Instance cluster_net : Net Nodes := {
  net_Dial _ := mret None;
  net_GetClusterStatus addr := call addr GetClusterStatus;
  net_SubmitJob addr j := call addr (SubmitJob (Some j));
  net_GetJob addr id := call addr (Server_GetJob id);
  net_ListJobs addr st := call addr (Server_ListJobs st 0);
  net_CancelJob addr id := call addr (CancelJob id);
  net_Now := λ c, (env_now c.(cl_tick), mkNodes c.(cl_nodes) (S c.(cl_tick)))
}.

End cluster.

(** ** A submitted job is stored *)

Section submission.
Context {St : Type} {Gstore : JobStore St} {Gdur : DurableStore St} {Genv : Env} {Gcron : Cron}.
Implicit Types (s : Server St) (j : Job).

(** What the submitter asked for. *)
Definition as_asked j j' : Prop :=
  (j.(Job_Id) ≠ "" → j'.(Job_Id) = j.(Job_Id)) ∧ j'.(Job_Name) = j.(Job_Name) ∧ j'.(Job_Priority) = j.(Job_Priority) ∧
  j'.(Job_Spec) = j.(Job_Spec) ∧ j'.(Job_DependsOn) = j.(Job_DependsOn) ∧
  j'.(Job_Schedule) = j.(Job_Schedule) ∧ j'.(Job_RetryPolicy) = j.(Job_RetryPolicy).

(** Steps that leave the store alone. *)
Definition same_store s s' : Prop := s'.(sv_store) = s.(sv_store).

#[export] Instance same_store_preorder : PreOrder same_store.
Proof. split; [by intros s|]. intros a b c. unfold same_store. congruence. Qed.

Lemma ss_modify (g : Server St → Server St) : (∀ s, (g s).(sv_store) = s.(sv_store)) → within same_store (modify g).
Proof. intros H s. apply H. Qed.
Lemma ss_queue {A} (op : PriorityQueue → A * PriorityQueue) : within same_store (on_queue op).
Proof. intros s. unfold exec, on_queue, same_store. by destruct (op (sv_queue s)). Qed.
Lemma ss_tick : within same_store next_tick.
Proof. by intros s. Qed.
#[local] Hint Resolve ss_queue ss_tick : pres.

Ltac stored_still := walk; try (apply ss_modify; intros s'; done).

Lemma ss_arm id d : within same_store (armEnqueue id d).
Proof. unfold armEnqueue, enqueueJob, is_leader, getJob. stored_still. Qed.
Lemma ss_fire_time j now : within same_store (fire_time j now).
Proof. unfold fire_time, Until, Now. stored_still. Qed.
Lemma ss_addDeps j : within same_store (addDeps j).
Proof. unfold addDeps. stored_still. Qed.
Lemma ss_count c : within same_store (count c).
Proof. by apply ss_modify. Qed.
Lemma ss_requireLeader : within same_store requireLeader.
Proof. unfold requireLeader, is_leader, leaderAddr. stored_still. Qed.
Lemma ss_checks j : within same_store (valid_cron j) ∧ within same_store (with_id j) ∧ within same_store (rejects_cycle j).
Proof. unfold valid_cron, with_id, new_id, rejects_cycle, wouldCreateCycle, Now. split_and!; stored_still. Qed.

Lemma put_stores {A} s j id (k : M (Server St) A) :
  healthy s.(sv_store) → j.(Job_Id) = id → id ≠ "" → within same_store k →
  jobs_of (exec k (exec (putJob j) s)) !! id = Some j ∧ healthy (exec k (exec (putJob j) s)).(sv_store).
Proof.
  intros Hh <- Hid Hk. destruct (putJob_durable s j Hh Hid) as (_ & Hh' & Hj).
  pose proof (Hk (exec (putJob j) s)) as Hs. unfold jobs_of. rewrite Hs. split; [|done].
  change (jobs_of (exec (putJob j) s) !! Job_Id j = Some j). rewrite Hj. apply lookup_insert_eq.
Qed.

Lemma placeNewJob_stores s j now :
  healthy s.(sv_store) → j.(Job_Id) ≠ "" →
  let s' := exec (placeNewJob j now) s in
  healthy s'.(sv_store) ∧ ∃ j', jobs_of s' !! j.(Job_Id) = Some j' ∧ same_identity j j'.
Proof.
  intros Hh Hid. unfold placeNewJob. mrun. change (exec (depsSatisfied j) s) with s.
  destruct (negb (String.eqb _ "")); [|destruct (negb _)]; mrun.
  - match goal with |- context [putJob ?x] => edestruct (put_stores s x (Job_Id j) (count inc_JobsCanceled)) as [H1 H2] end;
      [exact Hh|reflexivity|exact Hid|apply ss_count|].
    split; [exact H2|]. eexists. split; [exact H1|by split_and!].
  - match goal with |- context [putJob ?x] => edestruct (put_stores s x (Job_Id j) (addDeps x)) as [H1 H2] end;
      [exact Hh|reflexivity|exact Hid|apply ss_addDeps|].
    split; [exact H2|]. eexists. split; [exact H1|by split_and!].
  - unfold makeReady. mrun. destruct (fire_time_spec s j now) as [Hs _]. pose proof (ss_fire_time j now s) as Hf.
    revert Hs Hf. generalize (exec (fire_time j now) s), (eval (fire_time j now) s). intros s1 [j1 d] Hs Hf.
    cbn [fst snd] in *. unfold same_store in Hf. rewrite <- Hf in Hh.
    set (j2 := set_Job_UpdatedAt (Some now) (set_Job_State JOB_STATE_QUEUED j1)).
    assert (Job_Id j2 = Job_Id j) as Hi by apply Hs. assert (Job_Id j2 ≠ "") as Hi2 by congruence.
    destruct (putJob_durable s1 j2 Hh Hi2) as (-> & _).
    destruct (put_stores s1 j2 (Job_Id j) (armEnqueue (Job_Id j2) d)) as [H1 H2]; [exact Hh|exact Hi|exact Hid|apply ss_arm|].
    split; [exact H2|]. exists j2. by split.
Qed.

(** A submission that is answered with an id is stored under it. *)
Lemma SubmitJob_stores s j id :
  healthy s.(sv_store) → eval (SubmitJob (Some j)) s = inl id →
  let s' := exec (SubmitJob (Some j)) s in
  healthy s'.(sv_store) ∧ id ≠ "" ∧ ∃ j', jobs_of s' !! id = Some j' ∧ j'.(Job_Id) = id ∧ as_asked j j'.
Proof.
  intros Hh He s'. subst s'. revert He. unfold SubmitJob. mrun. pose proof (ss_requireLeader s) as H0.
  rewrite <- H0 in Hh. revert Hh. destruct (eval requireLeader s); [done|].
  generalize (exec requireLeader s). clear s H0. intros s Hh. destruct (String.eqb _ ""); [done|]. mrun.
  destruct (ss_checks j) as (H1 & H2 & _). specialize (H1 s). rewrite <- H1 in Hh. revert Hh.
  generalize (exec (valid_cron j) s). intros s1 Hh. destruct (eval (valid_cron j) s); [done|]. mrun.
  specialize (H2 s1). rewrite <- H2 in Hh.
  assert (as_asked j (eval (with_id j) s1) ∧ Job_Id (eval (with_id j) s1) ≠ "") as [Ha Hid].
  { unfold with_id. destruct (String.eqb_spec (Job_Id j) "") as [Hj|Hj]; mrun; [|by split_and!].
    split; [split_and!; [done|done..]|]. unfold new_id. mrun. done. }
  revert Hh Ha Hid. generalize (exec (with_id j) s1), (eval (with_id j) s1). intros s2 j2 Hh Ha Hid.
  destruct (ss_checks j2) as (_ & _ & H3). specialize (H3 s2). rewrite <- H3 in Hh. revert Hh.
  generalize (exec (rejects_cycle j2) s2). intros s3 Hh. destruct (eval (rejects_cycle j2) s2); [done|]. mrun.
  intros [= <-]. destruct (placeNewJob_stores (exec Now s3) (new_job (eval Now s3) j2) (eval Now s3) Hh Hid)
    as (Hh' & j' & Hj' & Hs). split; [exact Hh'|]. split; [done|]. exists j'. split; [exact Hj'|].
  split; [apply Hs|]. destruct Hs as (S1 & S2 & S3 & S4 & S5 & S6 & S7 & _). destruct Ha as (A1 & A2 & A3 & A4 & A5 & A6 & A7).
  split_and!; [|etrans; [eassumption|done]..]. intros Hn. rewrite S1. by apply A1.
Qed.

End submission.

(** ** The leader a seed list leads to *)

Section served.
Context {St : Type} {Gstore : JobStore St} {Gdur : DurableStore St} {Genv : Env} {Gcron : Cron}.
Implicit Types (s : Server St) (c : Nodes (St := St)).

(** Handlers do not change what a node says of the cluster. *)
Definition same_names s s' : Prop := s'.(sv_node) = s.(sv_node) ∧ s'.(sv_members) = s.(sv_members).

#[export] Instance same_names_preorder : PreOrder same_names.
Proof. split; [by intros s|]. intros x y z [??] [??]. split; congruence. Qed.

Lemma sn_modify (g : Server St → Server St) : (∀ s, same_names s (g s)) → within same_names (modify g).
Proof. intros H s. apply H. Qed.
Lemma sn_store {A} (op : M St A) : within same_names (on_store op).
Proof. by intros s. Qed.
Lemma sn_queue {A} (op : PriorityQueue → A * PriorityQueue) : within same_names (on_queue op).
Proof. intros s. unfold exec, on_queue. by destruct (op (sv_queue s)). Qed.
Lemma sn_tick : within same_names next_tick.
Proof. by intros s. Qed.
#[local] Hint Resolve sn_store sn_queue sn_tick : pres.

Lemma sn_putJob j : within same_names (putJob j).
Proof. unfold putJob, appendRepl, is_leader. walk; try (apply sn_modify; intros s'; done). Qed.

Lemma sn_steps : job_steps same_names.
Proof. split; intros *; first [exact sn_tick|apply sn_putJob|apply sn_queue|apply sn_store|by apply sn_modify]. Qed.

(** The nodes of two states of the cluster, with stores related by [P]. *)
Definition related (P : St → St → Prop) c c' : Prop := ∀ addr,
  option_Forall2 (λ s s', same_names s s' ∧ P s.(sv_store) s'.(sv_store)) (c.(cl_nodes) !! addr) (c'.(cl_nodes) !! addr).

#[export] Instance related_preorder P `{!PreOrder P} : PreOrder (related P).
Proof.
  split.
  - intros c addr. destruct (cl_nodes c !! addr); by constructor.
  - intros c1 c2 c3 H1 H2 addr. specialize (H1 addr). specialize (H2 addr).
    destruct H1 as [s1 s2 [Hn1 Hp1]|]; inversion H2 as [? s3 [Hn2 Hp2]|]; constructor. split; by etrans.
Qed.

Lemma call_related P `{!PreOrder P} {A} addr (h : M (Server St) (A + Status)) :
  within same_names h → (∀ s, P s.(sv_store) (exec h s).(sv_store)) → within (related P) (call addr h).
Proof.
  intros Hn Hp c a. unfold exec, call. destruct (cl_nodes c !! addr) as [s|] eqn:Es.
  - specialize (Hn s). specialize (Hp s). unfold exec in Hn, Hp. destruct (h s) as [r s']. simpl in *.
    destruct (decide (a = addr)) as [-> |Hne].
    + rewrite Es, lookup_insert_eq. by constructor.
    + rewrite lookup_insert_ne by done. destruct (cl_nodes c !! a); by constructor.
  - simpl. destruct (cl_nodes c !! a); by constructor.
Qed.

Definition all_healthy c : Prop := ∀ addr s, c.(cl_nodes) !! addr = Some s → healthy s.(sv_store).

Definition keeps_healthy (st st' : St) : Prop := healthy st → healthy st'.

#[export] Instance keeps_healthy_preorder : PreOrder keeps_healthy.
Proof. split; [by intros ? ?|]. unfold keeps_healthy. intros ???. auto. Qed.

Lemma related_healthy c c' : related keeps_healthy c c' → all_healthy c → all_healthy c'.
Proof.
  intros Hr Hh addr s' Hs. specialize (Hr addr). rewrite Hs in Hr. inversion Hr as [s ? [_ Hp] Heq|]. subst.
  apply Hp, (Hh addr). done.
Qed.

Lemma related_weaken c c' : related eq c c' → related keeps_healthy c c'.
Proof.
  intros Hr addr. destruct (Hr addr) as [s s' [Hn He]|]; constructor. split; [done|]. rewrite He. by intros ?.
Qed.

(** The first seed that answers, and the address it gives for the leader. *)
Definition first_node c (seeds : list string) : option (Server St) :=
  head (omap (λ a, c.(cl_nodes) !! a) seeds).

Definition leader_of c (seeds : list string) : option string :=
  s ← first_node c seeds; s.(sv_members) !! LeaderID s.(sv_node).

Lemma related_leader P c c' seeds : related P c c' → leader_of c' seeds = leader_of c seeds.
Proof.
  intros Hr. unfold leader_of, first_node. induction seeds as [|a seeds IH]; [done|]. simpl.
  destruct (Hr a) as [s s' [[Hn Hm] _]|]; simpl; [by rewrite Hn, Hm|exact IH].
Qed.

(** Looking up a node by its id. *)
Lemma find_node (g : string → SchedulerNode) h ids :
  (∀ id, SchedulerNode_Id (g id) = id) →
  List.find (λ n, String.eqb n.(SchedulerNode_Id) h) (g <$> ids) = if decide (h ∈ ids) then Some (g h) else None.
Proof.
  intros Hg. induction ids as [|id ids IH]; [by destruct (decide _) as [?%elem_of_nil|]|].
  rewrite fmap_cons. cbn [List.find]. rewrite Hg.
  destruct (String.eqb_spec id h) as [-> |Hne].
  - rewrite decide_True; [done|left].
  - rewrite IH. apply decide_ext. rewrite elem_of_cons. naive_solver.
Qed.

(** The status a node answers with names its members, in some order. *)
Lemma GetClusterStatus_holder s :
  healthy s.(sv_store) →
  ∃ resp, eval GetClusterStatus s = inl resp ∧
    SchedulerNode_Address <$> holder_node resp = s.(sv_members) !! LeaderID s.(sv_node).
Proof.
  intros Hh. unfold GetClusterStatus. mrun. unfold range_keys. mrun.
  destruct (ListWorkers_succeeds (sv_store s) Hh) as [ws Hw].
  change (sv_store (exec next_tick s)) with (sv_store s). rewrite Hw. mrun. eexists. split; [done|].
  unfold holder_node. cbn [Status_Lease Status_Schedulers LeaseInfo_GetHolderId LeaseInfo_HolderId].
  rewrite find_node by done. destruct (decide _) as [Hin|Hin];
    rewrite env_order_perm, list_elem_of_fmap in Hin.
  - destruct Hin as ([id addr] & Heq & Hm%elem_of_map_to_list). simpl in Heq. subst id. simpl. by rewrite Hm.
  - simpl. destruct (sv_members s !! LeaderID (sv_node s)) as [addr|] eqn:E; [|done]. destruct Hin.
    exists (LeaderID (sv_node s), addr). by rewrite elem_of_map_to_list.
Qed.

Lemma status_related addr : within (related eq) (call addr GetClusterStatus).
Proof.
  apply (call_related eq); [|intros s]; unfold GetClusterStatus, range_keys.
  - walk.
  - assert (within same_store (A := GetClusterStatusResponse + Status) GetClusterStatus) as H; [|symmetry; apply H].
    unfold GetClusterStatus, range_keys. walk. apply ss_tick.
Qed.

Lemma status_loop_related all seeds e : within (related eq) (status_loop all seeds e).
Proof.
  revert e. induction seeds as [|a seeds IH]; intros e; simpl; walk. apply status_related.
Qed.

Lemma leaderConn_related seeds : within (related eq) (leaderConn seeds).
Proof. unfold leaderConn, Client_Status. simpl. walk. apply status_loop_related. Qed.

Lemma status_loop_spec all seeds e c :
  all_healthy c →
  match first_node c seeds with
  | Some s => ∃ resp, eval (status_loop all seeds e) c = inl resp ∧
      SchedulerNode_Address <$> holder_node resp = s.(sv_members) !! LeaderID s.(sv_node)
  | None => ∃ err, eval (status_loop all seeds e) c = inr err
  end.
Proof.
  intros Hh. revert e. unfold first_node. induction seeds as [|a seeds IH]; intros e; simpl; [by eexists|]. mrun.
  destruct (cl_nodes c !! a) as [s|] eqn:Es; simpl.
  - destruct (GetClusterStatus_holder s (Hh a s Es)) as (resp & He & Hr).
    assert (eval (call a GetClusterStatus) c = inl resp) as ->.
    { unfold eval, call in *. rewrite Es. revert He. by destruct (GetClusterStatus s). }
    by exists resp.
  - assert (call a GetClusterStatus c = (inr (mkStatus Unavailable "connection refused"), c)) as Hc.
    { unfold call. by rewrite Es. }
    unfold eval at 1, exec at 1. unfold eval, exec. rewrite Hc. simpl. apply IH.
Qed.

(** [leaderConn] follows the first seed that answers. *)
Lemma leaderConn_spec seeds c :
  all_healthy c →
  match leader_of c seeds with
  | Some addr => eval (leaderConn seeds) c = inl addr
  | None => ∃ err, eval (leaderConn seeds) c = inr err
  end.
Proof.
  intros Hh. unfold leader_of, leaderConn, Client_Status. mrun.
  pose proof (status_loop_spec seeds seeds None c Hh) as Hs. destruct (first_node c seeds) as [s|]; simpl.
  - destruct Hs as (resp & -> & Hr). destruct (holder_node resp) as [n|]; simpl in Hr; rewrite <- Hr; [done|by eexists].
  - destruct Hs as [err ->]. by eexists.
Qed.

Lemma on_leader_spec {A} seeds (f : string → M (Nodes (St := St)) (A + Status)) c a :
  all_healthy c → eval (on_leader seeds f) c = inl a →
  let c1 := exec (leaderConn seeds) c in
  ∃ addr, leader_of c seeds = Some addr ∧ eval (f addr) c1 = inl a ∧ exec (on_leader seeds f) c = exec (f addr) c1.
Proof.
  intros Hh. unfold on_leader. mrun. pose proof (leaderConn_spec seeds c Hh) as Hl.
  destruct (leader_of c seeds) as [addr|]; [|destruct Hl as [err ->]; done]. rewrite Hl. mrun.
  destruct (eval (f addr) _) as [a'|e] eqn:He; [|done]. intros [= ->]. by exists addr.
Qed.

Lemma on_leader_answers {A} seeds (f : string → M (Nodes (St := St)) (A + Status)) c addr a :
  all_healthy c → leader_of c seeds = Some addr → eval (f addr) (exec (leaderConn seeds) c) = inl a →
  eval (on_leader seeds f) c = inl a.
Proof.
  intros Hh Ha Hf. unfold on_leader. mrun. pose proof (leaderConn_spec seeds c Hh) as Hl. rewrite Ha in Hl.
  rewrite Hl. mrun. by rewrite Hf.
Qed.

Lemma call_run {A} addr (h : M (Server St) (A + Status)) c s :
  c.(cl_nodes) !! addr = Some s →
  eval (call addr h) c = eval h s ∧ (exec (call addr h) c).(cl_nodes) !! addr = Some (exec h s).
Proof.
  intros Hs. unfold eval, exec, call. rewrite Hs. destruct (h s) as [r s']. simpl. by rewrite lookup_insert_eq.
Qed.

Lemma call_answered {A} addr (h : M (Server St) (A + Status)) c a :
  eval (call addr h) c = inl a → is_Some (c.(cl_nodes) !! addr).
Proof. unfold eval, call. by destruct (cl_nodes c !! addr). Qed.

Lemma submit_related addr j : within (related keeps_healthy) (call addr (SubmitJob (Some j))).
Proof.
  apply call_related; [apply _|apply (w_SubmitJob same_names), sn_steps|].
  intros s. exact (w_SubmitJob (kept hl) (ls_jobs _ hl_steps) (Some j) s).
Qed.

(** What [Submit] stored, [Get] fetches. *)
Definition served_as (p : SubmitParams) (id : string) (j : Job) : Prop :=
  j.(Job_Id) = id ∧ (p.(Params_ID) ≠ "" → id = p.(Params_ID)) ∧ j.(Job_Name) = p.(Params_Name) ∧
  j.(Job_Priority) = p.(Params_Priority) ∧
  j.(Job_Spec) = Some (mkTaskSpec p.(Params_Command) p.(Params_Args) ∅ None []) ∧
  j.(Job_DependsOn) = p.(Params_DependsOn) ∧
  ((0 < p.(Params_MaxAttempts))%Z → MaxAttempts j.(Job_RetryPolicy) = p.(Params_MaxAttempts)).

Lemma submit_then_get seeds p id c :
  all_healthy c → eval (Client_Submit seeds p) c = inl id →
  ∃ j, eval (Client_Get seeds id) (exec (Client_Submit seeds p) c) = inl j ∧ served_as p id j.
Proof.
  intros Hh He. unfold Client_Submit in *. destruct (on_leader_spec _ _ _ _ Hh He) as (addr & Hl & Ha & ->). clear He. mrun in Ha. mrun.
  pose proof (leaderConn_related seeds c) as R1.
  set (c1 := exec (leaderConn seeds) c) in *.
  set (c2 := exec (submit_schedule p) c1) in *. set (j := submit_job p _) in *.
  assert (cl_nodes c2 = cl_nodes c1) as Hc2.
  { subst c2. unfold submit_schedule. destruct (negb _); [done|]. by destruct (0 <? _)%Z. }
  assert (related eq c c2) as R2 by (intros a; rewrite Hc2; apply R1). clearbody c2. clear R1 Hc2.
  change (eval (call addr (SubmitJob (Some j))) c2 = inl id) in Ha.
  change (net_SubmitJob addr j) with (call addr (SubmitJob (Some j))).
  destruct (call_answered _ _ _ _ Ha) as [s Hs]. pose proof (submit_related addr j c2) as R3.
  destruct (call_run addr (SubmitJob (Some j)) c2 s Hs) as [He Hs3]. rewrite He in Ha.
  set (c3 := exec (call addr (SubmitJob (Some j))) c2) in *.
  pose proof (related_healthy _ _ (related_weaken _ _ R2) Hh) as Hh2. pose proof (related_healthy _ _ R3 Hh2) as Hh3.
  destruct (SubmitJob_stores s j id (Hh2 addr s Hs) Ha) as (Hh' & Hid & j' & Hj' & Hi & Q1 & Q2 & Q3 & Q4 & Q5 & _ & Q7).
  exists j'. split.
  - eapply (on_leader_answers _ _ _ addr); [done|rewrite (related_leader _ _ _ _ R3), (related_leader _ _ _ _ R2); done|].
    pose proof (leaderConn_related seeds c3 addr) as R4. rewrite Hs3 in R4. inversion R4 as [? s4 [_ Hst] E1 E2|]. subst.
    symmetry in E2. destruct (call_run addr (Server_GetJob (Job_Id j')) _ s4 E2) as [E _].
    change (net_GetJob addr (Job_Id j')) with (call addr (Server_GetJob (Job_Id j'))). rewrite E.
    unfold Server_GetJob, loadJob. destruct (String.eqb_spec (Job_Id j') "") as [?|_]; [done|]. mrun.
    assert (eval (getJob (Job_Id j')) s4 = inl j') as ->; [|done].
    change (GetJob (Job_Id j') (sv_store s4) = inl j'). rewrite <- Hst. by apply GetJob_finds.
  - split_and!; [done|intros Hp; rewrite <- Hi; by apply Q1|done..|].
    intros Hp. rewrite Q7. simpl. apply Z.ltb_lt in Hp as Hp'. rewrite Hp'. simpl.
    by destruct (Z.leb_spec (Params_MaxAttempts p) 0); [lia|].
Qed.

End served.

(** ** Samples *)

Section samples.
#[local] Existing Instance sample_env.
#[local] Existing Instance sample_cron.

(** One node, reached through the second of two seeds. *)
Definition sample_nodes : Nodes (St := MemStore) := mkNodes {[":7070" := sample_run [Restart]]} 0.
Definition sample_seeds : list string := ["down:7070"; ":7070"].

Lemma sample_nodes_healthy : all_healthy sample_nodes.
Proof. intros addr s Hs. unfold sample_nodes in Hs. simpl in Hs. apply lookup_singleton_Some in Hs as [_ <-]. vm_compute. reflexivity. Qed.

End samples.
