(* ===== verification/Transport.v ===== *)
(** * Peer connections (internal/scheduler/cluster.go, [peerTransport])

    The transport dials each peer once and keeps the connection.  Over the
    network of a cluster it carries the vote requests of an election, so that a
    campaign can be run with the votes the other nodes really give. *)

From S2P Require Import Prelude Types Queue Retry Env Cluster Store MemStore Server Cycle Deps Lifecycle.
From S2P Require Import Dispatch Jobs Workers Replication Leadership Handlers Refinement Rebuild System Leases Ready Cascade.
From S2P Require Import ReplLog Convergence Tracking Ctl.

(** ** Model *)

(** [tp_conns] maps a peer to the address its connection was dialled with. *)
Record Transport := mkTransport {
  tp_self : string;
  tp_members : gmap string string;
  tp_conns : gmap string string
}.

Definition newPeerTransport (members : gmap string string) (self : string) : Transport := mkTransport self members ∅.

Definition set_tp_conns (x : gmap string string) (t : Transport) : Transport := mkTransport t.(tp_self) t.(tp_members) x.

(** What a transport calls: [grpc.NewClient] and two RPCs of a peer. *)
Class PeerNet (σ : Type) := {
  peer_Dial : string → M σ (option string);
  peer_RequestVote : string → Z → string → M σ ((bool * Z) + Status);
  peer_Replicate : string → Z → string → list ReplicationEntry → M σ ((bool * Z * Z) + Status)
}.

Section transport.
Context {σ : Type} {Gnet : PeerNet σ}.

Definition on_net {A} (m : M σ A) : M (Transport * σ) A := λ w, let '(a, x) := m w.2 in (a, (w.1, x)).

(** A connection is the address it was dialled with. *)
Definition client (peerID : string) : M (Transport * σ) (string + GoError) :=
  c ← gets (λ w, w.1.(tp_conns) !! peerID);
  match c : option string with
  | Some addr => mret (inl addr)
  | None =>
      addr ← gets (λ w, default "" (w.1.(tp_members) !! peerID));
      e ← on_net (peer_Dial addr);
      match e : option string with
      | Some e => mret (inr (TextError e))
      | None => modify (λ w, (set_tp_conns (<[peerID:=addr]> w.1.(tp_conns)) w.1, w.2));; mret (inl addr)
      end
  end.

Definition transport_close : M (Transport * σ) unit := modify (λ w, (set_tp_conns ∅ w.1, w.2)).

Definition SendVote (peerID : string) (term : Z) (candidateID : string) : M (Transport * σ) ((bool * Z) + GoError) :=
  c ← client peerID;
  match c : string + GoError with
  | inr e => mret (inr e)
  | inl addr =>
      r ← on_net (peer_RequestVote addr term candidateID);
      mret (match r : (bool * Z) + Status with inl a => inl a | inr e => inr (StatusError e) end)
  end.

Definition sendReplicate (peerID : string) (term : Z) (leaderID : string) (entries : list ReplicationEntry)
    : M (Transport * σ) ((bool * Z * Z) + GoError) :=
  c ← client peerID;
  match c : string + GoError with
  | inr e => mret (inr e)
  | inl addr =>
      r ← on_net (peer_Replicate addr term leaderID entries);
      mret (match r : (bool * Z * Z) + Status with inl a => inl a | inr e => inr (StatusError e) end)
  end.

(** What the goroutine of a vote request sends on the channel. *)
Definition vote_result (r : (bool * Z) + GoError) : voteResult :=
  match r with
  | inl (granted, peerTerm) => mkVoteResult granted peerTerm true
  | inr _ => mkVoteResult false 0 false
  end.

(** The vote requests of a campaign, in the order their results arrive. *)
Fixpoint request_votes (ps : list string) (term : Z) (self : string) : M (Transport * σ) (list voteResult) :=
  match ps with
  | [] => mret []
  | p :: ps =>
      r ← SendVote p term self;
      rs ← request_votes ps term self;
      mret (vote_result r :: rs)
  end.

End transport.

(** ** A campaign in a cluster *)

Section campaign.
Context {St : Type} {Gstore : JobStore St} {Genv : Env} {Gcron : Cron}.
Implicit Types (s : Server St) (c : Nodes (St := St)) (n : NodeState St).

#[export] Instance peer_net : PeerNet (Nodes (St := St)) := {
  peer_Dial _ := mret None;
  peer_RequestVote addr t cand := call addr (r ← RequestVote t cand; mret (inl r));
  peer_Replicate addr t l es := call addr (r ← Replicate t l es; mret (inl r))
}.

(** A step of the node at [addr]. *)
Definition at_node {A} (addr : string) (d : A) (m : M (NodeState St) A) : M Nodes A := λ c,
  match c.(cl_nodes) !! addr with
  | None => (d, c)
  | Some s => let '(a, s') := on_node m s in (a, mkNodes (<[addr:=s']> c.(cl_nodes)) c.(cl_tick))
  end.

(** [startElection] of the node [self] at [addr], with the results of its vote
    requests arriving in the order of [arrival], a rearrangement of its peers. *)
Definition campaign (addr self : string) (arrival : list string → list string) : M (Transport * Nodes (St := St)) unit :=
  tp ← on_net (at_node addr (0%Z, []) startElection_begin);
  rs ← request_votes (arrival tp.2) tp.1 self;
  on_net (at_node addr tt (startElection_count tp.1 1 rs)).

(** A node that will vote for [cand] in term [t]. *)
Definition supports (t : Z) (cand : string) (n : Node) : Prop :=
  (n.(Node_currentTerm) < t)%Z ∨ (n.(Node_currentTerm) = t ∧ n.(Node_votedFor) = cand).

Lemma persist_node n : (exec persistLocked n).(ns_node) = n.(ns_node).
Proof. unfold exec, persistLocked. by destruct (SaveState _ _ _). Qed.

Lemma reset_node n : ∃ d, (exec resetElectionTimerLocked n).(ns_node) = set_deadline d n.(ns_node).
Proof. destruct (reset_shape n) as (d & k & ->). by exists d. Qed.

Lemma follow_node t n :
  (n.(ns_node).(Node_currentTerm) < t)%Z →
  let n' := (exec (becomeFollowerLocked t) n).(ns_node) in
  n'.(Node_currentTerm) = t ∧ n'.(Node_votedFor) = "".
Proof.
  intros Ht. unfold becomeFollowerLocked. mrun. change (eval get_node n) with (ns_node n). change (exec get_node n) with n.
  rewrite (proj2 (Z.ltb_lt _ _) Ht). mrun.
  set (n1 := exec persistLocked _). assert (ns_node n1 = set_term_vote t "" (ns_node n)) as H1 by apply persist_node.
  clearbody n1. destruct (reset_node (exec (modify_node (set_role Follower)) n1)) as [d Hd]. revert Hd.
  generalize (exec resetElectionTimerLocked (exec (modify_node (set_role Follower)) n1)). intros n2 Hd.
  change (ns_node (exec (modify_node (set_role Follower)) n1)) with (set_role Follower (ns_node n1)) in Hd.
  assert (Node_currentTerm (ns_node n2) = t ∧ Node_votedFor (ns_node n2) = "") as H2 by (by rewrite Hd, H1).
  unfold whenM. by destruct (bool_decide _); mrun.
Qed.

(** A supporter grants its vote, and goes on supporting; one that was in the term
    already keeps its role. *)
Lemma HandleVote_grants t cand n :
  supports t cand n.(ns_node) →
  let n' := (exec (HandleVote t cand) n).(ns_node) in
  eval (HandleVote t cand) n = (true, t) ∧ n'.(Node_currentTerm) = t ∧ n'.(Node_votedFor) = cand ∧
  (n.(ns_node).(Node_currentTerm) = t → n'.(Node_role) = n.(ns_node).(Node_role) ∧ n'.(Node_cfg) = n.(ns_node).(Node_cfg)).
Proof.
  intros Hs. unfold HandleVote. mrun. change (eval get_node n) with (ns_node n). change (exec get_node n) with n.
  assert ((t <? Node_currentTerm (ns_node n))%Z = false) as -> by (apply Z.ltb_ge; destruct Hs as [?|[??]]; lia). mrun.
  set (n1 := exec (whenM _ _) n).
  assert (n1.(ns_node).(Node_currentTerm) = t ∧ (n1.(ns_node).(Node_votedFor) = "" ∨ n1.(ns_node).(Node_votedFor) = cand) ∧
    (n.(ns_node).(Node_currentTerm) = t → n1 = n)) as (Ht & Hv & He).
  { subst n1. destruct (Z.ltb_spec (Node_currentTerm (ns_node n)) t) as [Hlt|Hge]; simpl.
    - destruct (follow_node t n Hlt). split_and!; [done|by left|lia].
    - destruct Hs as [?|[??]]; [lia|]. split_and!; [done|by right|done]. }
  clearbody n1. change (eval get_node n1) with (ns_node n1). change (exec get_node n1) with n1.
  assert (String.eqb (Node_votedFor (ns_node n1)) "" || String.eqb (Node_votedFor (ns_node n1)) cand = true) as ->.
  { apply orb_true_iff. rewrite !String.eqb_eq. exact Hv. }
  mrun. set (n2 := exec persistLocked _). assert (ns_node n2 = set_votedFor cand (ns_node n1)) as H2 by apply persist_node.
  clearbody n2. destruct (reset_node n2) as [d Hd]. change (exec get_node (exec resetElectionTimerLocked n2)) with (exec resetElectionTimerLocked n2).
  change (eval get_node (exec resetElectionTimerLocked n2)) with (ns_node (exec resetElectionTimerLocked n2)).
  rewrite Hd, H2. simpl. rewrite Ht. split_and!; [done..|]. intros Hn. by rewrite (He Hn).
Qed.

(** The transport's connections lead to the members' addresses. *)
Definition conns_ok (tr : Transport) : Prop :=
  ∀ p addr, tr.(tp_conns) !! p = Some addr → addr = default "" (tr.(tp_members) !! p).

Lemma client_run (w : Transport * Nodes (St := St)) p :
  conns_ok w.1 →
  let addr := default "" (w.1.(tp_members) !! p) in
  let w' := exec (client p) w in
  eval (client p) w = inl addr ∧ w'.2 = w.2 ∧ conns_ok w'.1 ∧ w'.1.(tp_members) = w.1.(tp_members).
Proof.
  intros Hc addr w'. subst w'. unfold client. mrun. destruct (tp_conns w.1 !! p) as [a|] eqn:Ea; mrun.
  - split_and!; [f_equal; by apply Hc|done..].
  - destruct w as [tr c]. cbn. split_and!; [done..| |done]. intros q a. simpl. intros [[<- <-]|[_ Hq]]%lookup_insert_Some; [done|by apply Hc].
Qed.

(** While the votes come in: the candidate stands at [addr], and every peer that
    can be reached supports it. *)
Section round.
Context (t : Z) (cand addr : string) (members : gmap string string) (cfg : ClusterConfig) (ps : list string).

Definition peer_addr (p : string) : string := default "" (members !! p).

Record standing (w : Transport * Nodes (St := St)) : Prop := {
  st_conns : conns_ok w.1;
  st_members : w.1.(tp_members) = members;
  st_peers p s : p ∈ ps → w.2.(cl_nodes) !! peer_addr p = Some s → supports t cand s.(sv_node);
  st_self : ∃ s, w.2.(cl_nodes) !! addr = Some s ∧ s.(sv_node).(Node_currentTerm) = t ∧ s.(sv_node).(Node_votedFor) = cand ∧
    s.(sv_node).(Node_role) = Candidate ∧ s.(sv_node).(Node_cfg) = cfg
}.

Definition reachable_peer c (p : string) : bool := bool_decide (is_Some (c.(cl_nodes) !! peer_addr p)).

(** The result such a peer gives. *)
Definition answer c (p : string) : voteResult :=
  if reachable_peer c p then mkVoteResult true t true else mkVoteResult false 0 false.

Lemma RequestVote_run s :
  supports t cand s.(sv_node) →
  let s' := exec (RequestVote t cand) s in
  eval (RequestVote t cand) s = (true, t) ∧ s'.(sv_node).(Node_currentTerm) = t ∧ s'.(sv_node).(Node_votedFor) = cand ∧
  (s.(sv_node).(Node_currentTerm) = t →
   s'.(sv_node).(Node_role) = s.(sv_node).(Node_role) ∧ s'.(sv_node).(Node_cfg) = s.(sv_node).(Node_cfg)).
Proof.
  intros Hs. pose proof (HandleVote_grants t cand (mkNodeState (sv_node s) (sv_store s) (sv_tick s)) Hs) as H.
  unfold RequestVote, eval, exec, on_node in *. by destruct (HandleVote _ _ _) as [r n].
Qed.

Lemma SendVote_run w p :
  standing w → p ∈ ps →
  let w' := exec (SendVote p t cand) w in
  vote_result (eval (SendVote p t cand) w) = answer w.2 p ∧ standing w' ∧
  (∀ a, is_Some (w'.2.(cl_nodes) !! a) ↔ is_Some (w.2.(cl_nodes) !! a)).
Proof.
  intros [H1 H2 H3 (s0 & H4 & H5)] Hp. unfold SendVote. mrun.
  destruct (client_run w p H1) as (He & Hw & Hc & Hm). rewrite He, H2. fold (peer_addr p).
  revert Hw Hc Hm. generalize (exec (client p) w). intros [tr c] Hw Hc Hm. simpl in Hw, Hc, Hm. mrun.
  unfold answer, reachable_peer. rewrite <- Hw in *. clear Hw He.
  unfold eval at 1, exec, on_net. simpl. unfold call. destruct (cl_nodes c !! peer_addr p) as [s|] eqn:Es.
  - destruct (RequestVote_run s) as (Hr & Ht & Hv & Hk); [by eapply H3|].
    rewrite bind_run. unfold eval, exec in *. destruct (RequestVote t cand s) as [r s'] eqn:Eq. simpl in *. subst r.
    split; [done|]. split; [|intros a; simpl; rewrite lookup_insert_is_Some'; destruct (decide (a = peer_addr p)) as [->|]; [rewrite Es|]; naive_solver].
    split; simpl; [done|congruence| |].
    + intros q x Hq [[_ <-]|[_ Hx]]%lookup_insert_Some; [by right|by eapply H3].
    + destruct (decide (peer_addr p = addr)) as [Hpa|Hne].
      * rewrite Hpa in *. rewrite Es in H4. injection H4 as ->. exists s'. rewrite lookup_insert_eq.
        destruct H5 as (A1 & A2 & A3 & A4). destruct (Hk A1). split_and!; congruence.
      * exists s0. by rewrite lookup_insert_ne.
  - simpl. split; [done|]. split; [|done]. split; simpl; [done|congruence|done|by exists s0].
Qed.

Lemma request_votes_run l w :
  standing w → l ⊆ ps →
  let w' := exec (request_votes l t cand) w in
  eval (request_votes l t cand) w = answer w.2 <$> l ∧ standing w'.
Proof.
  revert w. induction l as [|p l IH]; intros w Hw Hl; [done|]. simpl. mrun.
  destruct (SendVote_run w p Hw) as (Hr & Hs & Hd); [set_solver|]. destruct (IH _ Hs) as [Hrs Hw']; [set_solver|].
  split; [|done]. rewrite Hr, Hrs. f_equal. apply list_fmap_ext. intros i q _. unfold answer, reachable_peer.
  by rewrite (bool_decide_ext _ _ (Hd (peer_addr q))).
Qed.

End round.

(** Counting the results makes the candidate leader once a majority is in. *)
Lemma count_leads rs n term votes :
  n.(ns_node).(Node_role) = Candidate → n.(ns_node).(Node_currentTerm) = term →
  Forall (λ r, r.(vr_ok) = true → r.(vr_peerTerm) <= term)%Z rs →
  (0 <= votes < majority n.(ns_node))%Z → (majority n.(ns_node) <= max_int64)%Z →
  (majority n.(ns_node) <= votes + Z.of_nat (length (granted rs)))%Z →
  let n' := (exec (startElection_count term votes rs) n).(ns_node) in
  n'.(Node_role) = Leader ∧ n'.(Node_currentTerm) = term.
Proof.
  intros Hr Ht Hrs. revert votes. induction Hrs as [|r rs Hp _ IH]; intros votes Hv Hm Hg; [simpl in Hg; lia|].
  unfold granted in *. simpl. mrun. destruct (vr_ok r) eqn:Eo; [destruct (vr_granted r) eqn:Eg|].
  - rewrite filter_cons_True in Hg by done. simpl in Hg. unfold eval, exec. rewrite vote_granted by auto.
    rewrite int64_small by (unfold min_int64, max_int64 in *; lia).
    destruct (Z.leb_spec (majority (ns_node n)) (votes + 1)); simpl; [done|]. apply IH; [lia|done|lia].
  - rewrite filter_cons_False in Hg by (intros [? ?]; congruence). unfold eval, exec.
    rewrite vote_goes_on; [by apply IH|done|done|auto|by rewrite Eg, andb_false_r].
  - rewrite filter_cons_False in Hg by (intros [? ?]; congruence). unfold startElection_vote. mrun. rewrite Eo. simpl. by apply IH.
Qed.

Lemma begin_node n :
  let t := int64 (n.(ns_node).(Node_currentTerm) + 1) in
  let n' := (exec startElection_begin n).(ns_node) in
  eval startElection_begin n = (t, peers n.(ns_node)) ∧ n'.(Node_currentTerm) = t ∧
  n'.(Node_votedFor) = n.(ns_node).(Node_cfg).(NodeID) ∧ n'.(Node_role) = Candidate ∧ n'.(Node_cfg) = n.(ns_node).(Node_cfg).
Proof.
  unfold startElection_begin. mrun. change (eval get_node (exec (modify_node (set_role Candidate)) n)) with (set_role Candidate (ns_node n)).
  change (exec get_node ?x) with x.
  set (n1 := exec persistLocked _).
  assert (ns_node n1 = set_term_vote (int64 (Node_currentTerm (ns_node n) + 1)) (NodeID (Node_cfg (ns_node n))) (set_role Candidate (ns_node n))) as H1
    by apply persist_node.
  clearbody n1. destruct (reset_node n1) as [d Hd]. revert Hd. generalize (exec resetElectionTimerLocked n1). intros n2 Hd.
  change (eval get_node n2) with (ns_node n2). change (exec get_node n2) with n2. rewrite Hd, H1. by split_and!.
Qed.

Lemma at_node_run {A} addr (d : A) (m : M (NodeState St) A) c s :
  c.(cl_nodes) !! addr = Some s →
  let n := mkNodeState s.(sv_node) s.(sv_store) s.(sv_tick) in
  eval (at_node addr d m) c = eval m n ∧
  ∃ s', (exec (at_node addr d m) c).(cl_nodes) = <[addr:=s']> c.(cl_nodes) ∧ s'.(sv_node) = (exec m n).(ns_node).
Proof.
  intros Hs n. unfold eval, exec, at_node. rewrite Hs. unfold on_node. fold n. destruct (m n) as [a n']. simpl.
  split; [done|]. by eexists.
Qed.

Lemma on_net_run {σ A} (m : M σ A) (w : Transport * σ) :
  eval (on_net m) w = eval m w.2 ∧ exec (on_net m) w = (w.1, exec m w.2).
Proof. unfold eval, exec, on_net. by destruct (m w.2). Qed.

(** The campaign opens: the node stands, and the same peers can be reached. *)
Lemma begin_standing addr s tr c :
  let n := s.(sv_node) in
  let t := (n.(Node_currentTerm) + 1)%Z in
  let c1 := exec (at_node addr (0%Z, []) startElection_begin) c in
  c.(cl_nodes) !! addr = Some s → conns_ok tr → (min_int64 <= t <= max_int64)%Z →
  (∀ p s', p ∈ peers n → c.(cl_nodes) !! peer_addr tr.(tp_members) p = Some s' → (s'.(sv_node).(Node_currentTerm) < t)%Z) →
  eval (at_node addr (0%Z, []) startElection_begin) c = (t, peers n) ∧
  standing t n.(Node_cfg).(NodeID) addr tr.(tp_members) n.(Node_cfg) (peers n) (tr, c1) ∧
  (∀ a, is_Some (c1.(cl_nodes) !! a) ↔ is_Some (c.(cl_nodes) !! a)).
Proof.
  intros n t c1 Hs Hc Ht Hterms. destruct (at_node_run addr (0%Z, []) startElection_begin c s Hs) as [He (s1 & Hn & Hs1)].
  fold c1 in Hn. clearbody c1. revert He Hs1. set (ns := mkNodeState _ _ _).
  destruct (begin_node ns) as (-> & B1 & B2 & B3 & B4). change (ns_node ns) with n in *. intros -> Hs1.
  rewrite <- Hs1 in B1, B2, B3, B4. rewrite int64_small in * by done. fold t in B1 |- *. split; [done|]. split.
  - split; simpl; [done|done| |exists s1; by rewrite Hn, lookup_insert_eq].
    intros p s' Hp. rewrite Hn. intros [[_ <-]|[_ Hx]]%lookup_insert_Some; [by right|left; by eapply Hterms].
  - intros a. rewrite Hn, lookup_insert_is_Some'. destruct (decide (a = addr)) as [->|]; [rewrite Hs|]; naive_solver.
Qed.

Lemma granted_answers t mem c l :
  length (granted (answer t mem c <$> l)) = length (filter (λ p, is_Some (c.(cl_nodes) !! peer_addr mem p)) l).
Proof.
  unfold granted. induction l as [|p l IH]; [done|]. rewrite fmap_cons.
  destruct (decide (is_Some (cl_nodes c !! peer_addr mem p))) as [Hp|Hp].
  - rewrite (filter_cons_True _ p) by done. assert (answer t mem c p = mkVoteResult true t true) as ->.
    { unfold answer, reachable_peer. by rewrite (bool_decide_eq_true_2 _ Hp). }
    rewrite filter_cons_True by done. simpl. by f_equal.
  - rewrite (filter_cons_False _ p) by done. assert (answer t mem c p = mkVoteResult false 0 false) as ->.
    { unfold answer, reachable_peer. by rewrite (bool_decide_eq_false_2 _ Hp). }
    rewrite filter_cons_False by (by intros [? ?]). done.
Qed.

(** C11. Elections succeed: when the node at [addr] campaigns in a cluster of at
    least two members, every peer it can reach is in an earlier term than the
    one it campaigns for, which is within the range of the counter, and it can
    reach enough of them for a majority, it ends as leader of that term, in
    whatever order the votes arrive. The votes are those that the peers' own
    handlers give to the requests the transport carries. *)
Theorem campaign_elects addr s tr c arrival :
  let n := s.(sv_node) in
  let t := (n.(Node_currentTerm) + 1)%Z in
  let peer_at p := c.(cl_nodes) !! peer_addr tr.(tp_members) p in
  c.(cl_nodes) !! addr = Some s → conns_ok tr → (∀ l, arrival l ≡ₚ l) →
  (min_int64 <= t <= max_int64)%Z → (2 <= majority n <= max_int64)%Z →
  (∀ p s', p ∈ peers n → peer_at p = Some s' → (s'.(sv_node).(Node_currentTerm) < t)%Z) →
  (majority n <= 1 + Z.of_nat (length (filter (λ p, is_Some (peer_at p)) (peers n))))%Z →
  ∃ s', (exec (campaign addr n.(Node_cfg).(NodeID) arrival) (tr, c)).2.(cl_nodes) !! addr = Some s' ∧
    s'.(sv_node).(Node_role) = Leader ∧ s'.(sv_node).(Node_currentTerm) = t.
Proof.
  intros n t peer_at Hs Hc Hperm Ht Hm Hterms Hmaj. unfold campaign. mrun.
  rewrite (proj1 (on_net_run _ _)), (proj2 (on_net_run _ (tr, c))). cbn [fst snd].
  destruct (begin_standing addr s tr c Hs Hc Ht Hterms) as (-> & Hst & Hreach). cbn [fst snd].
  set (c1 := exec (at_node addr (0%Z, []) startElection_begin) c) in *. clearbody c1. fold n t in Hst |- *.
  destruct (request_votes_run t (NodeID (Node_cfg n)) addr (tp_members tr) (Node_cfg n) (peers n) (arrival (peers n)) (tr, c1) Hst)
    as [-> [_ _ _ (s2 & S1 & S2 & S3 & S4 & S5)]]; [intros p; by rewrite Hperm|].
  revert S1. generalize (exec (request_votes (arrival (peers n)) t (NodeID (Node_cfg n))) (tr, c1)). intros w2 S1.
  rewrite (proj2 (on_net_run _ w2)). cbn [snd].
  destruct (at_node_run addr tt (startElection_count t 1 (answer t (tp_members tr) c1 <$> arrival (peers n))) _ s2 S1) as [_ (s3 & Hn3 & Hs3)].
  exists s3. rewrite Hn3, lookup_insert_eq. split; [done|]. rewrite Hs3.
  assert (majority (sv_node s2) = majority n) as Hmj by (unfold majority; by rewrite S5).
  apply count_leads; cbn [ns_node]; rewrite ?Hmj; [done|done| |lia|lia|].
  - apply Forall_fmap, Forall_forall. intros p _. simpl. unfold answer. destruct (reachable_peer _ _ _); simpl; [lia|done].
  - rewrite granted_answers, Hperm. erewrite list_filter_iff; [exact Hmaj|]. intros p. apply Hreach.
Qed.

End campaign.

(** ** Samples *)

Section samples.
#[local] Existing Instance sample_env.
#[local] Existing Instance sample_cron.

Definition member_node (id : string) : Server MemStore := exec (run_op Restart) (new_server (member_cfg id) empty_store 0).

(** Two of three members are up. *)
Definition two_of_three : Nodes (St := MemStore) :=
  mkNodes {["h1:7070" := member_node "n1"; "h2:7070" := member_node "n2"]} 0.

Definition n1_transport : Transport := newPeerTransport (member_node "n1").(sv_members) "n1".

Lemma two_of_three_terms p s' :
  two_of_three.(cl_nodes) !! p = Some s' → (s'.(sv_node).(Node_currentTerm) < (member_node "n1").(sv_node).(Node_currentTerm) + 1)%Z.
Proof.
  assert (map_Forall (λ _ s', (s'.(sv_node).(Node_currentTerm) < (member_node "n1").(sv_node).(Node_currentTerm) + 1)%Z) two_of_three.(cl_nodes)) as H.
  { apply (bool_decide_unpack _). vm_compute. exact I. }
  apply H.
Qed.

Lemma campaign_elects_witness :
  ∃ s', (exec (campaign "h1:7070" "n1" reverse) (n1_transport, two_of_three)).2.(cl_nodes) !! "h1:7070" = Some s' ∧
    s'.(sv_node).(Node_role) = Leader ∧ s'.(sv_node).(Node_currentTerm) = 1%Z.
Proof.
  apply (campaign_elects "h1:7070" (member_node "n1") n1_transport two_of_three reverse).
  - vm_compute. reflexivity.
  - intros p a Ha. change ((∅ : gmap string string) !! p = Some a) in Ha. by rewrite lookup_empty in Ha.
  - apply reverse_Permutation.
  - split; vm_compute; discriminate.
  - split; vm_compute; discriminate.
  - intros p s' _. apply two_of_three_terms.
  - vm_compute. discriminate.
Defined.

End samples.
