(* ===== verification/Stubs.v ===== *)
(** * The gRPC stubs (gen/go/distsched/v1/*_grpc.pb.go)

    The generated clients name a method and hand the request to a connection;
    the generated service descriptions list, for each method, a handler that
    decodes the request and calls the server's method.  The transport between
    the two is the gRPC library: an interface [Grpc] with its documented rule
    that a call is served by the handler registered under the method's full
    name.  The theorem is that a client stub reaches the scheduler's method of
    the same name, so that the networks of [Ctl.v] and [Transport.v] are what
    the stubs implement. *)

From S2P Require Import Prelude Types Messages Queue Retry Env Cluster Store MemStore Server Cycle Deps Lifecycle.
From S2P Require Import Dispatch Jobs Workers Replication Leadership Handlers Refinement Rebuild System Leases Ready.
From S2P Require Import Ctl Transport.

(** ** The library's types *)

(** [grpc.ClientConnInterface]: [Invoke] with a full method name. *)
Definition ClientConn (σ : Type) : Type := string → ∀ tin tout, msg tin → M σ (msg tout + Status).

(** [dec] of a handler: the request decoded into a message of a type. *)
Definition Decoder : Type := ∀ t, msg t + Status.

(** [grpc.UnaryServerInterceptor]: it sees the full method name and the request,
    and decides what to do with the method. *)
Definition Interceptor (σ : Type) : Type :=
  string → ∀ tin tout, msg tin → (msg tin → M σ (msg tout + Status)) → M σ (msg tout + Status).

Record MethodDesc (σ : Type) := mkMethodDesc {
  MethodName : string;
  md_out : msgtype;
  Handler : Decoder → option (Interceptor σ) → M σ (msg md_out + Status)
}.
Arguments mkMethodDesc {σ}.
Arguments MethodName {σ}.
Arguments md_out {σ}.
Arguments Handler {σ}.

Record ServiceDesc (σ : Type) := mkServiceDesc {
  ServiceName : string;
  Methods : list (MethodDesc σ)
}.
Arguments mkServiceDesc {σ}.
Arguments ServiceName {σ}.
Arguments Methods {σ}.

Definition full_name (service method : string) : string := ("/" +:+ service +:+ "/" +:+ method)%string.

(** The body that all generated handlers share. *)
Definition unary {σ} (full : string) (tin tout : msgtype) (f : msg tin → M σ (msg tout + Status))
    (dec : Decoder) (interceptor : option (Interceptor σ)) : M σ (msg tout + Status) :=
  match dec tin with
  | inr e => mret (inr e)
  | inl x =>
      match interceptor with
      | None => f x
      | Some i => i full tin tout x f
      end
  end.

Definition unimplemented {σ A} (method : string) : M σ (A + Status) :=
  mret (inr (mkStatus (OtherCode 12) ("method " +:+ method +:+ " not implemented")%string)).

(** ** JobService (job_grpc.pb.go) *)

Module JobService.

Definition SubmitJob_FullMethodName : string := "/distsched.v1.JobService/SubmitJob".
Definition GetJob_FullMethodName : string := "/distsched.v1.JobService/GetJob".
Definition ListJobs_FullMethodName : string := "/distsched.v1.JobService/ListJobs".
Definition CancelJob_FullMethodName : string := "/distsched.v1.JobService/CancelJob".

Section stubs.
Context {σ : Type}.

Record JobServiceServer := mkJobServiceServer {
  js_SubmitJob : SubmitJobRequest → M σ (SubmitJobResponse + Status);
  js_GetJob : GetJobRequest → M σ (GetJobResponse + Status);
  js_ListJobs : ListJobsRequest → M σ (ListJobsResponse + Status);
  js_CancelJob : CancelJobRequest → M σ (CancelJobResponse + Status)
}.

Definition UnimplementedJobServiceServer : JobServiceServer :=
  mkJobServiceServer (λ _, unimplemented "SubmitJob") (λ _, unimplemented "GetJob")
    (λ _, unimplemented "ListJobs") (λ _, unimplemented "CancelJob").

Definition jobServiceClient_SubmitJob (cc : ClientConn σ) (x : SubmitJobRequest) : M σ (SubmitJobResponse + Status) :=
  cc SubmitJob_FullMethodName T_SubmitJobRequest T_SubmitJobResponse x.
Definition jobServiceClient_GetJob (cc : ClientConn σ) (x : GetJobRequest) : M σ (GetJobResponse + Status) :=
  cc GetJob_FullMethodName T_GetJobRequest T_GetJobResponse x.
Definition jobServiceClient_ListJobs (cc : ClientConn σ) (x : ListJobsRequest) : M σ (ListJobsResponse + Status) :=
  cc ListJobs_FullMethodName T_ListJobsRequest T_ListJobsResponse x.
Definition jobServiceClient_CancelJob (cc : ClientConn σ) (x : CancelJobRequest) : M σ (CancelJobResponse + Status) :=
  cc CancelJob_FullMethodName T_CancelJobRequest T_CancelJobResponse x.

Definition SubmitJob_Handler (srv : JobServiceServer) :=
  unary SubmitJob_FullMethodName T_SubmitJobRequest T_SubmitJobResponse srv.(js_SubmitJob).
Definition GetJob_Handler (srv : JobServiceServer) :=
  unary GetJob_FullMethodName T_GetJobRequest T_GetJobResponse srv.(js_GetJob).
Definition ListJobs_Handler (srv : JobServiceServer) :=
  unary ListJobs_FullMethodName T_ListJobsRequest T_ListJobsResponse srv.(js_ListJobs).
Definition CancelJob_Handler (srv : JobServiceServer) :=
  unary CancelJob_FullMethodName T_CancelJobRequest T_CancelJobResponse srv.(js_CancelJob).

Definition JobService_ServiceDesc (srv : JobServiceServer) : ServiceDesc σ :=
  mkServiceDesc "distsched.v1.JobService"
    [mkMethodDesc "SubmitJob" _ (SubmitJob_Handler srv);
     mkMethodDesc "GetJob" _ (GetJob_Handler srv);
     mkMethodDesc "ListJobs" _ (ListJobs_Handler srv);
     mkMethodDesc "CancelJob" _ (CancelJob_Handler srv)].

End stubs.
Arguments JobServiceServer : clear implicits.
End JobService.

(** ** WorkerService (worker_grpc.pb.go) *)

Module WorkerService.

Definition RegisterWorker_FullMethodName : string := "/distsched.v1.WorkerService/RegisterWorker".
Definition Heartbeat_FullMethodName : string := "/distsched.v1.WorkerService/Heartbeat".
Definition PollTask_FullMethodName : string := "/distsched.v1.WorkerService/PollTask".
Definition ReportTask_FullMethodName : string := "/distsched.v1.WorkerService/ReportTask".

Section stubs.
Context {σ : Type}.

Record WorkerServiceServer := mkWorkerServiceServer {
  ws_RegisterWorker : RegisterWorkerRequest → M σ (RegisterWorkerResponse + Status);
  ws_Heartbeat : HeartbeatRequest → M σ (HeartbeatResponse + Status);
  ws_PollTask : PollTaskRequest → M σ (PollTaskResponse + Status);
  ws_ReportTask : ReportTaskRequest → M σ (ReportTaskResponse + Status)
}.

Definition UnimplementedWorkerServiceServer : WorkerServiceServer :=
  mkWorkerServiceServer (λ _, unimplemented "RegisterWorker") (λ _, unimplemented "Heartbeat")
    (λ _, unimplemented "PollTask") (λ _, unimplemented "ReportTask").

Definition workerServiceClient_RegisterWorker (cc : ClientConn σ) (x : RegisterWorkerRequest) : M σ (RegisterWorkerResponse + Status) :=
  cc RegisterWorker_FullMethodName T_RegisterWorkerRequest T_RegisterWorkerResponse x.
Definition workerServiceClient_Heartbeat (cc : ClientConn σ) (x : HeartbeatRequest) : M σ (HeartbeatResponse + Status) :=
  cc Heartbeat_FullMethodName T_HeartbeatRequest T_HeartbeatResponse x.
Definition workerServiceClient_PollTask (cc : ClientConn σ) (x : PollTaskRequest) : M σ (PollTaskResponse + Status) :=
  cc PollTask_FullMethodName T_PollTaskRequest T_PollTaskResponse x.
Definition workerServiceClient_ReportTask (cc : ClientConn σ) (x : ReportTaskRequest) : M σ (ReportTaskResponse + Status) :=
  cc ReportTask_FullMethodName T_ReportTaskRequest T_ReportTaskResponse x.

Definition RegisterWorker_Handler (srv : WorkerServiceServer) :=
  unary RegisterWorker_FullMethodName T_RegisterWorkerRequest T_RegisterWorkerResponse srv.(ws_RegisterWorker).
Definition Heartbeat_Handler (srv : WorkerServiceServer) :=
  unary Heartbeat_FullMethodName T_HeartbeatRequest T_HeartbeatResponse srv.(ws_Heartbeat).
Definition PollTask_Handler (srv : WorkerServiceServer) :=
  unary PollTask_FullMethodName T_PollTaskRequest T_PollTaskResponse srv.(ws_PollTask).
Definition ReportTask_Handler (srv : WorkerServiceServer) :=
  unary ReportTask_FullMethodName T_ReportTaskRequest T_ReportTaskResponse srv.(ws_ReportTask).

Definition WorkerService_ServiceDesc (srv : WorkerServiceServer) : ServiceDesc σ :=
  mkServiceDesc "distsched.v1.WorkerService"
    [mkMethodDesc "RegisterWorker" _ (RegisterWorker_Handler srv);
     mkMethodDesc "Heartbeat" _ (Heartbeat_Handler srv);
     mkMethodDesc "PollTask" _ (PollTask_Handler srv);
     mkMethodDesc "ReportTask" _ (ReportTask_Handler srv)].

End stubs.
Arguments WorkerServiceServer : clear implicits.
End WorkerService.

(** ** SchedulerService (scheduler_grpc.pb.go) *)

Module SchedulerService.

Definition RequestVote_FullMethodName : string := "/distsched.v1.SchedulerService/RequestVote".
Definition Replicate_FullMethodName : string := "/distsched.v1.SchedulerService/Replicate".
Definition GetClusterStatus_FullMethodName : string := "/distsched.v1.SchedulerService/GetClusterStatus".

Section stubs.
Context {σ : Type}.

Record SchedulerServiceServer := mkSchedulerServiceServer {
  ss_RequestVote : RequestVoteRequest → M σ (RequestVoteResponse + Status);
  ss_Replicate : ReplicateRequest → M σ (ReplicateResponse + Status);
  ss_GetClusterStatus : GetClusterStatusRequest → M σ (GetClusterStatusResponse + Status)
}.

Definition UnimplementedSchedulerServiceServer : SchedulerServiceServer :=
  mkSchedulerServiceServer (λ _, unimplemented "RequestVote") (λ _, unimplemented "Replicate")
    (λ _, unimplemented "GetClusterStatus").

Definition schedulerServiceClient_RequestVote (cc : ClientConn σ) (x : RequestVoteRequest) : M σ (RequestVoteResponse + Status) :=
  cc RequestVote_FullMethodName T_RequestVoteRequest T_RequestVoteResponse x.
Definition schedulerServiceClient_Replicate (cc : ClientConn σ) (x : ReplicateRequest) : M σ (ReplicateResponse + Status) :=
  cc Replicate_FullMethodName T_ReplicateRequest T_ReplicateResponse x.
Definition schedulerServiceClient_GetClusterStatus (cc : ClientConn σ) (x : GetClusterStatusRequest)
    : M σ (GetClusterStatusResponse + Status) :=
  cc GetClusterStatus_FullMethodName T_GetClusterStatusRequest T_GetClusterStatusResponse x.

Definition RequestVote_Handler (srv : SchedulerServiceServer) :=
  unary RequestVote_FullMethodName T_RequestVoteRequest T_RequestVoteResponse srv.(ss_RequestVote).
Definition Replicate_Handler (srv : SchedulerServiceServer) :=
  unary Replicate_FullMethodName T_ReplicateRequest T_ReplicateResponse srv.(ss_Replicate).
Definition GetClusterStatus_Handler (srv : SchedulerServiceServer) :=
  unary GetClusterStatus_FullMethodName T_GetClusterStatusRequest T_GetClusterStatusResponse srv.(ss_GetClusterStatus).

Definition SchedulerService_ServiceDesc (srv : SchedulerServiceServer) : ServiceDesc σ :=
  mkServiceDesc "distsched.v1.SchedulerService"
    [mkMethodDesc "RequestVote" _ (RequestVote_Handler srv);
     mkMethodDesc "Replicate" _ (Replicate_Handler srv);
     mkMethodDesc "GetClusterStatus" _ (GetClusterStatus_Handler srv)].

End stubs.
Arguments SchedulerServiceServer : clear implicits.
End SchedulerService.

Import JobService WorkerService SchedulerService.

(** The contents of an answer, put into a message or taken out of one. *)
Definition convert {σ A B} (f : A → B) (m : M σ (A + Status)) : M σ (B + Status) :=
  r ← m; mret (match r : A + Status with inl a => inl (f a) | inr e => inr e end).

(** ** The scheduler as a server *)

Section server.
Context {St : Type} {Gstore : JobStore St} {Genv : Env} {Gcron : Cron}.

Definition Server_JobService : JobServiceServer (Server St) :=
  mkJobServiceServer
    (λ x, convert mkSubmitJobResponse (SubmitJob x.(SubmitJobRequest_Job)))
    (λ x, convert (λ j, mkGetJobResponse (Some j)) (Server_GetJob x.(GetJobRequest_JobId)))
    (λ x, convert (λ js, mkListJobsResponse js "")
       (Server_ListJobs x.(ListJobsRequest_StateFilter) x.(ListJobsRequest_PageSize)))
    (λ x, convert (λ j, mkCancelJobResponse (Some j)) (CancelJob x.(CancelJobRequest_JobId))).

Definition Server_WorkerService : WorkerServiceServer (Server St) :=
  mkWorkerServiceServer
    (λ x, convert (λ r, mkRegisterWorkerResponse r.1 r.2) (RegisterWorker x.(RegisterWorkerRequest_Worker)))
    (λ x, convert (λ r, mkHeartbeatResponse r.1 r.2)
       (Heartbeat x.(HeartbeatRequest_WorkerId) x.(HeartbeatRequest_RunningTaskIds)))
    (λ x, convert mkPollTaskResponse (PollTask x.(PollTaskRequest_WorkerId) x.(PollTaskRequest_MaxTasks)))
    (λ x, convert mkReportTaskResponse
       (ReportTask x.(ReportTaskRequest_TaskId) x.(ReportTaskRequest_Result) x.(ReportTaskRequest_Error))).

Definition Server_SchedulerService : SchedulerServiceServer (Server St) :=
  mkSchedulerServiceServer
    (λ x, r ← RequestVote x.(RequestVoteRequest_Term) x.(RequestVoteRequest_CandidateId);
       mret (inl (mkRequestVoteResponse r.1 r.2)))
    (λ x, r ← Replicate x.(ReplicateRequest_Term) x.(ReplicateRequest_LeaderId) x.(ReplicateRequest_Entries);
       mret (inl (mkReplicateResponse r.1.1 r.1.2 r.2)))
    (λ _, GetClusterStatus).

(** What [New] registers with its [grpc.Server], which has no interceptor. *)
Definition registered : list (ServiceDesc (Server St)) :=
  [JobService_ServiceDesc Server_JobService; WorkerService_ServiceDesc Server_WorkerService;
   SchedulerService_ServiceDesc Server_SchedulerService].

(** ** The gRPC library *)

(** A connection to an address.  The library encodes the request, finds at the
    address the service and the method that the full name spells, has the
    method's handler decode the request, and gives the client the handler's
    answer; nothing answers where no scheduler runs. *)
Class Grpc := {
  grpc_NewClient : string → ClientConn (Nodes (St := St));
  grpc_routes addr d m tin (x : msg tin) : d ∈ registered → m ∈ d.(Methods) →
    ∃ dec : Decoder, dec tin = inl x ∧
      ∀ c, grpc_NewClient addr (full_name d.(ServiceName) m.(MethodName)) tin m.(md_out) x c =
        call addr (m.(Handler) dec None) c
}.

Context {Ggrpc : Grpc}.

(** ** The callers of the stubs *)

(** A nil job, as the generated getters read it. *)
Definition no_job : Job := mkJob "" "" 0 None [] None None JOB_STATE_UNSPECIFIED 0 "" "" None None None None None.

(** The calls of the client library (ctl.go). *)
Definition stub_GetClusterStatus (addr : string) : M (Nodes (St := St)) (GetClusterStatusResponse + Status) :=
  schedulerServiceClient_GetClusterStatus (grpc_NewClient addr) mkGetClusterStatusRequest.
Definition stub_SubmitJob (addr : string) (j : Job) : M (Nodes (St := St)) (string + Status) :=
  convert SubmitJobResponse_JobId (jobServiceClient_SubmitJob (grpc_NewClient addr) (mkSubmitJobRequest (Some j))).
Definition stub_GetJob (addr id : string) : M (Nodes (St := St)) (Job + Status) :=
  convert (λ r, default no_job r.(GetJobResponse_Job)) (jobServiceClient_GetJob (grpc_NewClient addr) (mkGetJobRequest id)).
Definition stub_ListJobs (addr : string) (st : JobState) : M (Nodes (St := St)) (list Job + Status) :=
  convert ListJobsResponse_Jobs (jobServiceClient_ListJobs (grpc_NewClient addr) (mkListJobsRequest st 0 "")).
Definition stub_CancelJob (addr id : string) : M (Nodes (St := St)) (Job + Status) :=
  convert (λ r, default no_job r.(CancelJobResponse_Job)) (jobServiceClient_CancelJob (grpc_NewClient addr) (mkCancelJobRequest id)).

Definition stub_net : Net (Nodes (St := St)) := {|
  net_Dial _ := mret None;
  net_GetClusterStatus := stub_GetClusterStatus;
  net_SubmitJob := stub_SubmitJob;
  net_GetJob := stub_GetJob;
  net_ListJobs := stub_ListJobs;
  net_CancelJob := stub_CancelJob;
  net_Now := λ c, (env_now c.(cl_tick), mkNodes c.(cl_nodes) (S c.(cl_tick)))
|}.

(** The calls of the peer transport (cluster.go). *)
Definition stub_RequestVote (addr : string) (t : Z) (cand : string) : M (Nodes (St := St)) ((bool * Z) + Status) :=
  convert (λ r, (r.(RequestVoteResponse_VoteGranted), r.(RequestVoteResponse_Term)))
    (schedulerServiceClient_RequestVote (grpc_NewClient addr) (mkRequestVoteRequest cand t)).
Definition stub_Replicate (addr : string) (t : Z) (l : string) (es : list ReplicationEntry)
    : M (Nodes (St := St)) ((bool * Z * Z) + Status) :=
  convert (λ r, (r.(ReplicateResponse_Ok), r.(ReplicateResponse_CurrentTerm), r.(ReplicateResponse_AppliedThrough)))
    (schedulerServiceClient_Replicate (grpc_NewClient addr) (mkReplicateRequest l t es)).

Definition stub_peer_net : PeerNet (Nodes (St := St)) := {|
  peer_Dial _ := mret None;
  peer_RequestVote := stub_RequestVote;
  peer_Replicate := stub_Replicate
|}.

(** The calls of the agent (agent.go). *)
Definition stub_RegisterWorker (addr : string) (w : WorkerInfo) : M (Nodes (St := St)) ((string * string) + Status) :=
  convert (λ r, (r.(RegisterWorkerResponse_WorkerId), r.(RegisterWorkerResponse_LeaderAddress)))
    (workerServiceClient_RegisterWorker (grpc_NewClient addr) (mkRegisterWorkerRequest (Some w))).
Definition stub_Heartbeat (addr id : string) (running : list string) : M (Nodes (St := St)) ((bool * string) + Status) :=
  convert (λ r, (r.(HeartbeatResponse_Ok), r.(HeartbeatResponse_LeaderAddress)))
    (workerServiceClient_Heartbeat (grpc_NewClient addr) (mkHeartbeatRequest id running)).
Definition stub_PollTask (addr id : string) (n : Z) : M (Nodes (St := St)) (list TaskAssignment + Status) :=
  convert PollTaskResponse_Tasks (workerServiceClient_PollTask (grpc_NewClient addr) (mkPollTaskRequest id n)).
Definition stub_ReportTask (addr id task : string) (r : TaskResult) (output msg : string) : M (Nodes (St := St)) (bool + Status) :=
  convert ReportTaskResponse_Ack
    (workerServiceClient_ReportTask (grpc_NewClient addr) (mkReportTaskRequest id task r output msg)).

(** ** A stub reaches its handler *)

Lemma call_convert {A B C} (f : A → B) (g : B → C) addr (m : M (Server St) (A + Status)) c :
  convert g (call addr (convert f m)) c = call addr (convert (λ a, g (f a)) m) c.
Proof.
  unfold convert, call. cbv [mbind M_bind mret M_ret]. destruct (cl_nodes c !! addr) as [s|]; [|done].
  by destruct (m s) as [[a|e] s'].
Qed.

Lemma call_ext {A} addr (m m' : M (Server St) (A + Status)) c : (∀ s, m s = m' s) → call addr m c = call addr m' c.
Proof. intros H. unfold call. destruct (cl_nodes c !! addr) as [s|]; [by rewrite H|done]. Qed.

(** What a message carries comes out of it as it went in. *)
Lemma call_roundtrip {A B} (f : A → B) (g : B → A) addr (m : M (Server St) (A + Status)) c :
  (∀ a, g (f a) = a) → convert g (call addr (convert f m)) c = call addr m c.
Proof.
  intros Hgf. rewrite call_convert. apply call_ext. intros s. unfold convert. cbv [mbind M_bind mret M_ret].
  destruct (m s) as [[a|e] s']; simpl; [by rewrite Hgf|done].
Qed.

Lemma stub_reaches full d m tin (x : msg tin) f addr c :
  d ∈ registered → m ∈ d.(Methods) → full = full_name d.(ServiceName) m.(MethodName) →
  m.(Handler) = unary full tin m.(md_out) f →
  grpc_NewClient addr full tin m.(md_out) x c = call addr (f x) c.
Proof.
  intros Hd Hm Hf Hh. destruct (grpc_routes addr d m tin x Hd Hm) as (dec & Hdec & Hc).
  rewrite <- Hf in Hc. rewrite Hc, Hh. unfold unary. by rewrite Hdec.
Qed.

(** ... with the conversions of the caller and of the server around it. *)
Lemma stub_answers {A} full d m tin (x : msg tin) f (h : A → msg m.(md_out)) (g : msg m.(md_out) → A) body addr c :
  d ∈ registered → m ∈ d.(Methods) → full = full_name d.(ServiceName) m.(MethodName) →
  m.(Handler) = unary full tin m.(md_out) f → (∀ s, f x s = convert h body s) → (∀ a, g (h a) = a) →
  convert g (grpc_NewClient addr full tin m.(md_out) x) c = call addr body c.
Proof.
  intros Hd Hm Hf Hh Hb Hgh. rewrite <- (call_roundtrip h g) by done.
  pose proof (stub_reaches full d m tin x f addr c Hd Hm Hf Hh) as He. rewrite (call_ext addr _ _ c Hb) in He.
  unfold convert at 1 2. cbv [mbind M_bind]. by rewrite He.
Qed.

Ltac listed := first [by left|right; listed].

(** The method [m] of the service [d], and what it answers with. *)
Ltac answer d m h := eapply (stub_answers _ d m _ _ _ h);
  [listed|listed|reflexivity|reflexivity|intros ?; try reflexivity|try done].

(** C14. The generated stubs connect callers to handlers: over a gRPC library
    that delivers every call and serves it by the handler registered under the
    method's full name, every call that the client library, the peer transport
    and the worker agent make through a client stub runs the scheduler's method
    of the same name on the same arguments at the address that was dialled, and
    hands back its answer; where no scheduler runs, it fails as unavailable. *)
Theorem stubs_reach_handlers addr c :
  (∀ j, net_SubmitJob (Net := stub_net) addr j c = net_SubmitJob addr j c) ∧
  (∀ id, net_GetJob (Net := stub_net) addr id c = net_GetJob addr id c) ∧
  (∀ st, net_ListJobs (Net := stub_net) addr st c = net_ListJobs addr st c) ∧
  (∀ id, net_CancelJob (Net := stub_net) addr id c = net_CancelJob addr id c) ∧
  (net_GetClusterStatus (Net := stub_net) addr c = net_GetClusterStatus addr c) ∧
  (∀ t cand, peer_RequestVote (PeerNet := stub_peer_net) addr t cand c = peer_RequestVote addr t cand c) ∧
  (∀ t l es, peer_Replicate (PeerNet := stub_peer_net) addr t l es c = peer_Replicate addr t l es c) ∧
  (∀ w, stub_RegisterWorker addr w c = call addr (RegisterWorker (Some w)) c) ∧
  (∀ id running, stub_Heartbeat addr id running c = call addr (Heartbeat id running) c) ∧
  (∀ id n, stub_PollTask addr id n c = call addr (PollTask id n) c) ∧
  (∀ id task r output msg, stub_ReportTask addr id task r output msg c = call addr (ReportTask task r msg) c).
Proof.
  set (js := JobService_ServiceDesc Server_JobService). set (ws := WorkerService_ServiceDesc Server_WorkerService).
  set (ss := SchedulerService_ServiceDesc Server_SchedulerService). split_and!; intros.
  - answer js (mkMethodDesc "SubmitJob" T_SubmitJobResponse (SubmitJob_Handler Server_JobService)) mkSubmitJobResponse.
  - answer js (mkMethodDesc "GetJob" T_GetJobResponse (GetJob_Handler Server_JobService)) (λ j, mkGetJobResponse (Some j)).
  - answer js (mkMethodDesc "ListJobs" T_ListJobsResponse (ListJobs_Handler Server_JobService)) (λ l, mkListJobsResponse l "").
  - answer js (mkMethodDesc "CancelJob" T_CancelJobResponse (CancelJob_Handler Server_JobService)) (λ j, mkCancelJobResponse (Some j)).
  - exact (stub_reaches _ ss (mkMethodDesc "GetClusterStatus" T_GetClusterStatusResponse (GetClusterStatus_Handler Server_SchedulerService))
      T_GetClusterStatusRequest mkGetClusterStatusRequest (λ _, GetClusterStatus) addr c ltac:(listed) ltac:(listed) eq_refl eq_refl).
  - answer ss (mkMethodDesc "RequestVote" T_RequestVoteResponse (RequestVote_Handler Server_SchedulerService))
      (λ r, mkRequestVoteResponse r.1 r.2). by intros [].
  - answer ss (mkMethodDesc "Replicate" T_ReplicateResponse (Replicate_Handler Server_SchedulerService))
      (λ r, mkReplicateResponse r.1.1 r.1.2 r.2). by intros [[] ?].
  - answer ws (mkMethodDesc "RegisterWorker" T_RegisterWorkerResponse (RegisterWorker_Handler Server_WorkerService))
      (λ r, mkRegisterWorkerResponse r.1 r.2). by intros [].
  - answer ws (mkMethodDesc "Heartbeat" T_HeartbeatResponse (Heartbeat_Handler Server_WorkerService))
      (λ r, mkHeartbeatResponse r.1 r.2). by intros [].
  - answer ws (mkMethodDesc "PollTask" T_PollTaskResponse (PollTask_Handler Server_WorkerService)) mkPollTaskResponse.
  - answer ws (mkMethodDesc "ReportTask" T_ReportTaskResponse (ReportTask_Handler Server_WorkerService)) mkReportTaskResponse.
Qed.

End server.

(** ** A library that keeps to the rule

    It looks the full name up in the registered services and passes the request
    on undecoded. *)

Section local.
Context {St : Type} {Gstore : JobStore St} {Genv : Env} {Gcron : Cron}.

Definition local_dec {tin} (x : msg tin) : Decoder := λ t,
  match decide (tin = t) with
  | left e => inl (eq_rect tin msg x t e)
  | right _ => inr (mkStatus Internal "failed to unmarshal the received message")
  end.

Definition find_method (full : string) : option (MethodDesc (Server St)) :=
  snd <$> List.find (λ p, String.eqb p.1 full)
    (registered ≫= λ d, (λ m, (full_name d.(ServiceName) m.(MethodName), m)) <$> d.(Methods)).

Definition local_conn (addr : string) : ClientConn (Nodes (St := St)) := λ full tin tout x,
  match find_method full with
  | None => mret (inr (mkStatus (OtherCode 12) "unknown method"))
  | Some m =>
      match decide (m.(md_out) = tout) with
      | left e => eq_rect m.(md_out) (λ t, M (Nodes (St := St)) (msg t + Status)) (call addr (m.(Handler) (local_dec x) None)) tout e
      | right _ => mret (inr (mkStatus Internal "failed to unmarshal the received message"))
      end
  end.

Lemma local_dec_same tin (x : msg tin) : local_dec x tin = inl x.
Proof. unfold local_dec. destruct (decide (tin = tin)) as [e|]; [|done]. by rewrite (proof_irrel e eq_refl). Qed.

Lemma find_registered d m : d ∈ registered → m ∈ d.(Methods) → find_method (full_name d.(ServiceName) m.(MethodName)) = Some m.
Proof.
  intros Hd. unfold registered in Hd. rewrite !elem_of_cons, elem_of_nil in Hd.
  destruct Hd as [-> |[-> |[-> |[]]]]; intros Hm; simpl in Hm; rewrite !elem_of_cons, elem_of_nil in Hm;
    repeat destruct Hm as [->|Hm]; try done; reflexivity.
Qed.

#[local] Instance local_grpc : Grpc (St := St).
Proof.
  refine {| grpc_NewClient := local_conn |}. intros addr d m tin x Hd Hm. exists (local_dec x).
  split; [apply local_dec_same|]. intros c. unfold local_conn. rewrite (find_registered d m Hd Hm).
  destruct (decide (md_out m = md_out m)) as [e|]; [|done]. by rewrite (proof_irrel e eq_refl).
Defined.

End local.

Section samples.
#[local] Existing Instance sample_env.
#[local] Existing Instance sample_cron.
#[local] Existing Instance local_grpc.

(** A scheduler at "h1:7070" that stores job "d", and nothing at "h2:7070". *)
Definition sample_nodes : Nodes := mkNodes {["h1:7070" := sample_run sample_ready]} 0.

Lemma stubs_reach_handlers_witness :
  eval (net_GetJob (Net := stub_net) "h1:7070" "d") sample_nodes = inl (job_at "d" (sample_run sample_ready)) ∧
  eval (net_GetJob (Net := stub_net) "h2:7070" "d") sample_nodes = inr (mkStatus Unavailable "connection refused").
Proof.
  pose proof (proj1 (proj2 (stubs_reach_handlers "h1:7070" sample_nodes)) "d") as H1.
  pose proof (proj1 (proj2 (stubs_reach_handlers "h2:7070" sample_nodes)) "d") as H2.
  unfold eval. rewrite H1, H2. split; vm_compute; reflexivity.
Defined.

End samples.
