(* ===== verification/Flags.v ===== *)
(** * Command-line flags (Go's package flag)

    The commands read their options with [flag.FlagSet]s that exit on error.  A
    set of flags fills a record [O] of options; [Parse] gives the options and the
    remaining arguments, or the code the process exits with: 2 for an argument
    that cannot be parsed and 0 for a request for help.  The messages and usage
    texts of the package are left out. *)

From S2P Require Import Prelude Types Retry GoStrings.

Section flags.
Context {O : Type}.

(** [flag_set] is the [Set] method of the flag's value, [None] if it fails. *)
Record Flag := mkFlag {
  flag_name : string;
  flag_isBool : bool;
  flag_set : string → O → option O
}.

Definition StringVar (name : string) (set : string → O → O) : Flag :=
  mkFlag name false (λ v o, Some (set v o)).
Definition IntVar (name : string) (set : Z → O → O) : Flag :=
  mkFlag name false (λ v o, match ParseInt v with inl n => Some (set n o) | inr _ => None end).
Definition DurationVar (name : string) (set : Z → O → O) : Flag :=
  mkFlag name false (λ v o, match ParseDuration v with Some d => Some (set d o) | None => None end).
Definition BoolVar (name : string) (set : bool → O → O) : Flag :=
  mkFlag name true (λ v o, match ParseBool v with Some b => Some (set b o) | None => None end).

(** How [parseOne] reads an argument. *)
Inductive argument :=
| Positional
| Terminator
| BadSyntax
| Named (name : string) (value : option string).

Definition read_argument (s : string) : argument :=
  match s with
  | String c (String d rest as s1) =>
      if negb (Ascii.eqb c (byte 45)) then Positional
      else if Ascii.eqb d (byte 45) && String.eqb rest "" then Terminator
      else
        match (if Ascii.eqb d (byte 45) then rest else s1) with
        | EmptyString => BadSyntax
        | String e _ as name =>
            if Ascii.eqb e (byte 45) || Ascii.eqb e (byte 61) then BadSyntax
            else match Cut name (byte 61) with
                 | Some (name, value) => Named name (Some value)
                 | None => Named name None
                 end
        end
  | _ => Positional
  end.

Inductive parsed := Parsed (opts : O) (args : list string) | Exits (code : Z).

Definition lookup_flag (fs : list Flag) (name : string) : option Flag :=
  List.find (λ f, String.eqb f.(flag_name) name) fs.

Fixpoint Parse (fs : list Flag) (args : list string) (o : O) : parsed :=
  match args with
  | [] => Parsed o []
  | s :: rest =>
      match read_argument s with
      | Positional => Parsed o args
      | Terminator => Parsed o rest
      | BadSyntax => Exits 2
      | Named name value =>
          match lookup_flag fs name with
          | None => if String.eqb name "help" || String.eqb name "h" then Exits 0 else Exits 2
          | Some f =>
              if f.(flag_isBool) then
                match f.(flag_set) (default "true" value) o with
                | Some o => Parse fs rest o
                | None => Exits 2
                end
              else
                match value, rest with
                | Some v, _ =>
                    match f.(flag_set) v o with Some o => Parse fs rest o | None => Exits 2 end
                | None, v :: rest =>
                    match f.(flag_set) v o with Some o => Parse fs rest o | None => Exits 2 end
                | None, [] => Exits 2
                end
          end
      end
  end.

(** A flag given as [-name=value]. *)
Definition flag_arg (name value : string) : string := (String (byte 45) name +:+ String (byte 61) value)%string.

Definition flag_name_ok (name : string) : bool :=
  match name with EmptyString => false | String c _ => negb (Ascii.eqb c (byte 45)) && lacks (byte 61) name end.

Lemma read_flag_arg name value :
  flag_name_ok name = true → read_argument (flag_arg name value) = Named name (Some value).
Proof.
  destruct name as [|c name]; [done|]. intros [Hc Hl]%andb_true_iff.
  change (read_argument (String (byte 45) (String c (name +:+ String (byte 61) value))) = Named (String c name) (Some value))%string.
  assert (Cut (String c name +:+ String (byte 61) value)%string (byte 61) = Some (String c name, value)) as Hcut by by apply Cut_spec.
  unfold read_argument. rewrite Ascii.eqb_refl. simpl negb. apply negb_true_iff in Hc. rewrite Hc. simpl andb.
  assert (Ascii.eqb c (byte 61) = false) as H61 by (simpl in Hl; by destruct (Ascii.eqb c (byte 61))).
  rewrite H61. simpl orb. change (String c (name +:+ String (byte 61) value))%string with (String c name +:+ String (byte 61) value)%string.
  by rewrite Hcut, Hc.
Qed.

(** Parsing such an argument sets its flag and goes on. *)
Lemma Parse_flag_arg fs f name value rest o o' :
  flag_name_ok name = true → lookup_flag fs name = Some f → f.(flag_set) value o = Some o' →
  Parse fs (flag_arg name value :: rest) o = Parse fs rest o'.
Proof.
  intros Hn Hf Hs. cbn [Parse]. rewrite (read_flag_arg name value Hn), Hf. destruct (flag_isBool f); simpl; by rewrite Hs.
Qed.

End flags.

Arguments Flag : clear implicits.
Arguments parsed : clear implicits.
