(* ===== verification/Cmd.v ===== *)
(** * The commands (cmd/schedulerctl, cmd/scheduler, cmd/worker)

    The command-line programs up to what the operating system does for them.
    Text written through a [tabwriter] is kept as the rows handed to it: their
    alignment is left out. *)

From S2P Require Import Prelude Types Queue Retry Env Cluster Store MemStore Server Cycle Deps Lifecycle.
From S2P Require Import Dispatch Jobs Workers Replication Leadership Handlers Refinement Rebuild System Leases Ready Cascade.
From S2P Require Import Election ReplLog Convergence Tracking Agent GoStrings Flags Ctl.
From stdpp Require Import pretty.

(** Version metadata set by the linker (internal/buildinfo). *)
Class BuildInfo := { Version : string; Commit : string }.

(** What a program writes: to its standard output, as rows of a table there, or
    its usage or an error to its standard error. *)
Inductive output :=
| Out (text : string)
| Row (text : string)
| Usage
| Failure (e : GoError).

Definition newline : string := bytes [10].
Definition tab : string := bytes [9].

(** Cells of a row. *)
Definition cells (l : list string) : output := Row (String.concat tab l).

(** ** schedulerctl: names of states *)

Definition parseState (s : string) : JobState :=
  let t := ToLower (TrimSpace s) in
  if String.eqb t "pending" then JOB_STATE_PENDING
  else if String.eqb t "queued" then JOB_STATE_QUEUED
  else if String.eqb t "running" then JOB_STATE_RUNNING
  else if String.eqb t "succeeded" then JOB_STATE_SUCCEEDED
  else if String.eqb t "failed" then JOB_STATE_FAILED
  else if String.eqb t "canceled" then JOB_STATE_CANCELED
  else JOB_STATE_UNSPECIFIED.

Definition shortState (s : JobState) : string := TrimPrefix (JobState_String s) "JOB_STATE_".

Definition SchedulerRole_String (r : SchedulerRole) : string :=
  match r with
  | SCHEDULER_ROLE_UNSPECIFIED => "SCHEDULER_ROLE_UNSPECIFIED"
  | SCHEDULER_ROLE_FOLLOWER => "SCHEDULER_ROLE_FOLLOWER"
  | SCHEDULER_ROLE_LEADER => "SCHEDULER_ROLE_LEADER"
  | SCHEDULER_ROLE_UNRECOGNIZED n => pretty n
  end.

Definition WorkerState_String (s : WorkerState) : string :=
  match s with
  | WORKER_STATE_UNSPECIFIED => "WORKER_STATE_UNSPECIFIED"
  | WORKER_STATE_ALIVE => "WORKER_STATE_ALIVE"
  | WORKER_STATE_SUSPECT => "WORKER_STATE_SUSPECT"
  | WORKER_STATE_DEAD => "WORKER_STATE_DEAD"
  | WORKER_STATE_UNRECOGNIZED n => pretty n
  end.

Definition shortRole (r : SchedulerRole) : string := TrimPrefix (SchedulerRole_String r) "SCHEDULER_ROLE_".
Definition shortWorkerState (s : WorkerState) : string := TrimPrefix (WorkerState_String s) "WORKER_STATE_".

(** ** schedulerctl: flags of submit and list *)

Record submit_opts := mkSubmitOpts {
  so_id : string;
  so_name : string;
  so_command : string;
  so_args : list string;
  so_priority : Z;
  so_dependsOn : string;
  so_cron : string;
  so_after : Z;
  so_maxAttempts : Z
}.

Definition submit_defaults : submit_opts := mkSubmitOpts "" "" "" [] 0 "" "" 0 0.

(** [arg] is repeatable: its values collect in a [stringSlice]. *)
Definition submit_flags : list (Flag submit_opts) := [
  StringVar "id" (λ v o, mkSubmitOpts v o.(so_name) o.(so_command) o.(so_args) o.(so_priority) o.(so_dependsOn) o.(so_cron) o.(so_after) o.(so_maxAttempts));
  StringVar "name" (λ v o, mkSubmitOpts o.(so_id) v o.(so_command) o.(so_args) o.(so_priority) o.(so_dependsOn) o.(so_cron) o.(so_after) o.(so_maxAttempts));
  StringVar "command" (λ v o, mkSubmitOpts o.(so_id) o.(so_name) v o.(so_args) o.(so_priority) o.(so_dependsOn) o.(so_cron) o.(so_after) o.(so_maxAttempts));
  StringVar "arg" (λ v o, mkSubmitOpts o.(so_id) o.(so_name) o.(so_command) (o.(so_args) ++ [v]) o.(so_priority) o.(so_dependsOn) o.(so_cron) o.(so_after) o.(so_maxAttempts));
  IntVar "priority" (λ v o, mkSubmitOpts o.(so_id) o.(so_name) o.(so_command) o.(so_args) v o.(so_dependsOn) o.(so_cron) o.(so_after) o.(so_maxAttempts));
  StringVar "depends-on" (λ v o, mkSubmitOpts o.(so_id) o.(so_name) o.(so_command) o.(so_args) o.(so_priority) v o.(so_cron) o.(so_after) o.(so_maxAttempts));
  StringVar "cron" (λ v o, mkSubmitOpts o.(so_id) o.(so_name) o.(so_command) o.(so_args) o.(so_priority) o.(so_dependsOn) v o.(so_after) o.(so_maxAttempts));
  DurationVar "after" (λ v o, mkSubmitOpts o.(so_id) o.(so_name) o.(so_command) o.(so_args) o.(so_priority) o.(so_dependsOn) o.(so_cron) v o.(so_maxAttempts));
  IntVar "max-attempts" (λ v o, mkSubmitOpts o.(so_id) o.(so_name) o.(so_command) o.(so_args) o.(so_priority) o.(so_dependsOn) o.(so_cron) o.(so_after) v)
].

Definition submit_params (o : submit_opts) : SubmitParams :=
  mkSubmitParams o.(so_id) o.(so_name) o.(so_command) o.(so_args) (int32 o.(so_priority))
    (split_trimmed o.(so_dependsOn)) o.(so_cron) o.(so_after) (int32 o.(so_maxAttempts)).

(** ** schedulerctl: the commands *)

Section schedulerctl.
Context {σ : Type} {Gnet : Net σ} {Gbuild : BuildInfo}.

(** How a command ends: with its output and its error, or by leaving the
    process while reading its flags. *)
Inductive result := Returns (out : list output) (err : option GoError) | Leaves (code : Z).

Definition fails (e : GoError) : result := Returns [] (Some e).

Definition cmdSubmit (seeds argv : list string) : M σ result :=
  match Parse submit_flags argv submit_defaults with
  | Exits code => mret (Leaves code)
  | Parsed o _ =>
      if String.eqb o.(so_command) "" then mret (fails (TextError "--command is required"))
      else
        r ← Client_Submit seeds (submit_params o);
        match r : string + GoError with
        | inr e => mret (fails e)
        | inl jobID => mret (Returns [Out (jobID +:+ newline)] None)
        end
  end.

Definition field (label value : string) : output := Out (label +:+ value +:+ newline)%string.

Definition printJobDetail (j : Job) : list output :=
  [field "id:        " j.(Job_Id); field "name:      " j.(Job_Name); field "state:     " (shortState j.(Job_State));
   field "priority:  " (pretty j.(Job_Priority)); field "attempt:   " (pretty j.(Job_Attempt));
   field "command:   " (TaskSpec_GetCommand j.(Job_Spec) +:+ " " +:+
     String.concat " " (match j.(Job_Spec) with Some s => s.(TaskSpec_Args) | None => [] end))] ++
  (match j.(Job_DependsOn) with [] => [] | deps => [field "dependsOn: " (String.concat ", " deps)] end) ++
  (let cron := Schedule_GetCronExpr j.(Job_Schedule) in if String.eqb cron "" then [] else [field "cron:      " cron]) ++
  (if String.eqb j.(Job_LastError) "" then [] else [field "lastError: " j.(Job_LastError)]).

Definition cmdGet (seeds argv : list string) : M σ result :=
  match argv with
  | [id] =>
      r ← Client_Get seeds id;
      mret (match r : Job + GoError with inr e => fails e | inl job => Returns (printJobDetail job) None end)
  | _ => mret (fails (TextError "usage: get <job-id>"))
  end.

Definition list_row (j : Job) : output :=
  cells [j.(Job_Id); j.(Job_Name); pretty j.(Job_Priority); shortState j.(Job_State); pretty j.(Job_Attempt);
    pretty (Z.of_nat (length j.(Job_DependsOn)))].

Definition cmdList (seeds argv : list string) : M σ result :=
  match Parse [StringVar "state" (λ v _, v)] argv "" with
  | Exits code => mret (Leaves code)
  | Parsed state _ =>
      r ← Client_List seeds (parseState state);
      match r : list Job + GoError with
      | inr e => mret (fails e)
      | inl jobs =>
          mret (Returns (cells ["ID"; "NAME"; "PRIORITY"; "STATE"; "ATTEMPT"; "DEPS"] :: (list_row <$> jobs)) None)
      end
  end.

Definition cmdCancel (seeds argv : list string) : M σ result :=
  match argv with
  | [id] =>
      r ← Client_Cancel seeds id;
      mret (match r : Job + GoError with
            | inr e => fails e
            | inl job => Returns [Out (job.(Job_Id) +:+ " -> " +:+ shortState job.(Job_State) +:+ newline)] None
            end)
  | _ => mret (fails (TextError "usage: cancel <job-id>"))
  end.

Definition LeaseInfo_GetTerm (l : option LeaseInfo) : Z :=
  match l with Some l => l.(LeaseInfo_Term) | None => 0%Z end.

Definition cmdStatus (seeds : list string) : M σ result :=
  r ← Client_Status seeds;
  match r : GetClusterStatusResponse + GoError with
  | inr e => mret (fails e)
  | inl st =>
      let holder := LeaseInfo_GetHolderId st.(Status_Lease) in
      let holder := if String.eqb holder "" then "(none)" else holder in
      mret (Returns
        ([Out ("leader: " +:+ holder +:+ newline +:+ "term:   " +:+ pretty (LeaseInfo_GetTerm st.(Status_Lease)) +:+ newline +:+ newline);
          cells ["SCHEDULER"; "ADDRESS"; "ROLE"]] ++
         ((λ n, cells [n.(SchedulerNode_Id); n.(SchedulerNode_Address); shortRole n.(SchedulerNode_Role)]) <$> st.(Status_Schedulers)) ++
         [Out newline; cells ["WORKER"; "ADDRESS"; "STATE"; "RUNNING"]] ++
         ((λ w, cells [w.(WorkerInfo_Id); w.(WorkerInfo_Address); shortWorkerState w.(WorkerInfo_State);
                       pretty w.(WorkerInfo_RunningTasks)]) <$> st.(Status_Workers))) None)
  end.

(** The process: what it writes and its exit code. *)
Definition exit_of (r : result) : list output * Z :=
  match r with
  | Returns out None => (out, 0%Z)
  | Returns out (Some e) => (out ++ [Failure e], 1%Z)
  | Leaves code => ([], code)
  end.

Definition run_command (seeds : list string) (cmd : string) (argv : list string) : M σ (list output * Z) :=
  if String.eqb cmd "submit" then r ← cmdSubmit seeds argv; mret (exit_of r)
  else if String.eqb cmd "get" then r ← cmdGet seeds argv; mret (exit_of r)
  else if String.eqb cmd "list" then r ← cmdList seeds argv; mret (exit_of r)
  else if String.eqb cmd "cancel" then r ← cmdCancel seeds argv; mret (exit_of r)
  else if String.eqb cmd "status" then r ← cmdStatus seeds; mret (exit_of r)
  else if String.eqb cmd "version"
  then mret ([Out ("schedulerctl " +:+ Version +:+ " (" +:+ Commit +:+ ")" +:+ newline)], 0%Z)
  else mret ([Usage], 2%Z).

Definition schedulerctl_main (argv : list string) : M σ (list output * Z) :=
  match Parse [StringVar "addr" (λ v _, v)] argv "localhost:7070" with
  | Exits code => mret ([], code)
  | Parsed _ [] => mret ([Usage], 2%Z)
  | Parsed addr (cmd :: argv) => run_command (split_trimmed addr) cmd argv
  end.

End schedulerctl.

(** ** logging.New: the level *)

Inductive Level := DebugLevel | InfoLevel | WarnLevel | ErrorLevel.

Definition log_level (level : string) : Level :=
  let l := ToLower level in
  if String.eqb l "debug" then DebugLevel
  else if String.eqb l "warn" then WarnLevel
  else if String.eqb l "error" then ErrorLevel
  else InfoLevel.

(** ** scheduler *)

(** The parts of "id=addr,id=addr". *)
Fixpoint members_loop {Genv : Env} (parts : list string) (acc : list Member) : list Member + string :=
  match parts with
  | [] => inl acc
  | part :: parts =>
      let part := TrimSpace part in
      if String.eqb part "" then members_loop parts acc
      else
        match Cut part (byte 61) with
        | Some (id, addr) =>
            if String.eqb id "" || String.eqb addr ""
            then inr ("invalid member " +:+ env_quote part +:+ " (want id=addr)")%string
            else members_loop parts (acc ++ [mkMember (TrimSpace id) (TrimSpace addr)])
        | None => inr ("invalid member " +:+ env_quote part +:+ " (want id=addr)")%string
        end
  end.

Definition parseMembers {Genv : Env} (s : string) : list Member + string :=
  let s := TrimSpace s in
  if String.eqb s "" then inl [] else members_loop (Split s (byte 44)) [].

Record scheduler_opts := mkSchedulerOpts {
  sch_version : bool;
  sch_nodeID : string;
  sch_listen : string;
  sch_dataDir : string;
  sch_peers : string;
  sch_hbTimeout : Z;
  sch_metricsAddr : string;
  sch_logLevel : string
}.

Definition scheduler_defaults : scheduler_opts :=
  mkSchedulerOpts false "scheduler-1" ":7070" "./data" "" (15 * Second) ":9090" "info".

Definition scheduler_flags : list (Flag scheduler_opts) := [
  BoolVar "version" (λ v o, mkSchedulerOpts v o.(sch_nodeID) o.(sch_listen) o.(sch_dataDir) o.(sch_peers) o.(sch_hbTimeout) o.(sch_metricsAddr) o.(sch_logLevel));
  StringVar "node-id" (λ v o, mkSchedulerOpts o.(sch_version) v o.(sch_listen) o.(sch_dataDir) o.(sch_peers) o.(sch_hbTimeout) o.(sch_metricsAddr) o.(sch_logLevel));
  StringVar "listen" (λ v o, mkSchedulerOpts o.(sch_version) o.(sch_nodeID) v o.(sch_dataDir) o.(sch_peers) o.(sch_hbTimeout) o.(sch_metricsAddr) o.(sch_logLevel));
  StringVar "data-dir" (λ v o, mkSchedulerOpts o.(sch_version) o.(sch_nodeID) o.(sch_listen) v o.(sch_peers) o.(sch_hbTimeout) o.(sch_metricsAddr) o.(sch_logLevel));
  StringVar "peers" (λ v o, mkSchedulerOpts o.(sch_version) o.(sch_nodeID) o.(sch_listen) o.(sch_dataDir) v o.(sch_hbTimeout) o.(sch_metricsAddr) o.(sch_logLevel));
  DurationVar "heartbeat-timeout" (λ v o, mkSchedulerOpts o.(sch_version) o.(sch_nodeID) o.(sch_listen) o.(sch_dataDir) o.(sch_peers) v o.(sch_metricsAddr) o.(sch_logLevel));
  StringVar "metrics-addr" (λ v o, mkSchedulerOpts o.(sch_version) o.(sch_nodeID) o.(sch_listen) o.(sch_dataDir) o.(sch_peers) o.(sch_hbTimeout) v o.(sch_logLevel));
  StringVar "log-level" (λ v o, mkSchedulerOpts o.(sch_version) o.(sch_nodeID) o.(sch_listen) o.(sch_dataDir) o.(sch_peers) o.(sch_hbTimeout) o.(sch_metricsAddr) v)
].

(** The files and sockets of the host: each call succeeds or gives an error;
    [net.Listen] is called for the metrics endpoint first. *)
Class Host (St : Type) := {
  host_MkdirAll : string → option string;
  host_OpenStore : string → St + string;
  host_ListenMetrics : string → option string;
  host_Listen : string → option string
}.

(** What ends the process: a signal, or [Serve] that returns. *)
Inductive stop := Interrupted | Served (err : option string).

Section scheduler.
Context {St : Type} {Gstore : JobStore St} {Genv : Env} {Gcron : Cron} {Ghost : Host St} {Gbuild : BuildInfo}.

(** The error of [startMetricsHTTP]; it goes on to serve [metrics_mux]. *)
Definition startMetricsHTTP (addr : string) : option string :=
  match host_ListenMetrics addr with
  | Some e => Some ("metrics listen " +:+ env_quote addr +:+ ": " +:+ e)%string
  | None => None
  end.

(** [scheduler.New] *)
Definition scheduler_New (cfg : Config) : Server St + string :=
  match host_OpenStore (Config_withDefaults cfg).(Config_DataDir) with
  | inr e => inr e
  | inl st =>
      let s := new_server cfg st 0 in
      match eval recover s with
      | Some e => inr e
      | None =>
          match (if String.eqb cfg.(Config_MetricsAddr) "" then None else startMetricsHTTP cfg.(Config_MetricsAddr)) with
          | Some e => inr e
          | None => inl (exec start_server s)
          end
      end
  end.

Definition scheduler_config (o : scheduler_opts) (members : list Member) : Config :=
  mkConfig o.(sch_nodeID) o.(sch_listen) o.(sch_dataDir) members o.(sch_hbTimeout) 0 0 0 0 0 o.(sch_metricsAddr).

(** The process that is ended by [e]: its output, its exit code and the node it
    leaves behind, if it started one.  [served] is what the goroutines of the
    server make of the node until then; Interleave.v says what that may be. *)
Definition scheduler_main (argv : list string) (served : Server St → Server St) (e : stop)
    : list output * Z * option (Server St) :=
  match Parse scheduler_flags argv scheduler_defaults with
  | Exits code => ([], code, None)
  | Parsed o _ =>
      if o.(sch_version) then ([Out ("scheduler " +:+ Version +:+ " (" +:+ Commit +:+ ")" +:+ newline)], 0%Z, None)
      else
        match parseMembers o.(sch_peers) with
        | inr _ => ([], 1%Z, None)
        | inl members =>
            match host_MkdirAll o.(sch_dataDir) with
            | Some _ => ([], 1%Z, None)
            | None =>
                match scheduler_New (scheduler_config o members) with
                | inr _ => ([], 1%Z, None)
                | inl s =>
                    match host_Listen o.(sch_listen) with
                    | Some _ => ([], 1%Z, Some s)
                    | None =>
                        let s := served s in
                        match e with
                        | Interrupted => ([], 0%Z, Some (exec Shutdown s))
                        | Served None => ([], 0%Z, Some s)
                        | Served (Some _) => ([], 1%Z, Some (exec Shutdown s))
                        end
                    end
                end
            end
        end
  end.

End scheduler.

(** ** worker *)

Record worker_opts := mkWorkerOpts {
  wk_version : bool;
  wk_schedulers : string;
  wk_advertise : string;
  wk_capacity : Z;
  wk_hbInterval : Z;
  wk_pollInterval : Z;
  wk_logLevel : string
}.

Definition worker_defaults : worker_opts := mkWorkerOpts false "localhost:7070" "" 4 (5 * Second) Second "info".

Definition worker_flags : list (Flag worker_opts) := [
  BoolVar "version" (λ v o, mkWorkerOpts v o.(wk_schedulers) o.(wk_advertise) o.(wk_capacity) o.(wk_hbInterval) o.(wk_pollInterval) o.(wk_logLevel));
  StringVar "schedulers" (λ v o, mkWorkerOpts o.(wk_version) v o.(wk_advertise) o.(wk_capacity) o.(wk_hbInterval) o.(wk_pollInterval) o.(wk_logLevel));
  StringVar "advertise" (λ v o, mkWorkerOpts o.(wk_version) o.(wk_schedulers) v o.(wk_capacity) o.(wk_hbInterval) o.(wk_pollInterval) o.(wk_logLevel));
  IntVar "capacity" (λ v o, mkWorkerOpts o.(wk_version) o.(wk_schedulers) o.(wk_advertise) v o.(wk_hbInterval) o.(wk_pollInterval) o.(wk_logLevel));
  DurationVar "heartbeat-interval" (λ v o, mkWorkerOpts o.(wk_version) o.(wk_schedulers) o.(wk_advertise) o.(wk_capacity) v o.(wk_pollInterval) o.(wk_logLevel));
  DurationVar "poll-interval" (λ v o, mkWorkerOpts o.(wk_version) o.(wk_schedulers) o.(wk_advertise) o.(wk_capacity) o.(wk_hbInterval) v o.(wk_logLevel));
  StringVar "log-level" (λ v o, mkWorkerOpts o.(wk_version) o.(wk_schedulers) o.(wk_advertise) o.(wk_capacity) o.(wk_hbInterval) o.(wk_pollInterval) v)
].

Definition worker_config (o : worker_opts) : AgentConfig :=
  mkAgentConfig (split_trimmed o.(wk_schedulers)) o.(wk_advertise) (int32 o.(wk_capacity)) ∅ o.(wk_hbInterval) o.(wk_pollInterval).

Section worker.
Context {Genv : Env} {Grpc : Rpc} {Gos : Os} {Gbuild : BuildInfo}.

(** [Agent.Run]: it ends with an error when its context is canceled after
    [rounds] unsuccessful rounds of [bootstrap]; [time.NewTicker] panics on an
    interval that is not positive; otherwise the agent works until it is
    interrupted, and drains.  [served] is what its goroutines make of it until
    then; AgentThreads.v says what that may be. *)
Inductive run_end := RunError (msg : string) | RunPanics | RunDone.

Definition Agent_Run (rounds : nat) (served : Agent → Agent) : M Agent run_end :=
  ok ← bootstrap rounds;
  if negb (ok : bool) then mret (RunError "context canceled")
  else
    cfg ← gets ag_cfg;
    if (cfg.(Agent_HeartbeatInterval) <=? 0)%Z || (cfg.(Agent_PollInterval) <=? 0)%Z
    then closeConn;; mret RunPanics
    else modify served;; closeConn;; mret RunDone.

Definition worker_main (argv : list string) (rounds : nat) (served : Agent → Agent) : list output * Z * option Agent :=
  match Parse worker_flags argv worker_defaults with
  | Exits code => ([], code, None)
  | Parsed o _ =>
      if o.(wk_version) then ([Out ("worker " +:+ Version +:+ " (" +:+ Commit +:+ ")" +:+ newline)], 0%Z, None)
      else
        let a := Agent_New (worker_config o) in
        let a' := Some (exec (Agent_Run rounds served) a) in
        match eval (Agent_Run rounds served) a with
        | RunError _ => ([], 1%Z, a')
        | RunPanics => ([], 2%Z, a')
        | RunDone => ([], 0%Z, a')
        end
  end.

End worker.

(** ** Cluster membership *)

Section members.
Context {Genv : Env}.

(** Prints a membership the way the flag [--peers] reads it. *)
Definition print_member (m : Member) : string := (m.(Member_ID) +:+ String (byte 61) m.(Member_Address))%string.
Definition print_members (ms : list Member) : string := String.concat (sep1 (byte 44)) (print_member <$> ms).

(** Neither part is empty, starts or ends with white space, or holds a
    separator. *)
Definition plain_member (m : Member) : bool :=
  bool_decide (m.(Member_ID) ≠ "" ∧ m.(Member_Address) ≠ "" ∧
    TrimSpace m.(Member_ID) = m.(Member_ID) ∧ TrimSpace m.(Member_Address) = m.(Member_Address)) &&
  lacks (byte 61) m.(Member_ID) && lacks (byte 44) m.(Member_ID) && lacks (byte 44) m.(Member_Address).

Lemma plain_member_spec m :
  plain_member m = true →
  (m.(Member_ID) ≠ "" ∧ m.(Member_Address) ≠ "" ∧ TrimSpace m.(Member_ID) = m.(Member_ID) ∧
   TrimSpace m.(Member_Address) = m.(Member_Address)) ∧
  lacks (byte 61) m.(Member_ID) = true ∧ lacks (byte 44) (print_member m) = true.
Proof.
  unfold plain_member, print_member. rewrite lacks_append.
  intros [[[H1%bool_decide_eq_true H2]%andb_true_iff H3]%andb_true_iff H4]%andb_true_iff.
  split_and!; [by apply H1..|done|]. apply andb_true_iff. split; [done|]. exact H4.
Qed.

Lemma print_member_clean m : plain_member m = true → left_bare (print_member m) ∧ right_bare (print_member m).
Proof.
  intros [(_ & _ & [Hl _]%TrimSpace_fixed & [_ Hr]%TrimSpace_fixed) _]%plain_member_spec.
  split; [apply left_bare_before|apply right_bare_after]; auto.
Qed.

Lemma members_loop_print ms acc :
  Forall (λ m, plain_member m = true) ms → members_loop (print_member <$> ms) acc = inl (acc ++ ms).
Proof.
  revert acc. induction ms as [|m ms IH]; intros acc Hms; [by rewrite app_nil_r|].
  apply Forall_cons in Hms as [Hm Hms]. rewrite fmap_cons. cbn [members_loop].
  destruct (print_member_clean m Hm) as [Hl Hr]. rewrite (TrimSpace_clean _ Hl Hr).
  apply plain_member_spec in Hm as [(H1 & H2 & H3 & H4) [H5 _]].
  destruct (String.eqb_spec (print_member m) "") as [He|_].
  { unfold print_member in He. by destruct (Member_ID m). }
  assert (Cut (print_member m) (byte 61) = Some (Member_ID m, Member_Address m)) as -> by (by apply Cut_spec).
  destruct (String.eqb_spec (Member_ID m) ""), (String.eqb_spec (Member_Address m) ""); try done. cbn [orb].
  rewrite H3, H4, IH by done. destruct m. by rewrite <- app_assoc.
Qed.

Lemma concat_bare ps :
  ps ≠ [] → Forall (λ p, left_bare p ∧ right_bare p) ps →
  left_bare (String.concat (sep1 (byte 44)) ps) ∧ right_bare (String.concat (sep1 (byte 44)) ps).
Proof.
  induction ps as [|p ps IH]; intros Hne Hps; [done|]. apply Forall_cons in Hps as [[Hl Hr] Hps].
  destruct ps as [|q ps]; [done|]. destruct IH as [IHl IHr]; [done|done|].
  change (String.concat (sep1 (byte 44)) (p :: q :: ps)) with (p +:+ String (byte 44) (String.concat (sep1 (byte 44)) (q :: ps)))%string.
  split; [apply left_bare_before|apply right_bare_after]; auto.
Qed.

Lemma parse_printed ms :
  Forall (λ m, plain_member m = true) ms → parseMembers (print_members ms) = inl ms.
Proof.
  intros Hms. destruct (decide (ms = [])) as [-> |Hne]; [done|].
  assert (print_member <$> ms ≠ []) as Hne' by (by destruct ms). unfold parseMembers, print_members.
  destruct (concat_bare (print_member <$> ms)) as [Hl Hr]; [done| |].
  { apply Forall_fmap. eapply Forall_impl; [exact Hms|]. exact print_member_clean. }
  rewrite (TrimSpace_clean _ Hl Hr), Split_concat; [|done|].
  - rewrite members_loop_print by done. destruct ms as [|m ms]; [done|]. apply Forall_cons in Hms as [Hm _].
    destruct (String.eqb_spec (String.concat (sep1 (byte 44)) (print_member <$> m :: ms)) "") as [He|_]; [|done].
    exfalso. apply plain_member_spec in Hm as [(H1 & _) _]. unfold print_member in He at 1.
    destruct (Member_ID m) eqn:E; [done|]. destruct ms; simpl in He; rewrite E in He; done.
  - apply Forall_fmap. eapply Forall_impl; [exact Hms|]. intros m Hm. simpl. by apply plain_member_spec in Hm as (_ & _ & ?).
Qed.

(** C37. The membership flag round-trips: printing members whose ids and addresses
    are plain as "id=addr,id=addr" and parsing the result gives the members back,
    in order. *)
Theorem parseMembers_roundtrip ms :
  Forall (λ m, plain_member m = true) ms → parseMembers (print_members ms) = inl ms.
Proof. apply parse_printed. Qed.

Lemma members_loop_ok parts acc ms :
  Forall (λ m, m.(Member_ID) ≠ "" ∧ m.(Member_Address) ≠ "") acc → members_loop parts acc = inl ms →
  Forall (λ m, m.(Member_ID) ≠ "" ∧ m.(Member_Address) ≠ "") ms.
Proof.
  revert acc. induction parts as [|part parts IH]; intros acc Hacc; simpl; [by intros [= <-]|].
  destruct (String.eqb_spec (TrimSpace part) "") as [_|_]; [by apply IH|].
  destruct (Cut (TrimSpace part) (byte 61)) as [[id addr]|] eqn:Ec; [|done].
  destruct (String.eqb_spec id "") as [_|Hid]; [done|]. destruct (String.eqb_spec addr "") as [_|Haddr]; [done|].
  cbn [orb]. apply IH. apply Forall_app. split; [done|]. rewrite Forall_singleton. simpl.
  apply Cut_spec in Ec as [He _]. destruct (TrimSpace_bare part) as [Hl Hr]. rewrite He in Hl, Hr. split.
  - apply TrimSpace_left; [done|]. by apply bare_take in Hl.
  - apply TrimSpace_right; [done|]. unfold right_bare in *.
    rewrite rev_around in Hr. by apply bare_take in Hr.
Qed.

(** A membership that parses names every member and gives it an address: no
    id or address of the result is empty, whatever the flag's text. *)
Theorem parseMembers_named s ms :
  parseMembers s = inl ms → Forall (λ m, m.(Member_ID) ≠ "" ∧ m.(Member_Address) ≠ "") ms.
Proof.
  unfold parseMembers. destruct (String.eqb (TrimSpace s) ""); [intros [= <-]; constructor|].
  apply members_loop_ok. constructor.
Qed.

End members.

(** ** What the operator sees *)

Section operator.
Context {St : Type} {Gstore : JobStore St} {Gdur : DurableStore St} {Genv : Env} {Gcron : Cron} {Gbuild : BuildInfo}.
Implicit Types (c : Nodes (St := St)) (s : Server St).

Definition declared (st : JobState) : bool :=
  match st with JOB_STATE_UNSPECIFIED | JOB_STATE_UNRECOGNIZED _ => false | _ => true end.

Lemma parse_state_flag st :
  declared st = true →
  ∃ v, Parse [StringVar "state" (λ v _, v)] [flag_arg "state" (shortState st)] "" = Parsed v [] ∧ parseState v = st.
Proof.
  intros Hs. exists (shortState st). split.
  - by apply (Parse_flag_arg _ (StringVar "state" (λ v _, v)) "state" (shortState st) [] "" (shortState st)).
  - destruct st; try done; vm_compute; reflexivity.
Qed.

Lemma list_call s st :
  healthy s.(sv_store) → st ≠ JOB_STATE_UNSPECIFIED →
  ∃ jobs, eval (Server_ListJobs st 0) s = inl jobs ∧
    ∀ j, j ∈ jobs ↔ (∃ id, jobs_of s !! id = Some j) ∧ j.(Job_State) = st.
Proof.
  intros Hh Hst. unfold Server_ListJobs. mrun. destruct (ListJobs_succeeds _ Hh) as [all Hall]. rewrite Hall.
  eexists. split; [done|]. intros j. cbn [Z.ltb Z.compare andb].
  pose proof (ListJobs_lists (sv_store s)) as Hl. rewrite Hall in Hl. destruct Hl as [Hp _].
  rewrite list_elem_of_filter, Hp, list_elem_of_fmap. split.
  - intros ([?|Hj] & ([id j0] & -> & Hm%elem_of_map_to_list)); [done|]. eauto.
  - intros ((id & Hj) & Hs). split; [by right|]. exists (id, j). split; [done|]. by apply elem_of_map_to_list.
Qed.

(** C28. [schedulerctl list --state] shows the jobs in that state: for every
    state's name as the command prints it, on a cluster whose stores do not fail
    and whose seeds lead to the leader [s], the table lists exactly the jobs that
    [s] stores in that state. *)
Theorem list_shows_the_jobs seeds c addr s st :
  all_healthy c → leader_of c seeds = Some addr → c.(cl_nodes) !! addr = Some s → declared st = true →
  ∃ jobs, eval (cmdList seeds [flag_arg "state" (shortState st)]) c =
      Returns (cells ["ID"; "NAME"; "PRIORITY"; "STATE"; "ATTEMPT"; "DEPS"] :: (list_row <$> jobs)) None ∧
    ∀ j, j ∈ jobs ↔ (∃ id, jobs_of s !! id = Some j) ∧ j.(Job_State) = st.
Proof.
  intros Hh Hl Hs Hst. destruct (parse_state_flag st Hst) as (v & Hv & Hp). unfold cmdList. rewrite Hv, Hp.
  pose proof (leaderConn_related seeds c addr) as R. rewrite Hs in R. inversion R as [? s1 [_ Hst1] E1 E2|]. subst.
  destruct (list_call s1 (parseState v)) as (jobs & He & Hj); [rewrite <- Hst1; by apply (Hh addr)|by destruct (parseState v)|].
  exists jobs. split; [|intros j; rewrite Hj; unfold jobs_of; by rewrite <- Hst1]. mrun.
  assert (eval (Client_List seeds (parseState v)) c = inl jobs) as ->; [|done].
  apply (on_leader_answers seeds _ c addr); [done|done|]. symmetry in E2.
  destruct (call_run addr (Server_ListJobs (parseState v) 0) _ s1 E2) as [E _]. simpl. by rewrite E.
Qed.

(** C27. When [schedulerctl submit], called with flags that parse and do not ask
    for help, exits with code 0 on a cluster whose stores do not fail, it has
    printed the id of a job, and a request for that id made next through the
    same seeds gives the job with the name, command, arguments and dependencies
    the flags gave, and with their priority and attempt limit reduced to 32
    bits. *)
Theorem submit_command_submits argv addr args rest o out c :
  all_healthy c →
  Parse [StringVar "addr" (λ v _, v)] argv "localhost:7070" = Parsed addr ("submit" :: args) →
  Parse submit_flags args submit_defaults = Parsed o rest →
  eval (schedulerctl_main argv) c = (out, 0%Z) →
  ∃ id j, out = [Out (id +:+ newline)] ∧
    eval (Client_Get (split_trimmed addr) id) (exec (schedulerctl_main argv) c) = inl j ∧ served_as (submit_params o) id j.
Proof.
  intros Hh Ha Ho. unfold schedulerctl_main. rewrite Ha. unfold run_command. cbn [String.eqb Ascii.eqb Bool.eqb]. mrun.
  unfold cmdSubmit. rewrite Ho. destruct (String.eqb (so_command o) ""); [done|]. mrun.
  destruct (eval (Client_Submit _ _) c) as [id|e] eqn:Hs; [|done]. mrun. intros [= <-].
  destruct (submit_then_get _ _ _ _ Hh Hs) as (j & Hg & Hj). by exists id, j.
Qed.

End operator.

(** ** A process joins the cluster of its flags *)

Section process.
Context {St : Type} {Gstore : JobStore St} {Genv : Env} {Gcron : Cron} {Ghost : Host St} {Gbuild : BuildInfo}.
Implicit Types (s : Server St).

(** The node a process starts. *)
Definition started (argv : list string) : option (Server St) := (scheduler_main argv (λ s, s) (Served None)).2.

(** The configuration of the election and the addresses stay as they are. *)
Definition same_cluster s s' : Prop :=
  s'.(sv_node).(Node_cfg) = s.(sv_node).(Node_cfg) ∧ s'.(sv_members) = s.(sv_members) ∧ s'.(sv_selfAddr) = s.(sv_selfAddr).

#[export] Instance same_cluster_preorder : PreOrder same_cluster.
Proof. split; [by intros s|]. intros x y z (?&?&?) (?&?&?). split_and!; congruence. Qed.

Lemma sc_modify (g : Server St → Server St) : (∀ s, same_cluster s (g s)) → within same_cluster (modify g).
Proof. intros H s. apply H. Qed.
Lemma sc_store {A} (op : M St A) : within same_cluster (on_store op).
Proof. by intros s. Qed.
Lemma sc_queue {A} (op : PriorityQueue → A * PriorityQueue) : within same_cluster (on_queue op).
Proof. intros s. unfold exec, on_queue. by destruct (op (sv_queue s)). Qed.
Lemma sc_tick : within same_cluster next_tick.
Proof. by intros s. Qed.
#[local] Hint Resolve sc_store sc_queue sc_tick : pres.
#[local] Hint Extern 4 (within same_cluster (modify _)) => apply sc_modify; intros ?; done : pres.

Lemma sc_putJob j : within same_cluster (putJob j).
Proof. unfold putJob, appendRepl, is_leader. walk. Qed.

Lemma sc_takeover : takeover_steps same_cluster.
Proof.
  split; [split; intros *; first [exact sc_tick|apply sc_putJob|apply sc_queue|apply sc_store|by apply sc_modify]|..].
  - intros f. by apply sc_modify.
  - apply sc_queue.
  - unfold seedReplication, append_entry. walk.
Qed.

(** The same for the election's own state. *)
Definition same_config (n n' : NodeState St) : Prop := n'.(ns_node).(Node_cfg) = n.(ns_node).(Node_cfg).

#[export] Instance same_config_preorder : PreOrder same_config.
Proof. split; [by intros n|]. unfold same_config. intros x y z. congruence. Qed.

Lemma same_config_persist : within same_config persistLocked.
Proof. intros n. unfold exec, persistLocked. by destruct (SaveState _ _ _). Qed.
Lemma same_config_modify f : (∀ n, Node_cfg (f n) = Node_cfg n) → within same_config (modify_node f).
Proof. intros H n. apply H. Qed.
Lemma same_config_tick : within same_config tick_node.
Proof. by intros n. Qed.
#[local] Hint Resolve same_config_persist same_config_tick : pres.
#[local] Hint Extern 4 (within same_config (modify_node _)) => by apply same_config_modify : pres.

Lemma same_config_Start : within same_config Start.
Proof. unfold Start, resetElectionTimerLocked, get_node. walk. Qed.

Lemma sc_start : within same_cluster start_server.
Proof.
  unfold start_server, recover, onStepDown, clearSchedulingState.
  assert (within same_cluster (on_node Start)) as Hs.
  { intros s. pose proof (same_config_Start (mkNodeState s.(sv_node) s.(sv_store) s.(sv_tick))) as Hc.
    unfold exec, on_node in *. by destruct (Start _) as [cb n]. }
  walk; apply (w_onBecomeLeader same_cluster sc_takeover).
Qed.

Lemma members_map ms m :
  NoDup (Member_ID <$> ms) → m ∈ ms →
  foldl (λ (acc : gmap string string) x, <[x.(Member_ID):=x.(Member_Address)]> acc) ∅ ms !! m.(Member_ID) = Some m.(Member_Address).
Proof.
  intros Hnd Hm. rewrite foldl_insert, (right_id_L ∅ (∪)) by done. apply elem_of_list_to_map_1.
  - by rewrite <- list_fmap_compose.
  - by apply (list_elem_of_fmap_2 (λ x, (x.(Member_ID), x.(Member_Address)))).
Qed.

Lemma parse_cluster_flags id ps :
  Parse scheduler_flags [flag_arg "node-id" id; flag_arg "peers" ps] scheduler_defaults =
    Parsed (mkSchedulerOpts false id ":7070" "./data" ps (15 * Second) ":9090" "info") [].
Proof.
  erewrite (Parse_flag_arg scheduler_flags _ "node-id" id); [|reflexivity..].
  by erewrite (Parse_flag_arg scheduler_flags _ "peers" ps); [|reflexivity..].
Qed.

(** The default data directory holds the store [st], whose workers can be read,
    and the default ports are free. *)
Definition host_up (st : St) : Prop :=
  host_MkdirAll "./data" = None ∧ host_OpenStore "./data" = inl st ∧ (∃ ws, ListWorkers st = inl ws) ∧
  host_ListenMetrics ":9090" = None ∧ host_Listen ":7070" = None.

(** C29. A scheduler process joins the cluster of its flags: started with a node id
    and a membership printed as "id=addr,id=addr", on a host whose store opens and
    whose ports are free, it starts a node.  That node takes part in elections
    as that member of exactly those members, with the default timeouts, which is
    the configuration of the nodes of [Election.v]; it knows every member's
    address; and the address it gives out for itself is its own. *)
Theorem scheduler_joins_its_cluster id ms st :
  host_up st → id ≠ "" → ms ≠ [] → Forall (λ m, plain_member m = true) ms → NoDup (Member_ID <$> ms) →
  ∃ s, started [flag_arg "node-id" id; flag_arg "peers" (print_members ms)] = Some s ∧
    s.(sv_node).(Node_cfg) = config_of (Member_ID <$> ms) (800 * Millisecond) (1600 * Millisecond) id ∧
    ∀ m, m ∈ ms → s.(sv_members) !! m.(Member_ID) = Some m.(Member_Address) ∧
      (m.(Member_ID) = id → s.(sv_selfAddr) = m.(Member_Address)).
Proof.
  intros (Hd & Ho & [ws Hw] & Hm & Hl) Hid Hne Hp Hnd. unfold started, scheduler_main. rewrite parse_cluster_flags.
  cbn [sch_version sch_peers]. rewrite parse_printed by done. cbn [sch_dataDir sch_listen]. rewrite Hd, Hl.
  unfold scheduler_New. change (Config_DataDir _) with "./data". change (Config_MetricsAddr _) with ":9090".
  rewrite Ho. set (s0 := new_server _ st 0). assert (eval recover s0 = None) as Hr.
  { unfold recover. mrun. change (sv_store s0) with st. by rewrite Hw. }
  rewrite Hr. simpl String.eqb. cbv iota. unfold startMetricsHTTP. rewrite Hm. eexists. split; [reflexivity|].
  assert (same_cluster s0 (exec start_server s0)) as (-> & -> & ->) by apply sc_start.
  assert (or_default_s id "scheduler-1" = id) as Hi by (unfold or_default_s; by destruct (String.eqb_spec id "")).
  destruct ms as [|m0 ms]; [done|]. subst s0. unfold new_server. simpl. rewrite Hi. split; [done|].
  intros m Hm0. pose proof (members_map _ m Hnd Hm0) as Hlook. split; [exact Hlook|]. intros <-. exact (f_equal (default "") Hlook).
Qed.

End process.

(** ** Samples *)

Definition empty_host : Host MemStore := {|
  host_MkdirAll _ := None;
  host_OpenStore _ := inl empty_store;
  host_ListenMetrics _ := None;
  host_Listen _ := None
|}.

Section samples.
#[local] Existing Instance sample_env.
#[local] Existing Instance sample_cron.
#[local] Existing Instance empty_host.
#[local] Instance dev_build : BuildInfo := {| Version := "dev"; Commit := "none" |}.

Lemma parseMembers_roundtrip_witness :
  parseMembers (print_members [mkMember "n1" "h1:7070"; mkMember "n2" "[::1]:7070"]) =
    inl [mkMember "n1" "h1:7070"; mkMember "n2" "[::1]:7070"].
Proof. apply parseMembers_roundtrip. repeat constructor. Defined.

Lemma scheduler_joins_its_cluster_witness :
  ∃ s, started [flag_arg "node-id" "n2"; flag_arg "peers" "n1=h1:7070,n2=[::1]:7070"] = Some s ∧
    s.(sv_node).(Node_cfg) = config_of ["n1"; "n2"] (800 * Millisecond) (1600 * Millisecond) "n2" ∧
    ∀ m, m ∈ [mkMember "n1" "h1:7070"; mkMember "n2" "[::1]:7070"] → s.(sv_members) !! m.(Member_ID) = Some m.(Member_Address) ∧
      (m.(Member_ID) = "n2" → s.(sv_selfAddr) = m.(Member_Address)).
Proof.
  apply (scheduler_joins_its_cluster "n2" [mkMember "n1" "h1:7070"; mkMember "n2" "[::1]:7070"] empty_store);
    [split_and!; try reflexivity; by eexists|done|done|by repeat constructor|].
  apply (bool_decide_unpack _). vm_compute. reflexivity.
Defined.

(** The cluster of [sample_nodes] with its node further on. *)
Definition busy_nodes : Nodes (St := MemStore) := mkNodes {[":7070" := sample_run sample_ready]} 0.

Lemma list_shows_the_jobs_witness :
  ∃ jobs, eval (cmdList sample_seeds [flag_arg "state" (shortState JOB_STATE_RUNNING)]) busy_nodes =
      Returns (cells ["ID"; "NAME"; "PRIORITY"; "STATE"; "ATTEMPT"; "DEPS"] :: (list_row <$> jobs)) None ∧
    ∀ j, j ∈ jobs ↔ (∃ id, jobs_of (sample_run sample_ready) !! id = Some j) ∧ j.(Job_State) = JOB_STATE_RUNNING.
Proof.
  apply (list_shows_the_jobs sample_seeds busy_nodes ":7070" (sample_run sample_ready) JOB_STATE_RUNNING);
    [|vm_compute; reflexivity|exact (lookup_singleton_eq _ _)|reflexivity].
  intros addr s Hs. unfold busy_nodes in Hs. simpl in Hs. apply lookup_singleton_Some in Hs as [_ <-]. vm_compute. reflexivity.
Defined.

Definition sample_argv : list string :=
  ["--addr=down:7070, :7070"; "submit"; "-id"; "nightly"; "--command=tar"; "-arg"; "-c"; "-priority=3"].

Lemma submit_command_submits_witness :
  ∃ id j, [Out ("nightly" +:+ newline)] = [Out (id +:+ newline)] ∧
    eval (Client_Get sample_seeds id) (exec (schedulerctl_main sample_argv) sample_nodes) = inl j ∧
    served_as (mkSubmitParams "nightly" "" "tar" ["-c"] 3 [] "" 0 0) id j.
Proof.
  apply (submit_command_submits sample_argv "down:7070, :7070" (drop 2 sample_argv) []
    (mkSubmitOpts "nightly" "" "tar" ["-c"] 3 "" "" 0 0) [Out ("nightly" +:+ newline)] sample_nodes sample_nodes_healthy);
    vm_compute; reflexivity.
Defined.

End samples.
