(* ===== verification/Prog.v ===== *)
(** * Programs made of atomic sections, and their interleavings

    A goroutine of the scheduler works on shared state through short sections,
    each under a lock of its own: between two of them any other goroutine may
    run.  A [prog] is such a sequence of sections with the local computation in
    between.  [run] performs it without interruption, which is how the handlers
    are modelled elsewhere; [tracks] says that it then does what a given
    computation does.  [pool_step] interleaves a pool of programs section by
    section, and [secure] is the rely-guarantee condition under which an
    invariant survives every interleaving. *)

From S2P Require Import Prelude.
From stdpp Require Import relations.

(** ** Programs *)

Inductive prog (σ A : Type) : Type :=
| Ret (a : A)
| Act (B : Type) (m : M σ B) (k : B → prog σ A).
Arguments Ret {σ A} a.
Arguments Act {σ A B} m k.

Fixpoint prog_bind {σ A B} (f : A → prog σ B) (p : prog σ A) : prog σ B :=
  match p with
  | Ret a => f a
  | Act m k => Act m (λ b, prog_bind f (k b))
  end.

#[export] Instance prog_ret σ : MRet (prog σ) := λ A a, Ret a.
#[export] Instance prog_mbind σ : MBind (prog σ) := λ A B f p, prog_bind f p.

(** One section. *)
Definition act {σ A} (m : M σ A) : prog σ A := Act m Ret.

(** [for _, x := range l { body }] *)
Fixpoint forP {σ A} (l : list A) (body : A → prog σ unit) : prog σ unit :=
  match l with
  | [] => mret tt
  | x :: l' => body x;; forP l' body
  end.

Definition whenP {σ} (b : bool) (p : prog σ unit) : prog σ unit :=
  if b then p else mret tt.

(** ** Without interruption *)

Fixpoint run {σ A} (p : prog σ A) : M σ A := λ s,
  match p with
  | Ret a => (a, s)
  | Act m k => run (k (eval m s)) (exec m s)
  end.

Definition tracks {σ A} (p : prog σ A) (m : M σ A) : Prop := ∀ s, run p s = m s.

Section tracks.
Context {σ : Type}.

Lemma run_bind {A B} (p : prog σ A) (f : A → prog σ B) s :
  run (p ≫= f) s = run (f (eval (run p) s)) (exec (run p) s).
Proof. revert s. induction p as [a|B' m k IH]; intros s; [done|]. apply IH. Qed.

Lemma tracks_ret {A} (a : A) : tracks (mret a : prog σ A) (mret a).
Proof. by intros s. Qed.

Lemma tracks_act {A} (m : M σ A) : tracks (act m) m.
Proof. intros s. simpl. unfold eval, exec. by destruct (m s). Qed.

Lemma tracks_bind {A B} (p : prog σ A) (m : M σ A) (k : A → prog σ B) (f : A → M σ B) :
  tracks p m → (∀ a, tracks (k a) (f a)) → tracks (p ≫= k) (m ≫= f).
Proof. intros Hp Hk s. rewrite run_bind, bind_run. unfold eval, exec. by rewrite Hp, Hk. Qed.

Lemma tracks_for {A} (l : list A) body (body' : A → M σ unit) :
  (∀ x, tracks (body x) (body' x)) → tracks (forP l body) (forM_ l body').
Proof. intros H. induction l as [|x l IH]; [apply tracks_ret|]. simpl. by apply tracks_bind. Qed.

Lemma tracks_ext {A} (p : prog σ A) (m m' : M σ A) :
  (∀ s, m' s = m s) → tracks p m → tracks p m'.
Proof. intros He H s. by rewrite He. Qed.

Lemma tracks_exec {A} (p : prog σ A) m s : tracks p m → exec (run p) s = exec m s.
Proof. intros H. unfold exec. by rewrite H. Qed.

End tracks.

Create HintDb tracks.
#[export] Hint Resolve tracks_ret tracks_act : tracks.

(** Walk through two versions of a handler with the same control flow. *)
Ltac track_step :=
  match goal with
  | |- tracks (_ ≫= _) (_ ≫= _) => apply tracks_bind; [|intros ?]
  | |- tracks (whenP ?b _) (whenM ?b _) => unfold whenP, whenM
  | |- tracks (forP _ _) (forM_ _ _) => apply tracks_for; intros ?
  | |- tracks (match ?x with _ => _ end) (match ?x with _ => _ end) => destruct x eqn:?
  end.
Ltac track := repeat (track_step || solve [eauto with tracks]).

(** ** Interleavings *)

Section pool.
Context {σ : Type}.
Implicit Types (ts : list (prog σ unit)) (s : σ).

(** Thread [i] performs its next section. *)
Inductive pool_step : list (prog σ unit) * σ → list (prog σ unit) * σ → Prop :=
| pool_act i ts s B (m : M σ B) k :
    ts !! i = Some (Act m k) → pool_step (ts, s) (<[i:=k (eval m s)]> ts, exec m s).

(** The same as a function: nothing happens if thread [i] has ended. *)
Definition pool_next (i : nat) (c : list (prog σ unit) * σ) : list (prog σ unit) * σ :=
  match c.1 !! i with
  | Some (Act m k) => (<[i:=k (eval m c.2)]> c.1, exec m c.2)
  | _ => c
  end.

Definition pool_run (order : list nat) (c : list (prog σ unit) * σ) : list (prog σ unit) * σ :=
  foldl (λ c i, pool_next i c) c order.

Lemma pool_next_steps i c : rtc pool_step c (pool_next i c).
Proof.
  destruct c as [ts s]. unfold pool_next. simpl. destruct (ts !! i) as [[a|B m k]|] eqn:E; [done| |done].
  by apply rtc_once, pool_act.
Qed.

Lemma pool_run_steps order c : rtc pool_step c (pool_run order c).
Proof.
  revert c. induction order as [|i order IH]; intros c; [done|].
  etrans; [apply pool_next_steps|apply IH].
Qed.

(** A thread that is not interrupted ends in the state [run] gives. *)
Lemma pool_uninterrupted ts i p s :
  ts !! i = Some p → rtc pool_step (ts, s) (<[i:=Ret tt]> ts, exec (run p) s).
Proof.
  revert ts s. induction p as [[]|B m k IH]; intros ts s Hp.
  { by rewrite list_insert_id. }
  eapply rtc_l; [by apply pool_act|].
  specialize (IH (eval m s) (<[i:=k (eval m s)]> ts) (exec m s)). rewrite list_insert_insert_eq in IH.
  apply IH, list_lookup_insert_eq. by eapply lookup_lt_Some.
Qed.

End pool.

(** ** Rely and guarantee

    [I] is the invariant of the shared state and [G] what every section
    guarantees about the states before and after it, and so what a thread may
    rely on between two of its own.  Only runs all of whose states satisfy [C] are
    considered. *)

Section rely.
Context {σ : Type} (C : σ → Prop) (I : σ → Prop) (G : σ → σ → Prop) `{!PreOrder G}.

(** From [s] on the program keeps the invariant and the guarantee whatever the
    others do, and ends in a state that satisfies [Q]. *)
Fixpoint secure {A} (Q : A → σ → Prop) (p : prog σ A) (s : σ) : Prop :=
  match p with
  | Ret a => Q a s
  | Act m k => ∀ s', I s' → G s s' → C (exec m s') →
      I (exec m s') ∧ G s' (exec m s') ∧ secure Q (k (eval m s')) (exec m s')
  end.

Lemma secure_ret {A} (Q : A → σ → Prop) a s : Q a s → secure Q (mret a) s.
Proof. done. Qed.

Lemma secure_act {A} (Q : A → σ → Prop) (m : M σ A) s :
  (∀ s', I s' → G s s' → C (exec m s') → I (exec m s') ∧ G s' (exec m s') ∧ Q (eval m s') (exec m s')) →
  secure Q (act m) s.
Proof. done. Qed.

Lemma secure_bind {A B} (Q : B → σ → Prop) (p : prog σ A) (f : A → prog σ B) s :
  secure (λ a, secure Q (f a)) p s → secure Q (p ≫= f) s.
Proof.
  revert s. induction p as [a|B' m k IH]; intros s H; [done|]. intros s' Hi Hg Hc.
  destruct (H s' Hi Hg Hc) as (? & ? & ?). split_and!; [done|done|]. by apply IH.
Qed.

Lemma secure_mono {A} (P Q : A → σ → Prop) (p : prog σ A) s :
  (∀ a s, P a s → Q a s) → secure P p s → secure Q p s.
Proof.
  intros HPQ. revert s. induction p as [a|B' m k IH]; intros s H; [by apply HPQ|]. intros s' Hi Hg Hc.
  destruct (H s' Hi Hg Hc) as (? & ? & ?). split_and!; [done|done|]. by apply IH.
Qed.

(** The common case: a postcondition about the result only. *)
Lemma secure_seq {A B} (P : A → Prop) (Q : B → σ → Prop) (p : prog σ A) (f : A → prog σ B) s :
  secure (λ a _, P a) p s → (∀ a s, P a → secure Q (f a) s) → secure Q (p ≫= f) s.
Proof. intros Hp Hf. apply secure_bind. eapply secure_mono; [|exact Hp]. auto. Qed.

Lemma secure_for {A} (l : list A) (body : A → prog σ unit) s :
  (∀ x s, x ∈ l → secure (λ _ _, True) (body x) s) → secure (λ _ _, True) (forP l body) s.
Proof.
  revert s. induction l as [|x l IH]; intros s H; [done|]. simpl.
  apply (secure_seq (λ _, True)); [apply H; left|]. intros _ s1 _. apply IH. intros y s2 Hy. apply H. by right.
Qed.

(** A program that was secure some time ago. *)
Definition pending_secure (s : σ) (p : prog σ unit) : Prop :=
  ∃ s0, G s0 s ∧ secure (λ _ _, True) p s0.

Definition pool_ok (c : list (prog σ unit) * σ) : Prop :=
  I c.2 ∧ Forall (pending_secure c.2) c.1.

Lemma pending_later s s' ts : G s s' → Forall (pending_secure s) ts → Forall (pending_secure s') ts.
Proof. intros Hg H. eapply Forall_impl; [exact H|]. intros p (s0 & H0 & Hp). exists s0. split; [by trans s|done]. Qed.

Lemma pool_step_ok c c' : pool_step c c' → C c'.2 → pool_ok c → pool_ok c'.
Proof.
  intros [i ts s B m k Hi] Hc [Hs Hts]. simpl in *.
  destruct (proj1 (Forall_lookup _ _) Hts i _ Hi) as (s0 & H0 & Hp).
  destruct (Hp s Hs H0 Hc) as (HI & HG & Hk). split; [done|]. apply Forall_insert.
  - by eapply pending_later.
  - by exists (exec m s).
Qed.

End rely.
