(* ===== verification/Threads.v ===== *)
(** * The handlers as sequences of locked sections (internal/scheduler)

    The handlers of the other files run without interruption.  The code locks
    each access to the queue, the leases and timers, the dependency index, the
    worker cache, the replication log, the election node and the store by
    itself, and a gRPC handler, a timer, the reaper, the replication loop and
    the election's callbacks all run in goroutines of their own.  Here is every
    handler again as a [prog] with one [act] per locked section, and the proof
    that without interruption it is the handler of the other files.

    Two loops, of [PollTask] and [cancelCascade], run as long as other
    goroutines give them work; [rounds] is added to the bound that is enough
    without interruption, so that the programs for all [rounds] have every
    finite behaviour of the code. *)

From S2P Require Import Prelude Types Queue Retry Env Cluster Store Server Cycle Deps Dispatch Jobs Workers.
From S2P Require Import Replication Leadership System Prog.

(** ** Model *)

Section threads.
Context {St : Type} {Gstore : JobStore St} {Genv : Env} {Gcron : Cron}.
Context (rounds : nat).

(** *** Shared operations (server.go) *)

Definition requireLeader_t : prog (Server St) (option Status) :=
  l ← act is_leader;
  if (l : bool) then mret None else (a ← act leaderAddr; mret (Some (notLeaderError a))).

(** The section of [appendRepl] under [replMu]. *)
Definition append_locked (e : ReplicationEntry) : M (Server St) unit :=
  modify (λ s, set_sv_replSeq (int64 (s.(sv_replSeq) + 1)) s);;
  modify (λ s, set_sv_replLog (s.(sv_replLog) ++ [set_ReplicationEntry_Seq s.(sv_replSeq) e]) s).

Definition appendRepl_t (e : ReplicationEntry) : prog (Server St) unit :=
  l ← act is_leader;
  if negb l then mret tt else act (append_locked e).

Definition putJob_t (job : Job) : prog (Server St) (option string) :=
  err ← act (on_store (PutJob job));
  match err : option string with
  | Some e => mret (Some e)
  | None =>
      appendRepl_t (mkReplicationEntry 0 (Some (ReplicationEntry_UpsertJob job)));;
      mret None
  end.

Definition putWorker_t (w : WorkerInfo) : prog (Server St) (option string) :=
  err ← act (on_store (PutWorker w));
  match err : option string with
  | Some e => mret (Some e)
  | None =>
      appendRepl_t (mkReplicationEntry 0 (Some (ReplicationEntry_UpsertWorker w)));;
      act (modify (λ s, set_sv_workers (<[w.(WorkerInfo_Id):=w]> s.(sv_workers)) s));;
      mret None
  end.

Definition enqueueJob_t (jobID : string) : prog (Server St) unit :=
  closed ← act (gets sv_closed);
  if (closed : bool) then mret tt
  else
    l ← act is_leader;
    if negb l then mret tt
    else
      r ← act (getJob jobID);
      match r : Job + StoreError with
      | inr _ => mret tt
      | inl job =>
          if bool_decide (job.(Job_State) ≠ JOB_STATE_QUEUED) then mret tt
          else
            _ ← act (on_queue (Queue_Push job.(Job_Id) job.(Job_Priority) (AsTime job.(Job_CreatedAt))));
            mret tt
      end.

Definition armEnqueue_t (jobID : string) (delay : Z) : prog (Server St) unit :=
  if (delay <=? 0)%Z then enqueueJob_t jobID
  else act (modify (λ s, set_sv_retryTimers (<[jobID:=delay]> s.(sv_retryTimers)) s)).

Definition timer_fired_t (jobID : string) : prog (Server St) unit :=
  act (modify (λ s, set_sv_retryTimers (delete jobID s.(sv_retryTimers)) s));;
  enqueueJob_t jobID.

Definition clearSchedulingState_t : prog (Server St) unit :=
  act (on_queue (λ q, (tt, Queue_Clear q)));;
  act (modify (set_sv_retryTimers ∅);; modify (set_sv_leases ∅));;
  act (modify (set_sv_revIndex ∅)).

(** *** Dependencies and schedules (deps.go) *)

Fixpoint deps_ready_t (deps : list string) : prog (Server St) (bool * string) :=
  match deps with
  | [] => mret (true, "")
  | depID :: deps =>
      r ← act (getJob depID);
      match r : Job + StoreError with
      | inr _ => mret (false, "")
      | inl dep =>
          match dep.(Job_State) with
          | JOB_STATE_SUCCEEDED => deps_ready_t deps
          | JOB_STATE_FAILED | JOB_STATE_CANCELED => mret (false, depID)
          | _ => mret (false, "")
          end
      end
  end.

Definition depsSatisfied_t (job : Job) : prog (Server St) (bool * string) := deps_ready_t job.(Job_DependsOn).

Definition fire_time_t (job : Job) (now : Z) : prog (Server St) (Job * Z) :=
  match job.(Job_Schedule) with
  | None => mret (job, 0%Z)
  | Some _ =>
      let expr := Schedule_GetCronExpr job.(Job_Schedule) in
      if negb (String.eqb expr "") then
        match nextCron expr now with
        | inl next => delay ← act (Until next); mret (set_Job_ScheduledAt (Some next) job, delay)
        | inr _ => mret (job, 0%Z)
        end
      else
        match Schedule_GetRunAt job.(Job_Schedule) with
        | Some ra =>
            if (now <? ra)%Z
            then (delay ← act (Until ra); mret (set_Job_ScheduledAt (Some ra) job, delay))
            else mret (job, 0%Z)
        | None => mret (job, 0%Z)
        end
  end.

Definition makeReady_t (job : Job) (now : Z) : prog (Server St) unit :=
  jd ← fire_time_t job now;
  let job := jd.1 |> set_Job_State JOB_STATE_QUEUED |> set_Job_UpdatedAt (Some now) in
  err ← putJob_t job;
  match err : option string with
  | Some _ => mret tt
  | None => armEnqueue_t job.(Job_Id) jd.2
  end.

Definition placeNewJob_t (job : Job) (now : Z) : prog (Server St) unit :=
  rf ← depsSatisfied_t job;
  if negb (String.eqb rf.2 "") then
    let job := job |> set_Job_State JOB_STATE_CANCELED
                   |> set_Job_LastError (upstream_failed rf.2)
                   |> set_Job_UpdatedAt (Some now) in
    _ ← putJob_t job;
    act (count inc_JobsCanceled)
  else if negb rf.1 then
    let job := job |> set_Job_State JOB_STATE_PENDING |> set_Job_UpdatedAt (Some now) in
    _ ← putJob_t job;
    act (addDeps job)
  else makeReady_t job now.

Definition cascade_step_t (cur reason : string) (now : Z) : prog (Server St) (list string) :=
  r ← act (getJob cur);
  match r : Job + StoreError with
  | inl job =>
      if terminal job.(Job_State) then mret tt
      else
        _ ← putJob_t (job |> set_Job_State JOB_STATE_CANCELED
                          |> set_Job_LastError reason
                          |> set_Job_UpdatedAt (Some now));
        _ ← act (on_queue (Queue_Remove cur));
        act (count inc_JobsCanceled)
  | inr _ => mret tt
  end;;
  dependents ← act (dependentsOf cur);
  act (removeFromIndex cur);;
  mret dependents.

Fixpoint cascade_t (fuel : nat) (work : list string) (visited : gset string) (reason : string)
    (now : Z) : prog (Server St) bool :=
  match work with
  | [] => mret true
  | cur :: work =>
      match fuel with
      | O => mret false
      | S fuel =>
          if decide (cur ∈ visited) then cascade_t fuel work visited reason now
          else
            dependents ← cascade_step_t cur reason now;
            cascade_t fuel (rev dependents ++ work) ({[cur]} ∪ visited) (upstream_failed cur) now
      end
  end.

Definition cancelCascade_t (jobID reason : string) : prog (Server St) bool :=
  now ← act Now;
  fuel ← act (gets (λ s, rounds + S (index_size s.(sv_revIndex))));
  cascade_t fuel [jobID] ∅ reason now.

Definition tryPromote_t (jobID : string) : prog (Server St) unit :=
  r ← act (getJob jobID);
  match r : Job + StoreError with
  | inr _ => mret tt
  | inl job =>
      if bool_decide (job.(Job_State) ≠ JOB_STATE_PENDING) then mret tt
      else
        rf ← depsSatisfied_t job;
        if negb (String.eqb rf.2 "") then
          _ ← cancelCascade_t jobID (upstream_failed rf.2); mret tt
        else if (rf.1 : bool) then
          now ← act Now;
          makeReady_t job now;;
          act (removeFromIndex jobID)
        else mret tt
  end.

Definition promoteDependents_t (depID : string) : prog (Server St) unit :=
  ds ← act (dependentsOf depID);
  forP ds tryPromote_t.

Definition maybeRescheduleCron_t (job : Job) (now : Z) : prog (Server St) (bool * Job) :=
  let expr := Schedule_GetCronExpr job.(Job_Schedule) in
  if String.eqb expr "" then mret (false, job)
  else
    match nextCron expr now with
    | inr _ => mret (false, job)
    | inl next =>
        let job := job |> set_Job_State JOB_STATE_QUEUED
                       |> set_Job_Attempt 0
                       |> set_Job_AssignedWorkerId ""
                       |> set_Job_LastError ""
                       |> set_Job_FinishedAt None
                       |> set_Job_ScheduledAt (Some next)
                       |> set_Job_UpdatedAt (Some now) in
        err ← putJob_t job;
        match err : option string with
        | Some _ => mret (false, job)
        | None =>
            delay ← act (Until next);
            armEnqueue_t job.(Job_Id) delay;;
            mret (true, job)
        end
    end.

(** *** Dispatch (dispatch.go) *)

Fixpoint poll_loop_t (fuel : nat) (n : Z) (workerID : string) (now : Z) (out : list TaskAssignment)
    : prog (Server St) (bool * list TaskAssignment) :=
  if (n <=? Z.of_nat (length out))%Z then mret (true, out)
  else
    match fuel with
    | O => mret (false, out)
    | S fuel =>
        popped ← act (on_queue Queue_Pop);
        match popped : option string with
        | None => mret (true, out)
        | Some jobID =>
            r ← act (getJob jobID);
            match r : Job + StoreError with
            | inr _ => poll_loop_t fuel n workerID now out
            | inl job =>
                if bool_decide (job.(Job_State) ≠ JOB_STATE_QUEUED)
                then poll_loop_t fuel n workerID now out
                else
                  taskID ← act (new_id "task");
                  deadline ← act (gets (λ s : Server St, now + s.(sv_cfg).(Config_LeaseTTL))%Z);
                  let job := dispatched workerID now job in
                  err ← putJob_t job;
                  match err : option string with
                  | Some _ =>
                      _ ← act (on_queue (Queue_Push jobID job.(Job_Priority) (AsTime job.(Job_CreatedAt))));
                      mret (true, out)
                  | None =>
                      act (addLease (mkLease taskID jobID workerID job.(Job_Attempt) deadline));;
                      act (count inc_TasksDispatched);;
                      poll_loop_t fuel n workerID now
                        (out ++ [mkTaskAssignment taskID jobID job.(Job_Attempt) job.(Job_Spec) (Some deadline)])
                  end
            end
        end
    end.

Definition PollTask_t (workerID : string) (maxTasks : Z)
    : prog (Server St) (list TaskAssignment + Status) :=
  e ← requireLeader_t;
  match e : option Status with
  | Some e => mret (inr e)
  | None =>
      known ← act (workerKnown workerID);
      if negb known then
        mret (inr (mkStatus FailedPrecondition ("unknown worker " +:+ env_quote workerID +:+ "; re-register")%string))
      else
        now ← act Now;
        fuel ← act (gets (λ s, rounds + S (Queue_Len s.(sv_queue))));
        r ← poll_loop_t fuel (batch_size maxTasks) workerID now [];
        mret (inl r.2)
  end.

Definition handleFailure_t (job : Job) (errMsg : string) (now : Z)
    : prog (Server St) (option Status * Job) :=
  let job := job |> set_Job_LastError errMsg
                 |> set_Job_AssignedWorkerId ""
                 |> set_Job_UpdatedAt (Some now) in
  let maxAttempts := MaxAttempts job.(Job_RetryPolicy) in
  if (job.(Job_Attempt) <? maxAttempts)%Z then
    k ← act next_tick;
    let delay := Backoff env_oor job.(Job_RetryPolicy) job.(Job_Attempt) (env_float64 k) in
    let job := job |> set_Job_State JOB_STATE_QUEUED
                   |> set_Job_ScheduledAt (Some (now + delay)%Z) in
    err ← putJob_t job;
    match err : option string with
    | Some e => mret (Some (mkStatus Internal ("persist retry: " +:+ e)%string), job)
    | None =>
        armEnqueue_t job.(Job_Id) delay;;
        act (count inc_TasksRetried);;
        mret (None, job)
    end
  else
    cj ← maybeRescheduleCron_t job now;
    if (cj.1 : bool) then mret (None, cj.2)
    else
      let job := cj.2 |> set_Job_State JOB_STATE_FAILED
                      |> set_Job_FinishedAt (Some now) in
      err ← act (on_store (PutDeadLetter job));
      match err : option string with
      | Some e => mret (Some (mkStatus Internal ("persist dead-letter: " +:+ e)%string), job)
      | None =>
          err ← putJob_t job;
          match err : option string with
          | Some e => mret (Some (mkStatus Internal ("persist failure: " +:+ e)%string), job)
          | None =>
              act (count inc_JobsDeadLettered);;
              act (removeFromIndex job.(Job_Id));;
              _ ← cancelCascade_t job.(Job_Id) (upstream_failed job.(Job_Id));
              mret (None, job)
          end
      end.

Definition ReportTask_t (taskID : string) (result : TaskResult) (errMsg : string)
    : prog (Server St) (bool + Status) :=
  e ← requireLeader_t;
  match e : option Status with
  | Some e => mret (inr e)
  | None =>
      ls ← act (getLease taskID);
      match ls : option lease with
      | None => mret (inl true)
      | Some ls =>
          r ← act (getJob ls.(lease_jobID));
          match r : Job + StoreError with
          | inr _ => act (removeLease taskID);; mret (inl true)
          | inl job =>
              if bool_decide (job.(Job_State) ≠ JOB_STATE_RUNNING)
              then act (removeLease taskID);; mret (inl true)
              else
                now ← act Now;
                match result with
                | TASK_RESULT_SUCCEEDED =>
                    act (removeLease taskID);;
                    cj ← maybeRescheduleCron_t job now;
                    if (cj.1 : bool) then mret (inl true)
                    else
                      let job := succeeded now cj.2 in
                      err ← putJob_t job;
                      match err : option string with
                      | Some e => mret (inr (mkStatus Internal ("persist success: " +:+ e)%string))
                      | None =>
                          act (count inc_JobsSucceeded);;
                          act (removeFromIndex job.(Job_Id));;
                          promoteDependents_t job.(Job_Id);;
                          mret (inl true)
                      end
                | TASK_RESULT_FAILED =>
                    fj ← handleFailure_t job errMsg now;
                    match (fj.1 : option Status) with
                    | Some e => mret (inr e)
                    | None => act (removeLease taskID);; mret (inl true)
                    end
                | _ => mret (inr (mkStatus InvalidArgument "task result is required"))
                end
          end
      end
  end.

(** *** Jobs (job.go) *)

Definition loadJob_t (id : string) : prog (Server St) (Job + Status) := act (loadJob id).

Definition SubmitJob_t (req : option Job) : prog (Server St) (string + Status) :=
  e ← requireLeader_t;
  match e : option Status with
  | Some e => mret (inr e)
  | None =>
      match req with
      | None => mret (inr (mkStatus InvalidArgument "job is required"))
      | Some job =>
          if String.eqb (TaskSpec_GetCommand job.(Job_Spec)) ""
          then mret (inr (mkStatus InvalidArgument "job.spec.command is required"))
          else
            e ← act (valid_cron job);
            match e : option Status with
            | Some e => mret (inr e)
            | None =>
                job ← act (with_id job);
                c ← act (rejects_cycle job);
                if (c : bool)
                then mret (inr (mkStatus InvalidArgument "dependencies form a cycle"))
                else
                  now ← act Now;
                  placeNewJob_t (new_job now job) now;;
                  act (count inc_JobsSubmitted);;
                  mret (inl job.(Job_Id))
            end
      end
  end.

Definition CancelJob_t (id : string) : prog (Server St) (Job + Status) :=
  e ← requireLeader_t;
  match e : option Status with
  | Some e => mret (inr e)
  | None =>
      r ← loadJob_t id;
      match r : Job + Status with
      | inr e => mret (inr e)
      | inl job =>
          match job.(Job_State) with
          | JOB_STATE_CANCELED => mret (inl job)
          | JOB_STATE_SUCCEEDED | JOB_STATE_FAILED =>
              mret (inr (mkStatus FailedPrecondition
                ("job " +:+ env_quote job.(Job_Id) +:+ " already in terminal state " +:+
                   JobState_String job.(Job_State))%string))
          | _ =>
              now ← act Now;
              let job := job |> set_Job_State JOB_STATE_CANCELED |> set_Job_UpdatedAt (Some now) in
              err ← putJob_t job;
              match err : option string with
              | Some e => mret (inr (mkStatus Internal ("persist cancel: " +:+ e)%string))
              | None =>
                  _ ← act (on_queue (Queue_Remove job.(Job_Id)));
                  act (count inc_JobsCanceled);;
                  _ ← cancelCascade_t job.(Job_Id)
                        ("upstream dependency " +:+ job.(Job_Id) +:+ " was canceled")%string;
                  mret (inl job)
              end
          end
      end
  end.

(** *** Workers and recovery (worker.go, recovery.go) *)

Definition RegisterWorker_t (req : option WorkerInfo) : prog (Server St) ((string * string) + Status) :=
  e ← requireLeader_t;
  match e : option Status with
  | Some e => mret (inr e)
  | None =>
      match req with
      | None => mret (inr (mkStatus InvalidArgument "worker is required"))
      | Some w =>
          id ← (if String.eqb w.(WorkerInfo_Id) "" then act (new_id "worker") else mret w.(WorkerInfo_Id));
          now ← act Now;
          let w := w |> set_WorkerInfo_Id id
                     |> set_WorkerInfo_Capacity
                          (if (w.(WorkerInfo_Capacity) <=? 0)%Z then 1%Z else w.(WorkerInfo_Capacity))
                     |> set_WorkerInfo_State WORKER_STATE_ALIVE
                     |> set_WorkerInfo_LastHeartbeat (Some now)
                     |> set_WorkerInfo_RunningTasks 0 in
          err ← putWorker_t w;
          match err : option string with
          | Some e => mret (inr (mkStatus Internal ("persist worker: " +:+ e)%string))
          | None => addr ← act (gets sv_selfAddr); mret (inl (w.(WorkerInfo_Id), addr))
          end
      end
  end.

Definition Heartbeat_t (workerID : string) (runningTaskIds : list string)
    : prog (Server St) ((bool * string) + Status) :=
  e ← requireLeader_t;
  match e : option Status with
  | Some e => mret (inr e)
  | None =>
      cur ← act (gets (λ s, s.(sv_workers) !! workerID));
      match cur : option WorkerInfo with
      | None => addr ← act (gets sv_selfAddr); mret (inl (false, addr))
      | Some cur =>
          now ← act Now;
          let w := cur |> set_WorkerInfo_State WORKER_STATE_ALIVE
                       |> set_WorkerInfo_LastHeartbeat (Some now)
                       |> set_WorkerInfo_RunningTasks (int32 (Z.of_nat (length runningTaskIds))) in
          err ← putWorker_t w;
          match err : option string with
          | Some e => mret (inr (mkStatus Internal ("persist heartbeat: " +:+ e)%string))
          | None => mret (inl (true, ""))
          end
      end
  end.

Definition requeueLease_t (taskID reason : string) : prog (Server St) unit :=
  l ← act (getLease taskID);
  match l : option lease with
  | None => mret tt
  | Some l =>
      act (removeLease taskID);;
      r ← act (getJob l.(lease_jobID));
      match r : Job + StoreError with
      | inr _ => mret tt
      | inl job =>
          if bool_decide (job.(Job_State) ≠ JOB_STATE_RUNNING) then mret tt
          else
            act (count inc_TasksRequeued);;
            now ← act Now;
            _ ← handleFailure_t job reason now;
            mret tt
      end
  end.

Definition requeueLeasesForWorker_t (workerID reason : string) : prog (Server St) unit :=
  ts ← act (leases_where (λ l, String.eqb l.(lease_workerID) workerID));
  forP ts (λ t, requeueLease_t t reason).

(** The section of [reapOnce] under [workersMu]. *)
Definition scan_workers (timeout now : Z) : M (Server St) (list (string * WorkerInfo)) :=
  ws ← gets sv_workers;
  ids ← range_keys (map_to_list (ws : gmap string WorkerInfo)).*1;
  mret (liveness_changes timeout now
    (omap (λ id, match ws !! id with Some w => Some (id, w) | None => None end) ids)).

Definition reapOnce_t : prog (Server St) unit :=
  now ← act Now;
  timeout ← act (gets (λ s, s.(sv_cfg).(Config_HeartbeatTimeout)));
  changes ← act (scan_workers timeout now);
  forP changes (λ c, _ ← putWorker_t c.2; mret tt);;
  forP (filter (λ c, c.2.(WorkerInfo_State) = WORKER_STATE_DEAD) changes)
    (λ c, requeueLeasesForWorker_t c.1 "worker missed heartbeats");;
  expired ← act (leases_where (λ l, (l.(lease_deadline) <? now)%Z));
  forP expired (λ t, requeueLease_t t "lease deadline exceeded").

Definition reaper_tick_t : prog (Server St) unit :=
  l ← act is_leader;
  whenP l reapOnce_t.

(** *** Replication and elections (cluster.go, server.go) *)

Definition applyEntry_t (e : ReplicationEntry) : prog (Server St) unit :=
  match e.(ReplicationEntry_Mutation) with
  | Some (ReplicationEntry_UpsertJob j) => _ ← act (on_store (PutJob j)); mret tt
  | Some (ReplicationEntry_UpsertWorker w) =>
      err ← act (on_store (PutWorker w));
      match err : option string with
      | Some _ => mret tt
      | None => act (modify (λ s, set_sv_workers (<[w.(WorkerInfo_Id):=w]> s.(sv_workers)) s))
      end
  | Some (ReplicationEntry_DeleteJobId id) => _ ← act (on_store (DeleteJob id)); mret tt
  | None => mret tt
  end.

Definition applyEntries_t (entries : list ReplicationEntry) : prog (Server St) Z :=
  forP entries applyEntry_t;; mret (highest_seq entries).

Definition Replicate_t (term : Z) (leaderID : string) (entries : list ReplicationEntry)
    : prog (Server St) (bool * Z * Z) :=
  ac ← act (on_node (ObserveLeader term leaderID));
  if negb ac.1 then mret (false, ac.2, 0%Z)
  else (applied ← applyEntries_t entries; mret (true, ac.2, applied)).

Definition replicate_to_t (term : Z) (rpc : Z → list ReplicationEntry → option (bool * Z * Z))
    (peerID : string) : prog (Server St) unit :=
  entries ← act (gets (entriesForPeer peerID));
  match rpc term entries with
  | None => mret tt
  | Some (ok, peerTerm, applied) =>
      if negb ok then act (on_node (MaybeStepDown peerTerm)) else act (ackPeer peerID applied)
  end.

Definition broadcastReplicate_t (rpc : string → Z → list ReplicationEntry → option (bool * Z * Z))
    : prog (Server St) unit :=
  term ← act (gets (λ s, Term s.(sv_node)));
  self ← act (gets (λ s, s.(sv_cfg).(Config_NodeID)));
  ids ← act (gets (λ s : Server St, (map_to_list s.(sv_members)).*1));
  ids ← act (range_keys ids);
  forP ids (λ id, if String.eqb id self then mret tt else replicate_to_t term (rpc id) id).

Definition replication_tick_t rpc : prog (Server St) unit :=
  l ← act is_leader;
  whenP l (broadcastReplicate_t rpc).

Fixpoint startElection_count_t (term votes : Z) (rs : list voteResult) : prog (Server St) unit :=
  match rs with
  | [] => mret tt
  | r :: rs =>
      o ← act (on_node (startElection_vote term votes r));
      match o : option Z with
      | Some votes => startElection_count_t term votes rs
      | None => mret tt
      end
  end.

Definition startElection_t (rs : list voteResult) : prog (Server St) unit :=
  tp ← act (on_node startElection_begin);
  startElection_count_t tp.1 1 (take (length tp.2) rs).

(** *** Takeover, step-down and shutdown (server.go) *)

Definition rebuild_one_t (now : Z) (j : Job) : prog (Server St) Job :=
  whenP (negb (terminal j.(Job_State))) (act (addDeps j));;
  match j.(Job_State) with
  | JOB_STATE_QUEUED =>
      match j.(Job_ScheduledAt) with
      | Some at_ =>
          if (now <? at_)%Z then armEnqueue_t j.(Job_Id) (saturate64 (at_ - now));; mret j
          else _ ← act (on_queue (Queue_Push j.(Job_Id) j.(Job_Priority) (AsTime j.(Job_CreatedAt)))); mret j
      | None => _ ← act (on_queue (Queue_Push j.(Job_Id) j.(Job_Priority) (AsTime j.(Job_CreatedAt)))); mret j
      end
  | JOB_STATE_RUNNING =>
      r ← handleFailure_t j "reclaimed orphaned task after leadership change" now;
      mret r.2
  | _ => mret j
  end.

Fixpoint rebuild_all_t (now : Z) (jobs : list Job) : prog (Server St) (list Job) :=
  match jobs with
  | [] => mret []
  | j :: jobs => j ← rebuild_one_t now j; jobs ← rebuild_all_t now jobs; mret (j :: jobs)
  end.

Definition rebuildSchedulingState_t : prog (Server St) unit :=
  clearSchedulingState_t;;
  r ← act (gets (λ s, ListJobs s.(sv_store)));
  match r : list Job + StoreError with
  | inr _ => mret tt
  | inl jobs =>
      now ← act Now;
      jobs ← rebuild_all_t now jobs;
      forP jobs (λ j, whenP (bool_decide (j.(Job_State) = JOB_STATE_PENDING)) (tryPromote_t j.(Job_Id)))
  end.

(** The section of [seedReplication] under [replMu]; the listings were taken
    before it. *)
Definition seed_locked (ms : list isReplicationEntry_Mutation) : M (Server St) unit :=
  modify (set_sv_replLog []);;
  modify (set_sv_replSeq 0);;
  modify (set_sv_peerAcked ∅);;
  forM_ ms append_entry.

Definition seedReplication_t : prog (Server St) unit :=
  js ← act (gets (λ s, ListJobs s.(sv_store)));
  ws ← act (gets (λ s, ListWorkers s.(sv_store)));
  act (seed_locked
    ((match js : list Job + StoreError with inl js => ReplicationEntry_UpsertJob <$> js | inr _ => [] end) ++
     (match ws : list WorkerInfo + StoreError with inl ws => ReplicationEntry_UpsertWorker <$> ws | inr _ => [] end))).

Definition onBecomeLeader_t (term : Z) : prog (Server St) unit :=
  rebuildSchedulingState_t;; seedReplication_t.

Definition onStepDown_t (term : Z) : prog (Server St) unit := clearSchedulingState_t.

(** The goroutine of the [i]-th callback begins. *)
Definition take_callback (i : nat) : M (Server St) (option callback) :=
  cbs ← gets (λ s, s.(sv_node).(Node_spawned));
  match (cbs : list callback) !! i with
  | None => mret None
  | Some cb =>
      modify (λ s, set_sv_node (mkNode s.(sv_node).(Node_cfg) s.(sv_node).(Node_role)
        s.(sv_node).(Node_currentTerm) s.(sv_node).(Node_votedFor) s.(sv_node).(Node_leaderID)
        s.(sv_node).(Node_electionDeadline) (delete i cbs)) s);;
      mret (Some cb)
  end.

Definition run_callback_t (i : nat) : prog (Server St) unit :=
  cb ← act (take_callback i);
  match cb : option callback with
  | None => mret tt
  | Some (OnLeader term) => onBecomeLeader_t term
  | Some (OnStepDown term) => onStepDown_t term
  end.

(** The start of a node on its store. *)
Definition recover_t : prog (Server St) (option string) :=
  r ← act (gets (λ s, ListWorkers s.(sv_store)));
  match r : list WorkerInfo + StoreError with
  | inr e => mret (Some ("recover workers: " +:+ StoreError_Error e)%string)
  | inl ws =>
      act (forM_ ws (λ w, modify (λ s, set_sv_workers (<[w.(WorkerInfo_Id):=w]> s.(sv_workers)) s)));;
      mret None
  end.

Definition start_server_t : prog (Server St) (option string) :=
  err ← recover_t;
  match err : option string with
  | Some e => mret (Some e)
  | None =>
      cb ← act (on_node Start);
      match cb : option callback with
      | Some (OnLeader term) => onBecomeLeader_t term
      | Some (OnStepDown term) => onStepDown_t term
      | None => mret tt
      end;;
      mret None
  end.

Definition Shutdown_t : prog (Server St) unit :=
  act (modify (set_sv_closed true));;
  act (modify (set_sv_retryTimers ∅)).

(** The goroutine that performs an operation of the node.  A restart is no
    goroutine: it ends them all. *)
Definition thread (o : op) : option (prog (Server St) unit) :=
  match o with
  | Submit req => Some (_ ← SubmitJob_t req; mret tt)
  | Cancel id => Some (_ ← CancelJob_t id; mret tt)
  | Poll w n => Some (_ ← PollTask_t w n; mret tt)
  | Report t r msg => Some (_ ← ReportTask_t t r msg; mret tt)
  | Register w => Some (_ ← RegisterWorker_t w; mret tt)
  | Beat w ts => Some (_ ← Heartbeat_t w ts; mret tt)
  | Timer id => Some (timer_fired_t id)
  | Reap => Some reaper_tick_t
  | Ship rpc => Some (replication_tick_t rpc)
  | Vote t c => Some (_ ← act (RequestVote t c); mret tt)
  | Observe t l => Some (_ ← Replicate_t t l []; mret tt)
  | Elect rs => Some (startElection_t rs)
  | Callback i => Some (run_callback_t i)
  | Restart => None
  | Stop => Some Shutdown_t
  end.

End threads.

(** ** Without interruption *)

Section uninterrupted.
Context {St : Type} {Gstore : JobStore St} {Genv : Env} {Gcron : Cron}.
Implicit Types (s : Server St).

Lemma t_requireLeader : tracks requireLeader_t (requireLeader (St := St)).
Proof. unfold requireLeader_t, requireLeader. track. Qed.
Lemma t_appendRepl e : tracks (appendRepl_t e) (appendRepl (St := St) e).
Proof. unfold appendRepl_t, appendRepl. track. Qed.
#[local] Hint Resolve t_requireLeader t_appendRepl : tracks.
Lemma t_putJob j : tracks (putJob_t j) (putJob (St := St) j).
Proof. unfold putJob_t, putJob. track. Qed.
Lemma t_putWorker w : tracks (putWorker_t w) (putWorker (St := St) w).
Proof. unfold putWorker_t, putWorker. track. Qed.
Lemma t_enqueueJob id : tracks (enqueueJob_t id) (enqueueJob (St := St) id).
Proof.
  unfold enqueueJob_t, enqueueJob. apply tracks_bind; [apply tracks_act|]. intros [].
  - by intros s.
  - cbn [orb]. track.
Qed.
#[local] Hint Resolve t_putJob t_putWorker t_enqueueJob : tracks.
Lemma t_armEnqueue id d : tracks (armEnqueue_t id d) (armEnqueue (St := St) id d).
Proof. unfold armEnqueue_t, armEnqueue. track. Qed.
Lemma t_timer_fired id : tracks (timer_fired_t id) (timer_fired (St := St) id).
Proof. unfold timer_fired_t, timer_fired. track. Qed.
Lemma t_clear : tracks clearSchedulingState_t (clearSchedulingState (St := St)).
Proof. by intros s. Qed.
#[local] Hint Resolve t_armEnqueue t_clear : tracks.

Lemma t_depsSatisfied j : tracks (depsSatisfied_t j) (depsSatisfied (St := St) j).
Proof.
  unfold depsSatisfied_t, depsSatisfied. induction (Job_DependsOn j) as [|d ds IH]; intros s; [done|]. simpl.
  unfold getJob, gets, eval, exec. simpl. destruct (GetJob d (sv_store s)) as [dep|]; [|done].
  destruct (Job_State dep); try done.
Qed.
Lemma t_fire_time j now : tracks (fire_time_t j now) (fire_time (St := St) j now).
Proof. unfold fire_time_t, fire_time. track. Qed.
#[local] Hint Resolve t_depsSatisfied t_fire_time : tracks.
Lemma t_makeReady j now : tracks (makeReady_t j now) (makeReady (St := St) j now).
Proof. unfold makeReady_t, makeReady. track. Qed.
#[local] Hint Resolve t_makeReady : tracks.
Lemma t_placeNewJob j now : tracks (placeNewJob_t j now) (placeNewJob (St := St) j now).
Proof. unfold placeNewJob_t, placeNewJob. track. Qed.
Lemma t_cascade_step cur reason now : tracks (cascade_step_t cur reason now) (cascade_step (St := St) cur reason now).
Proof. unfold cascade_step_t, cascade_step. track. Qed.
#[local] Hint Resolve t_placeNewJob t_cascade_step : tracks.
Lemma t_cascade fuel work visited reason now :
  tracks (cascade_t fuel work visited reason now) (cascade (St := St) fuel work visited reason now).
Proof.
  revert work visited reason. induction fuel as [|fuel IH]; intros [|cur work] visited reason; cbn [cascade_t cascade]; track.
Qed.
#[local] Hint Resolve t_cascade : tracks.
Lemma t_cancelCascade id reason : tracks (cancelCascade_t 0 id reason) (cancelCascade (St := St) id reason).
Proof. unfold cancelCascade_t, cancelCascade. track. Qed.
#[local] Hint Resolve t_cancelCascade : tracks.
Lemma t_tryPromote id : tracks (tryPromote_t 0 id) (tryPromote (St := St) id).
Proof. unfold tryPromote_t, tryPromote. track. Qed.
#[local] Hint Resolve t_tryPromote : tracks.
Lemma t_promoteDependents id : tracks (promoteDependents_t 0 id) (promoteDependents (St := St) id).
Proof. unfold promoteDependents_t, promoteDependents. track. Qed.
Lemma t_cron j now : tracks (maybeRescheduleCron_t j now) (maybeRescheduleCron (St := St) j now).
Proof. unfold maybeRescheduleCron_t, maybeRescheduleCron. track. Qed.
#[local] Hint Resolve t_promoteDependents t_cron : tracks.

Lemma t_poll_loop fuel n w now out : tracks (poll_loop_t fuel n w now out) (poll_loop (St := St) fuel n w now out).
Proof. revert out. induction fuel as [|fuel IH]; intros out; cbn [poll_loop_t poll_loop]; track. Qed.
#[local] Hint Resolve t_poll_loop : tracks.
Lemma t_PollTask w n : tracks (PollTask_t 0 w n) (PollTask (St := St) w n).
Proof. unfold PollTask_t, PollTask. track. Qed.
Lemma t_handleFailure j msg now : tracks (handleFailure_t 0 j msg now) (handleFailure (St := St) j msg now).
Proof. unfold handleFailure_t, handleFailure. track. Qed.
#[local] Hint Resolve t_handleFailure : tracks.
Lemma t_ReportTask t r msg : tracks (ReportTask_t 0 t r msg) (ReportTask (St := St) t r msg).
Proof. unfold ReportTask_t, ReportTask. track. Qed.
Lemma t_SubmitJob req : tracks (SubmitJob_t req) (SubmitJob (St := St) req).
Proof. unfold SubmitJob_t, SubmitJob. track. Qed.
Lemma t_CancelJob id : tracks (CancelJob_t 0 id) (CancelJob (St := St) id).
Proof. unfold CancelJob_t, CancelJob, loadJob_t. track. Qed.
Lemma t_RegisterWorker w : tracks (RegisterWorker_t w) (RegisterWorker (St := St) w).
Proof. unfold RegisterWorker_t, RegisterWorker. track. Qed.
Lemma t_Heartbeat w ts : tracks (Heartbeat_t w ts) (Heartbeat (St := St) w ts).
Proof. unfold Heartbeat_t, Heartbeat. track. Qed.
Lemma t_requeueLease t reason : tracks (requeueLease_t 0 t reason) (requeueLease (St := St) t reason).
Proof. unfold requeueLease_t, requeueLease. track. Qed.
#[local] Hint Resolve t_requeueLease : tracks.
(** [reapOnce] with the section under [workersMu] named. *)
Lemma reapOnce_scan :
  reapOnce (St := St) =
    (now ← Now;
     timeout ← gets (λ s, s.(sv_cfg).(Config_HeartbeatTimeout));
     changes ← scan_workers timeout now;
     forM_ changes (λ c, _ ← putWorker c.2; mret tt);;
     forM_ (filter (λ c, c.2.(WorkerInfo_State) = WORKER_STATE_DEAD) changes)
       (λ c, requeueLeasesForWorker c.1 "worker missed heartbeats");;
     expired ← leases_where (λ l, (l.(lease_deadline) <? now)%Z);
     forM_ expired (λ t, requeueLease t "lease deadline exceeded")).
Proof. reflexivity. Qed.
Lemma t_reaper_tick : tracks (reaper_tick_t 0) (reaper_tick (St := St)).
Proof.
  unfold reaper_tick_t, reaper_tick. rewrite reapOnce_scan.
  unfold reapOnce_t, requeueLeasesForWorker_t, requeueLeasesForWorker. track.
Qed.

Lemma t_Replicate t l es : tracks (Replicate_t t l es) (Replicate (St := St) t l es).
Proof. unfold Replicate_t, Replicate, applyEntries_t, applyEntries, applyEntry_t, applyEntry. track. Qed.
Lemma t_replication_tick rpc : tracks (replication_tick_t rpc) (replication_tick (St := St) rpc).
Proof.
  unfold replication_tick_t, replication_tick, broadcastReplicate_t, broadcastReplicate, replicate_to_t, replicate_to. track.
Qed.

(** The methods of the election node on the server's state. *)
Lemma on_node_bind {A B} (m : M (NodeState St) A) (f : A → M (NodeState St) B) s :
  on_node (m ≫= f) s = (on_node m ≫= λ a, on_node (f a)) s.
Proof. unfold on_node, mbind, M_bind. destruct (m _) as [a [n st k]]. simpl. by destruct (f a _). Qed.

Lemma t_startElection rs : tracks (startElection_t rs) (on_node (startElection (St := St) rs)).
Proof.
  eapply tracks_ext; [intros s; apply on_node_bind|].
  apply tracks_bind; [apply tracks_act|]. intros [t ps]. cbn [fst snd].
  generalize (take (length ps) rs) 1%Z. intros l. induction l as [|r l IH]; intros v.
  { intros s. by destruct s. }
  eapply tracks_ext; [intros s; apply on_node_bind|].
  apply tracks_bind; [apply tracks_act|]. intros [v'|]; [apply IH|]. intros s. by destruct s.
Qed.

Lemma t_rebuild_all now jobs : tracks (rebuild_all_t 0 now jobs) (rebuild_all (St := St) now jobs).
Proof. induction jobs as [|j jobs IH]; simpl; unfold rebuild_one_t, rebuild_one; track. Qed.
Lemma t_seedReplication : tracks seedReplication_t (seedReplication (St := St)).
Proof. intros s. exact (tracks_act (seed_locked (snapshot s.(sv_store))) s). Qed.
#[local] Hint Resolve t_rebuild_all t_seedReplication : tracks.
Lemma t_onBecomeLeader t : tracks (onBecomeLeader_t 0 t) (onBecomeLeader (St := St) t).
Proof. unfold onBecomeLeader_t, onBecomeLeader, rebuildSchedulingState_t, rebuildSchedulingState. track. Qed.
Lemma t_run_callback i : tracks (run_callback_t 0 i) (run_callback (St := St) i).
Proof.
  intros s. unfold run_callback_t. rewrite run_bind. unfold eval, exec. rewrite (tracks_act (take_callback i) s).
  unfold take_callback, run_callback. rewrite !bind_run. mrun.
  destruct (Node_spawned (sv_node s) !! i) as [[t|t]|]; [apply t_onBecomeLeader|apply t_clear|done].
Qed.
#[local] Hint Resolve t_onBecomeLeader : tracks.
Lemma t_start_server : tracks (start_server_t 0) (start_server (St := St)).
Proof. unfold start_server_t, start_server, recover_t, recover, onStepDown_t, onStepDown. track. Qed.

Lemma tracks_forget {A} (p : prog (Server St) A) m : tracks p m → tracks (_ ← p; mret tt) (_ ← m; mret tt).
Proof. intros H. by apply tracks_bind. Qed.

Lemma thread_tracks o :
  match thread 0 o with
  | Some p => tracks p (run_op (St := St) o)
  | None => o = Restart
  end.
Proof.
  destruct o; cbn [thread run_op]; try done;
    first [apply t_timer_fired|apply t_reaper_tick|apply t_replication_tick|apply t_startElection|apply t_run_callback
          |by intros s|apply tracks_forget].
  - apply t_SubmitJob.
  - apply t_CancelJob.
  - apply t_PollTask.
  - apply t_ReportTask.
  - apply t_RegisterWorker.
  - apply t_Heartbeat.
  - apply t_Replicate.
Qed.

(** C19. The goroutine of every operation, run without interruption, does exactly
    what the operation does on the machine of [System.v], whatever the store, the
    clock and the other parameters answer; only a restart is no goroutine. *)
Theorem threads_refine_handlers o :
  match thread 0 o with
  | Some p => ∀ s, run p s = run_op (St := St) o s
  | None => o = Restart
  end.
Proof. exact (thread_tracks o). Qed.

End uninterrupted.
