(* ===== verification/Interleave.v ===== *)
(** * The node under every interleaving of its goroutines

    The node as a pool of goroutines that run the handlers of [Threads.v] section
    by section, in any order; goroutines start at any time, shipments of a
    leader arrive at any time, and a crash ends all goroutines and restarts the
    node from its store.  The uninterrupted machine of [System.v] is one of its
    schedules, and a cluster is a set of such nodes between which shipments
    travel.  Proved for every schedule: dependencies succeed before a job is past
    waiting, attempts are bounded, dead letters are indexed, the replication log
    is numbered, the ready queue is well formed and workers are in a known state.
    What needs handlers not to interleave fails: [Races.v] has the runs. *)

From stdpp Require Import relations.
From S2P Require Import Prelude Types Queue Retry Env Cluster Store MemStore Server Cycle Deps Lifecycle.
From S2P Require Import Dispatch Jobs Workers Replication Leadership Handlers Refinement Rebuild System Leases Ready Cascade.
From S2P Require Import ReplLog Metrics Prog Threads.

(** ** The machine *)

(** [D] are the jobs that are stored as SUCCEEDED at some time. *)
Definition cleared (D : string → Prop) (j : Job) : Prop :=
  active j.(Job_State) = true → Forall D j.(Job_DependsOn).

(** A job whose attempts are within its policy, which fits the wire format, and
    that is not past waiting unless its dependencies have succeeded. *)
Definition good (D : string → Prop) (j : Job) : Prop := attempts_ok j ∧ wire_job j ∧ cleared D j.

Definition good_entry (D : string → Prop) (e : ReplicationEntry) : Prop :=
  match e.(ReplicationEntry_Mutation) with
  | Some (ReplicationEntry_UpsertJob j) => good D j
  | Some (ReplicationEntry_UpsertWorker w) => known w = true
  | _ => True
  end.

(** Submissions have a policy that fits the wire format. *)
Definition admitted (o : op) : Prop :=
  match o with Submit (Some j) => wire_job j | _ => True end.

Section interleave.
Context {St : Type} {Gstore : JobStore St} {Genv : Env} {Gcron : Cron}.
Implicit Types (s : Server St) (j : Job).

Abbreviation conf := (list (prog (Server St) unit) * Server St)%type.

(** [arrives] is what other nodes may ship to this one. *)
Inductive conc_step (arrives : list ReplicationEntry → Prop) : conf → conf → Prop :=
| c_begin rounds o p ts s :
    admitted o → thread rounds o = Some p → conc_step arrives (ts, s) (ts ++ [p], s)
| c_shipment t l es ts s :
    arrives es → conc_step arrives (ts, s) (ts ++ [_ ← Replicate_t t l es; mret tt], s)
| c_section c c' : pool_step c c' → conc_step arrives c c'
| c_end ts1 ts2 s : conc_step arrives (ts1 ++ Ret tt :: ts2, s) (ts1 ++ ts2, s)
| c_crash rounds ts s :
    conc_step arrives (ts, s)
      ([_ ← start_server_t rounds; mret tt], new_server s.(sv_cfg) s.(sv_store) s.(sv_tick)).

(** A node that has not started, on a store without jobs and with workers in
    one of the liveness states. *)
Definition fresh_pool (c : conf) : Prop :=
  c.1 = [] ∧ fresh_node c.2 ∧ map_Forall (λ _ w, known w = true) (stored_workers c.2).

Definition conc_reachable arrives (c : conf) : Prop := ∃ c0, fresh_pool c0 ∧ rtc (conc_step arrives) c0 c.

(** ** The invariant *)

(** Every job that is stored as SUCCEEDED is in [D]. *)
Definition marked (D : string → Prop) s : Prop :=
  map_Forall (λ id j, j.(Job_State) = JOB_STATE_SUCCEEDED → D id) (jobs_of s).

Section invariant.
Context (D : string → Prop) (arrives : list ReplicationEntry → Prop).

Record cinv s : Prop := {
  ci_queue : queue_wf s.(sv_queue);
  ci_jobs : map_Forall (λ _ j, good D j) (jobs_of s);
  ci_marked : marked D s;
  ci_dead : (∀ es, ¬ arrives es) →
    map_Forall (λ id j, j.(Job_State) = JOB_STATE_FAILED → is_Some (dead_of s !! id)) (jobs_of s);
  ci_entries : Forall (good_entry D) s.(sv_replLog);
  ci_numbered : (Z.of_nat (length s.(sv_replLog)) <= max_int64)%Z →
    numbered s.(sv_replLog) ∧ s.(sv_replSeq) = Z.of_nat (length s.(sv_replLog));
  ci_workers : workers_ok s
}.

(** Dead letters are never removed. *)
Definition dead_grows s s' : Prop := ∀ id, is_Some (dead_of s !! id) → is_Some (dead_of s' !! id).

#[local] Instance dead_grows_preorder : PreOrder dead_grows.
Proof. split; [by intros s id|]. intros a b c H1 H2 id Hi. by apply H2, H1. Qed.

(** Everything the invariant looks at. *)
Definition same_vital s s' : Prop :=
  s'.(sv_queue) = s.(sv_queue) ∧ jobs_of s' = jobs_of s ∧ dead_of s' = dead_of s ∧
  s'.(sv_replLog) = s.(sv_replLog) ∧ s'.(sv_replSeq) = s.(sv_replSeq) ∧
  s'.(sv_workers) = s.(sv_workers) ∧ stored_workers s' = stored_workers s.

#[local] Instance same_vital_preorder : PreOrder same_vital.
Proof.
  split; [by intros s|]. intros a b c (?&?&?&?&?&?&?) (?&?&?&?&?&?&?). split_and!; congruence.
Qed.

Lemma vital_cinv s s' : same_vital s s' → cinv s → cinv s' ∧ dead_grows s s'.
Proof.
  intros (H1 & H2 & H3 & H4 & H5 & H6 & H7) [I1 I2 I0 I3 I4 I5 [I6 I7]]. split.
  - split; [by rewrite H1|by rewrite H2|unfold marked; by rewrite H2|rewrite H2, H3|by rewrite H4|by rewrite H4, H5|]; [done|].
    split; [by rewrite H6|by rewrite H7].
  - intros id. by rewrite H3.
Qed.

(** A program that keeps the invariant, with a postcondition on its result. *)
Definition sec {A} (Q : A → Prop) (p : prog (Server St) A) : Prop :=
  ∀ s, secure (marked D) cinv dead_grows (λ a _, Q a) p s.

Lemma sec_ret {A} (Q : A → Prop) a : Q a → sec Q (mret a).
Proof. by intros H s. Qed.
Lemma sec_bind {A B} (P : A → Prop) (Q : B → Prop) (p : prog (Server St) A) f :
  sec P p → (∀ a, P a → sec Q (f a)) → sec Q (p ≫= f).
Proof. intros Hp Hf s. eapply secure_seq; [apply Hp|]. intros a s1 Ha. by apply Hf. Qed.
Lemma sec_mono {A} (P Q : A → Prop) (p : prog (Server St) A) : (∀ a, P a → Q a) → sec P p → sec Q p.
Proof. intros H Hp s. eapply secure_mono; [|apply Hp]. auto. Qed.
Lemma sec_for {A} (l : list A) body : (∀ x, x ∈ l → sec (λ _, True) (body x)) → sec (λ _, True) (forP l body).
Proof. intros H s. apply secure_for. intros x s1 Hx. by apply H. Qed.
Lemma sec_act {A} (Q : A → Prop) (m : M (Server St) A) :
  (∀ s, cinv s → marked D (exec m s) → cinv (exec m s) ∧ dead_grows s (exec m s) ∧ Q (eval m s)) → sec Q (act m).
Proof. intros H s s' Hs _ Hm. by apply H. Qed.
Lemma sec_idle {A} (m : M (Server St) A) : within same_vital m → sec (λ _, True) (act m).
Proof. intros H. apply sec_act. intros s Hs _. by destruct (vital_cinv s (exec m s) (H s) Hs). Qed.
Lemma sec_read {A} (Q : A → Prop) (f : Server St → A) : (∀ s, cinv s → Q (f s)) → sec Q (act (gets f)).
Proof. intros H. apply sec_act. intros s Hs _. split_and!; [done|by intros id|by apply H]. Qed.

Create HintDb sec.

(** *** Sections that touch nothing vital *)

Lemma vital_modify (f : Server St → Server St) : (∀ s, same_vital s (f s)) → within same_vital (modify f).
Proof. intros H s. apply H. Qed.
Lemma vital_next : within same_vital next_tick.
Proof. by intros s. Qed.
Lemma vital_node {A} (m : M (NodeState St) A) : within node_keeps m → within same_vital (on_node m).
Proof.
  intros Hm s. destruct (Hm (mkNodeState (sv_node s) (sv_store s) (sv_tick s))) as (H1 & H2 & H3).
  unfold exec, on_node in *. by destruct (m _) as [a n].
Qed.
#[local] Hint Resolve vital_next vital_node node_keeps_HandleVote node_keeps_ObserveLeader node_keeps_MaybeStepDown
  node_keeps_Start node_keeps_begin node_keeps_vote : pres.

Ltac idle := walk; try (apply vital_modify; intros s'; done).

Lemma sec_tick : sec (λ _, True) (act next_tick).
Proof. apply sec_idle. idle. Qed.
Lemma sec_Now : sec (λ _, True) (act Now).
Proof. apply sec_idle. unfold Now. idle. Qed.
Lemma sec_Until t : sec (λ _, True) (act (Until t)).
Proof. apply sec_idle. unfold Until, Now. idle. Qed.
Lemma sec_new_id p : sec (λ _, True) (act (new_id p)).
Proof. apply sec_idle. unfold new_id. idle. Qed.
Lemma sec_range l : sec (λ _, True) (act (range_keys l)).
Proof. apply sec_idle. unfold range_keys. idle. Qed.
Lemma sec_gets {A} (f : Server St → A) : sec (λ _, True) (act (gets f)).
Proof. by apply sec_read. Qed.
Lemma sec_count c : sec (λ _, True) (act (count c)).
Proof. apply sec_idle. unfold count. idle. Qed.
Lemma sec_timers (f : Server St → gmap string Z) :
  sec (λ _, True) (act (modify (λ s, set_sv_retryTimers (f s) s))).
Proof. apply sec_idle. idle. Qed.
Lemma sec_addDeps j : sec (λ _, True) (act (addDeps j)).
Proof. apply sec_idle. unfold addDeps. idle. Qed.
Lemma sec_removeFromIndex id : sec (λ _, True) (act (removeFromIndex id)).
Proof. apply sec_idle. unfold removeFromIndex. idle. Qed.
Lemma sec_dependentsOf id : sec (λ _, True) (act (dependentsOf id)).
Proof. apply sec_idle. unfold dependentsOf, range_keys. idle. Qed.
Lemma sec_addLease l : sec (λ _, True) (act (addLease l)).
Proof. apply sec_idle. unfold addLease. idle. Qed.
Lemma sec_removeLease t : sec (λ _, True) (act (removeLease t)).
Proof. apply sec_idle. unfold removeLease. idle. Qed.
Lemma sec_leases_where P : sec (λ _, True) (act (leases_where P)).
Proof. apply sec_idle. unfold leases_where, range_keys. idle. Qed.
Lemma sec_valid_cron j : sec (λ _, True) (act (valid_cron j)).
Proof. apply sec_idle. unfold valid_cron, Now. idle. Qed.
Lemma sec_rejects_cycle j : sec (λ _, True) (act (rejects_cycle j)).
Proof. apply sec_idle. unfold rejects_cycle, wouldCreateCycle. idle. Qed.
Lemma sec_node {A} (m : M (NodeState St) A) : within node_keeps m → sec (λ _, True) (act (on_node m)).
Proof. intros H. by apply sec_idle, vital_node. Qed.
Lemma sec_ackPeer p n : sec (λ _, True) (act (ackPeer p n)).
Proof. apply sec_idle. unfold ackPeer. idle. apply vital_modify. intros s. by destruct (_ <? _)%Z. Qed.
Lemma sec_take_callback i : sec (λ _, True) (act (take_callback i)).
Proof. apply sec_idle. unfold take_callback. idle. Qed.
Lemma sec_with_id j : sec (λ j', ∃ id, j' = set_Job_Id id j) (act (with_id j)).
Proof.
  apply sec_act. intros s Hs _.
  assert (within same_vital (with_id j)) as Hw by (unfold with_id, new_id; idle).
  destruct (vital_cinv s _ (Hw s) Hs). split_and!; [done|done|]. unfold with_id. destruct (String.eqb _ _); mrun; [by eexists|].
  exists (Job_Id j). by destruct j.
Qed.
#[local] Hint Resolve sec_tick sec_Now sec_Until sec_new_id sec_range sec_count sec_timers sec_addDeps
  sec_removeFromIndex sec_dependentsOf sec_addLease sec_removeLease sec_leases_where sec_valid_cron sec_rejects_cycle
  sec_ackPeer sec_take_callback sec_with_id : sec.

(** *** Reads *)

Definition read_good {E} (id : string) (r : Job + E) : Prop :=
  ∀ j, r = inl j → good D j ∧ (j.(Job_State) = JOB_STATE_SUCCEEDED → D id).

Lemma sec_getJob id : sec (read_good id) (act (getJob id)).
Proof.
  apply sec_read. intros s Hs j Hj. pose proof (GetJob_reads id (sv_store s)) as Hr. rewrite Hj in Hr.
  exact (conj (ci_jobs s Hs id j Hr) (ci_marked s Hs id j Hr)).
Qed.
Lemma sec_loadJob id : sec (read_good id) (loadJob_t id).
Proof.
  apply sec_act. intros s Hs _. assert (within same_vital (loadJob id)) as Hw by (unfold loadJob, getJob; idle).
  destruct (vital_cinv s _ (Hw s) Hs). split_and!; [done|done|]. intros j. unfold loadJob, getJob.
  destruct (String.eqb id ""); mrun; [done|]. pose proof (GetJob_reads id (sv_store s)) as Hr.
  destruct (GetJob id (sv_store s)) as [j0|[]]; mrun; [|done..]. intros [= <-].
  exact (conj (ci_jobs s Hs id j0 Hr) (ci_marked s Hs id j0 Hr)).
Qed.
Lemma sec_ListJobs :
  sec (λ r, ∀ js, r = inl js → Forall (good D) js) (act (gets (λ s : Server St, ListJobs s.(sv_store)))).
Proof.
  apply sec_read. intros s Hs js Hl. pose proof (ListJobs_lists (sv_store s)) as Hp. rewrite Hl in Hp. destruct Hp as [Hp _].
  apply Forall_forall. intros j Hj. rewrite Hp in Hj.
  apply list_elem_of_fmap in Hj as ([id j'] & -> & Hj%elem_of_map_to_list). exact (ci_jobs s Hs id j' Hj).
Qed.
Lemma sec_ListWorkers :
  sec (λ r, ∀ ws, r = inl ws → Forall (λ w, known w = true) ws) (act (gets (λ s : Server St, ListWorkers s.(sv_store)))).
Proof.
  apply sec_read. intros s Hs ws Hl. pose proof (ListWorkers_lists (sv_store s)) as Hp. rewrite Hl in Hp. destruct Hp as [Hp _].
  apply Forall_forall. intros w Hw. rewrite Hp in Hw.
  apply list_elem_of_fmap in Hw as ([id w'] & -> & Hw%elem_of_map_to_list). exact (proj2 (ci_workers s Hs) id w' Hw).
Qed.
Lemma sec_scan timeout now : sec (λ cs, ∀ c, c ∈ cs → known c.2 = true) (act (scan_workers timeout now)).
Proof.
  apply sec_act. intros s Hs _.
  assert (within same_vital (scan_workers timeout now)) as Hw by (unfold scan_workers, range_keys; idle).
  destruct (vital_cinv s _ (Hw s) Hs). split_and!; [done|done|]. intros c. unfold scan_workers. mrun.
  apply liveness_changes_known.
Qed.

(** *** Writes *)

(** The jobs, dead letters and workers after a write to the store. *)
Lemma store_write (op : M St (option string)) g s :
  writes st_view op g →
  let s' := exec (on_store op) s in
  s'.(sv_queue) = s.(sv_queue) ∧ s'.(sv_replLog) = s.(sv_replLog) ∧ s'.(sv_replSeq) = s.(sv_replSeq) ∧
  s'.(sv_workers) = s.(sv_workers) ∧
  st_view s'.(sv_store) = match eval (on_store op) s with None => g (st_view s.(sv_store)) | Some _ => st_view s.(sv_store) end.
Proof. intros Hw. split_and!; try done. exact (Hw (sv_store s)). Qed.

Lemma put_cinv s j :
  cinv s → good D j → marked D (exec (on_store (PutJob j)) s) → (j.(Job_State) = JOB_STATE_FAILED → (∀ es, ¬ arrives es) → is_Some (dead_of s !! j.(Job_Id))) →
  cinv (exec (on_store (PutJob j)) s) ∧ dead_grows s (exec (on_store (PutJob j)) s).
Proof.
  intros Hs Hj Hm Hd. destruct (store_write _ _ s (PutJob_writes j)) as (H1 & H2 & H3 & H4 & Hv).
  revert H1 H2 H3 H4 Hv Hm. generalize (exec (on_store (PutJob j)) s). intros s' H1 H2 H3 H4 Hv Hm.
  destruct (eval _ s).
  { apply vital_cinv; [|done]. unfold same_vital, jobs_of, dead_of, stored_workers. by rewrite Hv. }
  assert (jobs_of s' = <[j.(Job_Id):=j]> (jobs_of s)) as Hjobs by (unfold jobs_of; by rewrite Hv).
  assert (dead_of s' = dead_of s) as Hdead by (unfold dead_of; by rewrite Hv).
  destruct Hs as [I1 I2 I0 I3 I4 I5 [I6 I7]]. split; [|intros id; by rewrite Hdead].
  split; rewrite ?H1, ?H2, ?H3, ?Hjobs, ?Hdead; [done|by apply map_Forall_insert_2|done| |done..|].
  - intros Ha. apply map_Forall_insert_2; [by intros; apply Hd|by apply I3].
  - split; [by rewrite H4|]. unfold stored_workers. by rewrite Hv.
Qed.

Lemma sec_store_dead j s :
  secure (marked D) cinv dead_grows (λ r s', r = None → is_Some (dead_of s' !! j.(Job_Id))) (act (on_store (PutDeadLetter j))) s.
Proof.
  intros s1 Hs _ _. destruct (store_write _ _ s1 (PutDeadLetter_writes j)) as (H1 & H2 & H3 & H4 & Hv).
  revert H1 H2 H3 H4 Hv. generalize (exec (on_store (PutDeadLetter j)) s1). intros s' H1 H2 H3 H4 Hv.
  destruct (eval _ s1) eqn:Ee; simpl.
  { destruct (vital_cinv s1 s'); [unfold same_vital, jobs_of, dead_of, stored_workers; by rewrite Hv|done|done]. }
  assert (dead_of s' = <[j.(Job_Id):=j]> (dead_of s1)) as Hdead by (unfold dead_of; by rewrite Hv).
  assert (jobs_of s' = jobs_of s1) as Hjobs by (unfold jobs_of; by rewrite Hv).
  assert (dead_grows s1 s') as Hg.
  { intros id Hid. rewrite Hdead. destruct (decide (j.(Job_Id) = id)) as [<-|]; [by rewrite lookup_insert_eq; eexists|].
    by rewrite lookup_insert_ne. }
  destruct Hs as [I1 I2 I0 I3 I4 I5 [I6 I7]]. split_and!; [|done|intros _; rewrite Hdead, lookup_insert_eq; by eexists].
  split; unfold marked; rewrite ?H1, ?H2, ?H3, ?Hjobs; [done|done|done| |done..|].
  - intros Ha id j' Hj' Hf. by apply Hg, (I3 Ha id j').
  - split; [by rewrite H4|]. unfold stored_workers. by rewrite Hv.
Qed.

Lemma sec_store_worker w : known w = true → sec (λ _, True) (act (on_store (PutWorker w))).
Proof.
  intros Hw. apply sec_act. intros s Hs _. destruct (store_write _ _ s (PutWorker_writes w)) as (H1 & H2 & H3 & H4 & Hv).
  revert H1 H2 H3 H4 Hv. generalize (exec (on_store (PutWorker w)) s). intros s' H1 H2 H3 H4 Hv.
  assert (jobs_of s' = jobs_of s ∧ dead_of s' = dead_of s) as [Hjobs Hdead].
  { unfold jobs_of, dead_of. rewrite Hv. by destruct (eval _ s). }
  split_and!; [|intros id; by rewrite Hdead|done]. destruct Hs as [I1 I2 I0 I3 I4 I5 [I6 I7]].
  split; unfold marked; rewrite ?H1, ?H2, ?H3, ?Hjobs, ?Hdead; [done..|]. split; [by rewrite H4|]. unfold stored_workers.
  rewrite Hv. destruct (eval _ s); [done|]. by apply map_Forall_insert_2.
Qed.

Lemma sec_store_delete id : sec (λ _, True) (act (on_store (DeleteJob id))).
Proof.
  apply sec_act. intros s Hs _. destruct (store_write _ _ s (DeleteJob_writes id)) as (H1 & H2 & H3 & H4 & Hv).
  revert H1 H2 H3 H4 Hv. generalize (exec (on_store (DeleteJob id)) s). intros s' H1 H2 H3 H4 Hv.
  assert (jobs_of s' ⊆ jobs_of s ∧ dead_of s' = dead_of s ∧ stored_workers s' = stored_workers s) as (Hjobs & Hdead & Hws).
  { unfold jobs_of, dead_of, stored_workers. rewrite Hv. destruct (eval _ s); [done|]. split_and!; [apply delete_subseteq|done..]. }
  split_and!; [|intros k; by rewrite Hdead|done]. destruct Hs as [I1 I2 I0 I3 I4 I5 [I6 I7]].
  split; rewrite ?H1, ?H2, ?H3, ?Hdead; [done| | | |done..|].
  - intros k j Hj. apply (I2 k). by eapply lookup_weaken.
  - intros k j Hj. apply (I0 k). by eapply lookup_weaken.
  - intros Ha k j Hj. apply (I3 Ha k). by eapply lookup_weaken.
  - split; [by rewrite H4|by rewrite Hws].
Qed.

Lemma sec_cache_worker w :
  known w = true → sec (λ _, True) (act (modify (λ s : Server St, set_sv_workers (<[w.(WorkerInfo_Id):=w]> s.(sv_workers)) s))).
Proof.
  intros Hw. apply sec_act. intros s [I1 I2 I0 I3 I4 I5 [I6 I7]] _. split_and!; [|by intros id|done].
  split; [done..|]. split; [by apply map_Forall_insert_2|done].
Qed.

Lemma sec_queue {A} (op : PriorityQueue → A * PriorityQueue) :
  (∀ q, queue_wf q → queue_wf (op q).2) → sec (λ _, True) (act (on_queue op)).
Proof.
  intros Hop. apply sec_act. intros s [I1 I2 I0 I3 I4 I5 I6] _. specialize (Hop _ I1). unfold exec, on_queue.
  destruct (op (sv_queue s)) as [a q]. split_and!; [by split|by intros id|done].
Qed.
Lemma sec_push id p c : sec (λ _, True) (act (on_queue (Queue_Push id p c))).
Proof. apply sec_queue, push_wf_any. Qed.
Lemma sec_pop : sec (λ _, True) (act (on_queue Queue_Pop)).
Proof. apply sec_queue, pop_wf_any. Qed.
Lemma sec_remove id : sec (λ _, True) (act (on_queue (Queue_Remove id))).
Proof. apply sec_queue, remove_wf_any. Qed.
Lemma sec_clear_queue : sec (λ _, True) (act (on_queue (λ q, (tt, Queue_Clear q)))).
Proof. apply sec_queue, clear_wf. Qed.

(** Numbering survives an append. *)
Lemma append_cinv s e :
  cinv s → good_entry D e →
  cinv (s |> set_sv_replSeq (int64 (s.(sv_replSeq) + 1))
          |> set_sv_replLog (s.(sv_replLog) ++ [set_ReplicationEntry_Seq (int64 (s.(sv_replSeq) + 1)) e])).
Proof.
  intros [I1 I2 I0 I3 I4 I5 I6] He. split; [done..| | |done].
  - apply Forall_app. split; [done|]. by apply Forall_singleton.
  - cbn. rewrite length_app. cbn. intros Hl. destruct I5 as [Hn Hs]; [lia|]. rewrite Hs, int64_small by (unfold min_int64; lia).
    split; [|lia]. apply numbered_app; [done|]. cbn. lia.
Qed.
Lemma sec_append_locked e : good_entry D e → sec (λ _, True) (act (append_locked e)).
Proof. intros He. apply sec_act. intros s Hs _. split_and!; [exact (append_cinv s e Hs He)|by intros id|done]. Qed.

Lemma sec_seed_locked ms :
  Forall (λ m, good_entry D (mkReplicationEntry 0 (Some m))) ms → sec (λ _, True) (act (seed_locked ms)).
Proof.
  intros Hms. apply sec_act. intros s Hs _. split_and!; [| |done]; unfold seed_locked; mrun.
  - assert (cinv (set_sv_peerAcked ∅ (set_sv_replSeq 0 (set_sv_replLog [] s)))) as H0.
    { destruct Hs as [I1 I2 I0 I3 I4 I5 I6]. by split. }
    revert H0. generalize (set_sv_peerAcked ∅ (set_sv_replSeq 0 (set_sv_replLog [] s))). clear Hs s.
    induction Hms as [|m ms Hm _ IH]; intros s Hs; [done|]. simpl. mrun. apply IH.
    exact (append_cinv s (mkReplicationEntry 0 (Some m)) Hs Hm).
  - intros id. match goal with |- is_Some (_ !! id) → is_Some (dead_of (exec _ ?s0) !! id) => change (dead_of s) with (dead_of s0);
      generalize s0 end. clear Hs s. induction ms as [|m ms IH]; intros s Hs; [done|]. simpl. mrun.
    apply Forall_cons in Hms as [_ Hms]. by apply IH.
Qed.

(** *** Handlers *)

#[local] Hint Resolve sec_getJob sec_loadJob sec_ListJobs sec_ListWorkers sec_scan | 0 : sec.
#[local] Hint Resolve sec_gets | 10 : sec.
#[local] Hint Resolve sec_store_worker sec_store_delete sec_cache_worker sec_push sec_pop sec_remove sec_clear_queue
  sec_append_locked sec_seed_locked : sec.

Ltac safe_step :=
  match goal with
  | |- sec _ (mret _) => by apply sec_ret
  | |- sec _ (_ ≫= _) => eapply sec_bind; [solve [eauto with sec]|cbv beta; intros ? ?]
  | |- sec _ (forP _ _) => apply sec_for; intros ? ?
  | |- sec _ (whenP _ _) => unfold whenP
  | |- sec _ (match ?x with _ => _ end) => destruct x eqn:?
  | |- sec (λ _, True) _ => eapply sec_mono; [done|solve [eauto with sec]]
  | |- sec _ ((_ ≫= _) ≫= _) => apply (sec_bind (λ _, True)); [|intros ? _]
  | |- sec _ (whenP _ _ ≫= _) => apply (sec_bind (λ _, True)); [|intros ? _]
  | |- sec _ (forP _ _ ≫= _) => apply (sec_bind (λ _, True)); [|intros ? _]
  | |- sec _ ((match _ with _ => _ end) ≫= _) => apply (sec_bind (λ _, True)); [|intros ? _]
  end.
Ltac keep_safe := repeat (safe_step || solve [eauto with sec]).

(** A job whose attempts are within bounds, whatever its state. *)
Definition bounded j : Prop :=
  (0 <= j.(Job_Attempt) <= MaxAttempts j.(Job_RetryPolicy))%Z ∧ wire_job j.

Lemma good_bounded j : good D j → bounded j.
Proof. by intros ([? _] & ? & _). Qed.

(** The dependencies of a job, from those of the copy it was made from. *)
Ltac by_cleared :=
  match goal with
  | |- cleared _ _ => let H := fresh in intros H; simpl in H |- *; (discriminate H || assumption || by_cleared)
  | H : cleared _ ?j, E : Job_State ?j = _ |- Forall _ (Job_DependsOn ?j) => apply H; rewrite E; reflexivity
  end.

(** The states a job may be written in. *)
Ltac goodness :=
  repeat match goal with
  | H : read_good _ (inl ?j) |- _ => destruct (H j eq_refl) as [? _]; clear H
  | H : good _ _ |- _ => destruct H as ((? & ? & ? & ?) & ? & ?)
  | H : bounded _ |- _ => destruct H as [? ?]
  | H : bool_decide (_ ≠ _) = false |- _ => apply bool_decide_eq_false, dec_stable in H
  | H : (_ <? _)%Z = true |- _ => apply Z.ltb_lt in H
  | H : (_ <? _)%Z = false |- _ => apply Z.ltb_ge in H
  end;
  repeat split; simpl in *; try done; try lia; intros; simplify_eq; try lia; try (by auto); try by_cleared.

Lemma good_dispatched w now j : good D j → j.(Job_State) = JOB_STATE_QUEUED → good D (dispatched w now j).
Proof.
  intros ((Ha & Hq & Hp & Hr) & Hw & Hc) Hs. specialize (Hq Hs). unfold wire_job, max_int32 in Hw.
  assert (int32 (j.(Job_Attempt) + 1) = j.(Job_Attempt) + 1)%Z as Hi by (apply int32_small; unfold max_int32; lia).
  split_and!; [|done|intros _; apply Hc; by rewrite Hs].
  unfold attempts_ok, dispatched. simpl. rewrite Hi. split_and!; [lia|lia|done|done|lia].
Qed.

Lemma sec_requireLeader : sec (λ _, True) requireLeader_t.
Proof. unfold requireLeader_t, is_leader, leaderAddr. keep_safe. Qed.
Lemma sec_appendRepl e : good_entry D e → sec (λ _, True) (appendRepl_t e).
Proof. intros He. unfold appendRepl_t, is_leader. keep_safe. Qed.
#[local] Hint Resolve sec_requireLeader sec_appendRepl : sec.

Lemma secure_putJob j s :
  good D j → (j.(Job_State) = JOB_STATE_FAILED → is_Some (dead_of s !! j.(Job_Id))) →
  secure (marked D) cinv dead_grows (λ _ _, True) (putJob_t j) s.
Proof.
  intros Hj Hd. unfold putJob_t. apply secure_bind, secure_act. intros s' Hs Hg Hm.
  destruct (put_cinv s' j Hs Hj Hm) as [H1 H2]; [auto|]. split_and!; [done|done|].
  destruct (eval _ s'); [done|]. apply (secure_seq _ _ _ (λ _, True)); [by apply sec_appendRepl|]. done.
Qed.
Lemma sec_putJob j : good D j → j.(Job_State) ≠ JOB_STATE_FAILED → sec (λ _, True) (putJob_t j).
Proof. intros Hj Hs s. by apply secure_putJob. Qed.
Lemma sec_putWorker w : known w = true → sec (λ _, True) (putWorker_t w).
Proof. intros Hw. unfold putWorker_t. keep_safe. Qed.
Lemma sec_enqueueJob id : sec (λ _, True) (enqueueJob_t id).
Proof. unfold enqueueJob_t, is_leader. keep_safe. Qed.
#[local] Hint Resolve sec_putJob sec_putWorker sec_enqueueJob : sec.
Lemma sec_armEnqueue id d : sec (λ _, True) (armEnqueue_t id d).
Proof. unfold armEnqueue_t. keep_safe. Qed.
Lemma sec_timer_fired id : sec (λ _, True) (timer_fired_t id).
Proof. unfold timer_fired_t. keep_safe. Qed.
Lemma sec_clear : sec (λ _, True) clearSchedulingState_t.
Proof.
  unfold clearSchedulingState_t. keep_safe. apply (sec_bind (λ _, True)); [|intros _ _]; apply sec_idle; idle.
Qed.
#[local] Hint Resolve sec_armEnqueue sec_timer_fired sec_clear : sec.

(** A dependency that is read as SUCCEEDED is in [D]. *)
Lemma sec_depsSatisfied j : sec (λ r, r.1 = true → Forall D j.(Job_DependsOn)) (depsSatisfied_t j).
Proof.
  unfold depsSatisfied_t. induction (Job_DependsOn j) as [|d ds IH]; cbn [deps_ready_t]; [by apply sec_ret|].
  eapply sec_bind; [apply sec_getJob|]. intros [dep|e] Hr; [|by apply sec_ret].
  destruct (Hr dep eq_refl) as [_ Hd]. destruct (Job_State dep); try by apply sec_ret.
  eapply sec_mono; [|exact IH]. intros rf Hrf Ht. constructor; auto.
Qed.
Lemma sec_fire_time j now :
  sec (λ r, r.1.(Job_Attempt) = j.(Job_Attempt) ∧ r.1.(Job_RetryPolicy) = j.(Job_RetryPolicy) ∧
            r.1.(Job_DependsOn) = j.(Job_DependsOn)) (fire_time_t j now).
Proof. unfold fire_time_t. keep_safe. Qed.
#[local] Hint Resolve sec_depsSatisfied sec_fire_time : sec.
Lemma sec_makeReady j now :
  bounded j → j.(Job_Attempt) = 0%Z → Forall D j.(Job_DependsOn) → sec (λ _, True) (makeReady_t j now).
Proof.
  intros Hb H0 HD. unfold makeReady_t. eapply sec_bind; [apply sec_fire_time|].
  intros [j' d] (Ha & Hp & Hds). simpl in Ha, Hp, Hds.
  pose proof (MaxAttempts_pos (Job_RetryPolicy j)). apply (sec_bind (λ _, True)).
  - apply sec_putJob; [|done]. unfold good, bounded, attempts_ok, wire_job, cleared in *. simpl. rewrite Ha, Hp, H0, Hds in *.
    split_and!; try done; lia.
  - intros [e|] _; keep_safe.
Qed.
#[local] Hint Resolve sec_makeReady : sec.
Lemma bounded_new j : bounded j → j.(Job_Attempt) = 0%Z → active j.(Job_State) = false → good D j.
Proof.
  intros [Ha Hw] H0 Hst. pose proof (MaxAttempts_pos (Job_RetryPolicy j)). unfold good, attempts_ok, cleared.
  rewrite Hst. split_and!; try done; try lia. by intros E; rewrite E in Hst.
Qed.
Lemma sec_placeNewJob j now : bounded j → j.(Job_Attempt) = 0%Z → sec (λ _, True) (placeNewJob_t j now).
Proof.
  intros Hb H0. unfold placeNewJob_t. eapply sec_bind; [apply sec_depsSatisfied|]. intros rf Hok.
  keep_safe; [apply (sec_bind (λ _, True)); [|intros ? _; keep_safe]; apply sec_putJob; [|done];
    apply bounded_new; [exact Hb|exact H0|done]..|].
  apply sec_makeReady; [done|done|]. by apply Hok, negb_false_iff.
Qed.
#[local] Hint Resolve sec_placeNewJob : sec.


Lemma sec_cascade_step cur reason now : sec (λ _, True) (cascade_step_t cur reason now).
Proof.
  unfold cascade_step_t. keep_safe. apply (sec_bind (λ _, True)); [apply sec_putJob; [|done]; goodness|intros ? _; keep_safe].
Qed.
#[local] Hint Resolve sec_cascade_step : sec.
Lemma sec_cascade fuel work visited reason now : sec (λ _, True) (cascade_t fuel work visited reason now).
Proof.
  revert work visited reason. induction fuel as [|fuel IH]; intros [|cur work] visited reason; cbn [cascade_t]; keep_safe.
Qed.
#[local] Hint Resolve sec_cascade : sec.
Lemma sec_cancelCascade x id reason : sec (λ _, True) (cancelCascade_t x id reason).
Proof. unfold cancelCascade_t. keep_safe. Qed.
#[local] Hint Resolve sec_cancelCascade : sec.
Lemma sec_tryPromote x id : sec (λ _, True) (tryPromote_t x id).
Proof.
  unfold tryPromote_t. keep_safe.
  apply (sec_bind (λ _, True)); [apply sec_makeReady; [goodness..|by auto]|intros ? _; keep_safe].
Qed.
#[local] Hint Resolve sec_tryPromote : sec.
Lemma sec_promoteDependents x id : sec (λ _, True) (promoteDependents_t x id).
Proof. unfold promoteDependents_t. keep_safe. Qed.
Lemma sec_cron j now :
  bounded j → Forall D j.(Job_DependsOn) →
  sec (λ r, bounded r.2 ∧ r.2.(Job_DependsOn) = j.(Job_DependsOn)) (maybeRescheduleCron_t j now).
Proof.
  intros Hb HD. pose proof (MaxAttempts_pos (Job_RetryPolicy j)). unfold maybeRescheduleCron_t. keep_safe.
  apply (sec_bind (λ _, True)); [apply sec_putJob; [|done]; goodness|]. intros [e|] _; keep_safe.
  all: apply sec_ret; goodness.
Qed.
#[local] Hint Resolve sec_promoteDependents sec_cron good_bounded : sec.

Lemma sec_poll_loop fuel n w now out : sec (λ _, True) (poll_loop_t fuel n w now out).
Proof.
  revert out. induction fuel as [|fuel IH]; intros out; cbn [poll_loop_t]; keep_safe.
  apply (sec_bind (λ _, True)); [|intros [e|] _; keep_safe]. apply sec_putJob; [|done].
  apply good_dispatched; goodness.
Qed.
#[local] Hint Resolve sec_poll_loop : sec.
Lemma sec_PollTask x w n : sec (λ _, True) (PollTask_t x w n).
Proof. unfold PollTask_t, workerKnown. keep_safe. Qed.

Lemma sec_handleFailure x j msg now :
  good D j → j.(Job_State) = JOB_STATE_RUNNING → sec (λ _, True) (handleFailure_t x j msg now).
Proof.
  intros Hj Hs. unfold handleFailure_t. cbv zeta. destruct (_ <? _)%Z eqn:Hlt.
  - keep_safe. apply (sec_bind (λ _, True)); [|intros [e|] _; keep_safe]. apply sec_putJob; [|done]. goodness.
  - eapply sec_bind; [apply sec_cron; goodness|]. intros [b j'] [Hb _]. simpl in Hb.
    destruct b; cbn [fst snd]; [keep_safe|]. intros s. apply secure_bind. eapply secure_mono; [|apply sec_store_dead].
    intros [e|] s1 Hd; [done|]. apply secure_bind. eapply secure_mono; [|apply secure_putJob; [|by intros _; apply Hd]].
    + intros [e|] s2 _; [done|].
      match goal with |- secure _ _ _ _ ?p s2 => assert (sec (λ _, True) p) as H by keep_safe; apply H end.
    + goodness.
Qed.
#[local] Hint Resolve sec_handleFailure : sec.

Lemma sec_ReportTask x t r msg : sec (λ _, True) (ReportTask_t x t r msg).
Proof.
  unfold ReportTask_t, getLease. keep_safe.
  - assert (bounded j ∧ Forall D (Job_DependsOn j)) as [Hj HD] by goodness.
    eapply sec_bind; [by apply sec_cron|]. intros [b j'] [Hb Hds]. simpl in Hb, Hds. rewrite <- Hds in HD.
    destruct b; cbn [fst snd]; keep_safe.
    apply (sec_bind (λ _, True)); [apply sec_putJob; [|done]; goodness|intros [e|] _; keep_safe].
  - apply (sec_bind (λ _, True)); [apply sec_handleFailure; goodness|intros ? _; keep_safe].
Qed.

Lemma sec_SubmitJob req : (∀ j, req = Some j → wire_job j) → sec (λ _, True) (SubmitJob_t req).
Proof.
  intros Hreq. unfold SubmitJob_t. keep_safe.
  match goal with H : ∃ id, _ |- _ => destruct H as [id ->] end.
  match goal with j : Job |- _ => pose proof (MaxAttempts_pos (Job_RetryPolicy j)); specialize (Hreq j eq_refl) end.
  apply (sec_bind (λ _, True)); [|intros ? _; keep_safe]. apply sec_placeNewJob; goodness.
Qed.

Lemma sec_CancelJob x id : sec (λ _, True) (CancelJob_t x id).
Proof.
  unfold CancelJob_t. keep_safe.
  all: apply (sec_bind (λ _, True)); [apply sec_putJob; [|done]; goodness|intros [e|] _; keep_safe].
Qed.

Lemma sec_RegisterWorker w : sec (λ _, True) (RegisterWorker_t w).
Proof.
  unfold RegisterWorker_t. keep_safe.
  all: apply (sec_bind (λ _, True)); [by apply sec_putWorker|intros [e|] _; keep_safe].
Qed.
Lemma sec_Heartbeat w ts : sec (λ _, True) (Heartbeat_t w ts).
Proof.
  unfold Heartbeat_t. keep_safe.
  all: apply (sec_bind (λ _, True)); [by apply sec_putWorker|intros [e|] _; keep_safe].
Qed.

Lemma sec_requeueLease x t reason : sec (λ _, True) (requeueLease_t x t reason).
Proof.
  unfold requeueLease_t, getLease. keep_safe.
  apply (sec_bind (λ _, True)); [apply sec_handleFailure; goodness|intros ? _; keep_safe].
Qed.
#[local] Hint Resolve sec_requeueLease : sec.
Lemma sec_reaper_tick x : sec (λ _, True) (reaper_tick_t x).
Proof.
  unfold reaper_tick_t, is_leader, reapOnce_t, requeueLeasesForWorker_t. keep_safe.
Qed.

(** What arrives comes from a log of the same kind. *)
Context (Harr : ∀ es, arrives es → Forall (good_entry D) es).

Lemma sec_Replicate t l es : es = [] ∨ arrives es → sec (λ _, True) (Replicate_t t l es).
Proof.
  intros Hes. unfold Replicate_t, applyEntries_t.
  apply (sec_bind (λ _, True)); [apply sec_node, node_keeps_ObserveLeader|]. intros ac _. keep_safe.
  destruct Hes as [->|Hes]; [set_solver|].
  match goal with H : ?e ∈ es |- _ => pose proof (proj1 (Forall_forall _ _) (Harr es Hes) e H) as He end.
  unfold applyEntry_t, good_entry in *. keep_safe.
  apply (sec_bind (λ _, True)); [|intros ? _; keep_safe]. apply sec_act. intros s Hs Hm.
  destruct (put_cinv s j Hs He Hm) as [H1 H2]; [|by split_and!]. intros _ Hno. by destruct (Hno es).
Qed.

Lemma sec_replication_tick rpc : sec (λ _, True) (replication_tick_t rpc).
Proof.
  unfold replication_tick_t, is_leader, broadcastReplicate_t, replicate_to_t. keep_safe.
  apply sec_node, node_keeps_MaybeStepDown.
Qed.
Lemma sec_startElection rs : sec (λ _, True) (startElection_t rs).
Proof.
  unfold startElection_t. apply (sec_bind (λ _, True)); [apply sec_node, node_keeps_begin|]. intros [t ps] _.
  generalize (take (length (t, ps).2) rs) 1%Z. intros l. induction l as [|r l IH]; intros v; cbn [startElection_count_t]; keep_safe.
  apply (sec_bind (λ _, True)); [apply sec_node, node_keeps_vote|]. intros [v'|] _; keep_safe.
Qed.

Lemma sec_rebuild_all x now jobs : Forall (good D) jobs → sec (λ _, True) (rebuild_all_t x now jobs).
Proof.
  induction 1 as [|j jobs Hj _ IH]; cbn [rebuild_all_t]; unfold rebuild_one_t; keep_safe.
Qed.
Lemma sec_seedReplication : sec (λ _, True) seedReplication_t.
Proof.
  unfold seedReplication_t. eapply sec_bind; [apply sec_ListJobs|]. intros js Hjs.
  eapply sec_bind; [apply sec_ListWorkers|]. intros ws Hws. apply sec_seed_locked, Forall_app. split.
  - destruct js as [js|]; [|done]. apply Forall_fmap. exact (Hjs js eq_refl).
  - destruct ws as [ws|]; [|done]. apply Forall_fmap. exact (Hws ws eq_refl).
Qed.
#[local] Hint Resolve sec_rebuild_all sec_seedReplication : sec.
Lemma sec_onBecomeLeader x t : sec (λ _, True) (onBecomeLeader_t x t).
Proof. unfold onBecomeLeader_t, rebuildSchedulingState_t. keep_safe. Qed.
#[local] Hint Resolve sec_onBecomeLeader : sec.
Lemma sec_run_callback x i : sec (λ _, True) (run_callback_t x i).
Proof. unfold run_callback_t, onStepDown_t. keep_safe. Qed.
Lemma sec_Shutdown : sec (λ _, True) Shutdown_t.
Proof. unfold Shutdown_t. apply (sec_bind (λ _, True)); [|intros _ _]; apply sec_idle; idle. Qed.

Lemma sec_forget {A} (p : prog (Server St) A) : sec (λ _, True) p → sec (λ _, True) (_ ← p; mret tt).
Proof. intros Hp. apply (sec_bind (λ _, True)); [done|]. intros a _. by apply sec_ret. Qed.

Lemma sec_thread x o p : admitted o → thread x o = Some p → sec (λ _, True) p.
Proof.
  intros Ha Hp. destruct o; cbn [thread] in Hp; try discriminate; apply (inj Some) in Hp as <-.
  - apply sec_forget, sec_SubmitJob. by intros j ->.
  - apply sec_forget, sec_CancelJob.
  - apply sec_forget, sec_PollTask.
  - apply sec_forget, sec_ReportTask.
  - apply sec_forget, sec_RegisterWorker.
  - apply sec_forget, sec_Heartbeat.
  - apply sec_timer_fired.
  - apply sec_reaper_tick.
  - apply sec_replication_tick.
  - apply sec_forget, sec_node, node_keeps_HandleVote.
  - apply sec_forget, sec_Replicate. by left.
  - apply sec_startElection.
  - apply sec_run_callback.
  - apply sec_Shutdown.
Qed.

Lemma cinv_fresh cfg (st : St) k s :
  cinv s → jobs_of (new_server cfg st k) = jobs_of s → dead_of (new_server cfg st k) = dead_of s →
  stored_workers (new_server cfg st k) = stored_workers s → cinv (new_server cfg st k).
Proof.
  intros [I1 I2 I0 I3 I4 I5 [I6 I7]] H1 H2 H3. split; unfold marked; rewrite ?H1, ?H2; try done; [exact new_wf|].
  split; [apply map_Forall_empty|by rewrite H3].
Qed.

Lemma sec_start x : sec (λ _, True) (start_server_t x).
Proof.
  unfold start_server_t. apply (sec_bind (λ _, True)).
  - unfold recover_t. eapply sec_bind; [apply sec_ListWorkers|]. intros [ws|e] Hws; [|by apply sec_ret].
    apply (sec_bind (λ _, True)); [|intros ? _; by apply sec_ret]. specialize (Hws ws eq_refl).
    apply sec_act. intros s Hs _. split_and!; [| |done].
    + revert s Hs. induction Hws as [|w ws Hw _ IH]; intros s Hs; [done|]. simpl. mrun. apply IH.
      destruct Hs as [I1 I2 I0 I3 I4 I5 [I6 I7]]. split; [done..|]. split; [by apply map_Forall_insert_2|done].
    + clear Hs Hws. revert s. induction ws as [|w ws IH]; intros s; [by intros id|]. simpl. mrun.
      intros id Hid. by apply (IH _ id).
  - intros [e|] _; [by apply sec_ret|]. apply (sec_bind (λ _, True)); [apply sec_node, node_keeps_Start|]. intros cb _.
    unfold onStepDown_t. keep_safe.
Qed.

(** ** Every schedule keeps the invariant *)

Abbreviation ok := (pool_ok (marked D) cinv dead_grows).

Lemma ok_begin p ts s : sec (λ _, True) p → ok (ts, s) → ok (ts ++ [p], s).
Proof.
  intros Hp [Hs Hts]. split; [done|]. simpl. apply Forall_app. split; [done|]. apply Forall_singleton.
  exists s. split; [reflexivity|apply Hp].
Qed.

Lemma conc_step_ok c c' : conc_step arrives c c' → marked D c'.2 → ok c → ok c'.
Proof.
  intros [rounds o p ts s Ha Hp|t l es ts s Hes|c1 c2 Hc|ts1 ts2 s|rounds ts s] Hm Hok.
  - apply ok_begin; [by eapply sec_thread|done].
  - apply ok_begin; [|done]. apply sec_forget, sec_Replicate. by right.
  - eapply pool_step_ok; [apply _|done|done|done].
  - destruct Hok as [Hs Hts]. split; [done|]. simpl in *. apply Forall_app in Hts as [H1 H2].
    apply Forall_app. split; [done|]. by eapply Forall_cons_1.
  - apply (ok_begin _ []); [apply sec_forget, sec_start|]. split; [|by apply Forall_nil]. apply (cinv_fresh _ _ _ s); try done.
    apply Hok.
Qed.

Lemma fresh_ok c : fresh_pool c → ok c.
Proof.
  destruct c as [ts s]. intros (Hts & (cfg & st & k & Hs & Hj) & Hw). simpl in *. subst ts s.
  split; [|by apply Forall_nil]. assert (jobs_of (new_server cfg st k) = ∅) as Hj' by exact Hj.
  split; cbn [snd]; unfold marked; rewrite ?Hj'; try done; exact new_wf.
Qed.

End invariant.

(** A run all of whose states are marked. *)
Lemma conc_run_ok D arrives c0 c :
  (∀ es, arrives es → Forall (good_entry D) es) → fresh_pool c0 → rtc (conc_step arrives) c0 c →
  (∀ z, rtc (conc_step arrives) c0 z → rtc (conc_step arrives) z c → marked D z.2) →
  pool_ok (marked D) (cinv D arrives) dead_grows c.
Proof.
  intros Harr Hf Hr. apply (fresh_ok D arrives) in Hf. revert Hf.
  induction Hr as [c|c0 c1 c H01 Hr IH]; [done|]. intros H0 Hz. apply IH.
  - eapply conc_step_ok; [exact Harr|exact H01| |exact H0]. apply Hz; [by apply rtc_once|exact Hr].
  - intros z Hz1 Hz2. apply Hz; [|done]. by eapply rtc_l.
Qed.

Lemma marked_all s : marked (λ _, True) s.
Proof. by intros id j. Qed.

(** ** Uninterrupted runs are schedules *)

Lemma op_schedule arrives o s :
  admitted o → rtc (conc_step arrives) ([], s) ([], exec (run_op o) s).
Proof.
  intros Ha. pose proof (thread_tracks o) as Ht.
  assert (∀ p s, rtc (conc_step arrives) ([p], s) ([], exec (run p) s)) as Hrun.
  { intros p s'. eapply rtc_r; [|apply (c_end _ [] [])].
    eapply (rtc_congruence id); [|by apply (pool_uninterrupted [p] 0)]. intros c c' Hc. by apply c_section. }
  destruct (thread 0 o) as [p|] eqn:Ep.
  - eapply rtc_l; [by eapply (c_begin _ 0 o p [])|]. rewrite <- (tracks_exec p _ s Ht). apply Hrun.
  - subst o. eapply rtc_l; [apply (c_crash _ 0)|]. etrans; [apply Hrun|]. rewrite (tracks_exec _ (_ ← start_server; mret tt)).
    + simpl. unfold restart. mrun. reflexivity.
    + apply tracks_bind; [apply t_start_server|]. intros ?. apply tracks_ret.
Qed.

Lemma allowed_admitted s o : allowed s o → admitted o.
Proof. destruct o as [[j|]| | | | | | | | | | | | | |]; try done. intros [Hw _]. by apply Hw. Qed.

Lemma runs_are_schedules arrives s s' : rtc node_step s s' → rtc (conc_step arrives) ([], s) ([], s').
Proof.
  induction 1 as [s|s s1 s2 [s3 o Ho] _ IH]; [done|].
  etrans; [|exact IH]. by eapply op_schedule, allowed_admitted.
Qed.

(** Goroutines for the operations [ops] start, and take turns as [order] says. *)
Definition race (ops : list op) (order : list nat) s : conf := pool_run order (omap (thread 0) ops, s).

Lemma race_schedule arrives ops order s :
  Forall admitted ops → rtc (conc_step arrives) ([], s) (race ops order s).
Proof.
  intros Ha. trans (omap (thread 0) ops, s).
  - assert (∀ ts, rtc (conc_step arrives) (ts, s) (ts ++ omap (thread 0) ops, s)) as H; [|apply H].
    induction Ha as [|o ops Ho _ IH]; intros ts; simpl; [by rewrite app_nil_r|].
    destruct (thread 0 o) as [p|] eqn:Ep; [|apply IH]. eapply rtc_l; [by eapply (c_begin _ 0)|].
    specialize (IH (ts ++ [p])). by rewrite <- app_assoc in IH.
  - eapply (rtc_congruence id); [|apply pool_run_steps]. intros c c' Hc. by apply c_section.
Qed.

(** ** A cluster *)

(** The nodes, and every entry that has ever been shipped.  A shipment may
    arrive at any node at any time, any number of times, in any order. *)
Abbreviation cluster := (gmap string conf * list ReplicationEntry)%type.

Inductive cluster_step : cluster → cluster → Prop :=
| cl_works id c c' (cs : gmap string conf) sent :
    cs !! id = Some c → conc_step (Forall (.∈ sent)) c c' → cluster_step (cs, sent) (<[id:=c']> cs, sent)
| cl_ships id ts s peer (cs : gmap string conf) sent :
    cs !! id = Some (ts, s) → cluster_step (cs, sent) (cs, sent ++ entriesForPeer peer s).

Definition cluster_reachable (x : cluster) : Prop :=
  ∃ cs : gmap string conf, map_Forall (λ _ c, fresh_pool c) cs ∧ rtc cluster_step (cs, []) x.

Lemma conc_step_mono (a b : list ReplicationEntry → Prop) c c' :
  (∀ es, a es → b es) → conc_step a c c' → conc_step b c c'.
Proof. intros H []; [by eapply c_begin|by apply c_shipment, H|by apply c_section|by apply c_end|by apply c_crash]. Qed.

(** Every node keeps the invariant, and only good entries travel. *)
Definition cluster_ok (D : string → Prop) (x : cluster) : Prop :=
  map_Forall (λ _ c, pool_ok (marked D) (cinv D (Forall (good_entry D))) dead_grows c) x.1 ∧ Forall (good_entry D) x.2.

Lemma cluster_step_ok D x y :
  cluster_step x y → map_Forall (λ _ c, marked D c.2) y.1 → cluster_ok D x → cluster_ok D y.
Proof.
  intros [id c c' cs sent Hc Hstep|id ts s peer cs sent Hc] Hm [Hcs Hsent]; split; simpl in *; try done.
  - apply map_Forall_insert_2; [|done]. eapply (conc_step_ok D (Forall (good_entry D))); [done| | |by apply (Hcs id)].
    + eapply conc_step_mono; [|exact Hstep]. intros es Hes. eapply Forall_impl; [exact Hes|]. intros e He.
      by eapply Forall_forall.
    + apply (Hm id). by rewrite lookup_insert_eq.
  - apply Forall_app. split; [done|]. destruct (Hcs id _ Hc) as [Hs _]. apply Forall_forall. intros e He.
    apply list_elem_of_filter in He as [_ He]. eapply Forall_forall; [|exact He]. apply Hs.
Qed.

Lemma cluster_run_ok D cs x :
  map_Forall (λ _ c, fresh_pool c) cs → rtc cluster_step (cs, []) x →
  (∀ z, rtc cluster_step (cs, []) z → rtc cluster_step z x → map_Forall (λ _ c, marked D c.2) z.1) →
  cluster_ok D x.
Proof.
  intros Hcs Hr. assert (cluster_ok D (cs, [])) as H0.
  { split; [|by apply Forall_nil]. intros id c Hc. by apply fresh_ok, (Hcs id). }
  revert H0 Hr. generalize (cs, @nil ReplicationEntry). intros x0 H0 Hr. revert H0.
  induction Hr as [x|x0 x1 x H01 Hr IH]; [done|]. intros H0 Hz. apply IH.
  - eapply cluster_step_ok; [exact H01| |exact H0]. apply Hz; [by apply rtc_once|exact Hr].
  - intros z Hz1 Hz2. apply Hz; [|done]. by eapply rtc_l.
Qed.

Lemma cluster_reachable_ok x : cluster_reachable x → cluster_ok (λ _, True) x.
Proof. intros (cs & Hcs & Hr). apply (cluster_run_ok _ cs); [done|done|]. intros z _ _ id c _. apply marked_all. Qed.

(** A cluster of one node. *)
Lemma lone_fresh node (c : conf) : fresh_pool c → map_Forall (λ _ c, fresh_pool c) ({[node := c]} : gmap string conf).
Proof. by intros H; apply map_Forall_singleton. Qed.

Lemma lone_run node (c0 c : conf) :
  rtc (conc_step (λ _, False)) c0 c → rtc cluster_step ({[node := c0]}, []) ({[node := c]}, []).
Proof.
  induction 1 as [c|c1 c2 c3 H12 _ IH]; [done|]. eapply rtc_l; [|exact IH].
  rewrite <- (insert_singleton_eq node c2 c1). apply (cl_works node c1 c2); [by rewrite lookup_singleton_eq|].
  eapply conc_step_mono; [|exact H12]. done.
Qed.

Lemma lone_cluster node (c : conf) : conc_reachable (λ _, False) c → cluster_reachable ({[node := c]}, []).
Proof. intros (c0 & Hf & Hr). exists {[node := c0]}. split; [by apply lone_fresh|by apply lone_run]. Qed.

(** ** Properties *)

(** C17. Dependencies come first under every interleaving, in a cluster whose
    nodes replicate to each other, crash and change leaders: whenever some node
    stores a job as queued, running or succeeded, each dependency of that job was
    stored as SUCCEEDED by some node at that or an earlier moment of the run. *)
Theorem cluster_dependencies_first cs0 x node ts s id j d :
  map_Forall (λ _ c, fresh_pool c) cs0 → rtc cluster_step (cs0, []) x → x.1 !! node = Some (ts, s) →
  jobs_of s !! id = Some j → active j.(Job_State) = true → d ∈ j.(Job_DependsOn) →
  ∃ y node' ts' s' dj,
    rtc cluster_step (cs0, []) y ∧ rtc cluster_step y x ∧ y.1 !! node' = Some (ts', s') ∧
    jobs_of s' !! d = Some dj ∧ dj.(Job_State) = JOB_STATE_SUCCEEDED.
Proof.
  intros Hcs Hr Hn Hj Hact Hd. set (D := λ d, ∃ y node' ts' s' dj,
    rtc cluster_step (cs0, []) y ∧ rtc cluster_step y x ∧ y.1 !! node' = Some (ts', s') ∧
    jobs_of s' !! d = Some dj ∧ dj.(Job_State) = JOB_STATE_SUCCEEDED).
  destruct (cluster_run_ok D cs0 x Hcs Hr) as [Hok _].
  - intros y Hy1 Hy2 node' [ts' s'] Hc d' dj Hdj Hst. by exists y, node', ts', s', dj.
  - destruct (Hok node _ Hn) as [Hs _]. destruct (ci_jobs _ _ _ Hs id j Hj) as (_ & _ & Hcl).
    by eapply (proj1 (Forall_forall D _) (Hcl Hact)).
Qed.

(** C18. Attempts are bounded under every interleaving, on every node of a
    cluster: whatever goroutines of a node do between the locked sections of
    others, whenever nodes crash, and in whatever order, how late and how often
    shipments arrive, a stored job has used at most the attempts of its policy,
    and a queued one has an attempt left, so that the 32-bit counter never
    overflows. *)
Theorem cluster_attempts_bounded (cs : gmap string conf) sent node ts s id j :
  cluster_reachable (cs, sent) → cs !! node = Some (ts, s) → jobs_of s !! id = Some j →
  (0 <= j.(Job_Attempt) <= MaxAttempts j.(Job_RetryPolicy))%Z ∧
  (MaxAttempts j.(Job_RetryPolicy) <= max_int32)%Z ∧
  (j.(Job_State) = JOB_STATE_QUEUED → j.(Job_Attempt) < MaxAttempts j.(Job_RetryPolicy))%Z ∧
  (j.(Job_State) = JOB_STATE_RUNNING → 1 <= j.(Job_Attempt))%Z.
Proof.
  intros Hr Hc Hj. destruct (proj1 (cluster_reachable_ok _ Hr) node _ Hc) as [Hs _].
  destruct (ci_jobs _ _ _ Hs id j Hj) as (([? ?] & ? & _ & ?) & ? & _). by split_and!.
Qed.

(** C21. Replication cursors mean what they should under every interleaving, on
    every node of a cluster: the entries of the log are numbered 1, 2, ... without
    gaps, the counter is the length of the log, and a shipment to a peer is
    exactly the log after the peer's cursor. *)
Theorem cluster_shipments_exact (cs : gmap string conf) sent node ts s :
  cluster_reachable (cs, sent) → cs !! node = Some (ts, s) → (Z.of_nat (length s.(sv_replLog)) <= max_int64)%Z →
  s.(sv_replSeq) = Z.of_nat (length s.(sv_replLog)) ∧
  (∀ i e, s.(sv_replLog) !! i = Some e → e.(ReplicationEntry_Seq) = Z.of_nat (S i)) ∧
  (∀ peer n, default 0%Z (s.(sv_peerAcked) !! peer) = Z.of_nat n → entriesForPeer peer s = drop n s.(sv_replLog)).
Proof.
  intros Hr Hc Hl. destruct (proj1 (cluster_reachable_ok _ Hr) node _ Hc) as [Hs _].
  destruct (ci_numbered _ _ _ Hs Hl) as [Hn Hseq]. split_and!; [done|exact Hn|]. intros peer n Hp.
  unfold entriesForPeer. rewrite Hp. by apply numbered_after.
Qed.

(** C34. The ready queue is well formed under every interleaving, on every node of
    a cluster: the heap is ordered, every item knows its position, the id map and
    the heap agree. *)
Theorem cluster_queue_wf (cs : gmap string conf) sent node ts s :
  cluster_reachable (cs, sent) → cs !! node = Some (ts, s) → queue_wf s.(sv_queue).
Proof. intros Hr Hc. destruct (proj1 (cluster_reachable_ok _ Hr) node _ Hc) as [Hs _]. apply Hs. Qed.

(** C36. The worker gauge counts the workers under every interleaving, on every
    node of a cluster: a scrape has one sample for each of the labels alive,
    suspect and dead, in some order, with the number of registered workers in
    that state, and the three numbers add up to all registered workers. *)
Theorem cluster_gauge_adds_up (cs : gmap string conf) sent node ts s :
  cluster_reachable (cs, sent) → cs !! node = Some (ts, s) →
  let n st := size (in_state st s.(sv_workers)) in
  filter (λ x, x.(sample_name) = "distsched_workers") (eval Collect s) ≡ₚ
    [worker_sample "alive" (n WORKER_STATE_ALIVE); worker_sample "suspect" (n WORKER_STATE_SUSPECT);
     worker_sample "dead" (n WORKER_STATE_DEAD)] ∧
  n WORKER_STATE_ALIVE + n WORKER_STATE_SUSPECT + n WORKER_STATE_DEAD = size s.(sv_workers).
Proof.
  intros Hr Hc. destruct (proj1 (cluster_reachable_ok _ Hr) node _ Hc) as [Hs _]. by apply workers_gauge, (ci_workers _ _ _ Hs).
Qed.

(** C22. A job that a reader sees as FAILED is in the dead-letter index, under
    every interleaving and whichever writes fail, on a node that no leader has
    shipped to: the entry is written in a section before the state.  Shipments
    do not carry the index. *)
Theorem interleaved_dead_letters ts s id j :
  conc_reachable (λ _, False) (ts, s) → jobs_of s !! id = Some j → j.(Job_State) = JOB_STATE_FAILED →
  is_Some (dead_of s !! id).
Proof.
  intros (c0 & Hf0 & Hr) Hj Hf.
  destruct (conc_run_ok (λ _, True) (λ _, False) c0 (ts, s) (λ _ H, match H with end) Hf0 Hr) as [Hs _].
  { intros z _ _. apply marked_all. }
  by apply (ci_dead _ _ _ Hs (λ _ H, H) id j).
Qed.

End interleave.

(** ** Samples *)

Section samples.
#[local] Existing Instance sample_env.
#[local] Existing Instance sample_cron.

Abbreviation pool := (list (prog (Server MemStore) unit) * Server MemStore)%type.

(** A worker polls and a client cancels "d" at the same time. *)
Definition sample_race_ops : list op := [Poll "w" 1; Cancel "d"].

Lemma sample_boot_fresh : fresh_pool ([], sample_boot).
Proof. split_and!; [done|by exists sample_cfg, empty_store, 0|apply map_Forall_empty]. Qed.

Lemma sample_race_reachable ops order s :
  Forall admitted ops → rtc node_step sample_boot s → conc_reachable (λ _, False) (race ops order s).
Proof.
  intros Ha Hr. exists ([], sample_boot). split; [exact sample_boot_fresh|].
  etrans; [by apply runs_are_schedules|by apply race_schedule].
Qed.

Lemma sample_ready_steps : rtc node_step sample_boot (sample_run sample_ready).
Proof. apply run_all_steps. vm_compute. reflexivity. Qed.

Definition sample_order : list nat := [0; 0; 0; 0; 0; 0; 1; 1; 1; 1; 1; 1; 1; 1; 0; 0; 0; 0; 0; 0; 0].

Definition sample_pool : pool := race sample_race_ops sample_order (sample_run sample_ready).

Lemma sample_ops_admitted : Forall admitted sample_race_ops.
Proof. apply Forall_cons_2; [exact I|]. apply Forall_cons_2; [exact I|apply Forall_nil_2]. Qed.

Lemma sample_pool_reachable : conc_reachable (λ _, False) sample_pool.
Proof. exact (sample_race_reachable sample_race_ops sample_order _ sample_ops_admitted sample_ready_steps). Qed.

Lemma sample_cluster_reachable : cluster_reachable ({["n1" := sample_pool]}, []).
Proof. exact (lone_cluster "n1" sample_pool sample_pool_reachable). Qed.

Lemma sample_pool_lookup :
  ({["n1" := sample_pool]} : gmap string pool) !! "n1" = Some (sample_pool.1, sample_pool.2).
Proof. rewrite lookup_singleton_eq. by rewrite <- surjective_pairing. Qed.

(** The cancellation of "d" came in between: the poll has overwritten it. *)
Lemma cluster_attempts_bounded_witness :
  let j := job_at "d" sample_pool.2 in
  j.(Job_State) = JOB_STATE_RUNNING ∧ (0 <= j.(Job_Attempt) <= MaxAttempts j.(Job_RetryPolicy))%Z.
Proof.
  split; [vm_compute; reflexivity|].
  apply (cluster_attempts_bounded {["n1" := sample_pool]} [] "n1" sample_pool.1 sample_pool.2 "d" (job_at "d" sample_pool.2)
    sample_cluster_reachable sample_pool_lookup).
  vm_compute. reflexivity.
Defined.

(** "b", which waits for "a", is leased. *)
Definition sample_late : Server MemStore := sample_run sample_ops.

Lemma sample_late_steps : rtc node_step sample_boot sample_late.
Proof. apply run_all_steps. vm_compute. reflexivity. Qed.

Lemma cluster_dependencies_first_witness :
  (job_at "b" sample_late).(Job_State) = JOB_STATE_RUNNING ∧
  ∃ y node' ts' s' dj,
    rtc cluster_step ({["n1" := ([], sample_boot)]}, []) y ∧ rtc cluster_step y ({["n1" := ([], sample_late)]}, []) ∧
    y.1 !! node' = Some (ts', s') ∧ jobs_of s' !! "a" = Some dj ∧ dj.(Job_State) = JOB_STATE_SUCCEEDED.
Proof.
  split; [vm_compute; reflexivity|].
  refine (cluster_dependencies_first {["n1" := ([], sample_boot)]} ({["n1" := ([], sample_late)]}, []) "n1" [] sample_late
    "b" (job_at "b" sample_late) "a" (lone_fresh "n1" _ sample_boot_fresh)
    (lone_run "n1" _ _ (runs_are_schedules _ _ _ sample_late_steps)) (lookup_singleton_eq _ _) _ _ _).
  - vm_compute. reflexivity.
  - vm_compute. reflexivity.
  - apply (bool_decide_unpack _). vm_compute. exact I.
Defined.

Lemma cluster_shipments_exact_witness :
  length sample_pool.2.(sv_replLog) = 11 ∧ entriesForPeer "n2" sample_pool.2 = drop 0 sample_pool.2.(sv_replLog).
Proof.
  split; [vm_compute; reflexivity|].
  apply (cluster_shipments_exact {["n1" := sample_pool]} [] "n1" sample_pool.1 sample_pool.2
    sample_cluster_reachable sample_pool_lookup); vm_compute; [discriminate|reflexivity].
Defined.

Lemma cluster_queue_wf_witness : queue_wf sample_pool.2.(sv_queue).
Proof.
  apply (cluster_queue_wf {["n1" := sample_pool]} [] "n1" sample_pool.1 sample_pool.2
    sample_cluster_reachable sample_pool_lookup).
Defined.

Lemma cluster_gauge_adds_up_witness :
  size sample_pool.2.(sv_workers) = 1 ∧
  let n st := size (in_state st sample_pool.2.(sv_workers)) in
  filter (λ x, x.(sample_name) = "distsched_workers") (eval Collect sample_pool.2) ≡ₚ
    [worker_sample "alive" (n WORKER_STATE_ALIVE); worker_sample "suspect" (n WORKER_STATE_SUSPECT);
     worker_sample "dead" (n WORKER_STATE_DEAD)] ∧
  n WORKER_STATE_ALIVE + n WORKER_STATE_SUSPECT + n WORKER_STATE_DEAD = size sample_pool.2.(sv_workers).
Proof.
  split; [vm_compute; reflexivity|].
  apply (cluster_gauge_adds_up {["n1" := sample_pool]} [] "n1" sample_pool.1 sample_pool.2
    sample_cluster_reachable sample_pool_lookup).
Defined.

(** Job "f" has failed its only attempt. *)
Lemma interleaved_dead_letters_witness : is_Some (dead_of (sample_run sample_failure) !! "f").
Proof.
  apply (interleaved_dead_letters [] (sample_run sample_failure) "f" (job_at "f" (sample_run sample_failure)));
    [|vm_compute; reflexivity..].
  apply (sample_race_reachable [] []); [apply Forall_nil_2|]. apply run_all_steps. vm_compute. reflexivity.
Defined.

End samples.
