(* ===== verification/Races.v ===== *)
(** * Runs in which goroutines interleave

    Concrete schedules of the pool of [Interleave.v] in which two goroutines,
    each doing what it would do alone, leave the node in a state none of them
    intends.  Every run starts from a fresh node; [reached] says that it is a run
    of the machine and that all goroutines have ended.  They show why the
    theorems about uninterrupted operations do not all carry over. *)

From stdpp Require Import relations.
From S2P Require Import Prelude Types Queue Retry Env Cluster Store MemStore Server Cycle Deps Lifecycle.
From S2P Require Import Dispatch Jobs Workers Replication Leadership Refinement Rebuild System.
From S2P Require Import ReplLog Convergence Prog Threads Interleave.

Section races.
#[local] Existing Instance sample_env.
#[local] Existing Instance sample_cron.

Abbreviation pool := (list (prog (Server MemStore) unit) * Server MemStore)%type.

(** ** Schedules *)

(** A node that has performed [before] performs [ops] at the same time. *)
Definition meet (cfg : Config) (before ops : list op) (order : list nat) : pool :=
  race ops order (run_all before (new_server cfg empty_store 0)).

(** Goroutine [i] takes [n] turns, or all it needs. *)
Definition turns (n i : nat) : list nat := replicate n i.

Definition ended (p : prog (Server MemStore) unit) : bool :=
  match p with Ret _ => true | Act _ _ => false end.

Definition reached (c : pool) : Prop := conc_reachable (λ _, False) c ∧ forallb ended c.1 = true.

(** The run consists of operations the node may be asked to perform. *)
Definition meet_ok (cfg : Config) (before ops : list op) (order : list nat) : bool :=
  let s0 := new_server cfg empty_store 0 in
  all_ok before s0 && forallb (op_ok (run_all before s0)) ops && forallb ended (meet cfg before ops order).1.

Lemma meet_reached cfg before ops order : meet_ok cfg before ops order = true → reached (meet cfg before ops order).
Proof.
  unfold meet_ok, meet. remember (new_server cfg (empty_store : MemStore) 0) as s0 eqn:Hs0. intros H.
  apply andb_true_iff in H as [H He]. apply andb_true_iff in H as [Hb Ho]. split; [|exact He].
  exists ([], s0). split.
  - split_and!; [done|by exists cfg, empty_store, 0|]. subst s0. apply map_Forall_empty.
  - etrans; [by apply runs_are_schedules, run_all_steps|]. apply race_schedule. apply Forall_forall. intros o Hin.
    eapply allowed_admitted, op_ok_allowed. eapply forallb_forall; [exact Ho|]. by apply list_elem_of_In.
Qed.

(** The states of the jobs in the replication log, oldest first. *)
Definition shipped_states (s : Server MemStore) : list (string * JobState) :=
  omap (λ e, match e.(ReplicationEntry_Mutation) with
             | Some (ReplicationEntry_UpsertJob j) => Some (j.(Job_Id), j.(Job_State))
             | _ => None
             end) s.(sv_replLog).

Definition accept_job : list op := [Restart; Submit (Some (sample_job "a" [])); Register (Some sample_worker)].
Definition lease_job : list op := accept_job ++ [Poll "w" 1].

(** "c" waits for "a" and "b", which both run. *)
Definition diamond : list op :=
  [Restart; Submit (Some (sample_job "a" [])); Submit (Some (sample_job "b" []));
   Submit (Some (sample_job "c" ["a"; "b"])); Register (Some sample_worker); Poll "w" 2].

(** ** Dependencies *)

(** [placeNewJob] reads the dependencies, and only later stores the job and
    enters it in the index.  A dependency that succeeds in between finds no
    dependent to promote: "b" waits for "a", which has succeeded, in no queue
    and with no timer, and no handler looks at it again before the next change
    of leadership. *)
Theorem promotion_is_lost :
  let c := meet sample_cfg lease_job
    [Submit (Some (sample_job "b" ["a"])); Report "task-uuuu" TASK_RESULT_SUCCEEDED ""]
    (turns 6 0 ++ turns 40 1 ++ turns 40 0) in
  reached c ∧ (job_at "a" c.2).(Job_State) = JOB_STATE_SUCCEEDED ∧
  (job_at "b" c.2).(Job_State) = JOB_STATE_PENDING ∧ (job_at "b" c.2).(Job_DependsOn) = ["a"] ∧
  Queue_Len c.2.(sv_queue) = 0 ∧ c.2.(sv_retryTimers) = ∅ ∧ c.2.(sv_leases) = ∅ ∧
  (job_at "b" (exec reaper_tick c.2)).(Job_State) = JOB_STATE_PENDING ∧
  (job_at "b" (exec (onBecomeLeader 1) c.2)).(Job_State) = JOB_STATE_QUEUED.
Proof. split; [apply meet_reached|split_and!]; vm_compute; reflexivity. Qed.

(** The cycle check reads the store, and the job is stored later: two jobs
    submitted at the same time that wait for each other are both accepted, and
    both stay PENDING. *)
Theorem concurrent_submissions_close_a_cycle :
  let c := meet sample_cfg [Restart] [Submit (Some (sample_job "a" ["b"])); Submit (Some (sample_job "b" ["a"]))]
    (turns 4 0 ++ turns 40 1 ++ turns 40 0) in
  reached c ∧
  (job_at "a" c.2).(Job_DependsOn) = ["b"] ∧ (job_at "a" c.2).(Job_State) = JOB_STATE_PENDING ∧
  (job_at "b" c.2).(Job_DependsOn) = ["a"] ∧ (job_at "b" c.2).(Job_State) = JOB_STATE_PENDING.
Proof. split; [apply meet_reached|split_and!]; vm_compute; reflexivity. Qed.

(** "b" waits for "a", which runs. *)
Definition chain : list op :=
  [Restart; Submit (Some (sample_job "a" [])); Submit (Some (sample_job "b" ["a"]));
   Register (Some sample_worker); Poll "w" 1].

(** [cascade] stores a dependent as CANCELED and then removes it from the queue.
    When "a" is canceled while its success is reported, the report may store its
    copy of "b" as QUEUED and push it in between: the cancellation takes it out
    of the queue again, and the QUEUED job is in no queue and has no timer, so
    that no poll finds it before the next change of leadership. *)
Theorem promoted_job_is_dropped :
  let c := meet sample_cfg chain [Cancel "a"; Report "task-uuuuu" TASK_RESULT_SUCCEEDED ""]
    (turns 3 0 ++ turns 14 1 ++ turns 14 0 ++ turns 40 1 ++ turns 40 0) in
  reached c ∧ drop 4 (shipped_states c.2) = [("a", JOB_STATE_CANCELED); ("b", JOB_STATE_CANCELED); ("b", JOB_STATE_QUEUED)] ∧
  (job_at "a" c.2).(Job_State) = JOB_STATE_CANCELED ∧ (job_at "b" c.2).(Job_State) = JOB_STATE_QUEUED ∧
  Queue_Len c.2.(sv_queue) = 0 ∧ c.2.(sv_retryTimers) = ∅ ∧ c.2.(sv_leases) = ∅ ∧
  eval (PollTask "w" 1) c.2 = inl [].
Proof. split; [apply meet_reached|split_and!]; vm_compute; reflexivity. Qed.

(** ** Dispatch *)

(** [PollTask] reads a QUEUED job and later stores it as RUNNING.  A
    cancellation in between is stored, shipped and answered, and then
    overwritten: the canceled job runs. *)
Theorem canceled_job_is_leased :
  let c := meet sample_cfg accept_job [Poll "w" 1; Cancel "a"] (turns 6 0 ++ turns 40 1 ++ turns 40 0) in
  reached c ∧
  shipped_states c.2 = [("a", JOB_STATE_QUEUED); ("a", JOB_STATE_CANCELED); ("a", JOB_STATE_RUNNING)] ∧
  (job_at "a" c.2).(Job_State) = JOB_STATE_RUNNING ∧ size c.2.(sv_leases) = 1.
Proof. split; [apply meet_reached|split_and!]; vm_compute; reflexivity. Qed.

(** The reaper gives up on a lease while its result is being reported: both have
    read the job as RUNNING.  The job succeeds, and is then scheduled to run
    again.  (The lease lasts one second here, one tick of the clock.) *)
Theorem succeeded_job_is_retried :
  let c := meet (mkConfig "" "" "" [] 0 1000000000 0 0 0 0 "") (lease_job ++ [Beat "w" []; Beat "w" []])
    [Report "task-uuuu" TASK_RESULT_SUCCEEDED ""; Reap] (turns 3 0 ++ turns 8 1 ++ turns 40 0 ++ turns 40 1) in
  reached c ∧
  shipped_states c.2 = [("a", JOB_STATE_QUEUED); ("a", JOB_STATE_RUNNING); ("a", JOB_STATE_SUCCEEDED);
                        ("a", JOB_STATE_QUEUED)] ∧
  (job_at "a" c.2).(Job_State) = JOB_STATE_QUEUED ∧ "a" ∈ dom c.2.(sv_retryTimers).
Proof. split; [apply meet_reached|split_and!]; vm_compute; reflexivity. Qed.

(** Two dependencies of "c" succeed at the same time, and both reports find it
    PENDING and ready.  One makes it QUEUED, a poll leases it, and then the other
    report stores its own copy: the RUNNING job is QUEUED again with its attempt
    forgotten, the next poll leases it a second time, and two tasks run the one
    attempt of one job. *)
Theorem one_job_is_leased_twice :
  let c := meet sample_cfg diamond
    [Report "task-uuuuuu" TASK_RESULT_SUCCEEDED ""; Report "task-uuuuuuu" TASK_RESULT_SUCCEEDED "";
     Poll "w" 1; Poll "w" 1]
    (turns 11 0 ++ turns 15 1 ++ turns 40 0 ++ turns 40 2 ++ turns 40 1 ++ turns 40 3) in
  reached c ∧
  drop 7 (shipped_states c.2) = [("c", JOB_STATE_QUEUED); ("c", JOB_STATE_RUNNING); ("c", JOB_STATE_QUEUED);
                                 ("c", JOB_STATE_RUNNING)] ∧
  (job_at "c" c.2).(Job_Attempt) = 1%Z ∧
  ((λ l, (l.(lease_jobID), l.(lease_attempt))) <$> (map_to_list c.2.(sv_leases)).*2) = [("c", 1%Z); ("c", 1%Z)].
Proof. split; [apply meet_reached|split_and!]; vm_compute; reflexivity. Qed.

(** ** Replication *)

(** [putJob] stores the job under the lock of the store and appends it to the
    log under another.  Two updates of one job may take the second lock in the
    other order: the store says CANCELED, and a follower that applies the whole
    log says RUNNING. *)
Theorem log_order_is_not_store_order :
  let c := meet sample_cfg accept_job [Poll "w" 1; Cancel "a"] (turns 9 0 ++ turns 40 1 ++ turns 40 0) in
  reached c ∧ (job_at "a" c.2).(Job_State) = JOB_STATE_CANCELED ∧
  (Job_State <$> replay c.2.(sv_replLog) ∅ !! "a") = Some JOB_STATE_RUNNING.
Proof. split; [apply meet_reached|split_and!]; vm_compute; reflexivity. Qed.

(** [seedReplication] lists the store before it takes the lock and truncates the
    log.  A job accepted in between is in the store and the queue of the leader,
    and will not be shipped. *)
Theorem submission_during_takeover_is_not_shipped :
  let c := meet three_members (take 2 led_ops) [Callback 0; Submit (Some (sample_job "b" []))]
    (turns 7 0 ++ turns 40 1 ++ turns 40 0) in
  reached c ∧ IsLeader c.2.(sv_node) = true ∧ (job_at "b" c.2).(Job_State) = JOB_STATE_QUEUED ∧
  Queue_Len c.2.(sv_queue) = 1 ∧ c.2.(sv_replLog) = [] ∧ entriesForPeer "n2" c.2 = [].
Proof. split; [apply meet_reached|split_and!]; vm_compute; reflexivity. Qed.

(** Follower "n2" applies what it is sent; "n3" does not answer. *)
Definition only_n2 (id : string) (t : Z) (es : list ReplicationEntry) : option (bool * Z * Z) :=
  if String.eqb id "n2" then Some (true, t, highest_seq es) else None.

(** The acknowledgement of a shipment is for the log it was taken from.  If the
    leader steps down and leads again while the call is in flight, the number is
    entered for the new log: the three entries of the new log, job "b" among
    them, are never shipped to "n2". *)
Theorem stale_acknowledgement_skips_entries :
  let c := meet three_members
    (led_ops ++ [Submit (Some (sample_job "a" [])); Register (Some sample_worker); Beat "w" []; Beat "w" []])
    [Ship only_n2; Vote 2 "n2"; Callback 0; Elect [mkVoteResult true 3 true]; Callback 0;
     Submit (Some (sample_job "b" []))]
    (turns 7 0 ++ turns 9 1 ++ turns 40 2 ++ turns 20 3 ++ turns 40 4 ++ turns 10 0 ++ turns 40 5) in
  reached c ∧ IsLeader c.2.(sv_node) = true ∧ length c.2.(sv_replLog) = 3 ∧
  shipped_states c.2 = [("a", JOB_STATE_QUEUED); ("b", JOB_STATE_QUEUED)] ∧
  c.2.(sv_peerAcked) !! "n2" = Some 4%Z ∧ entriesForPeer "n2" c.2 = [].
Proof. split; [apply meet_reached|split_and!]; vm_compute; reflexivity. Qed.

End races.
