(* ===== verification/AgentThreads.v ===== *)
(** * The worker agent under every interleaving of its goroutines

    The main loop of the agent heartbeats and polls; each task it launches runs,
    reports and ends in a goroutine of its own.  They share the connection, the
    worker id and the task table, each access under a lock.  Here are the
    methods of [Agent.v] as programs of locked sections, a machine that
    interleaves the main loop and the tasks, the life of [Run] from its start to
    its end, and the proofs that the task table and the wait group are right in
    every state, and that a shutdown ends once a leader answers. *)

From S2P Require Import Prelude Types Queue Retry Env Cluster Store Server Agent Prog.
From stdpp Require Import relations.

Section agent_threads.
Context {Genv : Env} {Grpc : Rpc} {Gos : Os}.
Implicit Types (a : Agent) (id : string).

(** ** Model *)

Definition execute_t (spec : option TaskSpec) : prog Agent (TaskResult * string * string) :=
  if String.eqb (TaskSpec_GetCommand spec) "" then mret (TASK_RESULT_FAILED, "", "empty command")
  else
    match spec with
    | None => mret (TASK_RESULT_FAILED, "", "empty command")
    | Some spec =>
        let timeout := if (0 <? AsDuration spec.(TaskSpec_Timeout))%Z then spec.(TaskSpec_Timeout) else None in
        k ← act ag_next;
        let '(buf, err) := os_Run k spec.(TaskSpec_Command) spec.(TaskSpec_Args) (task_env k spec.(TaskSpec_Env)) timeout in
        let out := truncate buf in
        match err with
        | Some e => mret (TASK_RESULT_FAILED, out, e)
        | None => mret (TASK_RESULT_SUCCEEDED, out, "")
        end
    end.

Fixpoint discover_t (seeds : list string) (lastErr : option GoError) : prog Agent (string + GoError) :=
  match seeds with
  | [] =>
      all ← act (gets (λ a, a.(ag_cfg).(Agent_Schedulers)));
      mret (inr (default (TextError ("no leader elected among seeds [" +:+ String.concat " " all +:+ "]")) lastErr))
  | seed :: seeds =>
      k ← act ag_next;
      match rpc_Dial k seed with
      | Some e => discover_t seeds (Some (TextError e))
      | None =>
          k ← act ag_next;
          match rpc_GetClusterStatus k seed with
          | inr e => discover_t seeds (Some (StatusError e))
          | inl resp =>
              match holder_addr resp with
              | Some addr => mret (inl addr)
              | None => discover_t seeds lastErr
              end
          end
      end
  end.

Definition discoverLeader_t : prog Agent (string + GoError) :=
  seeds ← act (gets (λ a, a.(ag_cfg).(Agent_Schedulers)));
  discover_t seeds None.

Definition connectLeader_t : prog Agent (option GoError) :=
  r ← discoverLeader_t;
  match r : string + GoError with
  | inr e => mret (Some e)
  | inl addr =>
      k ← act ag_next;
      match rpc_Dial k addr with
      | Some e => mret (Some (TextError e))
      | None => act (modify (connected addr));; mret None
      end
  end.

Definition register_t : prog Agent (option Status) :=
  addr ← act (gets client_addr);
  id ← act (gets ag_workerID);
  cfg ← act (gets ag_cfg);
  k ← act ag_next;
  match rpc_RegisterWorker k addr (mkWorkerInfo id cfg.(Agent_Advertise) cfg.(Agent_Capacity)
          cfg.(Agent_Labels) WORKER_STATE_UNSPECIFIED None 0) with
  | inr e => mret (Some e)
  | inl (workerID, _) => act (modify (set_ag_workerID workerID));; mret None
  end.

Fixpoint bootstrap_t (n : nat) : prog Agent bool :=
  match n with
  | O => mret false
  | S n =>
      e ← connectLeader_t;
      match e : option GoError with
      | Some _ => bootstrap_t n
      | None =>
          e ← register_t;
          match e : option Status with
          | None => mret true
          | Some _ => bootstrap_t n
          end
      end
  end.

Definition onLeadershipError_t (rounds : nat) (e : Status) : prog Agent (option bool) :=
  match e.(status_code) with
  | FailedPrecondition | Unavailable => ok ← bootstrap_t rounds; mret (if ok : bool then Some true else None)
  | _ => mret (Some false)
  end.

Definition heartbeat_t (rounds : nat) : prog Agent unit :=
  addr ← act (gets client_addr);
  id ← act (gets ag_workerID);
  ids ← act runningTaskIDs;
  k ← act ag_next;
  match rpc_Heartbeat k addr id ids with
  | inr e => _ ← onLeadershipError_t rounds e; mret tt
  | inl (ok, _) => if (ok : bool) then mret tt else (_ ← register_t; mret tt)
  end.

(** The [go] statement takes no lock: the goroutine exists from the section that
    claims its slot, and begins when it begins. *)
Fixpoint launch_t (tasks : list TaskAssignment) : prog Agent unit :=
  match tasks with
  | [] => mret tt
  | task :: tasks => act (claim task);; launch_t tasks
  end.

Definition poll_t (rounds : nat) : prog Agent unit :=
  free ← act (gets freeCapacity);
  if (free <=? 0)%Z then mret tt
  else
    addr ← act (gets client_addr);
    id ← act (gets ag_workerID);
    k ← act ag_next;
    match rpc_PollTask k addr id (int32 free) with
    | inr e => _ ← onLeadershipError_t rounds e; mret tt
    | inl tasks => launch_t tasks
    end.

Fixpoint report_loop_t (n rounds : nat) (taskID : string) (result : TaskResult) (output errMsg : string)
    : prog Agent (option nat) :=
  match n with
  | O => mret None
  | S n =>
      addr ← act (gets client_addr);
      id ← act (gets ag_workerID);
      k ← act ag_next;
      match rpc_ReportTask k addr id taskID result output errMsg with
      | inl _ => mret None
      | inr e =>
          handled ← onLeadershipError_t rounds e;
          match handled : option bool with
          | None => mret (Some n)
          | Some _ => report_loop_t n rounds taskID result output errMsg
          end
      end
  end.

Definition report_t (rounds : nat) := report_loop_t 5 rounds.

(** What follows [report]: the deferred [finish], if [report] returned. *)
Definition leave_t (taskID : string) (result : TaskResult) (output errMsg : string) (left : option nat) : prog Agent turn :=
  match left with
  | Some n => mret (Reporting n result output errMsg)
  | None => now ← act (finish taskID); mret (Finished now)
  end.

Definition run_body_t (rounds : nat) (task : TaskAssignment) : prog Agent turn :=
  r ← execute_t task.(TaskAssignment_Spec);
  left ← report_t rounds task.(TaskAssignment_TaskId) r.1.1 r.1.2 r.2;
  leave_t task.(TaskAssignment_TaskId) r.1.1 r.1.2 r.2 left.

(** More rounds of the [bootstrap] that a report is in, at least one, and what
    follows.  Since the pool may go on so any number of times, the loop is not
    bounded. *)
Definition resume_t (rounds : nat) (taskID : string) (n : nat) (result : TaskResult) (output errMsg : string)
    : prog Agent turn :=
  ok ← bootstrap_t (S rounds);
  left ← (if ok : bool then report_loop_t n rounds taskID result output errMsg else mret (Some n));
  leave_t taskID result output errMsg left.

(** ** Without interruption *)

Lemma tracks_execute spec : tracks (execute_t spec) (execute spec).
Proof. unfold execute_t, execute. track. Qed.
Lemma tracks_discover seeds e : tracks (discover_t seeds e) (discover seeds e).
Proof. revert e. induction seeds as [|seed seeds IH]; intros e; cbn [discover_t discover]; track. Qed.
#[local] Hint Resolve tracks_execute tracks_discover : tracks.
Lemma tracks_connect : tracks connectLeader_t connectLeader.
Proof. unfold connectLeader_t, connectLeader, discoverLeader_t, discoverLeader. track. Qed.
Lemma tracks_register : tracks register_t register.
Proof. unfold register_t, register. track. Qed.
#[local] Hint Resolve tracks_connect tracks_register : tracks.
Lemma tracks_bootstrap n : tracks (bootstrap_t n) (bootstrap n).
Proof. induction n as [|n IH]; cbn [bootstrap_t bootstrap report_loop_t report_loop]; track. Qed.
#[local] Hint Resolve tracks_bootstrap : tracks.
Lemma tracks_error n e : tracks (onLeadershipError_t n e) (onLeadershipError n e).
Proof. unfold onLeadershipError_t, onLeadershipError. track. Qed.
#[local] Hint Resolve tracks_error : tracks.
Lemma tracks_heartbeat n : tracks (heartbeat_t n) (heartbeat n).
Proof. unfold heartbeat_t, heartbeat. track. Qed.
Lemma tracks_launch tasks : tracks (launch_t tasks) (launch tasks).
Proof. induction tasks as [|t tasks IH]; cbn [launch_t launch]; track. Qed.
#[local] Hint Resolve tracks_launch : tracks.
Lemma tracks_poll n : tracks (poll_t n) (poll n).
Proof. unfold poll_t, poll. track. Qed.
Lemma tracks_report n m t r o e : tracks (report_loop_t n m t r o e) (report_loop n m t r o e).
Proof. induction n as [|n IH]; cbn [bootstrap_t bootstrap report_loop_t report_loop]; track. Qed.
#[local] Hint Resolve tracks_report : tracks.
Lemma tracks_run_body n t : tracks (run_body_t n t) (run_body n t).
Proof. unfold run_body_t, run_body, report_t, report, leave_t. track. Qed.

(** ** The machine *)

(** The program of the main loop's current round; the goroutines of the tasks that
    have begun, each with the id of its task; the tasks whose goroutine has ended,
    with the time of their [finish]; and the shared state. *)
Record AgentPool := mkAgentPool {
  ap_loop : prog Agent unit;
  ap_tasks : list (string * prog Agent turn);
  ap_ended : list (string * Z);
  ap_agent : Agent
}.

(** A round of the main loop of [Run]. *)
Definition loop_round (p : prog Agent unit) : Prop :=
  ∃ rounds, p = (_ ← bootstrap_t rounds; mret tt) ∨ p = heartbeat_t rounds ∨ p = poll_t rounds.

(** A goroutine begins; performs a section; goes on in the loop of [bootstrap];
    or, its deferred [finish] done, performs its deferred [wg.Done] and ends. *)
Inductive tasks_step : AgentPool → AgentPool → Prop :=
| task_begins i rounds t p ts H a :
    a.(ag_tasks) !! i = Some t →
    tasks_step (mkAgentPool p ts H a)
      (mkAgentPool p (ts ++ [(t.(TaskAssignment_TaskId), run_body_t rounds t)]) H
         (set_ag_tasks (delete i a.(ag_tasks)) a))
| task_section B (m : M Agent B) k id p ts1 ts2 H a :
    tasks_step (mkAgentPool p (ts1 ++ (id, Act m k) :: ts2) H a)
      (mkAgentPool p (ts1 ++ (id, k (eval m a)) :: ts2) H (exec m a))
| task_resumes rounds n r o e id p ts1 ts2 H a :
    tasks_step (mkAgentPool p (ts1 ++ (id, Ret (Reporting n r o e)) :: ts2) H a)
      (mkAgentPool p (ts1 ++ (id, resume_t rounds id n r o e) :: ts2) H a)
| task_ends now id p ts1 ts2 H a :
    tasks_step (mkAgentPool p (ts1 ++ (id, Ret (Finished now)) :: ts2) H a)
      (mkAgentPool p (ts1 ++ ts2) (H ++ [(id, now)]) (exec wg_Done a)).

Inductive agent_conc_step : AgentPool → AgentPool → Prop :=
| loop_begins p ts H a :
    loop_round p → agent_conc_step (mkAgentPool (Ret tt) ts H a) (mkAgentPool p ts H a)
| loop_section B (m : M Agent B) k ts H a :
    agent_conc_step (mkAgentPool (Act m k) ts H a) (mkAgentPool (k (eval m a)) ts H (exec m a))
| tasks_steps c c' : tasks_step c c' → agent_conc_step c c'.

(** A new agent. *)
Definition new_pool (cfg : AgentConfig) : AgentPool := mkAgentPool (Ret tt) [] [] (Agent_New cfg).

Definition agent_conc_reachable (cfg : AgentConfig) : AgentPool → Prop := rtc agent_conc_step (new_pool cfg).

(** The goroutines before and after their [finish]. *)
Definition live (ts : list (string * prog Agent turn)) : list string :=
  omap (λ x, match x.2 with Ret (Finished _) => None | _ => Some x.1 end) ts.
Definition finished (ts : list (string * prog Agent turn)) : list (string * Z) :=
  omap (λ x, match x.2 with Ret (Finished now) => Some (x.1, now) | _ => None end) ts.

(** The tasks that have been finished, with the time. *)
Definition ended_tasks (c : AgentPool) : list (string * Z) := finished c.(ap_tasks) ++ c.(ap_ended).

Definition task_ids (a : Agent) : list string := TaskAssignment_TaskId <$> a.(ag_tasks).

(** The tasks whose goroutine has been started and has not finished. *)
Definition in_flight (c : AgentPool) : list string := live c.(ap_tasks) ++ task_ids c.(ap_agent).

(** The goroutines that have been started and have not ended. *)
Definition goroutines (c : AgentPool) : nat := length c.(ap_tasks) + length c.(ap_agent).(ag_tasks).

(** ** The task table

    [ids] are the tasks in flight, [H] the ones that have ended. *)

Record table_ok (ids : list string) (a : Agent) : Prop := {
  tb_capacity : (Z.of_nat (size a.(ag_running)) <= a.(ag_cfg).(Agent_Capacity))%Z;
  tb_unique : NoDup ids;
  tb_running : a.(ag_running) = list_to_set ids;
  tb_fresh id : id ∈ a.(ag_running) → a.(ag_done) !! id = None
}.

(** Every task that ended is remembered, unless another ended more than the
    retention time later. *)
Definition remembers (a : Agent) (H : list (string * Z)) : Prop :=
  ∀ id t, (id, t) ∈ H →
    a.(ag_done) !! id = Some t ∨ ∃ id' t', (id', t') ∈ H ∧ (doneRetention < t' - t)%Z.

Definition table (ids : list string) (H : list (string * Z)) (a : Agent) : Prop :=
  table_ok ids a ∧ remembers a H.

Lemma table_perm ids ids' H H' a : ids ≡ₚ ids' → H ≡ₚ H' → table ids H a → table ids' H' a.
Proof.
  intros Hi Hh [[H1 H2 H3 H4] Hr]. split; [split|]; [done|by rewrite <- Hi| |done|].
  - rewrite H3. apply set_eq. intros x. by rewrite !elem_of_list_to_set, Hi.
  - intros id t Hin. rewrite <- Hh in Hin. destruct (Hr id t Hin) as [?|(id' & t' & ? & ?)]; [by left|].
    right. exists id', t'. by rewrite <- Hh.
Qed.

(** What most sections leave alone. *)
Definition same_table (a a' : Agent) : Prop :=
  a'.(ag_cfg) = a.(ag_cfg) ∧ a'.(ag_running) = a.(ag_running) ∧
  a'.(ag_done) = a.(ag_done) ∧ a'.(ag_tasks) = a.(ag_tasks) ∧ a'.(ag_wg) = a.(ag_wg) ∧
  a.(ag_tick) ≤ a'.(ag_tick).

#[export] Instance same_table_preorder : PreOrder same_table.
Proof. split; [by intros a|]. intros a b c (?&?&?&?&?&?) (?&?&?&?&?&?). split_and!; [congruence..|lia]. Qed.

Lemma table_same ids H a a' : same_table a a' → table ids H a → table ids H a'.
Proof.
  intros (Hc & Hr & Hd & _) [[H1 H2 H3 H4] H5].
  split; [split|]; unfold remembers; rewrite ?Hc, ?Hr, ?Hd; auto.
Qed.

Lemma table_tasks ids H x a : table ids H a → table ids H (set_ag_tasks x a).
Proof. by intros [[H1 H2 H3 H4] H5]. Qed.

(** Claiming a slot: the wait group is raised for the goroutine that is started. *)
Lemma claim_counts t a :
  ((exec (claim t) a).(ag_wg) - Z.of_nat (length (exec (claim t) a).(ag_tasks)) =
  a.(ag_wg) - Z.of_nat (length a.(ag_tasks)))%Z.
Proof.
  unfold claim. mrun. destruct (tryStart_cases (TaskAssignment_TaskId t) a) as [[-> ->]|(-> & -> & _)]; simpl; [done|].
  unfold wg_Add. mrun. simpl. rewrite length_app. simpl. lia.
Qed.

Lemma claim_table t ids H a :
  table (ids ++ task_ids a) H a → table (ids ++ task_ids (exec (claim t) a)) H (exec (claim t) a).
Proof.
  unfold claim. mrun. intros Ht.
  destruct (tryStart_cases (TaskAssignment_TaskId t) a) as [[-> ->]|(-> & -> & Hn & Hd & Hc)]; simpl; [done|].
  destruct Ht as [[H1 H2 H3 H4] Hr].
  eapply (table_perm (TaskAssignment_TaskId t :: ids ++ task_ids a) _ H); [|done|].
  { unfold task_ids. simpl. rewrite fmap_app. simpl. by rewrite app_assoc, Permutation_cons_append. }
  split; [split|exact Hr]; simpl.
  - rewrite size_union, size_singleton by set_solver. lia.
  - apply NoDup_cons. split; [|done]. intros Hin. apply Hn. rewrite H3. by apply elem_of_list_to_set.
  - by rewrite H3.
  - intros x [->%elem_of_singleton|Hx]%elem_of_union; [done|by apply H4].
Qed.

Lemma prune_lookup now (done : gmap string Z) id t :
  done !! id = Some t → prune now done !! id = Some t ∨ (doneRetention < now - t)%Z.
Proof.
  intros Hd. unfold prune. destruct (decide (doneRetention < saturate64 (now - t))%Z) as [Hs|Hs].
  - right. revert Hs. unfold saturate64, doneRetention, Second, Millisecond, max_int64, min_int64. lia.
  - left. by apply map_lookup_filter_Some.
Qed.

(** The end of a task. *)
Lemma finish_table id ids H a :
  table (id :: ids) H a → table ids ((id, eval (finish id) a) :: H) (exec (finish id) a).
Proof.
  intros [[H1 H2 H3 H4] Hr]. apply NoDup_cons in H2 as [Hnot Hnd].
  assert (id ∈ ag_running a) as Hrun by (rewrite H3; set_solver).
  unfold finish. mrun. simpl. set (now := env_now (ag_tick a)). split; [split|]; simpl.
  - pose proof (subseteq_size (ag_running a ∖ {[id]}) (ag_running a)) as Hs. specialize (Hs ltac:(set_solver)). lia.
  - done.
  - rewrite H3. simpl. apply set_eq. intros x.
    rewrite elem_of_difference, elem_of_union, !elem_of_singleton, elem_of_list_to_set. naive_solver.
  - intros x [Hx Hne]%elem_of_difference. apply map_lookup_filter_None. left.
    rewrite lookup_insert_ne by set_solver. by apply H4.
  - intros x t [[= -> ->]|Hx]%elem_of_cons.
    + left. simpl. destruct (prune_lookup now (<[id:=now]> (ag_done a)) id now) as [?|Hlt]; [by rewrite lookup_insert_eq|done|].
      unfold doneRetention, Second, Millisecond in Hlt. lia.
    + destruct (Hr x t Hx) as [Hd|(x' & t' & Hx' & Ht')]; [|right; exists x', t'; split; [by right|done]].
      assert (x ≠ id) by (intros ->; rewrite H4 in Hd; done).
      destruct (prune_lookup now (<[id:=now]> (ag_done a)) x t) as [?|Hlt]; [by rewrite lookup_insert_ne|by left|].
      right. exists id, now. split; [by left|done].
Qed.

(** ** What the programs do to the table *)

(** No section of [p] touches the table. *)
Fixpoint calm {A} (p : prog Agent A) : Prop :=
  match p with
  | Ret _ => True
  | Act m k => within same_table m ∧ ∀ b, calm (k b)
  end.

(** The main loop only claims slots. *)
Fixpoint claims (p : prog Agent unit) : Prop :=
  match p with
  | Ret _ => True
  | Act m k => (within same_table m ∨ ∃ t, ∀ a, exec m a = exec (claim t) a) ∧ ∀ b, claims (k b)
  end.

(** The goroutine of task [id] ends with [finish], and touches the table only
    there. *)
Fixpoint works (id : string) (p : prog Agent turn) : Prop :=
  match p with
  | Ret (Finished _) => False
  | Ret (Reporting _ _ _ _) => True
  | Act m k =>
      (within same_table m ∧ ∀ b, works id (k b)) ∨
      ∀ a, exec m a = exec (finish id) a ∧ k (eval m a) = Ret (Finished (eval (finish id) a))
  end.

Lemma calm_act {A} (m : M Agent A) : within same_table m → calm (act m).
Proof. done. Qed.
Lemma calm_bind {A B} (p : prog Agent A) (f : A → prog Agent B) : calm p → (∀ x, calm (f x)) → calm (p ≫= f).
Proof. intros Hp Hf. induction p as [x|C m k IH]; [apply Hf|]. destruct Hp as [Hm Hk]. split; [done|]. intros b. by apply IH. Qed.
Lemma calm_claims p : calm p → claims p.
Proof. induction p as [x|C m k IH]; [done|]. intros [Hm Hk]. split; [by left|]. intros b. by apply IH. Qed.
Lemma claims_bind {A} (p : prog Agent A) f : calm p → (∀ x, claims (f x)) → claims (p ≫= f).
Proof. intros Hp Hf. induction p as [x|C m k IH]; [apply Hf|]. destruct Hp as [Hm Hk]. split; [by left|]. intros b. by apply IH. Qed.
Lemma works_bind {A} id (p : prog Agent A) f : calm p → (∀ x, works id (f x)) → works id (p ≫= f).
Proof. intros Hp Hf. induction p as [x|C m k IH]; [apply Hf|]. destruct Hp as [Hm Hk]. left. split; [done|]. intros b. by apply IH. Qed.

Lemma same_table_next : within same_table ag_next.
Proof. intros a. split_and!; [done..|simpl; lia]. Qed.
Lemma same_table_modify f : (∀ a, same_table a (f a)) → within same_table (modify f).
Proof. intros H a. apply H. Qed.
Lemma same_table_ids : within same_table runningTaskIDs.
Proof. intros a. split_and!; [done..|simpl; lia]. Qed.

Create HintDb calm.
#[local] Hint Resolve same_table_next same_table_ids : pres.

(** Walk through a program whose sections leave the table alone. *)
Ltac calm_step :=
  match goal with
  | |- calm (_ ≫= _) => apply calm_bind; [|intros ?]
  | |- calm (mret _) => exact I
  | |- calm (act (modify _)) => apply calm_act, same_table_modify; intros ?; done
  | |- calm (act _) => apply calm_act; walk
  | |- calm (match ?x with _ => _ end) => destruct x
  end.
Ltac calmly := repeat (solve [eauto with calm] || calm_step).

Lemma calm_execute spec : calm (execute_t spec).
Proof. unfold execute_t. calmly. Qed.
Lemma calm_discover seeds e : calm (discover_t seeds e).
Proof. revert e. induction seeds as [|seed seeds IH]; intros e; cbn [discover_t]; calmly. Qed.
#[local] Hint Resolve calm_execute calm_discover : calm.
Lemma calm_connect : calm connectLeader_t.
Proof. unfold connectLeader_t, discoverLeader_t. calmly. Qed.
Lemma calm_register : calm register_t.
Proof. unfold register_t. calmly. Qed.
#[local] Hint Resolve calm_connect calm_register : calm.
Lemma calm_bootstrap n : calm (bootstrap_t n).
Proof. induction n as [|n IH]; cbn [bootstrap_t]; calmly. Qed.
#[local] Hint Resolve calm_bootstrap : calm.
Lemma calm_error n e : calm (onLeadershipError_t n e).
Proof. unfold onLeadershipError_t. calmly. Qed.
#[local] Hint Resolve calm_error : calm.
Lemma calm_heartbeat n : calm (heartbeat_t n).
Proof. unfold heartbeat_t. calmly. Qed.
Lemma calm_report n m t r o e : calm (report_loop_t n m t r o e).
Proof. induction n as [|n IH]; cbn [report_loop_t]; calmly. Qed.
#[local] Hint Resolve calm_heartbeat calm_report : calm.

Lemma claims_launch tasks : claims (launch_t tasks).
Proof. induction tasks as [|t tasks IH]; [done|]. split; [right; by exists t|]. by intros []. Qed.

Lemma claims_poll n : claims (poll_t n).
Proof.
  unfold poll_t. apply claims_bind; [calmly|]. intros free. destruct (free <=? 0)%Z; [done|].
  do 3 (apply claims_bind; [calmly|intros ?]).
  destruct (rpc_PollTask _ _ _ _); [apply claims_launch|apply calm_claims; calmly].
Qed.

Lemma claims_round p : loop_round p → claims p.
Proof. intros [n [->|[->| ->]]]; [apply calm_claims; calmly|apply calm_claims; calmly|apply claims_poll]. Qed.

Lemma works_leave id r o e left : works id (leave_t id r o e left).
Proof. destruct left; [exact I|]. by right. Qed.

Lemma works_run_body n t : works (TaskAssignment_TaskId t) (run_body_t n t).
Proof.
  unfold run_body_t. apply works_bind; [calmly|]. intros r. unfold report_t. apply works_bind; [calmly|].
  intros left. apply works_leave.
Qed.

Lemma works_resume rounds id n r o e : works id (resume_t rounds id n r o e).
Proof.
  unfold resume_t. apply works_bind; [calmly|]. intros ok. apply works_bind; [calmly|]. intros left. apply works_leave.
Qed.

(** ** Every schedule keeps the table and the wait group right *)

Record agent_ok (c : AgentPool) : Prop := {
  ao_table : table (in_flight c) (ended_tasks c) c.(ap_agent);
  ao_wg : c.(ap_agent).(ag_wg) = Z.of_nat (goroutines c);
  ao_loop : claims c.(ap_loop);
  ao_tasks : Forall (λ x, works x.1 x.2 ∨ ∃ now, x.2 = Ret (Finished now)) c.(ap_tasks)
}.

Lemma live_app l1 l2 : live (l1 ++ l2) = live l1 ++ live l2.
Proof. apply omap_app. Qed.
Lemma finished_app l1 l2 : finished (l1 ++ l2) = finished l1 ++ finished l2.
Proof. apply omap_app. Qed.

Lemma live_works id p ts : works id p → live ((id, p) :: ts) = id :: live ts ∧ finished ((id, p) :: ts) = finished ts.
Proof. by destruct p as [[]|]. Qed.

(** A goroutine at work is replaced by one at work, and the table is left alone. *)
Lemma goes_on_ok id q q' p ts1 ts2 H a a' :
  works id q → works id q' → same_table a a' →
  agent_ok (mkAgentPool p (ts1 ++ (id, q) :: ts2) H a) → agent_ok (mkAgentPool p (ts1 ++ (id, q') :: ts2) H a').
Proof.
  intros Hq Hq' Hs [Ht Hw Hl Hts]. destruct (live_works id q ts2 Hq) as [El Ef], (live_works id q' ts2 Hq') as [El' Ef'].
  unfold in_flight, ended_tasks, goroutines, task_ids in *. cbn [ap_tasks ap_ended ap_agent ap_loop] in *.
  rewrite live_app, finished_app, El, Ef in Ht. apply Forall_app in Hts as [Hts1 [_ Hts2]%Forall_cons].
  destruct Hs as (Hs1 & Hs2 & Hs3 & Htasks & Hwg & Hs4). split; cbn [ap_tasks ap_ended ap_agent ap_loop].
  - unfold in_flight, ended_tasks, task_ids. cbn [ap_tasks ap_ended ap_agent].
    rewrite live_app, finished_app, El', Ef', Htasks. by apply (table_same _ _ a a').
  - unfold goroutines. cbn [ap_tasks ap_agent]. rewrite Hwg, Htasks, Hw, !length_app. done.
  - done.
  - apply Forall_app. split; [done|]. apply Forall_cons. split; [by left|done].
Qed.

Lemma begins_ok i n t p ts H a :
  a.(ag_tasks) !! i = Some t → agent_ok (mkAgentPool p ts H a) →
  agent_ok (mkAgentPool p (ts ++ [(t.(TaskAssignment_TaskId), run_body_t n t)]) H (set_ag_tasks (delete i a.(ag_tasks)) a)).
Proof.
  intros Hi [Ht Hw Hl Hts]. pose proof (works_run_body n t) as Hb. destruct (live_works _ _ [] Hb) as [El Ef].
  unfold in_flight, ended_tasks, goroutines in *. cbn [ap_tasks ap_ended ap_agent ap_loop] in *.
  split; cbn [ap_tasks ap_ended ap_agent ap_loop];
    [| |done|apply Forall_app; split; [done|]; apply Forall_singleton; by left].
  - unfold in_flight, ended_tasks. cbn [ap_tasks ap_ended ap_agent]. rewrite live_app, finished_app, El, Ef, app_nil_r.
    apply table_tasks. eapply table_perm; [|reflexivity|exact Ht]. rewrite <- app_assoc. f_equiv. unfold task_ids. simpl.
    rewrite list_fmap_delete. apply delete_Permutation. by rewrite list_lookup_fmap, Hi.
  - unfold goroutines. simpl. pose proof (length_delete (ag_tasks a) i (mk_is_Some _ _ Hi)). pose proof (lookup_lt_Some _ _ _ Hi).
    rewrite Hw, length_app. simpl. lia.
Qed.

Lemma finishes_ok id q p ts1 ts2 H a :
  works id q → agent_ok (mkAgentPool p (ts1 ++ (id, q) :: ts2) H a) →
  agent_ok (mkAgentPool p (ts1 ++ (id, Ret (Finished (eval (finish id) a))) :: ts2) H (exec (finish id) a)).
Proof.
  intros Hq [Ht Hw Hl Hts]. destruct (live_works id q ts2 Hq) as [El Ef].
  unfold in_flight, ended_tasks, goroutines in *. cbn [ap_tasks ap_ended ap_agent ap_loop] in *.
  rewrite live_app, finished_app, El, Ef in Ht. apply Forall_app in Hts as [Hts1 [_ Hts2]%Forall_cons].
  split; cbn [ap_tasks ap_ended ap_agent ap_loop]; [| |done|apply Forall_app; split; [done|]; apply Forall_cons; split; [right; by eexists|done]].
  - unfold in_flight, ended_tasks. cbn [ap_tasks ap_ended ap_agent]. rewrite live_app, finished_app. simpl.
    change (task_ids (exec (finish id) a)) with (task_ids a).
    eapply (table_perm _ _ ((id, eval (finish id) a) :: (finished ts1 ++ finished ts2) ++ H)); [reflexivity| |apply finish_table].
    { rewrite <- !app_assoc. simpl. apply Permutation_middle. }
    eapply table_perm; [|reflexivity|exact Ht]. rewrite <- !app_assoc. simpl. by rewrite <- Permutation_middle.
  - unfold goroutines. cbn [ap_tasks ap_agent]. rewrite !length_app in *. exact Hw.
Qed.

Lemma ends_ok id now p ts1 ts2 H a :
  agent_ok (mkAgentPool p (ts1 ++ (id, Ret (Finished now)) :: ts2) H a) →
  agent_ok (mkAgentPool p (ts1 ++ ts2) (H ++ [(id, now)]) (exec wg_Done a)).
Proof.
  intros [Ht Hw Hl Hts]. unfold in_flight, ended_tasks, goroutines in *. cbn [ap_tasks ap_ended ap_agent ap_loop] in *.
  rewrite live_app, finished_app in Ht. apply Forall_app in Hts as [Hts1 [_ Hts2]%Forall_cons].
  split; cbn [ap_tasks ap_ended ap_agent ap_loop]; [| |done|by apply Forall_app].
  - unfold in_flight, ended_tasks. cbn [ap_tasks ap_ended ap_agent]. rewrite live_app, finished_app.
    apply (table_perm (live ts1 ++ live ts2 ++ task_ids a) _ ((finished ts1 ++ (id, now) :: finished ts2) ++ H));
      [by rewrite app_assoc| |].
    + rewrite <- !app_assoc. simpl. f_equiv. by rewrite !app_assoc, <- Permutation_cons_append.
    + simpl in Ht. rewrite <- !app_assoc in Ht. rewrite <- !app_assoc. destruct Ht as [[H1 H2 H3 H4] H5]. by split; [split|].
  - unfold goroutines, wg_Done, wg_Add in *. cbn [ap_tasks ap_agent]. mrun. simpl. rewrite Hw, !length_app. simpl. lia.
Qed.

Lemma tasks_step_ok c c' : tasks_step c c' → agent_ok c → agent_ok c'.
Proof.
  intros [i n t p ts H a Hi|B m k id p ts1 ts2 H a|rounds n r o e id p ts1 ts2 H a|now id p ts1 ts2 H a] Hok;
    [by apply begins_ok| | |by apply ends_ok].
  - pose proof (ao_tasks _ Hok) as Hts. cbn [ap_tasks] in Hts. apply Forall_app in Hts as [_ [[Hw|[? ?]] _]%Forall_cons]; [|done].
    simpl in Hw. pose proof Hw as [[Hm Hk]|Hf].
    + eapply (goes_on_ok id (Act m k)); [exact Hw|apply Hk|apply Hm|exact Hok].
    + destruct (Hf a) as [-> ->]. by apply (finishes_ok id (Act m k)).
  - by eapply (goes_on_ok id (Ret (Reporting n r o e))); [exact I|apply works_resume|reflexivity|].
Qed.

Lemma agent_step_ok c c' : agent_conc_step c c' → agent_ok c → agent_ok c'.
Proof.
  intros [p ts H a Hp|B m k ts H a|c1 c2 Hs] Hok; [| |by eapply tasks_step_ok].
  - destruct Hok as [Ht Hw Hl Hts]. split; [exact Ht|exact Hw|by apply claims_round|done].
  - destruct Hok as [Ht Hw [Hm Hk] Hts]. unfold in_flight, ended_tasks, goroutines in *. cbn [ap_tasks ap_ended ap_agent] in *.
    split; [| |by apply Hk|done]; unfold in_flight, ended_tasks, goroutines; cbn [ap_tasks ap_ended ap_agent].
    + destruct Hm as [Hm|[t Hm]]; [|rewrite Hm; by apply claim_table].
      destruct (Hm a) as (?&?&?&Htasks&?&?). unfold task_ids. rewrite Htasks. by apply (table_same _ _ a).
    + destruct Hm as [Hm|[t Hm]]; [destruct (Hm a) as (_ & _ & _ & -> & -> & _); exact Hw|].
      pose proof (claim_counts t a) as Hcl. rewrite <- Hm in Hcl. lia.
Qed.

Lemma new_pool_ok cfg : agent_ok (new_pool cfg).
Proof.
  split; [split; [split|]|done|exact I|by apply Forall_nil]; simpl;
    [trans 0%Z; [done|destruct (Z.leb_spec (Agent_Capacity cfg) 0); lia]|constructor|done|done|].
  by intros id t ?%not_elem_of_nil.
Qed.

Lemma agent_conc_ok cfg c : agent_conc_reachable cfg c → agent_ok c.
Proof.
  unfold agent_conc_reachable. pose proof (new_pool_ok cfg) as H0. revert H0. generalize (new_pool cfg). intros c0 H0 Hr.
  induction Hr as [|c1 c2 c3 H12 _ IH]; [done|]. apply IH. by eapply agent_step_ok.
Qed.

(** ** Goroutines that are not interrupted *)

Lemma tasks_are_steps c c' : rtc tasks_step c c' → rtc agent_conc_step c c'.
Proof. induction 1 as [|x y z H _ IH]; [done|]. by eapply rtc_l; [apply tasks_steps|]. Qed.

Lemma loop_alone p ts H a : rtc agent_conc_step (mkAgentPool p ts H a) (mkAgentPool (Ret tt) ts H (exec (run p) a)).
Proof.
  revert a. induction p as [[]|B m k IH]; intros a; [done|]. eapply rtc_l; [apply loop_section|]. apply IH.
Qed.

Lemma task_alone id q p ts1 ts2 H a :
  rtc tasks_step (mkAgentPool p (ts1 ++ (id, q) :: ts2) H a)
    (mkAgentPool p (ts1 ++ (id, Ret (eval (run q) a)) :: ts2) H (exec (run q) a)).
Proof.
  revert a. induction q as [e|B m k IH]; intros a; [done|].
  eapply rtc_l; [apply (task_section _ _ _ _ _ ts1 ts2)|]. apply IH.
Qed.

Lemma round_alone p (m : M Agent unit) ts H a :
  loop_round p → tracks p m → rtc agent_conc_step (mkAgentPool (Ret tt) ts H a) (mkAgentPool (Ret tt) ts H (exec m a)).
Proof.
  intros Hp Hm. eapply rtc_l; [by apply loop_begins|]. rewrite <- (tracks_exec p m a Hm). apply loop_alone.
Qed.

(** The goroutine of a launched task begins and runs on until it ends or its
    report goes on in [bootstrap]. *)
Lemma run_alone i n t p ts H a :
  let a' := set_ag_tasks (delete i a.(ag_tasks)) a in
  a.(ag_tasks) !! i = Some t →
  rtc tasks_step (mkAgentPool p ts H a)
    (mkAgentPool p (ts ++ [(t.(TaskAssignment_TaskId), Ret (eval (run_body n t) a'))]) H (exec (run_body n t) a')).
Proof.
  intros a' Hi. eapply rtc_l; [by apply (task_begins i n t)|]. fold a'.
  unfold eval, exec. rewrite <- (tracks_run_body n t a'). apply task_alone.
Qed.

Lemma poll_alone n ts H a :
  rtc agent_conc_step (mkAgentPool (Ret tt) ts H a) (mkAgentPool (Ret tt) ts H (exec (run_agent (AgentPoll n)) a)).
Proof. simpl. mrun. apply (round_alone (poll_t n) (poll n)); [exists n; by right; right|apply tracks_poll]. Qed.

(** ** The life of the process

    [Run] bootstraps, and returns an error if its context is canceled before that
    succeeds; the deferred [closeConn] is not yet in place then.  It panics on a
    ticker whose interval is not positive.  Then it works until its context is
    canceled, waits in [drain] until the wait group is at zero or [drainTimeout]
    has passed, and returns, which closes the connection and ends the process. *)

Definition drainTimeout : Z := 30 * Second.

Inductive run_exit := NotStarted | Panicked | Clean | TimedOut.
Inductive run_phase := Starting (p : prog Agent bool) | Working | Draining | Stopped (how : run_exit).

Definition with_agent (a : Agent) (c : AgentPool) : AgentPool := mkAgentPool c.(ap_loop) c.(ap_tasks) c.(ap_ended) a.

(** The deferred [closeConn]. *)
Definition hang_up (c : AgentPool) : AgentPool := with_agent (exec closeConn c.(ap_agent)) c.

(** [time.NewTicker] accepts the two intervals. *)
Definition tickers_ok (cfg : AgentConfig) : bool :=
  (0 <? cfg.(Agent_HeartbeatInterval))%Z && (0 <? cfg.(Agent_PollInterval))%Z.

Inductive run_step : run_phase * AgentPool → run_phase * AgentPool → Prop :=
| run_boots B (m : M Agent B) k c :
    run_step (Starting (Act m k), c) (Starting (k (eval m c.(ap_agent))), with_agent (exec m c.(ap_agent)) c)
| run_not_started c : run_step (Starting (Ret false), c) (Stopped NotStarted, c)
| run_panics c :
    tickers_ok c.(ap_agent).(ag_cfg) = false → run_step (Starting (Ret true), c) (Stopped Panicked, hang_up c)
| run_started c : tickers_ok c.(ap_agent).(ag_cfg) = true → run_step (Starting (Ret true), c) (Working, c)
| run_works c c' : agent_conc_step c c' → run_step (Working, c) (Working, c')
| run_canceled c : c.(ap_loop) = Ret tt → run_step (Working, c) (Draining, c)
| run_drains c c' : tasks_step c c' → run_step (Draining, c) (Draining, c')
| run_drained c : c.(ap_agent).(ag_wg) = 0%Z → run_step (Draining, c) (Stopped Clean, hang_up c)
| run_gives_up c : run_step (Draining, c) (Stopped TimedOut, hang_up c).

(** [bootstrap] goes through its loop any number of times before its context is
    canceled. *)
Definition run_reachable (cfg : AgentConfig) (x : run_phase * AgentPool) : Prop :=
  ∃ rounds, rtc run_step (Starting (bootstrap_t rounds), new_pool cfg) x.

(** Every task a goroutine has been started for. *)
Definition started (c : AgentPool) : list string := c.(ap_tasks).*1 ++ c.(ap_ended).*1 ++ task_ids c.(ap_agent).

(** What holds in each phase, beside the invariant of the pool. *)
Definition phase_ok (x : run_phase) (c : AgentPool) : Prop :=
  match x with
  | Starting p => calm p ∧ started c = [] ∧ c.(ap_loop) = Ret tt
  | Working => True
  | Draining => c.(ap_loop) = Ret tt
  | Stopped NotStarted => started c = []
  | Stopped Panicked => started c = [] ∧ c.(ap_agent).(ag_conn) = false
  | Stopped Clean => goroutines c = 0 ∧ c.(ap_agent).(ag_conn) = false
  | Stopped TimedOut => c.(ap_agent).(ag_conn) = false
  end.

Lemma hang_up_table a : same_table a (exec closeConn a) ∧ (exec closeConn a).(ag_conn) = false.
Proof. unfold closeConn. mrun. unfold whenM. destruct (ag_conn a) eqn:E; [done|by mrun]. Qed.

(** A change of the agent that leaves the table alone leaves the pool in order. *)
Lemma with_agent_same c a :
  same_table c.(ap_agent) a →
  started (with_agent a c) = started c ∧ goroutines (with_agent a c) = goroutines c ∧
  (agent_ok c → agent_ok (with_agent a c)).
Proof.
  intros Hs. pose proof Hs as (_ & _ & _ & Ht & Hw & _). unfold started, goroutines, task_ids. simpl. rewrite Ht.
  split_and!; [done|done|]. intros [H1 H2 H3 H4]. split; [|simpl; rewrite Hw, H2; unfold goroutines; simpl; by rewrite Ht|done|done].
  unfold in_flight, ended_tasks, task_ids in *. simpl. rewrite Ht. by eapply table_same.
Qed.

Lemma hang_up_same c :
  started (hang_up c) = started c ∧ goroutines (hang_up c) = goroutines c ∧ (agent_ok c → agent_ok (hang_up c)).
Proof. apply with_agent_same, hang_up_table. Qed.

Lemma run_step_ok x y :
  run_step x y → agent_ok x.2 ∧ phase_ok x.1 x.2 → agent_ok y.2 ∧ phase_ok y.1 y.2.
Proof.
  intros [B m k c|c|c _|c _|c c' Hs|c Hl|c c' Hs|c Hw|c] [H1 H2]; simpl in *.
  - destruct H2 as ([Hm Hk] & Hst & Hl). destruct (with_agent_same c _ (Hm (ap_agent c))) as (E & _ & Hok).
    split_and!; [by apply Hok|apply Hk|by rewrite E|done].
  - by destruct H2 as (_ & ? & _).
  - destruct H2 as (_ & Hst & _), (hang_up_same c) as (E & _ & Hok). split_and!; [by apply Hok|by rewrite E|apply hang_up_table].
  - done.
  - split; [by eapply agent_step_ok|done].
  - done.
  - split; [by eapply tasks_step_ok|]. by destruct Hs.
  - destruct (hang_up_same c) as (_ & E & Hok). pose proof (ao_wg _ H1).
    split_and!; [by apply Hok|rewrite E; lia|apply hang_up_table].
  - destruct (hang_up_same c) as (_ & _ & Hok). split; [by apply Hok|apply hang_up_table].
Qed.

Lemma run_reachable_ok cfg x : run_reachable cfg x → agent_ok x.2 ∧ phase_ok x.1 x.2.
Proof.
  intros [rounds Hr]. remember (Starting (bootstrap_t rounds), new_pool cfg) as x0 eqn:E0.
  assert (agent_ok x0.2 ∧ phase_ok x0.1 x0.2) as H0.
  { subst. split; [apply new_pool_ok|]. split_and!; [apply calm_bootstrap|done|done]. }
  clear E0. induction Hr as [|x1 x2 x3 H12 _ IH]; [done|]. apply IH. by eapply run_step_ok.
Qed.

(** No goroutine starts another. *)
Lemma section_keeps {B} id (m : M Agent B) k a :
  works id (Act m k) →
  (exec m a).(ag_tasks) = a.(ag_tasks) ∧ (exec m a).(ag_cfg) = a.(ag_cfg) ∧ a.(ag_tick) ≤ (exec m a).(ag_tick).
Proof.
  intros [[Hm _]|Hf]; [destruct (Hm a) as (? & _ & _ & ? & _ & ?); by split_and!|].
  destruct (Hf a) as [-> _]. split_and!; [done|done|simpl; lia].
Qed.

Lemma tasks_step_started c c' : agent_ok c → tasks_step c c' → started c' ≡ₚ started c.
Proof.
  intros Hok Hs. revert Hok. destruct Hs as [i n t p ts H a Hi|B m k id p ts1 ts2 H a|rounds n r o e id p ts1 ts2 H a|now id p ts1 ts2 H a];
    intros Hok; unfold started, task_ids; simpl.
  - rewrite fmap_app, <- app_assoc. simpl. f_equiv. rewrite list_fmap_delete.
    rewrite (delete_Permutation (TaskAssignment_TaskId <$> ag_tasks a) i (TaskAssignment_TaskId t)) at 2
      by (by rewrite list_lookup_fmap, Hi).
    by rewrite <- Permutation_middle.
  - pose proof (ao_tasks _ Hok) as Hts. simpl in Hts. apply Forall_app in Hts as [_ [[Hw|[? ?]] _]%Forall_cons]; [|done].
    destruct (section_keeps id m k a Hw) as (-> & _). by rewrite !fmap_app.
  - by rewrite !fmap_app.
  - rewrite !fmap_app, <- !app_assoc. simpl. f_equiv. rewrite (app_assoc ts2.*1), <- Permutation_middle. by rewrite app_assoc.
Qed.

(** ** A drain ends

    What can keep a goroutine from ending is the loop of [bootstrap], in which a
    report waits for a leader.  Suppose that from the [k0]-th call on a seed can
    be dialled and names a leader that can be dialled and accepts the
    registration. *)

Record leader_answers (k0 : nat) : Prop := {
  la_dial k addr : k0 ≤ k → rpc_Dial k addr = None;
  la_status k addr : k0 ≤ k → ∃ resp leader, rpc_GetClusterStatus k addr = inl resp ∧ holder_addr resp = Some leader;
  la_register k addr w : k0 ≤ k → ∃ r, rpc_RegisterWorker k addr w = inl r
}.

Section drain.
Context (cfg : AgentConfig) (k0 : nat) (Hanswers : leader_answers k0) (Hseeds : cfg.(Agent_Schedulers) ≠ []).

(** Started when at least [k] calls have been made, and whatever other goroutines
    do between its sections, [p] returns a value for which [Φ] holds, together
    with the number of calls made. *)
Fixpoint ensures {A} (k : nat) (p : prog Agent A) (Φ : A → nat → Prop) : Prop :=
  match p with
  | Ret x => Φ x k
  | Act m c => ∀ a, a.(ag_cfg) = cfg → k ≤ a.(ag_tick) → ensures (exec m a).(ag_tick) (c (eval m a)) Φ
  end.

Lemma ensures_mono {A} k (p : prog Agent A) (Φ Ψ : A → nat → Prop) :
  (∀ x k', Φ x k' → Ψ x k') → ensures k p Φ → ensures k p Ψ.
Proof.
  intros H. revert k. induction p as [x|B m c IH]; intros k; simpl; [apply H|]. intros Hp a Ha Hk. by apply IH, Hp.
Qed.

Lemma ensures_bind {A B} k (p : prog Agent A) (f : A → prog Agent B) Φ :
  ensures k p (λ x k', ensures k' (f x) Φ) → ensures k (p ≫= f) Φ.
Proof.
  revert k. induction p as [x|C m c IH]; intros k; simpl; [done|]. intros Hp a Ha Hk. by apply IH, Hp.
Qed.

Lemma ensures_any {A} k (p : prog Agent A) : ensures k p (λ _ _, True).
Proof. revert k. induction p as [x|B m c IH]; intros k; simpl; [done|]. intros a _ _. apply IH. Qed.

(** Calls are only ever added. *)
Lemma ensures_calm {A} k (p : prog Agent A) : calm p → ensures k p (λ _ k', k ≤ k').
Proof.
  revert k. induction p as [x|B m c IH]; intros k; simpl; [done|]. intros [Hm Hc] a _ Hk.
  destruct (Hm a) as (_ & _ & _ & _ & _ & Ht). eapply ensures_mono; [|by apply IH]. simpl. lia.
Qed.

Lemma ensures_gets {A} k (f : Agent → A) Φ :
  (∀ a, a.(ag_cfg) = cfg → k ≤ a.(ag_tick) → Φ (f a) a.(ag_tick)) → ensures k (act (gets f)) Φ.
Proof. done. Qed.

Lemma ensures_next k Φ : (∀ n, k ≤ n → Φ n (S n)) → ensures k (act ag_next) Φ.
Proof. intros H a _ Hk. by apply H. Qed.

#[local] Arguments ensures : simpl never.

Lemma discover_ends seeds e k :
  seeds ≠ [] → ensures k (discover_t seeds e) (λ r k', k < k' ∧ (k0 ≤ k → ∃ addr, r = inl addr)).
Proof.
  assert (∀ seeds e k1, k < k1 → k < k0 →
    ensures k1 (discover_t seeds e) (λ r k', k < k' ∧ (k0 ≤ k → ∃ addr, r = inl addr))) as Hlater.
  { intros l e' k1 Hk Hk0. eapply ensures_mono; [|apply ensures_calm, calm_discover]. cbv beta. split; lia. }
  intros Hne. destruct seeds as [|seed seeds]; [done|]. cbn [discover_t]. apply ensures_bind, ensures_next. intros n Hn.
  destruct (rpc_Dial n seed) eqn:Ed.
  { apply Hlater; [lia|]. destruct (decide (k0 ≤ n)); [|lia]. by rewrite (la_dial _ Hanswers) in Ed. }
  apply ensures_bind, ensures_next. intros n' Hn'. destruct (decide (k0 ≤ k)) as [Hk|Hk].
  - destruct (la_status _ Hanswers n' seed ltac:(lia)) as (resp & leader & -> & ->). split; [lia|by eexists].
  - destruct (rpc_GetClusterStatus n' seed) as [resp|]; [|apply Hlater; lia].
    destruct (holder_addr resp); [split; [lia|done]|apply Hlater; lia].
Qed.

Lemma connect_ends k : ensures k connectLeader_t (λ e k', k < k' ∧ (k0 ≤ k → e = None)).
Proof.
  unfold connectLeader_t, discoverLeader_t. do 2 apply ensures_bind. apply ensures_gets. intros a -> Hk.
  eapply ensures_mono; [|by apply discover_ends]. cbv beta. intros [addr|e] k1 [H1 H2].
  - apply ensures_bind, ensures_next. intros n Hn. destruct (rpc_Dial n addr) eqn:Ed.
    + split; [lia|]. intros. rewrite (la_dial _ Hanswers) in Ed by lia. done.
    + intros a' _ Hk'. simpl. split; [lia|done].
  - split; [lia|]. intros. by destruct H2 as [? ?]; [lia|].
Qed.

Lemma register_ends k : ensures k register_t (λ e k', k ≤ k' ∧ (k0 ≤ k → e = None)).
Proof.
  unfold register_t. apply ensures_bind, ensures_gets. intros a1 _ H1. apply ensures_bind, ensures_gets. intros a2 _ H2.
  apply ensures_bind, ensures_gets. intros a3 _ H3. apply ensures_bind, ensures_next. intros n Hn.
  match goal with |- context [rpc_RegisterWorker n ?addr ?w] => destruct (rpc_RegisterWorker n addr w) as [[w' l]|e] eqn:E end.
  - intros a' _ Hk'. simpl. split; [lia|done].
  - split; [lia|]. intros. destruct (la_register _ Hanswers n (client_addr a1)
      (mkWorkerInfo (ag_workerID a2) (Agent_Advertise (ag_cfg a3)) (Agent_Capacity (ag_cfg a3)) (Agent_Labels (ag_cfg a3))
         WORKER_STATE_UNSPECIFIED None 0) ltac:(lia)) as [? Hr]. congruence.
Qed.

(** A round of [bootstrap] that fails is one before the leader answers, and has
    made calls. *)
Lemma bootstrap_ends n k :
  ensures k (bootstrap_t (S n)) (λ ok k', k ≤ k' ∧ (ok = false → k < k' ∧ k < k0)).
Proof.
  cbn [bootstrap_t]. apply ensures_bind. eapply ensures_mono; [|apply connect_ends]. cbv beta.
  assert (∀ k1, k < k1 → k < k0 → ensures k1 (bootstrap_t n) (λ ok k', k ≤ k' ∧ (ok = false → k < k' ∧ k < k0))) as Hlater.
  { intros k1 H1 H2. eapply ensures_mono; [|apply ensures_calm, calm_bootstrap]. cbv beta. intros; split; lia. }
  intros [e|] k1 [H1 H2]; [apply Hlater; [lia|]; destruct (decide (k0 ≤ k)) as [Hk|]; [by specialize (H2 Hk)|lia]|].
  apply ensures_bind. eapply ensures_mono; [|apply register_ends]. cbv beta. intros [e|] k2 [H3 H4].
  - apply Hlater; [lia|]. destruct (decide (k0 ≤ k1)) as [Hk|]; [by specialize (H4 Hk)|lia].
  - split; [lia|done].
Qed.

(** A report uses up attempts before it waits for a leader. *)
Lemma report_stops n rounds id r o e k :
  ensures k (report_loop_t n rounds id r o e) (λ left k', k ≤ k' ∧ ∀ n', left = Some n' → n' < n).
Proof.
  revert k. induction n as [|n IH]; intros k; cbn [report_loop_t]; [split; [lia|done]|].
  apply ensures_bind, ensures_gets. intros a1 _ H1. apply ensures_bind, ensures_gets. intros a2 _ H2.
  apply ensures_bind, ensures_next. intros m Hm. destruct (rpc_ReportTask _ _ _ _ _ _ _) as [|st]; [split; [lia|done]|].
  apply ensures_bind. eapply ensures_mono; [|apply ensures_calm, calm_error]. cbv beta. intros [b|] k1 Hk1.
  - eapply ensures_mono; [|apply IH]. cbv beta. intros left k' [Hk' Hl]. split; [lia|]. intros n' Hn. specialize (Hl n' Hn). lia.
  - split; [lia|]. intros n' [= ->]. lia.
Qed.

Lemma resume_ends rounds id n r o e k :
  ensures k (resume_t rounds id n r o e) (λ t k',
    match t with
    | Finished _ => True
    | Reporting n' _ _ _ => n' < n ∨ n' = n ∧ k < k' ∧ k < k0
    end).
Proof.
  unfold resume_t. apply ensures_bind. eapply ensures_mono; [|apply bootstrap_ends]. cbv beta. intros [|] k1 [H1 H2].
  - apply ensures_bind. eapply ensures_mono; [|apply report_stops]. cbv beta. intros [n'|] k2 [H3 H4]; [left; by apply H4|by intros ? _ _].
  - right. destruct (H2 eq_refl). by split_and!.
Qed.

(** A goroutine by itself, with a lower bound on the calls made. *)
Definition task_moves (x y : nat * prog Agent turn) : Prop :=
  match x.2 with
  | Ret (Finished _) => False
  | Ret (Reporting n r o e) => ∃ k rounds id, x.1 ≤ k ∧ y = (k, resume_t rounds id n r o e)
  | Act m c => ∃ a, a.(ag_cfg) = cfg ∧ x.1 ≤ a.(ag_tick) ∧ y = ((exec m a).(ag_tick), c (eval m a))
  end.

Lemma ensures_acc k (p : prog Agent turn) Φ :
  ensures k p Φ → (∀ t k', Φ t k' → sn task_moves (k', Ret t)) → sn task_moves (k, p).
Proof.
  intros Hp HΦ. revert k Hp. induction p as [t|B m c IH]; intros k Hp; [by apply HΦ|].
  constructor. intros y (a & Ha & Hk & ->). by apply IH, Hp.
Qed.

Lemma reporting_acc n r o e k : sn task_moves (k, Ret (Reporting n r o e)).
Proof.
  revert r o e k. induction n as [n IHn] using lt_wf_ind. intros r o e k.
  remember (k0 - k) as d eqn:Ed. revert r o e k Ed. induction d as [d IHd] using lt_wf_ind. intros r o e k ->.
  constructor. intros y (k' & rounds & id & Hk & ->). simpl in Hk.
  eapply ensures_acc; [apply resume_ends|]. simpl. intros [now|n' r' o' e'] k2.
  - intros _. by constructor.
  - intros [Hn|(-> & H1 & H2)]; [by apply IHn|]. eapply (IHd (k0 - k2)); [lia|done].
Qed.

Lemma task_acc x : sn task_moves x.
Proof.
  destruct x as [k p]. eapply ensures_acc; [apply ensures_any|]. intros [now|n r o e] k' _; [|apply reporting_acc].
  by constructor.
Qed.

(** Several goroutines, of which one moves or ends. *)
Inductive tasks_move : list (nat * prog Agent turn) → list (nat * prog Agent turn) → Prop :=
| one_moves l1 x y l2 : task_moves x y → tasks_move (l1 ++ x :: l2) (l1 ++ y :: l2)
| one_ends l1 x l2 : tasks_move (l1 ++ x :: l2) (l1 ++ l2).

Lemma tasks_acc l : sn tasks_move l.
Proof.
  induction l as [|x l IHl]; [constructor; intros y Hy; unfold flip in Hy; inversion Hy as [[|]|[|]]; simplify_eq|].
  revert l IHl. induction (task_acc x) as [x _ IHx]. intros l Hl. induction Hl as [l Hl IHl].
  constructor. intros y Hy. unfold flip in Hy. inversion Hy as [[|z l1] x' y' l2 Hm E|[|z l1] x' l2 E]; simplify_eq; simpl.
  - apply IHx; [done|by constructor].
  - by apply IHl, one_moves.
  - by constructor.
  - by apply IHl, one_ends.
Qed.

Lemma drain_acc n l c :
  agent_ok c → c.(ap_agent).(ag_cfg) = cfg → length c.(ap_agent).(ag_tasks) = n →
  Forall2 (λ x y, x.2 = y.2 ∧ y.1 ≤ c.(ap_agent).(ag_tick)) c.(ap_tasks) l →
  sn tasks_step c.
Proof.
  revert l c. induction n as [n IHn] using lt_wf_ind. intros l. induction (tasks_acc l) as [l _ IHl]. intros c Hok Hc Hn Hl.
  constructor. intros c' Hs. pose proof (tasks_step_ok _ _ Hs Hok) as Hok'. unfold flip in Hs. revert Hok Hok' Hc Hn Hl.
  destruct Hs as [i rounds t p ts H a Hi|B m k id p ts1 ts2 H a|rounds k r o e id p ts1 ts2 H a|now id p ts1 ts2 H a];
    intros Hok Hok' Hc Hn Hl; simpl in *.
  - eapply (IHn (length (delete i (ag_tasks a))) _ (l ++ [(ag_tick a, run_body_t rounds t)])); [exact Hok'|exact Hc|done|].
    simpl. apply Forall2_app; [exact Hl|]. by repeat constructor.
    Unshelve. rewrite (length_delete _ _ (mk_is_Some _ _ Hi)). pose proof (lookup_lt_Some _ _ _ Hi). lia.
  - apply Forall2_app_inv_l in Hl as (l1 & l2' & Hl1 & (y & l2 & [Hy1 Hy2] & Hl2 & ->)%Forall2_cons_inv_l & ->).
    destruct y as [ky q]. simpl in *. subst q.
    pose proof (ao_tasks _ Hok) as Hts. simpl in Hts. apply Forall_app in Hts as [_ [[Hw|[? ?]] _]%Forall_cons]; [|done].
    destruct (section_keeps id m k a Hw) as (E1 & E2 & E3).
    eapply (IHl (l1 ++ ((exec m a).(ag_tick), k (eval m a)) :: l2)); [apply one_moves; by exists a|exact Hok'|by rewrite <- Hc|by rewrite <- Hn, <- E1|].
    simpl. apply Forall2_app; [|constructor; [done|]]; (eapply Forall2_impl; [eassumption|]); simpl; intros ? ? [? ?]; split; [done|lia|done|lia].
  - apply Forall2_app_inv_l in Hl as (l1 & l2' & Hl1 & (y & l2 & [Hy1 Hy2] & Hl2 & ->)%Forall2_cons_inv_l & ->).
    destruct y as [ky q]. simpl in *. subst q.
    eapply (IHl (l1 ++ (ky, resume_t rounds id k r o e) :: l2)); [apply one_moves; by exists ky, rounds, id|exact Hok'|done|done|].
    simpl. apply Forall2_app; [done|]. by constructor.
  - apply Forall2_app_inv_l in Hl as (l1 & l2' & Hl1 & (y & l2 & [Hy1 Hy2] & Hl2 & ->)%Forall2_cons_inv_l & ->).
    eapply (IHl (l1 ++ l2)); [apply one_ends|exact Hok'|done|done|]. by apply Forall2_app.
Qed.

End drain.

(** Where no goroutine can move, none is left. *)
Lemma tasks_over c : agent_ok c → (∃ c', tasks_step c c') ∨ c.(ap_agent).(ag_wg) = 0%Z.
Proof.
  destruct c as [p [|[id [[now|n r o e]|B m k]] ts] H a]; intros Hok.
  - destruct (ag_tasks a) as [|t tasks] eqn:E; [right; rewrite (ao_wg _ Hok); unfold goroutines; simpl; by rewrite E|].
    left. eexists. apply (task_begins 0 0 t). by rewrite E.
  - left. eexists. apply (task_ends now id p [] ts).
  - left. eexists. apply (task_resumes 0 n r o e id p [] ts).
  - left. eexists. apply (task_section B m k id p [] ts).
Qed.

Lemma run_keeps_cfg x y : run_step x y → agent_ok x.2 ∧ phase_ok x.1 x.2 → y.2.(ap_agent).(ag_cfg) = x.2.(ap_agent).(ag_cfg).
Proof.
  intros Hs Hok. revert Hok. assert (∀ c c', tasks_step c c' → agent_ok c → c'.(ap_agent).(ag_cfg) = c.(ap_agent).(ag_cfg)) as Ht.
  { intros c c' Hc. destruct Hc as [?|B m k id p ts1 ts2 H a|?|?]; intros Hok; [done| |done|done].
    pose proof (ao_tasks _ Hok) as Hts. simpl in Hts. apply Forall_app in Hts as [_ [[Hw|[? ?]] _]%Forall_cons]; [|done].
    by apply (section_keeps id m k a Hw). }
  assert (∀ c, (hang_up c).(ap_agent).(ag_cfg) = c.(ap_agent).(ag_cfg)) as Hh.
  { intros c. apply hang_up_table. }
  destruct Hs as [B m k c|c|c _|c _|c c' Hs|c Hl|c c' Hs|c Hw|c]; intros [H1 H2]; simpl in *; try done; [| |by apply Ht].
  - destruct H2 as ([Hm _] & _). apply Hm.
  - destruct Hs as [?|B m k ts H a|c c' Hs]; [done| |by apply Ht]. simpl. destruct (ao_loop _ H1) as [[Hm|[t Hm]] _]; [apply Hm|].
    rewrite Hm. unfold claim. mrun. by destruct (tryStart_cases (TaskAssignment_TaskId t) a) as [[-> ->]|(-> & -> & _)].
Qed.

Lemma run_cfg cfg x : run_reachable cfg x → x.2.(ap_agent).(ag_cfg) = AgentConfig_withDefaults cfg.
Proof.
  intros [rounds Hr]. remember (Starting (bootstrap_t rounds), new_pool cfg) as x0 eqn:E0.
  assert (agent_ok x0.2 ∧ phase_ok x0.1 x0.2) as H0 by (subst; by apply (run_reachable_ok cfg); exists rounds).
  assert (x0.2.(ap_agent).(ag_cfg) = AgentConfig_withDefaults cfg) as Hc by (by subst). clear E0.
  induction Hr as [|x1 x2 x3 H12 _ IH]; [done|]. apply IH; [by eapply run_step_ok|]. by rewrite <- Hc, <- (run_keeps_cfg _ _ H12 H0).
Qed.

(** ** Properties *)

(** C30. The worker never exceeds its capacity and never runs two goroutines for
    one task, however its main loop and its tasks interleave: the tasks in
    flight are distinct, they are the running set, and they are at most as many
    as the capacity; and the wait group that shutdown waits for counts exactly
    the goroutines that have been started and have not ended, among which those
    that have finished their task and not yet ended. *)
Theorem agent_capacity cfg c :
  agent_conc_reachable cfg c →
  NoDup (in_flight c) ∧ c.(ap_agent).(ag_running) = list_to_set (in_flight c) ∧
  (Z.of_nat (inflight c.(ap_agent)) <= c.(ap_agent).(ag_cfg).(Agent_Capacity))%Z ∧
  c.(ap_agent).(ag_wg) = Z.of_nat (goroutines c) ∧
  goroutines c = inflight c.(ap_agent) + length (finished c.(ap_tasks)).
Proof.
  intros Hr. destruct (agent_conc_ok cfg c Hr) as [[[H1 H2 H3 _] _] Hw _ _].
  split_and!; [done|done|exact H1|done|]. unfold inflight. rewrite H3, size_list_to_set by done.
  unfold in_flight, task_ids, goroutines. rewrite length_app, length_fmap.
  assert (∀ ts, length ts = length (live ts) + length (finished ts)) as ->; [|lia].
  intros ts. induction ts as [|[id [[now|n r o e]|B m k]] ts IH]; simpl; [done|rewrite IH; lia..].
Qed.

(** C25. Duplicate deliveries are suppressed at every point of every schedule: a
    task that is running, or that ended and after whose end no other task ended
    more than the retention time (ten minutes) later, cannot be started again. *)
Theorem no_duplicate_run cfg c id :
  agent_conc_reachable cfg c →
  id ∈ c.(ap_agent).(ag_running) ∨
    (∃ t, (id, t) ∈ ended_tasks c ∧
       ∀ id' t', (id', t') ∈ ended_tasks c → (t' - t <= doneRetention)%Z) →
  eval (tryStart id) c.(ap_agent) = false ∧ exec (tryStart id) c.(ap_agent) = c.(ap_agent).
Proof.
  intros Hc Hid. destruct (ao_table c (agent_conc_ok cfg c Hc)) as [_ Hr].
  destruct (tryStart_cases id (ap_agent c)) as [?|(_ & _ & Hn & Hd & _)]; [done|].
  destruct Hid as [?|(t & Hin & Hlate)]; [done|].
  destruct (Hr id t Hin) as [?|(id' & t' & Hin' & Ht')]; [congruence|]. specialize (Hlate id' t' Hin'). lia.
Qed.

Lemma draining_steps c c' : rtc tasks_step c c' → rtc run_step (Draining, c) (Draining, c').
Proof. induction 1 as [|x y z Hxy _ IH]; [done|]. eapply rtc_l; [by apply run_drains|done]. Qed.

(** C31. A shutdown that ends cleanly has abandoned nothing.  [Run] returns when
    the wait group has reached zero: then every task it ever started has ended,
    the running set is empty and the connection is closed.  When it gives up
    after the timeout, the running set names exactly the goroutines it abandons,
    each once, and the connection is closed.  When it never got through
    [bootstrap], or panicked on an interval, it has started nothing. *)
Theorem drain_abandons_nothing cfg how c :
  run_reachable cfg (Stopped how, c) →
  NoDup (in_flight c) ∧ c.(ap_agent).(ag_running) = list_to_set (in_flight c) ∧
  match how with
  | NotStarted => started c = []
  | Panicked => started c = [] ∧ c.(ap_agent).(ag_conn) = false
  | Clean => c.(ap_agent).(ag_running) = ∅ ∧ started c = c.(ap_ended).*1 ∧ c.(ap_agent).(ag_conn) = false
  | TimedOut => c.(ap_agent).(ag_conn) = false
  end.
Proof.
  intros Hr. destruct (run_reachable_ok cfg _ Hr) as [[[[_ H2 H3 _] _] _ _ _] Hp]. simpl in *.
  split_and!; [done|done|]. destruct how; try done. destruct Hp as [Hg Hn]. unfold goroutines in Hg.
  assert (ap_tasks c = [] ∧ ag_tasks (ap_agent c) = []) as [E1 E2] by (split; apply nil_length_inv; lia).
  unfold started, in_flight, task_ids in *. rewrite H3, E1, E2. split_and!; [done|by rewrite app_nil_r|done].
Qed.


End agent_threads.

(** ** A run: a task is polled for and runs while the loop polls again, and ends *)

Section samples.
#[local] Existing Instance sample_env.
#[local] Existing Instance busy_rpc.
#[local] Existing Instance quiet_os.

Definition booted_agent : Agent := exec (bootstrap 1) (Agent_New busy_cfg).
Definition begun_agent : Agent := set_ag_tasks [] busy_agent.

(** "t1" has begun, the main loop is about to poll. *)
Definition busy_pool : AgentPool := mkAgentPool (poll_t 1) [("t1", run_body_t 1 busy_task)] [] begun_agent.

(** "t1" has finished, the main loop is where it was. *)
Definition done_pool : AgentPool :=
  mkAgentPool (poll_t 1) [("t1", Ret (eval (run_body 1 busy_task) begun_agent))] [] (exec (run_body 1 busy_task) begun_agent).

Lemma polled_steps : rtc agent_conc_step (mkAgentPool (Ret tt) [] [] booted_agent) (mkAgentPool (Ret tt) [] [] busy_agent).
Proof. exact (poll_alone 1 [] [] booted_agent). Qed.

Lemma booted_reachable : agent_conc_reachable busy_cfg (mkAgentPool (Ret tt) [] [] booted_agent).
Proof.
  pose proof (round_alone (_ ← bootstrap_t 1; mret tt) (_ ← bootstrap 1; mret tt) [] [] (Agent_New busy_cfg)) as H.
  revert H. mrun. intros H. apply H; [exists 1; by left|]. apply tracks_bind; [apply tracks_bootstrap|]. intros ?. apply tracks_ret.
Qed.

Lemma busy_reachable : agent_conc_reachable busy_cfg (mkAgentPool (poll_t 1) [] [] busy_agent).
Proof.
  eapply rtc_r; [|apply loop_begins; exists 1; by right; right]. unfold agent_conc_reachable.
  etrans; [exact booted_reachable|exact polled_steps].
Qed.

Lemma busy_task_launched : busy_agent.(ag_tasks) !! 0 = Some busy_task.
Proof. vm_compute. reflexivity. Qed.

Lemma busy_pool_reachable : agent_conc_reachable busy_cfg busy_pool.
Proof.
  eapply rtc_r; [exact busy_reachable|].
  exact (tasks_steps _ _ (task_begins 0 1 busy_task (poll_t 1) [] [] busy_agent busy_task_launched)).
Qed.

Lemma done_pool_reachable : agent_conc_reachable busy_cfg done_pool.
Proof.
  unfold agent_conc_reachable. etrans; [exact busy_reachable|].
  exact (tasks_are_steps _ _ (run_alone 0 1 busy_task (poll_t 1) [] [] busy_agent busy_task_launched)).
Qed.

Lemma agent_capacity_witness :
  in_flight busy_pool = ["t1"] ∧ busy_pool.(ap_agent).(ag_running) = list_to_set (in_flight busy_pool) ∧
  busy_pool.(ap_agent).(ag_wg) = Z.of_nat (goroutines busy_pool).
Proof.
  split; [vm_compute; reflexivity|].
  destruct (agent_capacity busy_cfg busy_pool busy_pool_reachable) as (_ & H1 & _ & H2 & _). split; [exact H1|exact H2].
Defined.

Lemma no_duplicate_run_witness : eval (tryStart "t1") done_pool.(ap_agent) = false.
Proof.
  apply (no_duplicate_run busy_cfg done_pool "t1" done_pool_reachable).
  assert (ended_tasks done_pool = [("t1", 7000000000%Z)]) as -> by (vm_compute; reflexivity).
  right. exists 7000000000%Z. split; [by left|]. intros id t [[= -> ->]|Hn]%elem_of_cons; [|by apply not_elem_of_nil in Hn].
  vm_compute. discriminate.
Defined.

(** The context is canceled while "t1" is in flight. *)
Definition draining_pool : AgentPool := mkAgentPool (Ret tt) [] [] busy_agent.

Lemma boots_alone p c :
  rtc run_step (Starting p, c) (Starting (Ret (eval (run p) c.(ap_agent))), with_agent (exec (run p) c.(ap_agent)) c).
Proof.
  revert c. induction p as [x|B m k IH]; intros c; [by destruct c|]. eapply rtc_l; [apply run_boots|].
  exact (IH (eval m (ap_agent c)) (with_agent (exec m (ap_agent c)) c)).
Qed.

Lemma working_steps c c' : rtc agent_conc_step c c' → rtc run_step (Working, c) (Working, c').
Proof. induction 1 as [|x y z Hxy _ IH]; [done|]. eapply rtc_l; [by apply run_works|done]. Qed.

Lemma draining_reachable : run_reachable busy_cfg (Draining, draining_pool).
Proof.
  exists 1. eapply rtc_r; [|by apply run_canceled].
  etrans; [|exact (working_steps _ _ polled_steps)]. eapply rtc_r; [|apply run_started; vm_compute; reflexivity].
  pose proof (boots_alone (bootstrap_t 1) (new_pool busy_cfg)) as H. unfold eval, exec in H.
  rewrite (tracks_bootstrap 1 (Agent_New busy_cfg)) in H. exact H.
Qed.

Definition drained_pool : AgentPool :=
  mkAgentPool (Ret tt) [] [("t1", 7000000000%Z)] (exec wg_Done (exec (run_body 1 busy_task) begun_agent)).

Lemma drained_reachable : run_reachable busy_cfg (Stopped Clean, hang_up drained_pool).
Proof.
  destruct draining_reachable as [n Hn]. exists n. etrans; [exact Hn|]. eapply rtc_r; [|apply run_drained; vm_compute; reflexivity].
  apply draining_steps. eapply rtc_r; [exact (run_alone 0 1 busy_task (Ret tt) [] [] busy_agent busy_task_launched)|].
  exact (task_ends 7000000000 "t1" (Ret tt) [] [] [] (exec (run_body 1 busy_task) begun_agent)).
Qed.

Lemma drain_abandons_nothing_witness :
  started (hang_up drained_pool) = ["t1"] ∧ (hang_up drained_pool).(ap_agent).(ag_running) = ∅.
Proof.
  split; [vm_compute; reflexivity|].
  destruct (drain_abandons_nothing busy_cfg Clean (hang_up drained_pool) drained_reachable) as (_ & _ & H & _). exact H.
Defined.

Lemma busy_leader : leader_answers 0.
Proof. split; [done| |]; intros; [do 2 eexists; split; [reflexivity|vm_compute; reflexivity]|by eexists]. Qed.


End samples.
