(* ===== verification/Anomalies.v ===== *)
(** * Runs at odds with the documentation

    Concrete executions of the model in which the program does not do what its
    comments and design notes say.  Each starts from a state the node reaches by
    its own operations; the ones about a failing disk swap in a store that
    rejects writes and later swap it back. *)

From S2P Require Import Prelude Types Queue Retry Env Cluster Store MemStore Server Cycle Deps Lifecycle.
From S2P Require Import Dispatch Jobs Workers Replication Leadership Refinement Rebuild System.
From S2P Require Import Convergence Agent GoStrings Flags Ctl Cmd Prog AgentThreads.

(** ** Scenarios *)

(** The disk fills up, and is freed again. *)
Definition disk_full (s : Server MemStore) : Server MemStore :=
  set_sv_store (failing_after 0 s.(sv_store)) s.
Definition disk_freed (s : Server MemStore) : Server MemStore :=
  set_sv_store (mkMemStore s.(sv_store).(mem_view) None s.(sv_store).(mem_keyed)) s.

(** "c" waits for "b", which has not been submitted; "a" has one attempt. *)
Definition forward_reference : list op :=
  [Restart; Submit (Some (sample_job_with (Some one_shot) "a" [])); Submit (Some (sample_job "c" ["b"]));
   Register (Some sample_worker); Poll "w" 1; Report "task-uuuuu" TASK_RESULT_FAILED "exit status 1";
   Submit (Some (sample_job "b" ["a"]))].

(** "b" and "c" both wait for "a", which fails. *)
Definition siblings : list op :=
  [Restart; Submit (Some (sample_job_with (Some one_shot) "a" [])); Submit (Some (sample_job "b" ["a"]));
   Submit (Some (sample_job "c" ["a"])); Register (Some sample_worker); Poll "w" 1;
   Report "task-uuuuuu" TASK_RESULT_FAILED "exit status 1"].

(** A member of a cluster of three wins an election, accepts a job, votes for
    another candidate, and wins again. *)
Definition led_twice : list op :=
  [Restart; Elect [mkVoteResult true 1 true]; Callback 0; Submit (Some (sample_job "a" []));
   Vote 2 "n2"; Elect [mkVoteResult true 3 true]].

Section anomalies.
#[local] Existing Instance sample_env.
#[local] Existing Instance sample_cron.

(** ** Results and leases *)

(** [ReportTask] says that the lease is removed only after the result is
    durable, so that a worker may report again after a store error.  For a
    success the lease goes first: the second report finds none, is acknowledged
    and ignored, and the job stays RUNNING without a lease, which the reaper
    does not look for. *)
Theorem report_after_store_error_is_lost :
  let t := "task-uuuuuu" in
  let s := disk_full (sample_run sample_setup) in
  let s1 := disk_freed (exec (ReportTask t TASK_RESULT_SUCCEEDED "") s) in
  let s2 := exec (ReportTask t TASK_RESULT_SUCCEEDED "") s1 in
  eval (ReportTask t TASK_RESULT_SUCCEEDED "") s = inr (mkStatus Internal "persist success: disk full") ∧
  eval (ReportTask t TASK_RESULT_SUCCEEDED "") s1 = inl true ∧
  (job_at "a" s2).(Job_State) = JOB_STATE_RUNNING ∧ s2.(sv_leases) = ∅ ∧
  (job_at "a" (exec reaper_tick s2)).(Job_State) = JOB_STATE_RUNNING.
Proof. split_and!; vm_compute; reflexivity. Qed.

(** The same happens to a lease the reaper gives up on: [requeueLease] drops it
    before [handleFailure] stores the retry, and only logs the error. *)
Theorem requeue_after_store_error_is_lost :
  let s := disk_freed (exec (requeueLease "task-uuuuuu" "lease deadline exceeded") (disk_full (sample_run sample_setup))) in
  (job_at "a" s).(Job_State) = JOB_STATE_RUNNING ∧ s.(sv_leases) = ∅ ∧
  s.(sv_retryTimers) = ∅ ∧ Queue_Len s.(sv_queue) = 0.
Proof. split_and!; vm_compute; reflexivity. Qed.

(** ** Dependencies *)

(** A job that is CANCELED as it is submitted, because a dependency failed, does
    not take along the jobs that were already waiting for it: they stay PENDING
    on a canceled dependency, until a leadership change re-examines them. *)
Theorem canceled_on_submission_does_not_cascade :
  let s := sample_run forward_reference in
  (job_at "b" s).(Job_State) = JOB_STATE_CANCELED ∧
  (job_at "c" s).(Job_DependsOn) = ["b"] ∧ (job_at "c" s).(Job_State) = JOB_STATE_PENDING ∧
  (job_at "c" (exec (onBecomeLeader 2) s)).(Job_State) = JOB_STATE_CANCELED.
Proof. split_and!; vm_compute; reflexivity. Qed.

(** [cancelCascade] reuses one variable for the reason: a job is said to be
    canceled because of the job handled before it, on which it need not
    depend. *)
Theorem cascade_names_the_wrong_dependency :
  let s := sample_run siblings in
  (job_at "c" s).(Job_DependsOn) = ["a"] ∧
  (job_at "c" s).(Job_LastError) = "upstream dependency b did not succeed".
Proof. split; vm_compute; reflexivity. Qed.

(** A submission under the id of a finished job replaces it and runs it again. *)
Theorem resubmission_overwrites :
  let s := sample_run sample_ops in
  let s' := exec (SubmitJob (Some (sample_job "a" []))) s in
  (job_at "a" s).(Job_State) = JOB_STATE_SUCCEEDED ∧
  eval (SubmitJob (Some (sample_job "a" []))) s = inl "a" ∧
  (job_at "a" s').(Job_State) = JOB_STATE_QUEUED ∧ (job_at "a" s').(Job_Attempt) = 0%Z.
Proof. split_and!; vm_compute; reflexivity. Qed.

(** ** Leadership *)

(** The callbacks of the election run in goroutines of their own, in any order.
    When a node steps down and is elected again, the step-down of the old term
    may clear what the takeover of the new one has rebuilt: the leader's queue
    is empty while the stored job waits to be dispatched. *)
Theorem late_step_down_empties_the_queue :
  let s := run_all led_twice (new_server three_members empty_store 0) in
  let s' := run_all [Callback 1; Callback 0] s in
  s.(sv_node).(Node_spawned) = [OnStepDown 2; OnLeader 3] ∧
  IsLeader s'.(sv_node) = true ∧ s'.(sv_node).(Node_spawned) = [] ∧
  (job_at "a" s').(Job_State) = JOB_STATE_QUEUED ∧
  Queue_Len s'.(sv_queue) = 0 ∧ s'.(sv_retryTimers) = ∅.
Proof. split_and!; vm_compute; reflexivity. Qed.

(** A follower acknowledges the highest sequence number it was sent even if its
    store rejected the entry, so the leader never sends it again. *)
Theorem failed_entries_are_acknowledged :
  let s := disk_full (new_server three_members empty_store 0) in
  let e := mkReplicationEntry 7 (Some (ReplicationEntry_UpsertJob (sample_job "a" []))) in
  eval (Replicate 1 "n2" [e]) s = (true, 1%Z, 7%Z) ∧ jobs_of (exec (Replicate 1 "n2" [e]) s) = ∅.
Proof. split; vm_compute; reflexivity. Qed.

(** A follower applies whatever a current leader sends, old entries included.
    If the leader gives up on a shipment of the accepted job, ships again after
    the cancellation, and the first handler runs last, the follower keeps the
    old version although the leader has nothing left to ship. *)
Theorem overtaken_shipment_regresses :
  let s1 := exec (run_op (Submit (Some (sample_job "a" [])))) sample_leader in
  let s2 := exec (run_op (Cancel "a")) s1 in
  let f' := exec (shipment "n2" s1) (exec (shipment "n2" s2) sample_follower) in
  let s' := round "n2" sample_follower s2 in
  (job_at "a" s').(Job_State) = JOB_STATE_CANCELED ∧ entriesForPeer "n2" s' = [] ∧
  (job_at "a" f').(Job_State) = JOB_STATE_QUEUED.
Proof. split_and!; vm_compute; reflexivity. Qed.

(** The log carries jobs and workers, not dead letters: a follower that has
    everything the leader ships stores the job as FAILED and reports an empty
    dead-letter index, also once it leads. *)
Theorem dead_letters_are_not_replicated :
  let s := run_all (led_ops ++ [Submit (Some (sample_job_with (Some one_shot) "f" [])); Register (Some sample_worker);
    Poll "w" 1; Report "task-uuuuuuuu" TASK_RESULT_FAILED "exit status 1"]) (new_server three_members empty_store 0) in
  let f := exec (shipment "n2" s) sample_follower in
  let f' := run_all [Elect [mkVoteResult true 2 true]; Callback 0] f in
  DeadLetterCount s = 1%Z ∧ (job_at "f" f).(Job_State) = JOB_STATE_FAILED ∧
  IsLeader f'.(sv_node) = true ∧ (job_at "f" f').(Job_State) = JOB_STATE_FAILED ∧ DeadLetterCount f' = 0%Z.
Proof. split_and!; vm_compute; reflexivity. Qed.

(** [onStepDown] says that it drops the replication state; it clears the queue,
    timers, leases and the dependency index only. *)
Theorem step_down_keeps_the_log :
  let s := run_all (take 4 led_twice) (new_server three_members empty_store 0) in
  let s' := run_all [Vote 2 "n2"; Callback 0] s in
  IsLeader s'.(sv_node) = false ∧ s'.(sv_node).(Node_spawned) = [] ∧ length s'.(sv_replLog) = 1.
Proof. split_and!; vm_compute; reflexivity. Qed.

(** ** Submission and the commands *)

(** [placeNewJob] only logs a store error: the submitter gets an id, the job
    exists nowhere. *)
Theorem submission_lost_on_store_error :
  let s := disk_full (sample_run [Restart]) in
  let s' := exec (SubmitJob (Some (sample_job "a" []))) s in
  eval (SubmitJob (Some (sample_job "a" []))) s = inl "a" ∧ jobs_of s' = ∅ ∧ Queue_Len s'.(sv_queue) = 0.
Proof. split_and!; vm_compute; reflexivity. Qed.

(** [schedulerctl submit] reduces its priority flag to 32 bits: a priority above
    the range submits a job with a lowest one. *)
Theorem priority_flag_wraps :
  ∃ o, Parse submit_flags ["--command=run"; "--priority=2147483648"] submit_defaults = Parsed o [] ∧
    (submit_params o).(Params_Priority) = (-2147483648)%Z.
Proof. exists (mkSubmitOpts "" "" "run" [] 2147483648 "" "" 0 0). split; vm_compute; reflexivity. Qed.

(** [worker] accepts a negative interval, for which [time.NewTicker] panics once
    the worker has registered. *)
Theorem negative_interval_panics :
  let '(out, code, _) := worker_main (Grpc := busy_rpc) (Gbuild := {| Version := "dev"; Commit := "none" |})
    ["--schedulers=h1:7070"; "--poll-interval=-1s"] 1 (λ a, a) in
  out = [] ∧ code = 2%Z.
Proof. vm_compute. split; reflexivity. Qed.

End anomalies.

(** The ids of the running tasks that a worker sends are documented to reconcile
    leases after a failover; the leader only counts them. *)
Theorem heartbeat_only_counts_tasks {St} `{!JobStore St} {Genv : Env} (s : Server St) w ids ids' :
  length ids = length ids' → Heartbeat w ids s = Heartbeat w ids' s.
Proof. intros Hl. unfold Heartbeat. by rewrite Hl. Qed.

(** A worker that drains sends no heartbeats, and may drain for longer than the
    leader's default patience: the worker is declared dead, and its tasks are
    given to others, while it is still finishing them. *)
Theorem draining_worker_is_declared_dead cfg w t now :
  cfg.(Config_HeartbeatTimeout) = 0%Z → w.(WorkerInfo_LastHeartbeat) = Some t →
  (t + 15 * Second < now < t + drainTimeout)%Z →
  liveness (Config_withDefaults cfg).(Config_HeartbeatTimeout) now w = WORKER_STATE_DEAD.
Proof.
  intros Hc Hw Hn. unfold liveness, Config_withDefaults. simpl. rewrite Hc, Hw. unfold or_default, AsTime. simpl.
  unfold drainTimeout, Second, Millisecond in Hn. unfold saturate64, max_int64, min_int64, Second, Millisecond.
  match goal with |- context [(?a <? ?b)%Z] => destruct (Z.ltb_spec a b) end; [done|lia].
Qed.

(** A single member that has stepped down never leads again: with no peers to
    ask, the vote-counting loop in which a candidate becomes leader does not
    run. *)
Theorem lone_member_is_never_reelected {St} `{!StateStore St} {Genv : Env} (s : NodeState St) rs :
  peers s.(ns_node) = [] → (exec (startElection rs) s).(ns_node).(Node_role) = Candidate.
Proof.
  intros Hp.
  assert (Node_role (ns_node (exec startElection_begin s)) = Candidate ∧
    (eval startElection_begin s).2 = []) as [Hr He].
  { unfold startElection_begin, persistLocked, resetElectionTimerLocked, modify_node, get_node, tick_node.
    unfold mbind, M_bind, mret, M_ret, gets, eval, exec. simpl.
    destruct (SaveState _ _ _) as [e st]. simpl. by destruct (0 <? _)%Z. }
  unfold startElection. mrun. rewrite He. exact Hr.
Qed.
